(* ===== verification/_CoqProject ===== *)
-Q . S2P
Prelude.v
JsString.v
JsNumber.v
ClaimCsv.v
TxLifecycle.v
ClaimArgs.v
ClaimFiles.v
ClaimMain.v
JsObject.v
SnapshotBalances.v
SnapshotVks.v
ZkvLib.v
Merkle.v
Node.v
ScenarioTx.v
ScenarioUpgrade.v
ScenarioXcm.v
ScenarioProofs.v
TeeData.v
ScenarioAggregate.v
F64.v
Bags.v
Frame.v
Holds.v
Storage.v
Crl.v
Verifiers.v
StatementHash.v
TeeVerifier.v
Fflonk.v
Groth16.v
Plonky2.v
Ultrahonk.v
Risc0.v
ByteVerifiers.v
EncodedLen.v
UltrahonkMigration.v
TeeMigration.v
Payout.v
Proxy.v
RuntimeVerifiers.v
VkHashRpc.v
TokenClaim.v
ClaimCampaign.v
ScenarioClaim.v
AggregateData.v
AggregateMigration.v
Aggregate.v
AggregateInv.v
AggregateCalls.v
AggregateRuntime.v
AggregateProps.v
AggregateRpc.v
ScenarioReceipts.v
AggregateStatements.v
AggregateFees.v
AggregateFrame.v
ZkvRuntime.v
ZkvDeposits.v
ZkvVerifiers.v
ZkvUpgrade.v
