(* ===== verification/Prelude.v ===== *)
(** * zkVerify: a verification library for the scripts and the pallets they drive

    zkVerify is a chain that verifies proofs.  This library models its JavaScript
    (the operations scripts under [scripts/], the test library and the scenarios
    under [zombienet-tests/]) and the Rust code these programs talk to
    ([pallets/], [verifiers/], [rpc/], and of [runtime/zkverify] what is specific to
    this chain), and proves what each part does and that they fit together.  Source paths below
    are relative to [src/].

    ** The parts and how they interact

    - A token claim is set up by [scripts/claim/claim_init.js], which reads a CSV
      file, sends one extrinsic per batch of beneficiaries and, for a multisig,
      leaves files that [scripts/claim/claim_final_approve.js] reads and sends.
      The extrinsics are executed by [pallets/token-claim].
    - Proofs are submitted to one verifier pallet per proof system
      ([pallets/verifiers], generic in the verifier; the nine of [verifiers/] are
      instances, of which [tee] reads the revocation lists of [pallets/crl]).  A verified proof is handed to
      [pallets/aggregate], which collects statements per domain, publishes the
      Merkle root of an aggregation and serves the paths of its statements.
    - The scenarios of [zombienet-tests/js_scripts] drive a running node through
      [zombienet-tests/zkv-lib/index.js] and check what it does.
    - [scripts/snapshot-restore-balance] and [scripts/snapshot-restore-vks] copy
      balances and verification keys between chains.
    - The runtime fixes parameters and weights of the verifiers, splits fees, pays
      the eras and filters the calls of proxies; an upgrade migrates the storage of
      three pallets.  The RPC crates serve hashes of keys and Merkle paths.

    ** Files

    Language and shared vocabulary:
    - [Prelude]: outcomes of JavaScript code ([js]: it returns, throws, exits or
      waits for ever), sums over finite maps, shared lemmas and tactics;
    - [JsString], [JsNumber], [JsObject]: strings and [BigInt], binary64 numbers,
      objects as dictionaries;
    - [Node]: the interface of a node a scenario sees, and the scripts' monad
      [io]; the operations of [zkv-lib] that need a node;
    - [Frame], [Holds]: dispatchables (storage, errors, panics, rollback), the
      classes [Currency] and [Hold] of what pallets use of balances, with the laws
      they rely on and a ledger that satisfies them;
    - [F64]: the operations of Rust's [f64] that the runtime and its tools use;
    - [Storage]: loops over the entries of a storage map that is drained, for given
      keys the iterator comes to, and versioned migrations.

    Scripts:
    - [ClaimCsv] ([parse_amount], [read_airdrop_csv]), [TxLifecycle]
      ([_handleTransactionLifecycle]), [ClaimArgs] ([parse_args] of both scripts),
      [ClaimFiles] (the approval files), [ClaimMain] ([send], [main] of both
      scripts);
    - [SnapshotBalances], [SnapshotVks];
    - [ZkvLib] (the library: handler with retries, events, extrinsic builders),
      [ScenarioTx] (0002, 0003, 0004), [ScenarioProofs] (0006, 0007, 0009, 0014),
      [ScenarioUpgrade] (0008), [ScenarioAggregate] and [Merkle] (0012, with
      [verifyProof]), [ScenarioXcm] (0013), [ScenarioClaim] (0015), [TeeData]
      ([fetchTdxTcbInfo]).

    Pallets:
    - [TokenClaim]; [Crl]; [Verifiers] (the generic pallet), [StatementHash] (what
      a statement determines);
    - the verifiers: [TeeVerifier], [Fflonk], [Groth16] (with
      [primitives/hp-groth16]), [Plonky2], [Ultrahonk], [Risc0], [ByteVerifiers]
      (Modules [Sp1], [Ezkl], [Ultraplonk]); [EncodedLen] (sizes of keys);
    - migrations: [UltrahonkMigration], [TeeMigration], [AggregateMigration];
    - [AggregateData] and [Aggregate] (the code), [AggregateInv] and
      [AggregateCalls] (invariant, each extrinsic), [AggregateRuntime] (the
      runtime's constants), [AggregateProps] (reachable states and properties),
      [AggregateStatements] (where statements come from), [AggregateFees] (what a
      publisher earns), [AggregateFrame] (what the pallet leaves alone).

    Runtime and services:
    - [RuntimeVerifiers] (parameters and weights), [Payout] ([payout.rs]), [Proxy]
      ([proxy.rs]), [Bags] ([bag_thresholds.rs] and [utils/generate-bags]);
    - [VkHashRpc] and [AggregateRpc] ([rpc/]).

    Compositions:
    - [ClaimCampaign]: script and claim pallet, from the CSV rows to storage;
    - [ScenarioClaim]: scenario 0015 on a node that runs the claim pallet;
    - [ScenarioReceipts]: the receipt check of 0012 on a node that runs the
      aggregation pallet;
    - [ZkvRuntime]: the verifier, aggregation and CRL pallets in one runtime, for
      any family of verifiers; [ZkvDeposits]: the deposits for keys in all of them;
      [ZkvVerifiers]: the runtime with its nine verifiers, from a receipt back to
      the proofs;
    - [ZkvUpgrade]: the migrations of the next release on the storage of that
      runtime.

    A function of the source is the definition of the same name.  A script is a
    function of its inputs (command line, files, answers of the node) to an
    outcome and to what it did (extrinsics sent, files written); a scenario is a
    program in [io]; an extrinsic is a function in the monad of [Frame], from the
    pallet's storage (a record with the names of the storage items) to the new
    storage, an error, which rolls back, or a panic.  Reachable states of a pallet
    are those its calls, its hooks and the rest of the runtime lead to.

    ** What the theorems show

    - Claim scripts: amounts are scaled exactly and batches are the rows in order;
      the lifecycle handler returns what the first decisive attempt gave;
      extrinsics go out in order; approval files written for a signatory replay
      the campaign; the whole campaign ends up in the pallet's storage.
    - Claim pallet: recorded claims are always funded, a claim pays the signer
      once, every call that may claim for a recorded beneficiary pays when the
      destination can receive, validated claims execute, nothing panics.
    - Aggregation pallet: reserves are covered by holds, publishing settles the
      reserves of the aggregation up to what locks on a submitter's balance keep, a
      verified proof is stored or refused with an event and its cause, the life of a
      domain, and exactly when the callback panics; with the runtime's parameters
      publishing a complete aggregation earns the estimated fee and the tip, if no
      locks keep the reserves.
    - Merkle paths: a path accepted by [verifyProof] is the tree's, or exhibits a
      collision along the paths; served paths are accepted.
    - Verifier, TEE and CRL pallets: reference counts of keys, submission by key
      and by hash, deposits, replacement of revocation lists, and that the Nitro
      branch cannot be reached.
    - Verifiers: equal statements come from equal inputs or a collision; reading
      Groth16 and fflonk keys unchecked is safe once they were validated; when the
      Plonky2 verifier panics; weights of RISC Zero proofs do not wrap; stored keys
      are within the declared sizes, and which declared sizes are too small; in the
      runtime no submission is charged more than announced.
    - Migrations: domains are converted one by one and TEE deposits are given back.
      An UltraHonk key is migrated with its count and deposit if and only if the
      iterator came to it exactly once; if so for all, the new pallet's invariant
      holds.
    - Inflation and fees: the reward of an era is bounded; fees and tips are split
      in the configured proportions and conserved, whichever credits the balances
      refuse.  Proxies: the order of proxy kinds is inclusion of their filters.
      Bags: thresholds grow strictly up to the maximum, and the table is the
      tool's.  RPC: the hash served for a key is the one it is registered under.
    - Runtime: each pallet is in a state it reaches alone, and the leaves of a
      published receipt are statements of proofs a verifier accepted.  With the nine
      verifiers, a path accepted for a statement goes back to a proof of that proof
      system, key hash, version and public inputs, and for Groth16 to a proof that
      arkworks accepted for that very key and those inputs, unless strings that
      were hashed collide.  The hold of an account for keys is that of its tickets
      in all pallets, so deposits always come back.  The upgrade preserves all of
      this, for UltraHonk keys under the condition above.
    - Snapshots: what is restored is what was saved, less what the block list and the
      cap take away.
    - Scenarios: what a run that returns success has checked, on which nodes runs
      pass, and where a wrong behaviour of the node is reported as success.

    ** Bounds

    - Waits on a subscription ([wait_heads], [wait_teleport]) have fuel; the
      theorems give a sufficient amount.  Searching a free file name and reading
      files back use as fuel the number of files plus one, which is enough since
      each step uses a different existing file.  The height given to the Merkle
      reference tree is the number of leaves, more than the levels there are.
      Retry loops count down as in the code.  The series in [Payout.exp] has fuel; the runtime's parameters never evaluate it,
      so its theorem holds for any fuel.
    - Machine integers are [Z] with the wrap-around, saturation or check of the
      code; numbers of JavaScript are binary64.
    - A hash is its text: 0x and 64 digits for an [H256].  Concatenating bytes is
      concatenating such texts, and lengths keep parts of a preimage apart as the
      32 bytes do.
    - Reachable states of the runtime start from empty storage; [ZkvUpgrade] shows
      that those a migrated storage leads to have the same invariants.

    ** Parameters

    Cryptography (Keccak-256, signatures, address derivation), the encoding of
    calls, parsing of certificates, quotes and CSV text, the fee estimate and the
    libraries of the proof systems are third-party code: arguments of the
    definitions, with hypotheses where a theorem needs a documented fact.  Balances
    are the classes [Currency] and [Hold]: a transfer is refused when the
    destination cannot receive ([can_deposit]), and a polite transfer of held funds
    leaves what the locks on the account need ([frozen]).  The
    fixed-point fractions and the imbalances of the framework are classes with laws
    ([Payout]).  The keys to which the iterator of a drained map comes are a list:
    for loops that leave the map alone, each key once, as the framework documents
    ([Storage.complete]).  The migration of UltraHonk keys inserts into the map it
    drains, for which no result is documented; nothing is assumed of its list but
    that the keys are stored ones.

    ** Not modelled

    Console output, usage texts and prompts; the constants of the [*_data.js]
    files and the literal tables of imports and exports; network descriptions; the
    mathematics of the proof systems; weights other than those of proof submission;
    benchmarks and tests; migrations of third-party pallets, and those of earlier
    releases, whose files [pallets/aggregate/src/migrations.rs] does not declare and
    which are not compiled; the tracks of governance and the genesis presets, which
    are tables for third-party pallets; the ratio between bags, which the tool takes from the platform's
    logarithm, and the file it writes; the node, its RPC server and the remaining
    pallets of the runtime, which are configurations of the Polkadot SDK; the test
    parachain; build and deployment files. *)

From Stdlib Require Import Ascii.
From Stdlib Require Export ZArith Lia ZifyBool.
From stdpp Require Export base list strings gmap numbers option.
From stdpp Require Import pretty.

Create Rewrite HintDb js_str.

(** ** The outcome of a piece of JavaScript *)

(** The exceptions the scripts raise themselves or provoke in the language. *)
Inductive js_error : Type :=
  | TypeError
  | SyntaxError
  | RangeError
  | JsError (msg : string).

(** Running a function ends in one of four ways: it returns, it throws, it calls
    [process.exit], or it waits for a promise that never settles. *)
Inductive js (A : Type) : Type :=
  | Ret (a : A)
  | Throw (e : js_error)
  | Exit (code : Z)
  | Hang.
Arguments Ret {A} a.
Arguments Throw {A} e.
Arguments Exit {A} code.
Arguments Hang {A}.

#[export] Instance js_ret : MRet js := λ A a, Ret a.
#[export] Instance js_bind : MBind js := λ A B f m,
  match m with
  | Ret a => f a
  | Throw e => Throw e
  | Exit c => Exit c
  | Hang => Hang
  end.
#[export] Instance js_fmap : FMap js := λ A B f m,
  match m with
  | Ret a => Ret (f a)
  | Throw e => Throw e
  | Exit c => Exit c
  | Hang => Hang
  end.

#[export] Instance js_error_eq_dec : EqDecision js_error.
Proof. solve_decision. Defined.

Lemma bind_Ret_inv {A B} (m : js A) (f : A → js B) b :
  (m ≫= f) = Ret b → ∃ a, m = Ret a ∧ f a = Ret b.
Proof. destruct m; simpl; naive_solver. Qed.

(** ** Sums over finite maps *)

Section msum.
Context {K V : Type} `{Countable K}.
Implicit Types (f g : V → Z) (m : gmap K V).

Definition msum f m : Z := map_fold (λ _ v acc, (f v + acc)%Z) 0%Z m.

Lemma msum_empty f : msum f ∅ = 0%Z.
Proof. apply map_fold_empty. Qed.

Lemma msum_insert f m k v : m !! k = None → msum f (<[k := v]> m) = (f v + msum f m)%Z.
Proof. intros Hk. unfold msum. rewrite map_fold_insert_L; [done|intros; lia|done]. Qed.

Lemma msum_delete f m k v : m !! k = Some v → msum f m = (f v + msum f (delete k m))%Z.
Proof. intros Hk. unfold msum. rewrite (map_fold_delete_L _ _ k v); [done|intros; lia|done]. Qed.

Lemma msum_update f m k v w :
  m !! k = Some v → msum f (<[k := w]> m) = (msum f m - f v + f w)%Z.
Proof.
  intros Hk. rewrite <- insert_delete_eq, msum_insert by apply lookup_delete_eq.
  rewrite (msum_delete f m k v Hk). lia.
Qed.

Lemma msum_nonneg f m : map_Forall (λ _ v, 0 ≤ f v)%Z m → (0 ≤ msum f m)%Z.
Proof.
  induction m as [|k v m Hk IH] using map_ind; [by rewrite msum_empty|].
  rewrite map_Forall_insert by done. intros [Hv Hm]. rewrite msum_insert by done.
  specialize (IH Hm). lia.
Qed.

Lemma msum_le f m k v : m !! k = Some v → map_Forall (λ _ v, 0 ≤ f v)%Z m → (f v ≤ msum f m)%Z.
Proof.
  intros Hk Hm. rewrite (msum_delete f m k v Hk).
  pose proof (msum_nonneg f (delete k m) (map_Forall_delete _ _ _ Hm)). lia.
Qed.
End msum.

Lemma fst_pair_fmap {A B} (x : B) (l : list A) : ((λ a, (a, x)) <$> l).*1 = l.
Proof. induction l as [|a l IH]; [done|]. rewrite !fmap_cons. by rewrite IH. Qed.

Lemma size_difference_step {K} `{Countable K} (X Y : gset K) (k : K) :
  k ∈ X → k ∉ Y → size (X ∖ Y) = S (size (X ∖ ({[k]} ∪ Y))).
Proof.
  intros HX HY.
  assert (E : X ∖ Y = {[k]} ∪ X ∖ ({[k]} ∪ Y)).
  { apply set_eq. intros x. destruct (decide (x = k)); set_solver. }
  rewrite E at 1. rewrite size_union by set_solver. by rewrite size_singleton.
Qed.

(** Update of a family of values, one for each index. *)
Section dinsert.
Context {K : Type} `{!EqDecision K} {F : K → Type}.

Definition dinsert (k : K) (x : F k) (f : ∀ k, F k) (j : K) : F j :=
  match decide (k = j) with left E => eq_rect k F x j E | right _ => f j end.

Lemma dinsert_eq k x f : dinsert k x f k = x.
Proof. unfold dinsert. destruct (decide (k = k)) as [E|]; [|done]. by rewrite (proof_irrel E eq_refl). Qed.

Lemma dinsert_ne k x f j : k ≠ j → dinsert k x f j = f j.
Proof. intros H. unfold dinsert. by destruct (decide (k = j)). Qed.
End dinsert.
