(* ===== verification/JsString.v ===== *)
(** * JavaScript strings and BigInt literals

    The parts of ECMAScript's [String.prototype] and of the [BigInt]
    constructor the scripts rely on, as executable functions, with the lemmas
    on decimal digit strings that the amount parser needs.  Characters are
    8-bit code units. *)

From Stdlib Require Import Ascii.
From S2P Require Export Prelude.

Open Scope Z_scope.

(** [s.length] *)
Definition js_length (s : string) : Z := Z.of_nat (String.length s).

Fixpoint index_from (c : ascii) (s : string) (i : Z) : Z :=
  match s with
  | EmptyString => -1
  | String c' s' => if decide (c' = c) then i else index_from c s' (i + 1)
  end.

(** [s.indexOf(c)] for a one-character argument. *)
Definition indexOf (s : string) (c : ascii) : Z := index_from c s 0.

(** [s.replace(c, '')] for a one-character pattern: the first occurrence goes. *)
Fixpoint remove_first (c : ascii) (s : string) : string :=
  match s with
  | EmptyString => EmptyString
  | String c' s' => if decide (c' = c) then s' else String c' (remove_first c s')
  end.

(** [s.replace(/^0+/, '')] *)
Fixpoint strip_zeros (s : string) : string :=
  match s with
  | String c s' => if decide (c = "0"%char) then strip_zeros s' else s
  | EmptyString => EmptyString
  end.

(** [s.endsWith(suffix)] *)
Definition endsWith (s suffix : string) : bool :=
  bool_decide (String.substring (String.length s - String.length suffix)
                 (String.length suffix) s = suffix)
  && (String.length suffix <=? String.length s)%nat.

(** ASCII part of [s.toLowerCase()]. *)
Definition lower_ascii (c : ascii) : ascii :=
  let n := N_of_ascii c in
  if ((65 <=? n) && (n <=? 90))%N then ascii_of_N (n + 32) else c.

Fixpoint toLowerCase (s : string) : string :=
  match s with
  | EmptyString => EmptyString
  | String c s' => String (lower_ascii c) (toLowerCase s')
  end.

(** White space and line terminators among the 8-bit code units. *)
Definition is_ws (c : ascii) : bool :=
  let n := N_of_ascii c in
  ((9 <=? n) && (n <=? 13) || (n =? 32) || (n =? 160))%N.

Fixpoint trim_start (s : string) : string :=
  match s with
  | String c s' => if is_ws c then trim_start s' else s
  | EmptyString => EmptyString
  end.

Fixpoint trim_end (s : string) : string :=
  match s with
  | EmptyString => EmptyString
  | String c s' =>
      match trim_end s' with
      | EmptyString => if is_ws c then EmptyString else String c EmptyString
      | t => String c t
      end
  end.

(** [s.trim()] *)
Definition trim (s : string) : string := trim_end (trim_start s).

(** Value of a digit in bases up to 36. *)
Definition digit_val (c : ascii) : option Z :=
  let n := Z.of_N (N_of_ascii c) in
  if (48 <=? n) && (n <=? 57) then Some (n - 48)
  else if (97 <=? n) && (n <=? 122) then Some (n - 87)
  else if (65 <=? n) && (n <=? 90) then Some (n - 55)
  else None.

Definition digit (base : Z) (c : ascii) : option Z :=
  d ← digit_val c; if d <? base then Some d else None.

Fixpoint parse_digits (base acc : Z) (s : string) : option Z :=
  match s with
  | EmptyString => Some acc
  | String c s' => d ← digit base c; parse_digits base (acc * base + d) s'
  end.

Definition parse_nonempty (base : Z) (s : string) : option Z :=
  match s with
  | EmptyString => None
  | _ => parse_digits base 0 s
  end.

(** ECMAScript's StringToBigInt. *)
Definition StringToBigInt (s : string) : option Z :=
  match trim s with
  | EmptyString => Some 0
  | String "+" r => parse_nonempty 10 r
  | String "-" r => Z.opp <$> parse_nonempty 10 r
  | String "0" (String "x" r) | String "0" (String "X" r) => parse_nonempty 16 r
  | String "0" (String "o" r) | String "0" (String "O" r) => parse_nonempty 8 r
  | String "0" (String "b" r) | String "0" (String "B" r) => parse_nonempty 2 r
  | t => parse_nonempty 10 t
  end%char.

(** [BigInt(s)] for a string argument. *)
Definition BigInt (s : string) : js Z :=
  match StringToBigInt s with
  | Some z => Ret z
  | None => Throw SyntaxError
  end.

(** The decimal digit strings, the language the amounts are written in. *)
Definition all_digits (s : string) : Prop := is_Some (parse_digits 10 0 s).

(** Number denoted by a digit string ([0] elsewhere). *)
Definition dval (s : string) : Z := default 0 (parse_digits 10 0 s).

(** ** Lemmas *)

Lemma append_nil (t : string) : "" +:+ t = t.
Proof. reflexivity. Qed.

Lemma append_cons c (s t : string) : String c s +:+ t = String c (s +:+ t).
Proof. reflexivity. Qed.

#[export] Hint Rewrite append_nil append_cons : js_str.
Ltac str_simpl := repeat first [progress autorewrite with js_str in * | progress simpl in *].

Lemma length_append (s t : string) :
  String.length (s +:+ t) = (String.length s + String.length t)%nat.
Proof. induction s; str_simpl; auto. Qed.

Lemma append_assoc (s t u : string) : (s +:+ t) +:+ u = s +:+ (t +:+ u).
Proof. induction s; str_simpl; congruence. Qed.

Lemma append_empty_r (s : string) : s +:+ "" = s.
Proof. induction s; str_simpl; congruence. Qed.

#[export] Hint Rewrite append_assoc append_empty_r : js_str.

Lemma parse_digits_app base acc s t :
  parse_digits base acc (s +:+ t) = parse_digits base acc s ≫= λ v, parse_digits base v t.
Proof.
  revert acc; induction s as [|c s IH]; intros acc; str_simpl; [done|].
  destruct (digit base c); simpl; auto.
Qed.

Lemma parse_digits_acc base acc s :
  parse_digits base acc s =
  (λ v, acc * base ^ Z.of_nat (String.length s) + v) <$> parse_digits base 0 s.
Proof.
  revert acc; induction s as [|c s IH]; intros acc.
  { simpl. f_equal. lia. }
  cbn [parse_digits String.length]. destruct (digit base c) as [d|]; simpl; [|done].
  rewrite IH, (IH (0 * base + d)). destruct (parse_digits base 0 s); simpl; [|done].
  f_equal. rewrite Nat2Z.inj_succ, Z.pow_succ_r by lia. ring.
Qed.

Lemma digit_bound base c d : digit base c = Some d → 0 ≤ d < base.
Proof.
  unfold digit. destruct (digit_val c) as [v|] eqn:E; simpl; [|done].
  assert (0 ≤ v).
  { unfold digit_val in E. repeat case_match; simplify_eq; lia. }
  destruct (Z.ltb_spec v base); intros; simplify_eq; lia.
Qed.

Lemma digit_0 : digit 10 "0" = Some 0.
Proof. reflexivity. Qed.

Lemma strip_zeros_parse s : parse_digits 10 0 (strip_zeros s) = parse_digits 10 0 s.
Proof.
  induction s as [|c s IH]; simpl; [done|].
  destruct (decide (c = "0"%char)) as [->|]; simpl; [|done].
  by rewrite IH.
Qed.

Lemma all_digits_app s t : all_digits s → all_digits t → all_digits (s +:+ t).
Proof.
  intros [v Hs] [w Ht]. unfold all_digits. rewrite parse_digits_app, Hs. simpl.
  rewrite parse_digits_acc, Ht. eauto.
Qed.

Lemma dval_app s t : all_digits s → all_digits t →
  dval (s +:+ t) = dval s * 10 ^ js_length t + dval t.
Proof.
  intros [v Hs] [w Ht]. unfold dval. rewrite parse_digits_app, Hs. simpl.
  rewrite parse_digits_acc, Ht. done.
Qed.

Lemma digit_not_special c d :
  digit 10 c = Some d →
  c ≠ "."%char ∧ c ≠ "+"%char ∧ c ≠ "-"%char ∧ is_ws c = false ∧
  c ≠ "x"%char ∧ c ≠ "X"%char ∧ c ≠ "o"%char ∧ c ≠ "O"%char ∧ c ≠ "b"%char ∧ c ≠ "B"%char.
Proof.
  destruct c as [[] [] [] [] [] [] [] []]; cbv; intros H; try discriminate H;
    repeat split; congruence.
Qed.

Lemma all_digits_cons c s :
  all_digits (String c s) → is_Some (digit 10 c) ∧ all_digits s.
Proof.
  unfold all_digits; cbn [parse_digits].
  destruct (digit 10 c) as [d|]; simpl; [|by intros []].
  rewrite parse_digits_acc. destruct (parse_digits 10 0 s); naive_solver.
Qed.

Lemma trim_end_nonws s : all_digits s → trim_end s = s.
Proof.
  induction s as [|c s IH]; intros H; [done|].
  apply all_digits_cons in H as [[d Hd] Hs]. cbn [trim_end].
  rewrite IH by done. apply digit_not_special in Hd as (_ & _ & _ & Hw & _).
  destruct s; [by rewrite Hw|done].
Qed.

Lemma trim_digits s : all_digits s → trim s = s.
Proof.
  intros H. unfold trim. replace (trim_start s) with s; [by apply trim_end_nonws|].
  destruct s as [|c s]; [done|]. apply all_digits_cons in H as [[d Hd] _].
  apply digit_not_special in Hd as (_ & _ & _ & Hw & _). cbn [trim_start]. by rewrite Hw.
Qed.

Lemma StringToBigInt_digits s :
  all_digits s → s ≠ "" → StringToBigInt s = parse_nonempty 10 s.
Proof.
  intros H Hne. unfold StringToBigInt. rewrite trim_digits by done.
  destruct s as [|c s]; [done|].
  apply all_digits_cons in H as [[d Hd] Hs].
  apply digit_not_special in Hd as (_ & Hp & Hm & _).
  destruct s as [|c' s].
  - destruct c as [[] [] [] [] [] [] [] []]; (reflexivity || by destruct Hp || by destruct Hm).
  - apply all_digits_cons in Hs as [[d' Hd'] _].
    apply digit_not_special in Hd' as (_ & _ & _ & _ & Hs').
    destruct c as [[] [] [] [] [] [] [] []];
      first [reflexivity | by destruct Hp | by destruct Hm | idtac].
    destruct c' as [[] [] [] [] [] [] [] []]; (reflexivity || (destruct_and?; congruence)).
Qed.

(** A digit string denotes the same number for [BigInt] and for [dval]. *)
Lemma BigInt_digits s : all_digits s → BigInt s = Ret (dval s).
Proof.
  intros H. unfold BigInt, dval.
  destruct (decide (s = "")) as [->|Hne]; [done|].
  rewrite StringToBigInt_digits by done. destruct H as [v Hv].
  destruct s; [done|]. cbn [parse_nonempty]. by rewrite Hv.
Qed.

Lemma dval_nonneg s : 0 ≤ dval s.
Proof.
  unfold dval. assert (H : ∀ acc v, 0 ≤ acc → parse_digits 10 acc s = Some v → 0 ≤ v).
  { induction s as [|c s IH]; simpl; intros acc v Ha Hv; [by simplify_eq|].
    destruct (digit 10 c) as [d|] eqn:Hd; simpl in Hv; [|done].
    apply digit_bound in Hd. eapply IH, Hv. lia. }
  destruct (parse_digits 10 0 s) eqn:E; simpl; [|lia]. eapply (H 0); eauto. lia.
Qed.

(** Splitting a concatenation at a known length. *)
Lemma append_split_l (a b c d : string) :
  String.length a = String.length c → a +:+ b = c +:+ d → a = c ∧ b = d.
Proof.
  revert c. induction a as [|x a IH]; intros [|y c]; simpl; try done.
  intros [= Hl]. rewrite !append_cons. intros [= -> H]. destruct (IH c Hl H) as [-> ->]. done.
Qed.

Lemma append_split_r (a b c d : string) :
  String.length b = String.length d → a +:+ b = c +:+ d → a = c ∧ b = d.
Proof.
  intros Hl H. apply append_split_l; [|done].
  apply (f_equal String.length) in H. rewrite !length_append in H. lia.
Qed.
