(* ===== verification/JsNumber.v ===== *)
(** * JavaScript numbers

    IEEE 754 binary64 as the scripts use it: conversion from strings, exact
    integers, comparison, remainder, sum and quotient, all correctly rounded
    (nearest, ties to even).  [-0] and [+0] are identified: no operation the
    scripts use tells them apart.  The lemmas say when a comparison of a numeric
    string agrees with the comparison of the integers it denotes. *)

From Stdlib Require Import Ascii.
From S2P Require Import Prelude JsString.

Open Scope Z_scope.

(** [Fin m e] is the number [m * 2 ^ e]. *)
Inductive number : Type :=
  | NaN
  | Infinity (negative : bool)
  | Fin (m e : Z).

Definition num_opp (x : number) : number :=
  match x with
  | NaN => NaN
  | Infinity s => Infinity (negb s)
  | Fin m e => Fin (- m) e
  end.

Definition scaled_num (p e : Z) : Z := p * 2 ^ Z.max 0 (- e).
Definition scaled_den (q e : Z) : Z := q * 2 ^ Z.max 0 e.

(** Exponent of the unit in the last place of the double nearest to [p / q]. *)
Definition ulp_exp (p q : Z) : Z :=
  let e0 := Z.max (Z.log2 p - Z.log2 q - 53) (-1074) in
  if scaled_num p e0 / scaled_den q e0 <? 2 ^ 53 then e0 else e0 + 1.

(** Quotient of two positive integers rounded to the nearest integer, ties to
    even. *)
Definition div_even (a b : Z) : Z :=
  let n := a / b in
  let r := a mod b in
  if (b <? 2 * r) || ((2 * r =? b) && Z.odd n) then n + 1 else n.

(** The double nearest to [p / q], for positive [p] and [q]. *)
Definition round_pos (p q : Z) : number :=
  let e := ulp_exp p q in
  let n := div_even (scaled_num p e) (scaled_den q e) in
  if 2 ^ 1024 <=? n * 2 ^ Z.max 0 e then Infinity false else Fin n e.

Definition of_ratio (p q : Z) : number :=
  if p =? 0 then Fin 0 0
  else if 0 <? p then round_pos p q
  else num_opp (round_pos (- p) q).

(** The Number value of a mathematical integer. *)
Definition of_Z (z : Z) : number := of_ratio z 1.

Definition fin_compare (m1 e1 m2 e2 : Z) : comparison :=
  let e := Z.min e1 e2 in
  (m1 * 2 ^ (e1 - e) ?= m2 * 2 ^ (e2 - e)).

(** [None] when an operand is [NaN]: every relational operator is then false. *)
Definition num_compare (x y : number) : option comparison :=
  match x, y with
  | NaN, _ | _, NaN => None
  | Infinity a, Infinity b =>
      Some (match a, b with true, false => Lt | false, true => Gt | _, _ => Eq end)
  | Infinity true, _ | _, Infinity false => Some Lt
  | Infinity false, _ | _, Infinity true => Some Gt
  | Fin m1 e1, Fin m2 e2 => Some (fin_compare m1 e1 m2 e2)
  end.

Definition num_ltb (x y : number) : bool :=
  match num_compare x y with Some Lt => true | _ => false end.
Definition num_leb (x y : number) : bool :=
  match num_compare x y with Some (Lt | Eq) => true | _ => false end.
Definition num_eqb (x y : number) : bool :=
  match num_compare x y with Some Eq => true | _ => false end.

(** [x % y]; the remainder of two doubles is always representable. *)
Definition num_rem (x y : number) : number :=
  match x, y with
  | Fin m1 e1, Fin m2 e2 =>
      if m2 =? 0 then NaN
      else let e := Z.min e1 e2 in
           Fin (Z.rem (m1 * 2 ^ (e1 - e)) (m2 * 2 ^ (e2 - e))) e
  | Fin m e, Infinity _ => Fin m e
  | _, _ => NaN
  end.

(** [x + y] *)
Definition num_add (x y : number) : number :=
  match x, y with
  | Fin m1 e1, Fin m2 e2 =>
      let e := Z.min e1 e2 in
      let s := m1 * 2 ^ (e1 - e) + m2 * 2 ^ (e2 - e) in
      of_ratio (s * 2 ^ Z.max 0 e) (2 ^ Z.max 0 (- e))
  | Infinity a, Infinity b => if Bool.eqb a b then Infinity a else NaN
  | Infinity a, Fin _ _ | Fin _ _, Infinity a => Infinity a
  | _, _ => NaN
  end.

(** [x / y] for a finite, positive divisor. *)
Definition num_div (x y : number) : number :=
  match x, y with
  | Fin m1 e1, Fin m2 e2 =>
      let e := Z.min e1 e2 in
      of_ratio (m1 * 2 ^ (e1 - e)) (m2 * 2 ^ (e2 - e))
  | Infinity a, Fin _ _ => Infinity a
  | Fin _ _, Infinity _ => Fin 0 0
  | _, _ => NaN
  end.

(** ** StringToNumber *)

Fixpoint span_digits (s : string) : string * string :=
  match s with
  | EmptyString => (EmptyString, EmptyString)
  | String c s' =>
      match digit 10 c with
      | Some _ => let '(d, r) := span_digits s' in (String c d, r)
      | None => (EmptyString, s)
      end
  end.

(** [m * 10 ^ x] *)
Definition of_decimal (m x : Z) : number :=
  if 0 <=? x then of_ratio (m * 10 ^ x) 1 else of_ratio m (10 ^ (- x)).

Definition parse_exponent (s : string) : option Z :=
  match s with
  | EmptyString => Some 0
  | String c r =>
      if bool_decide (c = "e"%char) || bool_decide (c = "E"%char) then
        match r with
        | String "+" r' => parse_nonempty 10 r'
        | String "-" r' => Z.opp <$> parse_nonempty 10 r'
        | _ => parse_nonempty 10 r
        end%char
      else None
  end.

Definition parse_decimal (s : string) : option number :=
  if bool_decide (s = "Infinity") then Some (Infinity false)
  else
    let '(ip, r) := span_digits s in
    let '(fp, r') := match r with
                     | String c r1 => if decide (c = "."%char) then span_digits r1 else ("", r)
                     | EmptyString => ("", r)
                     end in
    if bool_decide (ip +:+ fp = "") then None
    else x ← parse_exponent r'; Some (of_decimal (dval (ip +:+ fp)) (x - js_length fp)).

(** StringNumericLiteral, after trimming; [None] is a syntax error. *)
Definition parse_numeric (t : string) : option number :=
  match t with
  | EmptyString => Some (Fin 0 0)
  | String "+" r => parse_decimal r
  | String "-" r => num_opp <$> parse_decimal r
  | String "0" (String "x" r) | String "0" (String "X" r) => of_Z <$> parse_nonempty 16 r
  | String "0" (String "o" r) | String "0" (String "O" r) => of_Z <$> parse_nonempty 8 r
  | String "0" (String "b" r) | String "0" (String "B" r) => of_Z <$> parse_nonempty 2 r
  | _ => parse_decimal t
  end%char.

(** [Number(s)], the coercion every arithmetic comparison with a string uses. *)
Definition ToNumber (s : string) : number := default NaN (parse_numeric (trim s)).

(** A command-line value: absent, a string, or a number set by default. *)
Inductive jsval : Type :=
  | VUndef
  | VStr (s : string)
  | VNum (x : number).

Definition to_num (v : jsval) : number :=
  match v with
  | VUndef => NaN
  | VStr s => ToNumber s
  | VNum x => x
  end.

(** ** Lemmas *)

(** [x] is the integer [z]. *)
Definition is_int (x : number) (z : Z) : Prop :=
  ∃ m e, x = Fin m e ∧ m * 2 ^ Z.max 0 e = z * 2 ^ Z.max 0 (- e).

Lemma is_int_rescale m e' z e :
  e ≤ e' → m * 2 ^ Z.max 0 e' = z * 2 ^ Z.max 0 (- e') →
  m * 2 ^ (e' - e) * 2 ^ Z.max 0 e = z * 2 ^ Z.max 0 (- e).
Proof.
  intros He Hm.
  assert (Hp : 2 ^ (e' - e) * 2 ^ Z.max 0 e * 2 ^ Z.max 0 (- e') =
               2 ^ Z.max 0 e' * 2 ^ Z.max 0 (- e)).
  { rewrite <- !Z.pow_add_r by lia. f_equal. lia. }
  apply (Z.mul_reg_r _ _ (2 ^ Z.max 0 (- e'))); [lia|].
  rewrite <- !Z.mul_assoc. rewrite (Z.mul_assoc (2 ^ (e' - e))), Hp, Z.mul_assoc, Hm. ring.
Qed.

Lemma fin_compare_int m1 e1 m2 e2 a b :
  m1 * 2 ^ Z.max 0 e1 = a * 2 ^ Z.max 0 (- e1) →
  m2 * 2 ^ Z.max 0 e2 = b * 2 ^ Z.max 0 (- e2) →
  fin_compare m1 e1 m2 e2 = (a ?= b).
Proof.
  intros H1 H2. unfold fin_compare. set (e := Z.min e1 e2).
  apply (is_int_rescale _ _ _ e) in H1; [|lia]. apply (is_int_rescale _ _ _ e) in H2; [|lia].
  pose proof (Z.pow_pos_nonneg 2 (Z.max 0 e)). pose proof (Z.pow_pos_nonneg 2 (Z.max 0 (- e))).
  rewrite (Zmult_compare_compat_r _ _ (2 ^ Z.max 0 e)), H1, H2 by lia.
  symmetry. apply Zmult_compare_compat_r. lia.
Qed.

(** [x % y == 0] on integers is divisibility. *)
Lemma num_rem_int x y a b :
  is_int x a → is_int y b → 0 < b →
  num_eqb (num_rem x y) (Fin 0 0) = (a mod b =? 0).
Proof.
  intros (m1 & e1 & -> & H1) (m2 & e2 & -> & H2) Hb. simpl.
  pose proof (Z.pow_pos_nonneg 2 (Z.max 0 (- e2))).
  destruct (Z.eqb_spec m2 0) as [->|Hm2].
  { exfalso. rewrite Z.mul_0_l in H2. symmetry in H2. apply Z.mul_eq_0 in H2. lia. }
  set (e := Z.min e1 e2).
  apply (is_int_rescale _ _ _ e) in H1; [|lia]. apply (is_int_rescale _ _ _ e) in H2; [|lia].
  pose proof (Z.pow_pos_nonneg 2 (e2 - e) ltac:(lia) ltac:(lia)).
  set (A := m1 * 2 ^ (e1 - e)) in *. set (B := m2 * 2 ^ (e2 - e)) in *.
  assert (HB0 : B ≠ 0) by (subst B; apply Z.neq_mul_0; lia). clearbody A B.
  pose proof (Z.pow_pos_nonneg 2 (Z.max 0 e)) as HK.
  pose proof (Z.pow_pos_nonneg 2 (Z.max 0 (- e))) as HL.
  set (K := 2 ^ Z.max 0 e) in *. set (L := 2 ^ Z.max 0 (- e)) in *.
  assert (HB : Z.rem A B = 0 ↔ a mod b = 0).
  { clear - H1 H2 HB0 HK HL Hb. rewrite Z.rem_divide by done. rewrite Z.mod_divide by lia.
    assert (HL' : L ≠ 0) by lia. assert (HK' : K ≠ 0) by lia.
    split; intros [k Hk]; exists k.
    - apply (Z.mul_reg_r _ _ L); [done|]. rewrite <- H1, Hk.
      transitivity (k * (B * K)); [ring|]. rewrite H2. ring.
    - apply (Z.mul_reg_r _ _ K); [done|]. rewrite H1, Hk.
      transitivity (k * (b * L)); [ring|]. rewrite <- H2. ring. }
  unfold num_eqb, num_compare, fin_compare. rewrite Z.mul_0_l.
  set (R := Z.rem A B) in *. clearbody R e. clear - HB.
  pose proof (Z.pow_pos_nonneg 2 (e - Z.min e 0) ltac:(lia) ltac:(lia)) as Hpos.
  destruct (Z.eqb_spec (a mod b) 0) as [E|E].
  - apply HB in E. rewrite E. reflexivity.
  - destruct (Z.compare_spec (R * 2 ^ (e - Z.min e 0)) 0) as [Hz| |]; [|done..].
    apply Z.mul_eq_0 in Hz as [Hz|Hz]; [by apply HB in Hz|]. by rewrite Hz in Hpos.
Qed.

Lemma num_compare_int x y a b :
  is_int x a → is_int y b → num_compare x y = Some (a ?= b).
Proof.
  intros (m1 & e1 & -> & H1) (m2 & e2 & -> & H2). simpl. f_equal. by apply fin_compare_int.
Qed.

Lemma num_ltb_int x y a b : is_int x a → is_int y b → num_ltb x y = (a <? b).
Proof.
  intros Hx Hy. unfold num_ltb. rewrite (num_compare_int _ _ _ _ Hx Hy).
  unfold Z.ltb. by destruct (a ?= b).
Qed.

Lemma num_leb_int x y a b : is_int x a → is_int y b → num_leb x y = (a <=? b).
Proof.
  intros Hx Hy. unfold num_leb. rewrite (num_compare_int _ _ _ _ Hx Hy).
  unfold Z.leb. by destruct (a ?= b).
Qed.

Lemma num_eqb_int x y a b : is_int x a → is_int y b → num_eqb x y = (a =? b).
Proof.
  intros Hx Hy. unfold num_eqb. rewrite (num_compare_int _ _ _ _ Hx Hy).
  rewrite Z.eqb_compare. by destruct (a ?= b).
Qed.

Lemma is_int_0 : is_int (Fin 0 0) 0.
Proof. by exists 0, 0. Qed.

Lemma div_even_1 a : div_even a 1 = a.
Proof.
  unfold div_even. rewrite Z.mod_1_r, Z.div_1_r. reflexivity.
Qed.

Lemma div_even_lower a b : 0 < b → a / b ≤ div_even a b.
Proof. intros. unfold div_even. case_match; lia. Qed.

(** For a large enough integer the unit in the last place follows its
    logarithm. *)
Lemma ulp_exp_int z : 0 < z → ulp_exp z 1 = Z.log2 z - 52.
Proof.
  intros Hz. unfold ulp_exp, scaled_num, scaled_den.
  pose proof (Z.log2_spec z Hz) as [Hlo _]. pose proof (Z.log2_nonneg z).
  set (l := Z.log2 z) in *. change (Z.log2 1) with 0.
  replace (Z.max (l - 0 - 53) (-1074)) with (l - 53) by lia.
  case_match eqn:E; [exfalso|lia]. apply Z.ltb_lt in E.
  assert (Hq : 2 ^ 53 ≤ z * 2 ^ Z.max 0 (- (l - 53)) / (1 * 2 ^ Z.max 0 (l - 53))); [|lia].
  apply Z.div_le_lower_bound; [lia|].
  rewrite Z.mul_1_l, <- Z.pow_add_r by lia.
  transitivity (2 ^ l * 2 ^ Z.max 0 (- (l - 53))).
  - rewrite <- Z.pow_add_r by lia. apply Z.pow_le_mono_r; lia.
  - apply Z.mul_le_mono_nonneg_r; lia.
Qed.

Lemma of_Z_pos z : 0 < z → of_Z z = round_pos z 1.
Proof.
  intros Hz. unfold of_Z, of_ratio.
  destruct (Z.eqb_spec z 0), (Z.ltb_spec 0 z); done || lia.
Qed.

(** Integers below [2 ^ 53] are Numbers. *)
Lemma of_Z_exact z : 0 ≤ z < 2 ^ 53 → is_int (of_Z z) z.
Proof.
  intros [Hz Hb]. destruct (decide (z = 0)) as [->|]; [apply is_int_0|].
  rewrite of_Z_pos by lia. unfold round_pos. rewrite ulp_exp_int by lia.
  assert (Hl : Z.log2 z < 53) by (apply Z.log2_lt_pow2; lia).
  pose proof (Z.log2_nonneg z). set (l := Z.log2 z) in *.
  unfold scaled_num, scaled_den.
  replace (Z.max 0 (l - 52)) with 0 by lia. rewrite !Z.mul_1_r, div_even_1.
  replace (Z.max 0 (- (l - 52))) with (52 - l) by lia.
  assert (z * 2 ^ (52 - l) ≤ 2 ^ 53 * 2 ^ 52).
  { apply Z.mul_le_mono_nonneg; try lia. apply Z.pow_le_mono_r; lia. }
  destruct (_ <=? _) eqn:Hinf.
  - exfalso. assert (2 ^ 105 < 2 ^ 1024) by (apply Z.pow_lt_mono_r; lia). lia.
  - eexists _, _; split; [done|].
    replace (Z.max 0 (l - 52)) with 0 by lia.
    replace (Z.max 0 (- (l - 52))) with (52 - l) by lia. ring.
Qed.

(** Rounding never takes an integer below the power of two under it. *)
Lemma of_Z_large z :
  2 ^ 54 ≤ z → of_Z z = Infinity false ∨ ∃ v, is_int (of_Z z) v ∧ 2 ^ 54 ≤ v.
Proof.
  intros Hz. rewrite of_Z_pos by lia. unfold round_pos. rewrite ulp_exp_int by lia.
  assert (Hl : 54 ≤ Z.log2 z) by (apply Z.log2_le_pow2; lia).
  pose proof (Z.log2_spec z ltac:(lia)) as [Hlo _]. set (l := Z.log2 z) in *.
  destruct (_ <=? _); [by left|right]. eexists; split; [eexists _, _; split; [done|]|].
  - replace (Z.max 0 (- (l - 52))) with 0 by lia. by rewrite Z.mul_1_r.
  - unfold scaled_num, scaled_den. replace (Z.max 0 (- (l - 52))) with 0 by lia.
    replace (Z.max 0 (l - 52)) with (l - 52) by lia.
    transitivity (2 ^ 52 * 2 ^ (l - 52)).
    { rewrite <- Z.pow_add_r by lia. apply Z.pow_le_mono_r; lia. }
    apply Z.mul_le_mono_nonneg_r; [lia|].
    etransitivity; [|apply div_even_lower; lia].
    apply Z.div_le_lower_bound; [lia|].
    rewrite Z.mul_1_l, Z.mul_1_r, <- Z.pow_add_r by lia.
    by replace (l - 52 + 52) with l by lia.
Qed.

Lemma of_Z_mid z :
  2 ^ 53 ≤ z < 2 ^ 54 → is_int (of_Z z) (2 * div_even z 2).
Proof.
  intros Hz. rewrite of_Z_pos by lia. unfold round_pos. rewrite ulp_exp_int by lia.
  replace (Z.log2 z) with 53 by (symmetry; apply Z.log2_unique; lia).
  change (53 - 52) with 1. unfold scaled_num, scaled_den.
  change (Z.max 0 1) with 1. change (Z.max 0 (- (1))) with 0. change (1 * 2 ^ 1) with 2.
  rewrite Z.mul_1_r.
  assert (div_even z 2 ≤ 2 ^ 54).
  { unfold div_even. pose proof (Z.div_lt_upper_bound z 2 (2 ^ 53)). case_match; lia. }
  destruct (_ <=? _) eqn:Hinf.
  - exfalso. assert (2 ^ 56 < 2 ^ 1024) by (apply Z.pow_lt_mono_r; lia). lia.
  - eexists _, _; split; [done|]. change (Z.max 0 1) with 1. change (Z.max 0 (- (1))) with 0. lia.
Qed.

Lemma is_int_1e16 : is_int (of_Z (10 ^ 16)) (10 ^ 16).
Proof. eexists _, _; split; vm_compute; reflexivity. Qed.

(** Comparing a non-negative integer with [10 ^ 16] as Numbers: one unit below
    the bound rounds onto it. *)
Lemma num_ltb_1e16 z :
  0 ≤ z → num_ltb (of_Z z) (of_Z (10 ^ 16)) = (z <? 10 ^ 16 - 1).
Proof.
  intros Hz. change (10 ^ 16) with 10000000000000000.
  pose proof is_int_1e16 as Hed. change (10 ^ 16) with 10000000000000000 in Hed.
  destruct (decide (z < 2 ^ 53)) as [H53|H53].
  { rewrite (num_ltb_int _ _ z 10000000000000000); [lia|by apply of_Z_exact|exact Hed]. }
  destruct (decide (z < 2 ^ 54)) as [H54|H54].
  - rewrite (num_ltb_int _ _ (2 * div_even z 2) 10000000000000000);
      [|apply of_Z_mid; lia|exact Hed].
    unfold div_even. pose proof (Z.div_mod z 2 ltac:(lia)).
    pose proof (Z.mod_pos_bound z 2 ltac:(lia)).
    rewrite Zodd_mod. pose proof (Z.div_mod (z / 2) 2 ltac:(lia)).
    pose proof (Z.mod_pos_bound (z / 2) 2 ltac:(lia)).
    case_match; lia.
  - destruct (of_Z_large z ltac:(lia)) as [->|(v & Hv & Hle)].
    + transitivity false; [vm_compute; reflexivity|]. symmetry. apply Z.ltb_ge. lia.
    + rewrite (num_ltb_int _ _ v 10000000000000000); [lia|done|exact Hed].
Qed.

Lemma span_digits_all s : all_digits s → span_digits s = (s, "").
Proof.
  induction s as [|c s IH]; intros H; [done|].
  apply all_digits_cons in H as [[d Hd] Hs]. cbn [span_digits].
  by rewrite Hd, IH.
Qed.

Lemma parse_decimal_digits s :
  all_digits s → s ≠ "" → parse_decimal s = Some (of_Z (dval s)).
Proof.
  intros H Hne. unfold parse_decimal.
  rewrite bool_decide_eq_false_2, span_digits_all by (done || (intros ->; by destruct H)).
  rewrite append_empty_r, bool_decide_eq_false_2 by done. simpl.
  unfold of_decimal, of_Z. simpl. by rewrite Z.mul_1_r.
Qed.

Lemma parse_numeric_digits s :
  all_digits s → s ≠ "" → parse_numeric s = parse_decimal s.
Proof.
  intros H Hne. destruct s as [|c s]; [done|].
  apply all_digits_cons in H as [[d Hd] Hs].
  apply digit_not_special in Hd as (_ & Hp & Hm & _).
  destruct s as [|c' s].
  - destruct c as [[] [] [] [] [] [] [] []];
      first [by destruct Hp | by destruct Hm | reflexivity].
  - apply all_digits_cons in Hs as [[d' Hd'] _].
    apply digit_not_special in Hd' as (_ & _ & _ & _ & Hs').
    destruct (decide (c = "0"%char)) as [->|Hc0].
    + destruct c' as [[] [] [] [] [] [] [] []];
        first [by (destruct_and?; congruence) | reflexivity].
    + destruct c as [[] [] [] [] [] [] [] []];
        first [by destruct Hp | by destruct Hm | by destruct Hc0 | reflexivity].
Qed.

(** On a digit string [Number(s)] is the double nearest to the integer. *)
Lemma ToNumber_digits s : all_digits s → s ≠ "" → ToNumber s = of_Z (dval s).
Proof.
  intros H Hne. unfold ToNumber.
  by rewrite trim_digits, parse_numeric_digits, parse_decimal_digits by done.
Qed.

(** ** Sums and rounding errors *)

Lemma div_even_scale a b c : 0 < b → 0 < c → div_even (a * c) (b * c) = div_even a b.
Proof.
  intros Hb Hc. unfold div_even. rewrite Z.div_mul_cancel_r, Z.mul_mod_distr_r by lia.
  assert (E1 : (b * c <? 2 * (a mod b * c)) = (b <? 2 * (a mod b))) by nia.
  assert (E2 : (2 * (a mod b * c) =? b * c) = (2 * (a mod b) =? b)) by nia.
  by rewrite E1, E2.
Qed.

(** Rounding to the nearest integer moves by at most one half. *)
Lemma div_even_error a b : 0 < b → Z.abs (2 * (b * div_even a b - a)) ≤ b.
Proof.
  intros Hb. unfold div_even. pose proof (Z.div_mod a b ltac:(lia)).
  pose proof (Z.mod_pos_bound a b Hb).
  destruct ((b <? 2 * (a mod b)) || (2 * (a mod b) =? b) && Z.odd (a / b)) eqn:E; nia.
Qed.

Lemma round_pos_scale d k : 0 < d → 0 ≤ k → round_pos (d * 2 ^ k) (2 ^ k) = round_pos d 1.
Proof.
  intros Hd Hk. unfold round_pos.
  assert (Hs : ∀ e, scaled_num (d * 2 ^ k) e = scaled_num d e * 2 ^ k ∧
                    scaled_den (2 ^ k) e = scaled_den 1 e * 2 ^ k).
  { intros e. unfold scaled_num, scaled_den. split; ring. }
  assert (Hden : ∀ e, 0 < scaled_den 1 e) by (intros e; unfold scaled_den; lia).
  assert (Hu : ulp_exp (d * 2 ^ k) (2 ^ k) = ulp_exp d 1).
  { unfold ulp_exp. rewrite Z.log2_mul_pow2, Z.log2_pow2 by lia. change (Z.log2 1) with 0.
    replace (k + Z.log2 d - k - 53) with (Z.log2 d - 0 - 53) by lia.
    set (e0 := Z.max _ _). destruct (Hs e0) as [-> ->]. pose proof (Hden e0).
    rewrite Z.div_mul_cancel_r by lia. done. }
  rewrite Hu. destruct (Hs (ulp_exp d 1)) as [-> ->]. by rewrite div_even_scale by (done || lia).
Qed.

Lemma of_ratio_scale d k : 0 ≤ k → of_ratio (d * 2 ^ k) (2 ^ k) = of_Z d.
Proof.
  intros Hk. unfold of_Z, of_ratio. pose proof (Z.pow_pos_nonneg 2 k ltac:(lia) Hk).
  destruct (Z.eqb_spec d 0) as [-> |Hd]; [done|]. rewrite (proj2 (Z.eqb_neq (d * 2 ^ k) 0)) by nia.
  destruct (Z.ltb_spec 0 d).
  - rewrite (proj2 (Z.ltb_lt 0 (d * 2 ^ k))) by nia. by apply round_pos_scale.
  - rewrite (proj2 (Z.ltb_ge 0 (d * 2 ^ k))) by nia. f_equal. rewrite <- Z.mul_opp_l.
    apply round_pos_scale; lia.
Qed.

(** The sum of two integers is their sum, rounded. *)
Lemma num_add_int x y a b : is_int x a → is_int y b → num_add x y = of_Z (a + b).
Proof.
  intros (m1 & e1 & -> & H1) (m2 & e2 & -> & H2). simpl. set (e := Z.min e1 e2).
  pose proof (is_int_rescale m1 e1 a e ltac:(lia) H1). pose proof (is_int_rescale m2 e2 b e ltac:(lia) H2).
  replace ((m1 * 2 ^ (e1 - e) + m2 * 2 ^ (e2 - e)) * 2 ^ Z.max 0 e)
    with ((a + b) * 2 ^ Z.max 0 (- e)) by lia.
  apply of_ratio_scale. lia.
Qed.

Lemma is_int_opp x a : is_int x a → is_int (num_opp x) (- a).
Proof. intros (m & e & -> & H). exists (- m), e. split; [done|]. lia. Qed.

(** The double nearest to an integer below [2 ^ 81] is an integer at most
    [2 ^ 27] away. *)
Lemma of_Z_error z : 0 ≤ z < 2 ^ 81 → ∃ v, is_int (of_Z z) v ∧ Z.abs (v - z) ≤ 2 ^ 27.
Proof.
  intros Hz. destruct (decide (z < 2 ^ 53)) as [Hs|Hl].
  { exists z. split; [apply of_Z_exact; lia|]. rewrite Z.sub_diag. done. }
  assert (H1 : 53 ≤ Z.log2 z) by (apply Z.log2_le_pow2; lia).
  assert (H2 : Z.log2 z < 81) by (apply Z.log2_lt_pow2; lia).
  rewrite of_Z_pos by lia. unfold round_pos. rewrite ulp_exp_int by lia. set (e := Z.log2 z - 52).
  unfold scaled_num, scaled_den. replace (Z.max 0 (- e)) with 0 by lia. replace (Z.max 0 e) with e by lia.
  rewrite Z.mul_1_r, Z.mul_1_l. pose proof (Z.pow_pos_nonneg 2 e ltac:(lia) ltac:(lia)) as Hp.
  pose proof (div_even_error z (2 ^ e) Hp) as He.
  assert (Hle : 2 ^ e ≤ 2 ^ 28) by (apply Z.pow_le_mono_r; lia).
  destruct (Z.leb_spec (2 ^ 1024) (div_even z (2 ^ e) * 2 ^ e)) as [Hinf|_].
  { exfalso. assert (2 ^ 82 < 2 ^ 1024) by (apply Z.pow_lt_mono_r; lia). lia. }
  exists (div_even z (2 ^ e) * 2 ^ e). split; [|lia].
  eexists _, e. split; [done|]. replace (Z.max 0 (- e)) with 0 by lia. replace (Z.max 0 e) with e by lia. lia.
Qed.

Lemma scaled_den_pos q e : 0 < q → 0 < scaled_den q e.
Proof. intros. unfold scaled_den. apply Z.mul_pos_pos; [done|]. apply Z.pow_pos_nonneg; lia. Qed.

Lemma div_even_nonneg a b : 0 ≤ a → 0 < b → 0 ≤ div_even a b.
Proof. intros. etransitivity; [|by apply div_even_lower]. by apply Z.div_pos. Qed.

(** Comparing with a small integer is exact after rounding. *)
Lemma num_leb_small d n : 0 ≤ n < 2 ^ 53 → num_leb (of_Z d) (of_Z n) = (d <=? n).
Proof.
  intros Hn. pose proof (of_Z_exact n Hn) as Hen. destruct (decide (0 ≤ d)) as [Hd|Hd].
  - destruct (decide (d < 2 ^ 53)); [apply num_leb_int; [apply of_Z_exact; lia|done]|].
    rewrite (proj2 (Z.leb_gt d n)) by lia. destruct (decide (d < 2 ^ 54)).
    + rewrite (num_leb_int _ _ _ n (of_Z_mid d ltac:(lia)) Hen). apply Z.leb_gt.
      pose proof (div_even_error d 2 ltac:(lia)). lia.
    + destruct (of_Z_large d ltac:(lia)) as [->|(v & Hv & Hle)].
      * destruct Hen as (m & e & -> & _). done.
      * rewrite (num_leb_int _ _ v n Hv Hen). apply Z.leb_gt. lia.
  - rewrite (proj2 (Z.leb_le d n)) by lia. unfold of_Z at 1, of_ratio.
    rewrite (proj2 (Z.eqb_neq d 0)), (proj2 (Z.ltb_ge 0 d)) by lia. unfold round_pos.
    destruct Hen as (m & e & -> & Hm).
    destruct (_ <=? _); [done|]. unfold num_leb. cbn [num_opp num_compare]. unfold fin_compare. cbv zeta.
    set (n' := div_even _ _). set (e' := ulp_exp _ _). set (ee := Z.min e' e).
    assert (Hn' : 0 ≤ n').
    { apply div_even_nonneg; [|apply scaled_den_pos; lia]. apply Z.mul_nonneg_nonneg; [lia|].
      apply Z.pow_nonneg. lia. }
    assert (Hm0 : 0 ≤ m).
    { pose proof (Z.pow_pos_nonneg 2 (Z.max 0 e) ltac:(lia) ltac:(lia)).
      pose proof (Z.pow_pos_nonneg 2 (Z.max 0 (- e)) ltac:(lia) ltac:(lia)). nia. }
    assert (Hle : - n' * 2 ^ (e' - ee) ≤ m * 2 ^ (e - ee)).
    { pose proof (Z.pow_nonneg 2 (e' - ee) ltac:(lia)). pose proof (Z.pow_nonneg 2 (e - ee) ltac:(lia)). nia. }
    by destruct (Z.compare_spec (- n' * 2 ^ (e' - ee)) (m * 2 ^ (e - ee))); [..|lia].
Qed.
