(* ===== verification/ClaimCsv.v ===== *)
(** * Reading the airdrop file ([scripts/claim/claim_init.js])

    [parse_amount] turns the decimal amount of a CSV cell into a string of base
    units, [read_airdrop_csv] turns the rows into batches of beneficiaries.  The
    rows are what [neatCsv] returns for the file: one object per line, from
    column name to cell. *)

From Stdlib Require Import Ascii.
From S2P Require Import Prelude JsString JsNumber.

Open Scope Z_scope.

(** ** Amounts *)

(** The [for] loop that pads the digits. *)
Fixpoint push_zeros (n : nat) (tokens : string) : string :=
  match n with
  | O => tokens
  | S n => push_zeros n (tokens +:+ "0")
  end.

Definition parse_amount (tokens : string) : string :=
  let multiplier := 18 in
  let decimal_position := indexOf tokens "." in
  let multiplier :=
    if decimal_position =? -1 then multiplier
    else multiplier - (js_length tokens - 1 - decimal_position) in
  let tokens := strip_zeros (remove_first "." tokens) in
  push_zeros (Z.to_nat multiplier) tokens.

(** ** Beneficiaries *)

Definition USE_PALLET_TOKEN_CLAIM : bool := true.

(** The objects [{Ethereum: address}] and [{Substrate: address}]. *)
Inductive address : Type :=
  | Ethereum (a : string)
  | Substrate (a : string).

(** A key of a JavaScript [Map]: strings are compared by value, objects by
    identity ([id]). *)
Inductive mapkey : Type :=
  | KStr (s : string)
  | KObj (id : nat) (a : address).

Definition same_key (k k' : mapkey) : bool :=
  match k, k' with
  | KStr s, KStr s' => bool_decide (s = s')
  | KObj i _, KObj j _ => (i =? j)%nat
  | _, _ => false
  end.

(** A [Map] from keys to amounts, in insertion order. *)
Definition jsmap : Type := list (mapkey * string).

Definition map_has (m : jsmap) (k : mapkey) : bool :=
  existsb (λ p, same_key p.1 k) m.

Fixpoint map_set (m : jsmap) (k : mapkey) (v : string) : jsmap :=
  match m with
  | [] => [(k, v)]
  | p :: m => if same_key p.1 k then (p.1, v) :: m else p :: map_set m k v
  end.

(** [{[type]: address}], rejecting addresses of an unexpected length. *)
Definition address_type (a : string) : js address :=
  if String.prefix "0x" a then
    if js_length a =? 42 then Ret (Ethereum a)
    else Throw (JsError ("Unexpected format for Ethereum address: " +:+ a))
  else
    if js_length a =? 49 then Ret (Substrate a)
    else Throw (JsError ("Unexpected format for Substrate address: " +:+ a)).

(** The variables the [forEach] callback updates; [next_obj] numbers the object
    literals it allocates. *)
Record csv_state : Type := CsvState {
  beneficiaries : list jsmap;
  count : Z;
  current_map : jsmap;
  next_obj : nat
}.

Definition csv_init : csv_state := CsvState [] 0 [] 0.

(** [count++] and the end-of-batch test. *)
Definition count_entry (batch_size : jsval) (s : csv_state) : csv_state :=
  let count := count s + 1 in
  if num_eqb (num_rem (of_Z count) (to_num batch_size)) (Fin 0 0)
  then CsvState (beneficiaries s ++ [current_map s]) count [] (next_obj s)
  else CsvState (beneficiaries s) count (current_map s) (next_obj s).

(** One run of the [forEach] callback of [read_airdrop_csv]. *)
Definition csv_entry (use_pallet : bool) (address_col amount_col : string)
    (batch_size : jsval) (s : csv_state) (entry : gmap string string) : js csv_state :=
  match entry !! amount_col with
  | None => Throw (JsError ("Cannot find any amount in column " +:+ amount_col))
  | Some amount =>
      let amount := parse_amount amount in
      v ← BigInt amount;
      if v =? 0 then Ret s
      else
        match entry !! address_col with
        | None => Throw (JsError ("Cannot find any address in column " +:+ address_col))
        | Some address =>
            if map_has (current_map s) (KStr address)
            then Throw (JsError "Duplicate address found!")
            else if use_pallet then
              a ← address_type address;
              Ret (count_entry batch_size
                (CsvState (beneficiaries s) (count s)
                   (map_set (current_map s) (KObj (next_obj s) a) amount) (S (next_obj s))))
            else
              Ret (count_entry batch_size
                (CsvState (beneficiaries s) (count s)
                   (map_set (current_map s) (KStr address) amount) (next_obj s)))
        end
  end.

Fixpoint csv_loop (use_pallet : bool) (address_col amount_col : string)
    (batch_size : jsval) (s : csv_state) (csv_data : list (gmap string string)) : js csv_state :=
  match csv_data with
  | [] => Ret s
  | entry :: rest =>
      s' ← csv_entry use_pallet address_col amount_col batch_size s entry;
      csv_loop use_pallet address_col amount_col batch_size s' rest
  end.

Definition read_airdrop_csv (use_pallet : bool) (csv_data : list (gmap string string))
    (address_col amount_col : string) (batch_size : jsval) : js (list jsmap) :=
  s ← csv_loop use_pallet address_col amount_col batch_size csv_init csv_data;
  Ret (beneficiaries s ++ [current_map s]).

(** ** Reference definitions *)

(** What one row contributes, on its own. *)
Definition classify (address_col amount_col : string) (entry : gmap string string)
    : js (option (address * string)) :=
  match entry !! amount_col with
  | None => Throw (JsError ("Cannot find any amount in column " +:+ amount_col))
  | Some amount =>
      v ← BigInt (parse_amount amount);
      if v =? 0 then Ret None
      else
        match entry !! address_col with
        | None => Throw (JsError ("Cannot find any address in column " +:+ address_col))
        | Some address => a ← address_type address; Ret (Some (a, parse_amount amount))
        end
  end.

(** The non-zero beneficiaries of a file, in order, or the first error. *)
Fixpoint classify_all (address_col amount_col : string)
    (rows : list (gmap string string)) : js (list (address * string)) :=
  match rows with
  | [] => Ret []
  | r :: rows =>
      x ← classify address_col amount_col r;
      l ← classify_all address_col amount_col rows;
      Ret (match x with Some p => p :: l | None => l end)
  end.

(** Full batches of [n], then what is left over (possibly nothing). *)
Fixpoint chunks_fuel {A} (fuel n : nat) (l : list A) : list (list A) :=
  match fuel with
  | O => [l]
  | S fuel =>
      if (length l <? n)%nat then [l] else take n l :: chunks_fuel fuel n (drop n l)
  end.

Definition chunks {A} (n : nat) (l : list A) : list (list A) := chunks_fuel (length l) n l.

(** The address and amount of a [Map] entry, without the key's identity. *)
Definition entry_of (p : mapkey * string) : address * string :=
  (match p.1 with KObj _ a => a | KStr s => Substrate s end, p.2).

Definition entries (m : jsmap) : list (address * string) := entry_of <$> m.

#[export] Instance address_eq_dec : EqDecision address.
Proof. solve_decision. Defined.

(** ** Lemmas on amounts *)

Lemma push_zeros_digits n s :
  all_digits s →
  all_digits (push_zeros n s) ∧ dval (push_zeros n s) = dval s * 10 ^ Z.of_nat n.
Proof.
  revert s; induction n as [|n IH]; intros s Hs; cbn [push_zeros].
  { rewrite Z.mul_1_r. done. }
  assert (H0 : all_digits "0") by (by exists 0).
  destruct (IH (s +:+ "0")) as [Hd Hv]; [by apply all_digits_app|].
  split; [done|]. rewrite Hv, dval_app by done.
  change (dval "0") with 0. change (js_length "0") with 1.
  rewrite Nat2Z.inj_succ, Z.pow_succ_r by lia. ring.
Qed.

Lemma index_from_digits s i :
  all_digits s → index_from "." s i = -1.
Proof.
  revert i; induction s as [|c s IH]; intros i H; [done|].
  apply all_digits_cons in H as [[d Hd] Hs]. cbn [index_from].
  apply digit_not_special in Hd as [Hc _]. rewrite decide_False by done. by apply IH.
Qed.

Lemma index_from_point s t i :
  all_digits s → index_from "." (s +:+ String "." t) i = i + js_length s.
Proof.
  revert i; induction s as [|c s IH]; intros i H.
  { rewrite append_nil. cbn [index_from]. rewrite decide_True by done.
    unfold js_length. simpl. lia. }
  apply all_digits_cons in H as [[d Hd] Hs]. rewrite append_cons. cbn [index_from].
  apply digit_not_special in Hd as [Hc _]. rewrite decide_False by done.
  rewrite IH by done. unfold js_length. simpl. lia.
Qed.

Lemma remove_first_digits s : all_digits s → remove_first "." s = s.
Proof.
  induction s as [|c s IH]; intros H; [done|].
  apply all_digits_cons in H as [[d Hd] Hs]. cbn [remove_first].
  apply digit_not_special in Hd as [Hc _]. rewrite decide_False by done. by rewrite IH.
Qed.

Lemma remove_first_point s t :
  all_digits s → remove_first "." (s +:+ String "." t) = s +:+ t.
Proof.
  induction s as [|c s IH]; intros H; [done|].
  apply all_digits_cons in H as [[d Hd] Hs]. rewrite !append_cons. cbn [remove_first].
  apply digit_not_special in Hd as [Hc _]. rewrite decide_False by done. by rewrite IH.
Qed.

Lemma strip_zeros_digits s :
  all_digits s → all_digits (strip_zeros s) ∧ dval (strip_zeros s) = dval s.
Proof. unfold all_digits, dval. by rewrite strip_zeros_parse. Qed.

(** An amount without a decimal point. *)
Lemma parse_amount_int ip :
  all_digits ip →
  all_digits (parse_amount ip) ∧ dval (parse_amount ip) = dval ip * 10 ^ 18.
Proof.
  intros H. unfold parse_amount, indexOf.
  rewrite index_from_digits, remove_first_digits by done. rewrite Z.eqb_refl.
  destruct (strip_zeros_digits ip H) as [Hd Hv].
  destruct (push_zeros_digits (Z.to_nat 18) _ Hd) as [? ->]. by rewrite Hv.
Qed.

(** An amount with a decimal point: the padding is [18 - length fp], clipped at
    zero. *)
Lemma parse_amount_point ip fp :
  all_digits ip → all_digits fp →
  all_digits (parse_amount (ip +:+ String "." fp)) ∧
  dval (parse_amount (ip +:+ String "." fp)) =
    (dval ip * 10 ^ js_length fp + dval fp) * 10 ^ Z.max 0 (18 - js_length fp).
Proof.
  intros Hi Hf. unfold parse_amount, indexOf.
  rewrite index_from_point, remove_first_point by done.
  rewrite (proj2 (Z.eqb_neq _ _)) by (unfold js_length; lia).
  destruct (strip_zeros_digits (ip +:+ fp)) as [Hd Hv]; [by apply all_digits_app|].
  destruct (push_zeros_digits
    (Z.to_nat (18 - (js_length (ip +:+ String "." fp) - 1 - (0 + js_length ip)))) _ Hd)
    as [? ->].
  split; [done|]. rewrite Hv, dval_app by done. do 2 f_equal.
  unfold js_length. rewrite length_append. simpl. lia.
Qed.

(** ** Lemmas on batches *)

Lemma chunks_fuel_enough {A} f (n : nat) (l : list A) :
  (0 < n)%nat → (length l ≤ f)%nat → chunks_fuel f n l = chunks n l.
Proof.
  intros Hn. unfold chunks. remember (length l) as k eqn:Hk.
  revert f l Hk. induction k as [k IH] using lt_wf_ind; intros f l Hk Hf.
  destruct f as [|f].
  { destruct l; [|simpl in *; lia]. by subst k. }
  destruct k as [|k].
  { destruct l; [|done]. cbn [chunks_fuel length]. by destruct (Nat.ltb_spec 0 n); [|lia]. }
  cbn [chunks_fuel]. destruct (Nat.ltb_spec (length l) n); [done|]. f_equal.
  rewrite (IH (length (drop n l))) by (rewrite ?length_drop; lia || done).
  symmetry. apply IH; rewrite ?length_drop; lia || done.
Qed.

Lemma chunks_small {A} (n : nat) (l : list A) : (length l < n)%nat → chunks n l = [l].
Proof.
  intros H. unfold chunks. destruct l as [|x l]; [done|]. cbn [chunks_fuel length].
  by destruct (Nat.ltb_spec (S (length l)) n); [|simpl in *; lia].
Qed.

Lemma chunks_full {A} (n : nat) (l k : list A) :
  (0 < n)%nat → length l = n → chunks n (l ++ k) = l :: chunks n k.
Proof.
  intros Hn Hl. rewrite <- (chunks_fuel_enough (S (length (l ++ k)))) by lia.
  cbn [chunks_fuel]. rewrite length_app.
  destruct (Nat.ltb_spec (length l + length k) n); [lia|].
  rewrite take_app_length', drop_app_length' by done.
  by rewrite chunks_fuel_enough by lia.
Qed.

Lemma chunks_concat {A} (n : nat) (l : list A) : (0 < n)%nat → concat (chunks n l) = l.
Proof.
  intros Hn. unfold chunks. generalize (length l) as f. intros f. revert l.
  induction f as [|f IH]; intros l; cbn [chunks_fuel]; [apply app_nil_r|].
  destruct (Nat.ltb_spec (length l) n); [apply app_nil_r|].
  cbn [concat]. by rewrite IH, take_drop.
Qed.

Lemma chunks_bound {A} (n : nat) (l : list A) :
  (0 < n)%nat → Forall (λ c, (length c ≤ n)%nat) (chunks n l).
Proof.
  intros Hn. remember (length l) as k eqn:Hk. revert l Hk.
  induction k as [k IH] using lt_wf_ind; intros l Hk.
  destruct (decide (length l < n)%nat) as [Hlt|Hge].
  { rewrite chunks_small by done. constructor; [lia|done]. }
  rewrite <- (take_drop n l), chunks_full by (rewrite ?length_take; lia).
  constructor; [rewrite length_take; lia|].
  eapply IH; [|done]. rewrite length_drop. lia.
Qed.

(** Keys made of object literals only, each allocated earlier. *)
Definition obj_keys (next : nat) (m : jsmap) : Prop :=
  Forall (λ p, match p.1 with KObj i _ => (i < next)%nat | KStr _ => False end) m.

Lemma map_has_obj next m s : obj_keys next m → map_has m (KStr s) = false.
Proof. induction 1 as [|[[?|i a] v] m Hp _ IH]; simpl in *; done. Qed.

Lemma map_set_fresh next m a v :
  obj_keys next m → map_set m (KObj next a) v = m ++ [(KObj next a, v)].
Proof.
  induction 1 as [|[[?|i b] w] m Hp _ IH]; simpl in *; [done..|].
  destruct (Nat.eqb_spec i next); [lia|]. by rewrite IH.
Qed.

Lemma obj_keys_snoc next m a v :
  obj_keys next m → obj_keys (S next) (m ++ [(KObj next a, v)]).
Proof.
  intros H. apply Forall_app; split; [|by repeat constructor; simpl; lia].
  eapply List.Forall_impl; [|exact H]. intros [[?|i b] w]; simpl; lia || done.
Qed.

Section batches.
Context (address_col amount_col : string) (batch_size : jsval) (b : nat).
Hypothesis Hb : (0 < b)%nat.
Hypothesis Hbs : is_int (to_num batch_size) (Z.of_nat b).

(** What holds between two rows. *)
Definition csv_inv (s : csv_state) : Prop :=
  0 ≤ count s ∧ Z.of_nat (length (current_map s)) = count s mod Z.of_nat b ∧
  obj_keys (next_obj s) (current_map s).

(** The batches read so far, and those to come from the items [l]. *)
Definition csv_out (s : csv_state) (l : list (address * string)) : list (list (address * string)) :=
  (entries <$> beneficiaries s) ++ chunks b (entries (current_map s) ++ l).

Lemma csv_inv_init : csv_inv csv_init.
Proof. by repeat split; try constructor. Qed.

Lemma entries_app m m' : entries (m ++ m') = entries m ++ entries m'.
Proof. apply fmap_app. Qed.

Lemma count_entry_step s m a v l :
  csv_inv s → count s < 2 ^ 53 - 1 →
  m = current_map s ++ [(KObj (next_obj s) a, v)] →
  let s' := count_entry batch_size (CsvState (beneficiaries s) (count s) m (S (next_obj s))) in
  csv_inv s' ∧ count s' = count s + 1 ∧ csv_out s' l = csv_out s ((a, v) :: l).
Proof.
  intros (Hc & Hm & Hk) Hlt ->. unfold count_entry. cbn [count beneficiaries current_map next_obj].
  rewrite (num_rem_int _ _ (count s + 1) (Z.of_nat b)); [|apply of_Z_exact; lia|done|lia].
  pose proof (Z.mod_pos_bound (count s) (Z.of_nat b) ltac:(lia)) as Hmod.
  rewrite Z.add_mod by lia. rewrite <- Hm.
  set (cur := current_map s ++ [(KObj (next_obj s) a, v)]).
  assert (Hlen : length cur = S (length (current_map s))).
  { unfold cur. rewrite length_app. simpl. lia. }
  assert (Hl : entries (current_map s) ++ (a, v) :: l = entries cur ++ l).
  { unfold cur. rewrite entries_app, <- app_assoc. done. }
  assert (Hec : length (entries cur) = length cur) by apply length_fmap.
  destruct (decide (length cur = b)) as [Hfull|Hpart].
  - replace ((_ + _) mod _) with 0.
    2:{ destruct (decide (b = 1%nat)) as [->|]; [by rewrite Z.mod_1_r|].
        rewrite (Z.mod_small 1) by lia.
        replace (_ + 1) with (Z.of_nat b) by lia. by rewrite Z.mod_same by lia. }
    cbn [Z.eqb]. unfold csv_inv, csv_out. cbn [count beneficiaries current_map next_obj].
    split_and!; try lia.
    + rewrite Z.add_mod, <- Hm by lia.
      destruct (decide (b = 1%nat)) as [->|]; [by rewrite Z.mod_1_r|].
      rewrite (Z.mod_small 1) by lia.
      replace (_ + 1) with (Z.of_nat b) by lia. by rewrite Z.mod_same by lia.
    + constructor.
    + rewrite Hl, (chunks_full b (entries cur)) by (rewrite ?Hec; done). rewrite fmap_app, <- app_assoc. done.
  - assert (Hlt' : (length (current_map s) + 1 < b)%nat) by lia.
    rewrite (Z.mod_small 1) by lia. rewrite Z.mod_small by lia.
    rewrite (proj2 (Z.eqb_neq _ _)) by lia.
    unfold csv_inv, csv_out. cbn [count beneficiaries current_map next_obj].
    split_and!; try lia.
    + rewrite Z.add_mod, <- Hm by lia.
      rewrite (Z.mod_small 1) by lia. rewrite Z.mod_small by lia. lia.
    + by apply obj_keys_snoc.
    + by rewrite Hl.
Qed.

Lemma csv_loop_spec rows s :
  csv_inv s → count s + Z.of_nat (length rows) < 2 ^ 53 →
  match classify_all address_col amount_col rows with
  | Ret l => ∃ s', csv_loop true address_col amount_col batch_size s rows = Ret s' ∧
                   csv_inv s' ∧ csv_out s' [] = csv_out s l
  | Throw e => csv_loop true address_col amount_col batch_size s rows = Throw e
  | Exit c => csv_loop true address_col amount_col batch_size s rows = Exit c
  | Hang => csv_loop true address_col amount_col batch_size s rows = Hang
  end.
Proof.
  revert s. induction rows as [|r rows IH]; intros s Hs Hn; [by exists s|].
  cbn [classify_all csv_loop length] in *. unfold classify, csv_entry.
  destruct (r !! amount_col) as [amt|]; simpl; [|done].
  destruct (BigInt (parse_amount amt)) as [v|e|c|]; simpl; [|done..].
  destruct (v =? 0).
  { specialize (IH s Hs ltac:(lia)). by destruct (classify_all _ _ rows). }
  destruct (r !! address_col) as [addr|]; simpl; [|done].
  pose proof Hs as (Hc & Hm & Hk). rewrite (map_has_obj _ _ _ Hk).
  destruct (address_type addr) as [a|e|c|]; simpl; [|done..].
  rewrite (map_set_fresh _ _ _ _ Hk).
  pose proof (λ l, count_entry_step s _ a (parse_amount amt) l Hs ltac:(lia) eq_refl) as Hstep.
  destruct (Hstep []) as (Hs' & Hc' & _). specialize (IH _ Hs' ltac:(lia)).
  destruct (classify_all address_col amount_col rows) as [l|e|c|]; simpl in *; [|done..].
  destruct (Hstep l) as (_ & _ & Hout), IH as (s' & -> & ? & Hs'').
  exists s'. split_and!; try done. by rewrite Hs'', Hout.
Qed.

(** The batches are the non-zero rows, cut every [b]. *)
Lemma read_airdrop_csv_spec rows :
  Z.of_nat (length rows) < 2 ^ 53 →
  fmap (M:=js) (fmap entries) (read_airdrop_csv true rows address_col amount_col batch_size) =
  fmap (M:=js) (chunks b) (classify_all address_col amount_col rows).
Proof.
  intros Hn. unfold read_airdrop_csv.
  pose proof (csv_loop_spec rows csv_init csv_inv_init Hn) as H.
  destruct (classify_all address_col amount_col rows) as [l|e|c|]; simpl; [|by rewrite H..].
  destruct H as (s & -> & (Hc & Hm & Hk) & Hout). simpl. f_equal.
  unfold csv_out in Hout. simpl in Hout. rewrite <- Hout.
  rewrite fmap_app. f_equal. rewrite app_nil_r, chunks_small; [done|].
  unfold entries. rewrite length_fmap.
  pose proof (Z.mod_pos_bound (count s) (Z.of_nat b)). lia.
Qed.
End batches.

(** ** The duplicate check *)

Lemma address_type_not_duplicate a :
  address_type a ≠ Throw (JsError "Duplicate address found!").
Proof. unfold address_type. repeat case_match; intros [=]. Qed.

Lemma BigInt_not_duplicate s msg : BigInt s ≠ Throw (JsError msg).
Proof. unfold BigInt. by case_match. Qed.

Lemma count_entry_keys bs s :
  obj_keys (next_obj s) (current_map s) →
  obj_keys (next_obj (count_entry bs s)) (current_map (count_entry bs s)).
Proof. intros H. unfold count_entry. case_match; simpl; [constructor|done]. Qed.

Lemma csv_entry_not_duplicate ac mc bs s entry :
  obj_keys (next_obj s) (current_map s) →
  csv_entry true ac mc bs s entry ≠ Throw (JsError "Duplicate address found!") ∧
  ∀ s', csv_entry true ac mc bs s entry = Ret s' → obj_keys (next_obj s') (current_map s').
Proof.
  intros Hk. unfold csv_entry. destruct (entry !! mc) as [amt|]; [|done].
  destruct (BigInt (parse_amount amt)) as [v|e|c|] eqn:E; simpl; [| |done..].
  2:{ split; [|done]. intros [=->]. by eapply BigInt_not_duplicate. }
  destruct (v =? 0); [split; [done|by intros s' [= <-]]|].
  destruct (entry !! ac) as [addr|]; [|done]. rewrite (map_has_obj _ _ _ Hk).
  destruct (address_type addr) as [a|e|c|] eqn:Ea; simpl; [| |done..].
  2:{ split; [|done]. intros [=->]. by eapply address_type_not_duplicate. }
  split; [done|]. intros s' [= <-]. apply count_entry_keys. simpl.
  rewrite (map_set_fresh _ _ _ _ Hk). by apply obj_keys_snoc.
Qed.

Lemma csv_loop_not_duplicate ac mc bs rows s :
  obj_keys (next_obj s) (current_map s) →
  csv_loop true ac mc bs s rows ≠ Throw (JsError "Duplicate address found!").
Proof.
  revert s. induction rows as [|r rows IH]; intros s Hk; [done|]. cbn [csv_loop].
  destruct (csv_entry_not_duplicate ac mc bs s r Hk) as [Hd Hr].
  destruct (csv_entry true ac mc bs s r) as [s'|e|c|]; simpl; [by apply IH, Hr| |done..].
  intros [=->]. by apply Hd.
Qed.

(** ** Properties *)

(** C14: a decimal amount [ip.fp] with at most 18 decimals (or none) is scaled
    exactly to base units: [parse_amount] followed by [BigInt] gives
    [ip.fp * 10 ^ 18]. *)
Theorem parse_amount_scaled ip fp :
  all_digits ip → all_digits fp → js_length fp ≤ 18 →
  BigInt (parse_amount (ip +:+ String "." fp)) =
    Ret (dval ip * 10 ^ 18 + dval fp * 10 ^ (18 - js_length fp)) ∧
  BigInt (parse_amount ip) = Ret (dval ip * 10 ^ 18).
Proof.
  intros Hi Hf Hl. destruct (parse_amount_point ip fp Hi Hf) as [Hd Hv].
  destruct (parse_amount_int ip Hi) as [Hd' Hv'].
  rewrite !BigInt_digits, Hv, Hv' by done. split; [|done]. f_equal.
  rewrite Z.max_r, Z.mul_add_distr_r, <- Z.mul_assoc, <- Z.pow_add_r
    by (unfold js_length in *; lia).
  do 3 f_equal. lia.
Qed.

Lemma parse_amount_scaled_witness :
  BigInt (parse_amount "12.05") = Ret (12 * 10 ^ 18 + 5 * 10 ^ 16) ∧
  BigInt (parse_amount "12") = Ret (12 * 10 ^ 18).
Proof.
  apply (parse_amount_scaled "12" "05"); [by exists 12|by exists 5|done].
Defined.

(** With more than 18 decimals nothing scales the digits back: the amount
    sent is [10 ^ (length fp - 18)] times the one written in the file. *)
Theorem parse_amount_excess_decimals ip fp :
  all_digits ip → all_digits fp → 18 < js_length fp →
  BigInt (parse_amount (ip +:+ String "." fp)) =
    Ret (dval ip * 10 ^ js_length fp + dval fp).
Proof.
  intros Hi Hf Hl. destruct (parse_amount_point ip fp Hi Hf) as [Hd Hv].
  rewrite BigInt_digits, Hv by done. f_equal. rewrite Z.max_l by lia. apply Z.mul_1_r.
Qed.

Lemma parse_amount_excess_decimals_witness :
  BigInt (parse_amount "1.0000000000000000000") = Ret (1 * 10 ^ 19 + 0).
Proof.
  apply (parse_amount_excess_decimals "1" "0000000000000000000");
    [by exists 1|by exists 0|done].
Defined.

(** C13: for a positive integer batch size [b], [read_airdrop_csv] yields exactly
    the non-zero rows of the file, in order, cut into batches of [b] and a last,
    smaller one; it fails with the error of the first row that cannot be read,
    and only then. *)
Theorem read_airdrop_csv_batches rows address_col amount_col batch_size b :
  (0 < b)%nat → is_int (to_num batch_size) (Z.of_nat b) →
  Z.of_nat (length rows) < 2 ^ 53 →
  fmap (M:=js) (fmap entries) (read_airdrop_csv true rows address_col amount_col batch_size) =
    fmap (M:=js) (chunks b) (classify_all address_col amount_col rows) ∧
  ∀ bs, read_airdrop_csv true rows address_col amount_col batch_size = Ret bs →
    classify_all address_col amount_col rows = Ret (concat (entries <$> bs)) ∧
    Forall (λ m, (length m ≤ b)%nat) bs.
Proof.
  intros Hb Hbs Hn. pose proof (read_airdrop_csv_spec address_col amount_col _ b Hb Hbs rows Hn) as H.
  split; [done|]. intros bs Hbs'. rewrite Hbs' in H.
  destruct (classify_all address_col amount_col rows) as [l|e|c|]; simpl in H; [|done..].
  injection H as H. rewrite H. split; [by rewrite chunks_concat|].
  pose proof (chunks_bound b l Hb) as Hc. rewrite <- H in Hc.
  apply Forall_fmap in Hc. eapply List.Forall_impl; [|exact Hc].
  intros m. simpl. unfold entries. by rewrite length_fmap.
Qed.

Definition sample_row (a v : string) : gmap string string :=
  <["address" := a]> {["total" := v]}.

Definition sample_eth : string := "0xCFb405552868d9906DeDCAbe2F387a37E35e9610".

Lemma read_airdrop_csv_batches_witness :
  let rows := [sample_row sample_eth "1"; sample_row sample_eth "0"; sample_row sample_eth "2"] in
  fmap (M:=js) (fmap entries) (read_airdrop_csv true rows "address" "total" (VStr "1")) =
    Ret [[(Ethereum sample_eth, "1000000000000000000")];
         [(Ethereum sample_eth, "2000000000000000000")]; []].
Proof.
  intros rows. destruct (read_airdrop_csv_batches rows "address" "total" (VStr "1") 1)
    as [H _]; [lia| |done|].
  - eexists _, _; split; vm_compute; reflexivity.
  - etransitivity; [exact H|]. vm_compute. reflexivity.
Defined.

(** With the tokenClaim pallet the duplicate check never fires: the keys
    of the [Map] are object literals, which no string key can equal, so a
    file may list an address any number of times. *)
Theorem read_airdrop_csv_no_duplicate_check rows address_col amount_col batch_size :
  read_airdrop_csv USE_PALLET_TOKEN_CLAIM rows address_col amount_col batch_size
    ≠ Throw (JsError "Duplicate address found!").
Proof.
  unfold read_airdrop_csv, USE_PALLET_TOKEN_CLAIM.
  pose proof (csv_loop_not_duplicate address_col amount_col batch_size rows csv_init) as H.
  destruct (csv_loop _ _ _ _ _ _); simpl; [done| |done..].
  intros [=->]. apply H; [constructor|done].
Qed.
