(* ===== verification/TxLifecycle.v ===== *)
(** * Submitting an extrinsic ([_handleTransactionLifecycle])

    The handler is the same code in [scripts/claim/claim_init.js] and
    [scripts/claim/claim_final_approve.js].  It sends an extrinsic, follows the
    status updates of the node and resends it when the pool answers with error
    1014.  The node's side of one submission is an [attempt]: the sequence of
    status updates and, possibly, the failure of the send call itself, in the
    order the script sees them. *)

From S2P Require Import Prelude.

Open Scope Z_scope.

(** ** What the node reports *)

Record event_record : Type := EventRecord {
  section : string;
  method : string;
  data : list string;
  phase_index : Z        (* [phase.asApplyExtrinsic] *)
}.

Inductive tx_status : Type :=
  | InBlock (hash : string)
  | StatusError
  | OtherStatus.

Record tx_update : Type := TxUpdate {
  blockNumber : Z;
  records : list event_record;
  status : tx_status
}.

Inductive send_event : Type :=
  | Update (u : tx_update)
  | SendFailed (code : option Z).

Definition attempt : Type := list send_event.

(** ** The handler *)

(** The closure variables shared by all attempts. *)
Record lc_state : Type := LcState {
  transactionSuccessEvent : bool;
  done : bool
}.

Definition lc_init : lc_state := LcState false false.

Record tx_info : Type := TxInfo {
  tx_block : option string;
  tx_call : option string;
  tx_number : Z;
  tx_index : option Z
}.

Inductive rejection : Type :=
  | Retry
  | NotRetry.

Inductive settlement : Type :=
  | Resolved (i : tx_info)
  | Rejected (r : rejection).

(** [records.forEach(...)]: the success flag, the call hash and its index. *)
Definition scan_record (acc : bool * option string * option Z) (r : event_record)
    : bool * option string * option Z :=
  let '(success, callHash, indexInBlock) := acc in
  if bool_decide (section r = "system") && bool_decide (method r = "ExtrinsicSuccess")
  then (true, callHash, indexInBlock)
  else if bool_decide (section r = "multisig") && bool_decide (method r = "NewMultisig")
  then (success, data r !! 2%nat, Some (phase_index r))
  else acc.

Definition scan_records (success : bool) (rs : list event_record)
    : bool * option string * option Z :=
  foldl scan_record (success, None, None) rs.

(** The callback given to [sendFunction]. *)
Definition on_update (st : lc_state) (u : tx_update) : lc_state * option settlement :=
  let '(st, blockHash, callHash, indexInBlock) :=
    match status u with
    | InBlock h =>
        let '(success, c, i) := scan_records (transactionSuccessEvent st) (records u) in
        (LcState success true, Some h, c, i)
    | StatusError => (LcState (transactionSuccessEvent st) true, None, None, None)
    | OtherStatus => (st, None, None, None)
    end in
  if done st then
    if transactionSuccessEvent st
    then (st, Some (Resolved (TxInfo blockHash callHash (blockNumber u) indexInBlock)))
    else (st, Some (Rejected NotRetry))
  else (st, None).

(** The promise of one attempt settles at the first event that says so. *)
Fixpoint run_attempt (st : lc_state) (a : attempt) : lc_state * option settlement :=
  match a with
  | [] => (st, None)
  | Update u :: a =>
      match on_update st u with
      | (st', None) => run_attempt st' a
      | settled => settled
      end
  | SendFailed code :: _ =>
      (st, Some (Rejected (if bool_decide (code = Some 1014) then Retry else NotRetry)))
  end.

(** The value the handler returns: [-1], [undefined] or the inclusion data. *)
Inductive tx_return : Type :=
  | TxMinusOne
  | TxUndefined
  | TxSuccess (i : tx_info).

Inductive lc_outcome : Type :=
  | Pending
  | Returned (r : tx_return).

(** The [while] loop; each round consumes the node's behaviour for one
    submission. *)
Fixpoint lc_loop (st : lc_state) (max_retries : Z) (retVal : tx_return)
    (attempts : list attempt) : lc_outcome :=
  if negb (done st) && (0 <? max_retries) then
    match attempts with
    | [] => Pending
    | a :: rest =>
        match run_attempt st a with
        | (_, None) => Pending
        | (st', Some (Resolved i)) => lc_loop st' max_retries (TxSuccess i) rest
        | (st', Some (Rejected NotRetry)) =>
            lc_loop (LcState (transactionSuccessEvent st') true) max_retries TxMinusOne rest
        | (st', Some (Rejected Retry)) => lc_loop st' (max_retries - 1) TxUndefined rest
        end
    end
  else Returned retVal.

Definition handleTransactionLifecycle (attempts : list attempt) : lc_outcome :=
  lc_loop lc_init 5 TxMinusOne attempts.

(** ** Reference *)

(** How an attempt settles on its own. *)
Definition settle (a : attempt) : option settlement := (run_attempt lc_init a).2.

(** The first settlement other than a retry decides; [n] retries give
    [undefined]. *)
Fixpoint first_decisive (n : nat) (l : list (option settlement)) : lc_outcome :=
  match n with
  | O => Returned TxUndefined
  | S n =>
      match l with
      | [] | None :: _ => Pending
      | Some (Resolved i) :: _ => Returned (TxSuccess i)
      | Some (Rejected NotRetry) :: _ => Returned TxMinusOne
      | Some (Rejected Retry) :: l => first_decisive n l
      end
  end.

(** The block of the update is the one reported and its events contain
    [system.ExtrinsicSuccess]. *)
Definition included_ok (u : tx_update) (i : tx_info) : Prop :=
  (∃ h, status u = InBlock h ∧ tx_block i = Some h) ∧
  tx_number i = blockNumber u ∧
  ∃ r, r ∈ records u ∧ section r = "system" ∧ method r = "ExtrinsicSuccess".

(** ** Lemmas *)

Lemma scan_record_success acc r :
  (scan_record acc r).1.1 = acc.1.1 ||
    (bool_decide (section r = "system") && bool_decide (method r = "ExtrinsicSuccess")).
Proof.
  destruct acc as [[s c] i]. unfold scan_record.
  destruct (bool_decide (section r = "system") && _); simpl; [by rewrite orb_true_r|].
  rewrite orb_false_r. by case_match.
Qed.

Lemma scan_foldl_success rs acc :
  (foldl scan_record acc rs).1.1 = true →
  acc.1.1 = true ∨ ∃ r, r ∈ rs ∧ section r = "system" ∧ method r = "ExtrinsicSuccess".
Proof.
  revert acc. induction rs as [|r rs IH]; intros acc Ha; [by left|]. simpl in Ha.
  destruct (IH _ Ha) as [Hacc|(r' & ? & ?)].
  - rewrite scan_record_success, orb_true_iff, andb_true_iff, !bool_decide_eq_true in Hacc.
    destruct Hacc as [?|[??]]; [by left|right]. exists r. split; [left|done].
  - right. exists r'. split; [by right|done].
Qed.

(** From the initial state an update either leaves everything unchanged or
    settles the promise. *)
Lemma on_update_init u :
  on_update lc_init u = (lc_init, None) ∨
  ∃ st s, on_update lc_init u = (st, Some s) ∧ done st = true ∧ s ≠ Rejected Retry ∧
    ∀ i, s = Resolved i → included_ok u i.
Proof.
  unfold on_update. destruct (status u) as [h| |] eqn:Hs; simpl; [right|right|by left].
  - destruct (scan_records false (records u)) as [[success c] i] eqn:E. simpl.
    destruct success; eexists _, _; (split; [done|]); (split; [done|]); (split; [done|]);
      intros i' Hi; simplify_eq.
    split_and!; simpl; [by eauto|done|].
    destruct (scan_foldl_success (records u) (false, None, None)) as [?|?]; [|done..].
    unfold scan_records in E. by rewrite E.
  - by eexists _, _.
Qed.

Lemma run_attempt_init a :
  run_attempt lc_init a = (lc_init, None) ∨
  run_attempt lc_init a = (lc_init, Some (Rejected Retry)) ∨
  run_attempt lc_init a = (lc_init, Some (Rejected NotRetry)) ∨
  ∃ st s, run_attempt lc_init a = (st, Some s) ∧ done st = true ∧ s ≠ Rejected Retry ∧
    ∀ i, s = Resolved i → ∃ u, Update u ∈ a ∧ included_ok u i.
Proof.
  induction a as [|[u|code] a IH]; [by left| |].
  - cbn [run_attempt].
    destruct (on_update_init u) as [->|(st & s & -> & Hd & Hs & Hi)].
    + destruct IH as [->|[->|[->|(st & s & -> & Hd & Hs & Hi)]]]; auto.
      do 3 right. eexists _, _. split_and!; [done..|].
      intros i ->. destruct (Hi i eq_refl) as (u' & ? & ?). exists u'. split; [by right|done].
    + do 3 right. eexists _, _. split_and!; [done..|].
      intros i ->. exists u. split; [left|by apply Hi].
  - cbn [run_attempt]. case_bool_decide; auto.
Qed.

Lemma lc_loop_done st n ret l :
  done st = true → lc_loop st n ret l = Returned ret.
Proof. intros H. destruct l; simpl; by rewrite H. Qed.

Lemma lc_loop_spec n ret l :
  lc_loop lc_init (Z.of_nat (S n)) ret l = first_decisive (S n) (settle <$> l).
Proof.
  revert ret l. induction n as [|n IH]; intros ret l.
  all: destruct l as [|a l]; [done|]; unfold settle; cbn [lc_loop fmap list_fmap].
  all: destruct (run_attempt_init a) as [->|[->|[->|(st & s & -> & Hd & Hs & _)]]];
    try done; try (cbn -[Z.of_nat]; by destruct l).
  1,3: destruct s as [i|[]]; cbn -[Z.of_nat]; [by apply lc_loop_done|done|];
    by apply lc_loop_done.
  cbn -[Z.of_nat]. replace (Z.of_nat (S (S n)) - 1) with (Z.of_nat (S n)) by lia.
  apply IH.
Qed.

Lemma lifecycle_spec attempts :
  handleTransactionLifecycle attempts = first_decisive 5 (settle <$> attempts).
Proof. apply (lc_loop_spec 4). Qed.

Lemma first_decisive_success n l i :
  first_decisive n l = Returned (TxSuccess i) → Some (Resolved i) ∈ l.
Proof.
  revert l; induction n as [|n IH]; intros l; [done|].
  destruct l as [|[[j|[]]|] l]; simpl; try done; [intros [=->]; left|].
  intros H. right. by apply IH.
Qed.

Lemma settle_resolved a i :
  settle a = Some (Resolved i) → ∃ u, Update u ∈ a ∧ included_ok u i.
Proof.
  unfold settle. destruct (run_attempt_init a) as [->|[->|[->|(st & s & -> & _ & _ & Hi)]]];
    simpl; [done..|]. intros [=->]. by apply Hi.
Qed.

Lemma first_decisive_settles n l :
  Forall (λ s, s ≠ None) l → (n ≤ length l)%nat → ∃ r, first_decisive n l = Returned r.
Proof.
  revert l; induction n as [|n IH]; intros l Hl Hn; [by eexists|].
  destruct l as [|[[j|[]]|] l]; simpl in *; [lia| | | |]; try by eexists.
  - inversion Hl; subst. apply IH; [done|lia].
  - inversion Hl; subst. done.
Qed.

Lemma first_decisive_take n l : first_decisive n (take n l) = first_decisive n l.
Proof.
  revert l; induction n as [|n IH]; intros l; [done|].
  destruct l as [|[[j|[]]|] l]; simpl; auto.
Qed.

Lemma first_decisive_undefined n l :
  first_decisive n l = Returned TxUndefined ↔
  (n ≤ length l)%nat ∧ Forall (λ s, s = Some (Rejected Retry)) (take n l).
Proof.
  revert l; induction n as [|n IH]; intros l; simpl; [split; [split; [lia|done]|done]|].
  destruct l as [|[[j|[]]|] l]; simpl.
  - split; [done|lia].
  - split; [done|]. intros [_ H]. by inversion H.
  - rewrite IH. split; [intros [? ?]; split; [lia|by constructor]|].
    intros [? H]. inversion H; subst. split; [lia|done].
  - split; [done|]. intros [_ H]. by inversion H.
  - split; [done|]. intros [_ H]. by inversion H.
Qed.

(** ** Properties *)

(** C29: the handler's loop, with its shared flags, behaves as its reference: the
    first of at most five submissions that does not end in error 1014 decides,
    and each submission is judged on its own updates only. *)
Theorem lifecycle_reference attempts :
  handleTransactionLifecycle attempts = first_decisive 5 (settle <$> attempts).
Proof. apply lifecycle_spec. Qed.

(** A success is only reported for a submission that was seen in a block, with
    that block's hash and number, whose events contain
    [system.ExtrinsicSuccess]. *)
Theorem lifecycle_success_included attempts i :
  handleTransactionLifecycle attempts = Returned (TxSuccess i) →
  ∃ a u, a ∈ attempts ∧ Update u ∈ a ∧ included_ok u i.
Proof.
  rewrite lifecycle_spec. intros H%first_decisive_success.
  apply list_elem_of_fmap in H as (a & Ha & Hin). symmetry in Ha.
  apply settle_resolved in Ha as (u & ? & ?). by exists a, u.
Qed.

Definition sample_success : event_record := EventRecord "system" "ExtrinsicSuccess" [] 1.
Definition sample_multisig : event_record :=
  EventRecord "multisig" "NewMultisig" ["who"; "multi"; "0xhash"] 2.
Definition sample_included : attempt :=
  [Update (TxUpdate 6 [] OtherStatus);
   Update (TxUpdate 7 [sample_multisig; sample_success] (InBlock "0xb"))].
Definition sample_low_priority : attempt := [SendFailed (Some 1014)].

Lemma lifecycle_success_included_witness :
  ∃ a u, a ∈ [sample_low_priority; sample_included] ∧ Update u ∈ a ∧
    included_ok u (TxInfo (Some "0xb") (Some "0xhash") 7 (Some 2)).
Proof.
  apply lifecycle_success_included. vm_compute. reflexivity.
Defined.

(** The handler returns after at most five submissions, whatever the node
    answers, as soon as each submission settles. *)
Theorem lifecycle_returns attempts :
  Forall (λ a, settle a ≠ None) attempts → (5 ≤ length attempts)%nat →
  ∃ r, handleTransactionLifecycle (take 5 attempts) = Returned r ∧
       handleTransactionLifecycle attempts = Returned r.
Proof.
  intros Ha Hl. rewrite !lifecycle_spec, fmap_take, first_decisive_take.
  destruct (first_decisive_settles 5 (settle <$> attempts)) as [r Hr]; [|by rewrite length_fmap|].
  - by apply Forall_fmap.
  - by exists r.
Qed.

Lemma lifecycle_returns_witness :
  ∃ r, handleTransactionLifecycle (take 5 (replicate 6 sample_low_priority)) = Returned r ∧
       handleTransactionLifecycle (replicate 6 sample_low_priority) = Returned r.
Proof.
  apply lifecycle_returns; [|simpl; lia]. repeat constructor; discriminate.
Defined.

(** Five low-priority errors in a row make the handler return [undefined]
    (not the [-1] its callers test for), and nothing else does. *)
Theorem lifecycle_retries_exhausted attempts :
  handleTransactionLifecycle attempts = Returned TxUndefined ↔
  (5 ≤ length attempts)%nat ∧
  Forall (λ a, settle a = Some (Rejected Retry)) (take 5 attempts).
Proof.
  by rewrite lifecycle_spec, first_decisive_undefined, length_fmap, <- fmap_take, Forall_fmap.
Qed.
