(* ===== verification/ClaimArgs.v ===== *)
(** * Command lines of the claim scripts

    [parse_args] of [scripts/claim/claim_init.js] and of
    [scripts/claim/claim_final_approve.js].  [args[++i]] past the end of the
    array is [undefined], hence the optional fields; an option that is never
    validated as a number keeps the string given. *)

From S2P Require Import Prelude JsString JsNumber.

Open Scope Z_scope.

Definition DEFAULT_ADDRESS_COL : string := "address".
Definition DEFAULT_AMOUNT_COL : string := "total".
Definition DEFAULT_WS_ENDPOINT : string := "ws://localhost:9944".
Definition DEFAULT_WS_ENDPOINTS (key : string) : option string :=
  if decide (key = "local") then Some DEFAULT_WS_ENDPOINT
  else if decide (key = "volta") then Some "wss://zkverify-volta-rpc.zkverify.io"
  else if decide (key = "mainnet") then Some "wss://zkverify-rpc.zkverify.io"
  else None.
Definition DEFAULT_BATCH_SIZE : Z := 10000.
Definition DEFAULT_PREFIX : Z := 251.
Definition DEFAULT_SEED : string := "//Alice".
Definition DEFAULT_MULTISIG_THRESHOLD : Z := 0.
Definition DEFAULT_OUT_FILE_PATH : string := ".".
Definition DEFAULT_CLAIM_MSG_PREFIX : string := "zkverify claim".

(** [args[++i]] as a value: a string or [undefined]. *)
Definition arg_val (a : option string) : jsval :=
  match a with Some s => VStr s | None => VUndef end.

(** The endpoint option: a key of [DEFAULT_WS_ENDPOINTS] or a URL. *)
Definition resolve_endpoint (a : option string) : option string :=
  match a with
  | Some key => match DEFAULT_WS_ENDPOINTS key with Some url => Some url | None => Some key end
  | None => None
  end.

Definition is_opt (arg short long : string) : bool :=
  bool_decide (arg = short) || bool_decide (arg = long).

(** ** claim_init.js *)

Record init_options : Type := InitOptions {
  csv_file : option string;
  ws_endpoint : option string;
  ss58_prefix : jsval;
  batch_size : jsval;
  address_col_label : option string;
  amount_col_label : option string;
  secret : option string;
  threshold : jsval;
  multisig_addresses : list (option string);
  out_file_path : option string;
  claim_msg : option string
}.

(** [now] is [Date.now()], printed. *)
Definition init_defaults (now : string) : init_options :=
  {| csv_file := None;
     ws_endpoint := Some DEFAULT_WS_ENDPOINT;
     ss58_prefix := VNum (of_Z DEFAULT_PREFIX);
     batch_size := VNum (of_Z DEFAULT_BATCH_SIZE);
     address_col_label := Some DEFAULT_ADDRESS_COL;
     amount_col_label := Some DEFAULT_AMOUNT_COL;
     secret := Some DEFAULT_SEED;
     threshold := VNum (of_Z DEFAULT_MULTISIG_THRESHOLD);
     multisig_addresses := [];
     out_file_path := Some DEFAULT_OUT_FILE_PATH;
     claim_msg := Some (DEFAULT_CLAIM_MSG_PREFIX +:+ " " +:+ now) |}.

Definition set_ws_endpoint v o := InitOptions (csv_file o) v (ss58_prefix o) (batch_size o)
  (address_col_label o) (amount_col_label o) (secret o) (threshold o) (multisig_addresses o)
  (out_file_path o) (claim_msg o).
Definition set_ss58_prefix v o := InitOptions (csv_file o) (ws_endpoint o) v (batch_size o)
  (address_col_label o) (amount_col_label o) (secret o) (threshold o) (multisig_addresses o)
  (out_file_path o) (claim_msg o).
Definition set_batch_size v o := InitOptions (csv_file o) (ws_endpoint o) (ss58_prefix o) v
  (address_col_label o) (amount_col_label o) (secret o) (threshold o) (multisig_addresses o)
  (out_file_path o) (claim_msg o).
Definition set_address_col v o := InitOptions (csv_file o) (ws_endpoint o) (ss58_prefix o)
  (batch_size o) v (amount_col_label o) (secret o) (threshold o) (multisig_addresses o)
  (out_file_path o) (claim_msg o).
Definition set_amount_col v o := InitOptions (csv_file o) (ws_endpoint o) (ss58_prefix o)
  (batch_size o) (address_col_label o) v (secret o) (threshold o) (multisig_addresses o)
  (out_file_path o) (claim_msg o).
Definition set_secret v o := InitOptions (csv_file o) (ws_endpoint o) (ss58_prefix o)
  (batch_size o) (address_col_label o) (amount_col_label o) v (threshold o)
  (multisig_addresses o) (out_file_path o) (claim_msg o).
Definition set_threshold v o := InitOptions (csv_file o) (ws_endpoint o) (ss58_prefix o)
  (batch_size o) (address_col_label o) (amount_col_label o) (secret o) v
  (multisig_addresses o) (out_file_path o) (claim_msg o).
Definition set_multisig v o := InitOptions (csv_file o) (ws_endpoint o) (ss58_prefix o)
  (batch_size o) (address_col_label o) (amount_col_label o) (secret o) (threshold o) v
  (out_file_path o) (claim_msg o).
Definition set_out_path v o := InitOptions (csv_file o) (ws_endpoint o) (ss58_prefix o)
  (batch_size o) (address_col_label o) (amount_col_label o) (secret o) (threshold o)
  (multisig_addresses o) v (claim_msg o).
Definition set_claim_msg v o := InitOptions (csv_file o) (ws_endpoint o) (ss58_prefix o)
  (batch_size o) (address_col_label o) (amount_col_label o) (secret o) (threshold o)
  (multisig_addresses o) (out_file_path o) v.
Definition set_csv_file v o := InitOptions v (ws_endpoint o) (ss58_prefix o)
  (batch_size o) (address_col_label o) (amount_col_label o) (secret o) (threshold o)
  (multisig_addresses o) (out_file_path o) (claim_msg o).

(** What an option that takes a value does with it. *)
Definition init_option (arg : string) : option (option string → init_options → init_options) :=
  if is_opt arg "-e" "--end-point" then Some (λ v, set_ws_endpoint (resolve_endpoint v))
  else if is_opt arg "-p" "--prefix" then Some (λ v, set_ss58_prefix (arg_val v))
  else if is_opt arg "-b" "--batch-size" then Some (λ v, set_batch_size (arg_val v))
  else if is_opt arg "-k" "--claim-msg" then Some set_claim_msg
  else if is_opt arg "-u" "--uri" then Some set_secret
  else if is_opt arg "-m" "--multi-address" then
    (* the default array is empty, so resetting it at the first address and
       pushing is appending *)
    Some (λ v o, set_multisig (multisig_addresses o ++ [v]) o)
  else if is_opt arg "-n" "--multi-threshold" then Some (λ v, set_threshold (arg_val v))
  else if is_opt arg "-o" "--out" then Some set_out_path
  else if is_opt arg "-s" "--col-address" then Some set_address_col
  else if is_opt arg "-t" "--col-amount" then Some set_amount_col
  else None.

Fixpoint init_loop (args : list string) (extra : list string) (o : init_options)
    : js (list string * init_options) :=
  match args with
  | [] => Ret (extra, o)
  | a :: rest =>
      match init_option a with
      | Some set =>
          match rest with
          | [] => Ret (extra, set None o)
          | v :: rest' => init_loop rest' extra (set (Some v) o)
          end
      | None =>
          if is_opt a "-h" "--help" then Exit 1
          else init_loop rest (extra ++ [a]) o
      end
  end.

(** The final test; [usage()] exits with code 1. *)
Definition init_rejected (extra : list string) (o : init_options) : bool :=
  let addresses := of_Z (Z.of_nat (length (multisig_addresses o))) in
  negb (Z.of_nat (length extra) =? 1)
  || num_ltb addresses (to_num (threshold o))
  || (negb (length (multisig_addresses o) =? 0)%nat && num_eqb (to_num (threshold o)) (Fin 0 0))
  || num_leb (to_num (batch_size o)) (Fin 0 0).

Definition parse_args (now : string) (args : list string) : js init_options :=
  r ← init_loop args [] (init_defaults now);
  let '(extra, o) := r in
  if init_rejected extra o then Exit 1 else Ret (set_csv_file (head extra) o).

(** ** claim_final_approve.js *)

Record approve_options : Type := ApproveOptions {
  a_ws_endpoint : option string;
  a_ss58_prefix : jsval;
  a_secret : option string;
  a_out_file_path : option string
}.

Definition approve_defaults : approve_options :=
  ApproveOptions (Some DEFAULT_WS_ENDPOINT) (VNum (of_Z DEFAULT_PREFIX)) (Some DEFAULT_SEED)
    (Some DEFAULT_OUT_FILE_PATH).

Definition approve_option (arg : string)
    : option (option string → approve_options → approve_options) :=
  if is_opt arg "-e" "--end-point" then
    Some (λ v o, ApproveOptions (resolve_endpoint v) (a_ss58_prefix o) (a_secret o) (a_out_file_path o))
  else if is_opt arg "-p" "--prefix" then
    Some (λ v o, ApproveOptions (a_ws_endpoint o) (arg_val v) (a_secret o) (a_out_file_path o))
  else if is_opt arg "-u" "--uri" then
    Some (λ v o, ApproveOptions (a_ws_endpoint o) (a_ss58_prefix o) v (a_out_file_path o))
  else if is_opt arg "-o" "--out" then
    Some (λ v o, ApproveOptions (a_ws_endpoint o) (a_ss58_prefix o) (a_secret o) v)
  else None.

Fixpoint approve_loop (args : list string) (extra : list string) (o : approve_options)
    : js (list string * approve_options) :=
  match args with
  | [] => Ret (extra, o)
  | a :: rest =>
      match approve_option a with
      | Some set =>
          match rest with
          | [] => Ret (extra, set None o)
          | v :: rest' => approve_loop rest' extra (set (Some v) o)
          end
      | None =>
          if is_opt a "-h" "--help" then Exit 1
          else approve_loop rest (extra ++ [a]) o
      end
  end.

Definition approve_parse_args (args : list string) : js approve_options :=
  r ← approve_loop args [] approve_defaults;
  let '(extra, o) := r in
  if negb (Z.of_nat (length extra) =? 0) then Exit 1 else Ret o.

(** ** Reference: a fully specified command line *)

Record init_cli : Type := InitCli {
  cli_endpoint : string; cli_prefix : string; cli_batch : string; cli_msg : string;
  cli_seed : string; cli_addresses : list string; cli_threshold : string; cli_out : string;
  cli_address_col : string; cli_amount_col : string; cli_file : string
}.

Definition render (c : init_cli) : list string :=
  ["-e"; cli_endpoint c; "-p"; cli_prefix c; "-b"; cli_batch c; "-k"; cli_msg c;
   "-u"; cli_seed c] ++
  (a ← cli_addresses c; ["-m"; a]) ++
  ["-n"; cli_threshold c; "-o"; cli_out c; "-s"; cli_address_col c; "-t"; cli_amount_col c;
   cli_file c].

Definition cli_options (c : init_cli) : init_options :=
  {| csv_file := Some (cli_file c);
     ws_endpoint := resolve_endpoint (Some (cli_endpoint c));
     ss58_prefix := VStr (cli_prefix c);
     batch_size := VStr (cli_batch c);
     address_col_label := Some (cli_address_col c);
     amount_col_label := Some (cli_amount_col c);
     secret := Some (cli_seed c);
     threshold := VStr (cli_threshold c);
     multisig_addresses := Some <$> cli_addresses c;
     out_file_path := Some (cli_out c);
     claim_msg := Some (cli_msg c) |}.

(** A word the parser takes for the input file. *)
Definition positional (w : string) : Prop :=
  init_option w = None ∧ is_opt w "-h" "--help" = false.

(** ** Lemmas *)

Lemma init_loop_opt a set v rest extra o :
  init_option a = Some set →
  init_loop (a :: v :: rest) extra o = init_loop rest extra (set (Some v) o).
Proof. intros H. cbn [init_loop]. by rewrite H. Qed.

Lemma init_loop_addresses addrs rest extra o :
  init_loop ((a ← addrs; ["-m"; a]) ++ rest) extra o =
  init_loop rest extra (set_multisig (multisig_addresses o ++ (Some <$> addrs)) o).
Proof.
  revert o. induction addrs as [|a addrs IH]; intros o.
  { simpl. rewrite app_nil_r. by destruct o. }
  change ((a' ← a :: addrs; ["-m"; a']) ++ rest)
    with ("-m" :: a :: ((a' ← addrs; ["-m"; a']) ++ rest)).
  erewrite init_loop_opt by done. rewrite IH. simpl. by rewrite <- app_assoc.
Qed.

Lemma init_loop_render now c :
  positional (cli_file c) →
  init_loop (render c) [] (init_defaults now) =
  Ret ([cli_file c], set_csv_file None (cli_options c)).
Proof.
  intros [Hf Hh]. unfold render. simpl app.
  do 5 (erewrite init_loop_opt by done). rewrite init_loop_addresses.
  do 4 (erewrite init_loop_opt by done). cbn [init_loop]. rewrite Hf, Hh. done.
Qed.

Lemma set_multisig_length v o :
  length (multisig_addresses (set_multisig (multisig_addresses o ++ [v]) o)) =
  S (length (multisig_addresses o)).
Proof. simpl. rewrite length_app. simpl. lia. Qed.

Lemma init_option_addresses a set v o :
  init_option a = Some set →
  (length (multisig_addresses (set v o)) ≤ S (length (multisig_addresses o)))%nat.
Proof.
  unfold init_option. intros H.
  repeat match goal with
  | H : (if ?b then _ else _) = Some _ |- _ => destruct b; [simplify_eq; simpl; auto; try lia|]
  end; [|done]. rewrite length_app. simpl. lia.
Qed.

Lemma init_loop_addresses_length n args extra o extra' o' :
  (length args ≤ n)%nat →
  init_loop args extra o = Ret (extra', o') →
  (length (multisig_addresses o') ≤ length (multisig_addresses o) + length args)%nat.
Proof.
  revert args extra o. induction n as [|n IH]; intros args extra o Hn H.
  { destruct args; [|simpl in *; lia]. simpl in H. simplify_eq. lia. }
  destruct args as [|a args]; cbn [init_loop] in H; [simplify_eq; lia|].
  destruct (init_option a) as [set|] eqn:Ha.
  - destruct args as [|v args].
    + simplify_eq. pose proof (init_option_addresses a set None o Ha). simpl. lia.
    + pose proof (init_option_addresses a set (Some v) o Ha).
      apply IH in H; simpl in *; lia.
  - destruct (is_opt a "-h" "--help"); [done|]. apply IH in H; simpl in *; lia.
Qed.

(** ** Properties *)

(** Writing out every option of [claim_init.js] on the command line and parsing
    it gives those options back, or the usage exit when the final test rejects
    them. *)
Theorem parse_args_render now c :
  positional (cli_file c) →
  parse_args now (render c) =
  (if init_rejected [cli_file c] (cli_options c) then Exit 1 else Ret (cli_options c)).
Proof.
  intros H. unfold parse_args. rewrite (init_loop_render now c H). simpl.
  unfold init_rejected. simpl. by case_match.
Qed.

Definition sample_cli : init_cli :=
  InitCli "volta" "251" "2" "msg" "//Charlie" ["a"; "b"; "c"] "2" "out" "address" "total" "f.csv".

Lemma parse_args_render_witness :
  parse_args "0" (render sample_cli) = Ret (cli_options sample_cli).
Proof.
  rewrite (parse_args_render "0" sample_cli); [|split; reflexivity].
  vm_compute. reflexivity.
Defined.

(** Accepted options name an input file, a multisig threshold (when it is an
    integer) between one and the number of addresses exactly when there are
    addresses, and a batch size that is positive when it is an integer. *)
Theorem parse_args_accepted now args o :
  Z.of_nat (length args) < 2 ^ 53 →
  parse_args now args = Ret o →
  is_Some (csv_file o) ∧
  (∀ b, is_int (to_num (batch_size o)) b → 0 < b) ∧
  (∀ t, is_int (to_num (threshold o)) t →
     t ≤ Z.of_nat (length (multisig_addresses o)) ∧
     (t = 0 → multisig_addresses o = [])).
Proof.
  intros Hlen H. unfold parse_args in H.
  destruct (init_loop args [] (init_defaults now)) as [[extra o']|e|c|] eqn:E; simpl in H; try done.
  destruct (init_rejected extra o') eqn:Hr; simplify_eq.
  pose proof (init_loop_addresses_length (length args) args _ _ _ _ ltac:(lia) E) as Hm.
  simpl in Hm. unfold init_rejected in Hr. rewrite !orb_false_iff in Hr.
  destruct Hr as [[[He Ht] Ha] Hb]. simpl. split_and!.
  - destruct extra as [|f [|]]; simpl in He; try done.
  - intros b Hi. rewrite (num_leb_int _ _ b 0) in Hb; [lia|done|apply is_int_0].
  - intros t Hi.
    rewrite (num_ltb_int _ _ (Z.of_nat (length (multisig_addresses o'))) t) in Ht;
      [|apply of_Z_exact; lia|done].
    split; [lia|]. intros ->. rewrite (num_eqb_int _ _ 0 0) in Ha; [|done|apply is_int_0].
    destruct (multisig_addresses o'); [done|]. simpl in Ha. done.
Qed.

Lemma parse_args_accepted_witness :
  let o := set_csv_file (Some "f.csv") (set_batch_size (VStr "3") (init_defaults "0")) in
  parse_args "0" ["-b"; "3"; "f.csv"] = Ret o ∧ is_Some (csv_file o).
Proof.
  intros o. assert (H : parse_args "0" ["-b"; "3"; "f.csv"] = Ret o) by (vm_compute; reflexivity).
  split; [exact H|].
  destruct (parse_args_accepted "0" ["-b"; "3"; "f.csv"] o) as [Hs _]; [done|exact H|exact Hs].
Defined.
