(* ===== verification/ClaimFiles.v ===== *)
(** * Files exchanged between the claim scripts

    [claim_init.js] leaves one directory per signatory with the encoded calls
    to approve; [claim_final_approve.js] reads its own back.  The file system
    is the set of directories and the contents of the files, by path. *)

From Stdlib Require Import Ascii.
From stdpp Require Import pretty.
From S2P Require Import Prelude JsString.

(** ** The file system *)

Record fsys : Type := FS {
  files : gmap string string;
  dirs : gset string
}.

(** Every path that exists. *)
Definition paths (fs : fsys) : gset string := dom (files fs) ∪ dirs fs.

(** [fs.existsSync] *)
Definition existsSync (fs : fsys) (path : string) : bool := bool_decide (path ∈ paths fs).

(** [a], [a/b], [a/b/c] for the path [a/b/c]. *)
Fixpoint path_prefixes (acc path : string) : list string :=
  match path with
  | EmptyString => [acc]
  | String c rest =>
      if decide (c = "/"%char) then acc :: path_prefixes (acc +:+ "/") rest
      else path_prefixes (acc +:+ String c "") rest
  end.

(** [fs.mkdirSync(path, { recursive: true })]; a file in the way is an error. *)
Definition mkdirSync (fs : fsys) (path : string) : js fsys :=
  let ps := path_prefixes "" path in
  if existsb (λ p, bool_decide (is_Some (files fs !! p))) ps
  then Throw (JsError "EEXIST")
  else Ret (FS (files fs) (list_to_set ps ∪ dirs fs)).

(** [fs.writeFileSync] *)
Definition writeFileSync (fs : fsys) (path content : string) : fsys :=
  FS (<[path := content]> (files fs)) (dirs fs).

(** ** claim_init.js *)

(** [`${path}/${fname_prefix}_${addr}_${idx}.txt`] *)
Definition file_name (path fname_prefix addr : string) (idx : nat) : string :=
  path +:+ "/" +:+ fname_prefix +:+ "_" +:+ addr +:+ "_" +:+ pretty idx +:+ ".txt".

(** The [do ... while] search for a free name; [fuel] bounds the rounds. *)
Fixpoint free_index (fuel : nat) (fs : fsys) (path fname_prefix addr : string) (idx : nat) : nat :=
  match fuel with
  | O => idx
  | S fuel =>
      if existsSync fs (file_name path fname_prefix addr idx)
      then free_index fuel fs path fname_prefix addr (S idx)
      else idx
  end.

Definition write_new_file_name (fs : fsys) (path fname_prefix addr data : string)
    : js (fsys * string) :=
  fs' ← mkdirSync fs path;
  let idx := free_index (S (size (paths fs'))) fs' path fname_prefix addr 0 in
  let fname := file_name path fname_prefix addr idx in
  Ret (writeFileSync fs' fname data, fname).

Definition out_dir (out_path addr : string) : string := out_path +:+ "/" +:+ addr.

Fixpoint check_no_prev_calls (fs : fsys) (out_path : string) (addrs : list string) : bool :=
  match addrs with
  | [] => true
  | addr :: addrs =>
      if existsSync fs (out_dir out_path addr) then false
      else check_no_prev_calls fs out_path addrs
  end.

(** ** claim_final_approve.js *)

(** [None] is [undefined]; reading a directory raises. *)
Definition read_file_name (fs : fsys) (path fname_prefix addr : string) (idx : nat)
    : js (option string) :=
  let fname := file_name (out_dir path addr) fname_prefix addr idx in
  if existsSync fs fname
  then match files fs !! fname with
       | Some content => Ret (Some content)
       | None => Throw (JsError "EISDIR")
       end
  else Ret None.

Fixpoint read_files_loop (fuel : nat) (fs : fsys) (path fname_prefix addr : string)
    (txs : list string) (idx : nat) : js (list string) :=
  match fuel with
  | O => Ret txs
  | S fuel =>
      tx ← read_file_name fs path fname_prefix addr idx;
      match tx with
      | None => Ret txs
      | Some tx => read_files_loop fuel fs path fname_prefix addr (txs ++ [tx]) (S idx)
      end
  end.

Definition read_files (fs : fsys) (path fname_prefix addr : string) : js (list string) :=
  read_files_loop (S (size (paths fs))) fs path fname_prefix addr [] 0.

(** ** Well-formed file systems *)

Fixpoint no_slash (s : string) : bool :=
  match s with
  | EmptyString => true
  | String c s => negb (bool_decide (c = "/"%char)) && no_slash s
  end.

(** Whatever exists is in a directory that exists. *)
Definition fs_wf (fs : fsys) : Prop :=
  ∀ d n, no_slash n = true → d +:+ "/" +:+ n ∈ paths fs → d ∈ dirs fs.

(** ** Lemmas: names *)

Lemma append_inj_r (s t u : string) : s +:+ t = s +:+ u → t = u.
Proof. apply String.app_inj. Qed.

Lemma append_inj_tail (s t u : string) :
  String.length s = String.length t → s +:+ u = t +:+ u → s = t.
Proof.
  revert t. induction s as [|c s IH]; intros [|d t]; simpl; try done.
  rewrite !append_cons. intros [= Hl] [= -> H]. f_equal. by apply IH.
Qed.

Lemma append_cancel_r (s t u : string) : s +:+ u = t +:+ u → s = t.
Proof.
  intros H. apply append_inj_tail in H; [done|].
  apply (f_equal String.length) in H. rewrite !length_append in H. lia.
Qed.

#[export] Instance file_name_inj path p addr : Inj (=) (=) (file_name path p addr).
Proof.
  intros i j H. unfold file_name in H. do 6 apply append_inj_r in H.
  apply append_cancel_r in H. by apply (inj pretty) in H.
Qed.

Lemma no_slash_app s t : no_slash (s +:+ t) = no_slash s && no_slash t.
Proof.
  induction s as [|c s IH]; [done|]. rewrite append_cons. simpl. by rewrite IH, andb_assoc.
Qed.

(** The first slash separates. *)
Lemma slash_split a b r r' :
  no_slash a = true → no_slash b = true → a +:+ "/" +:+ r = b +:+ "/" +:+ r' → a = b ∧ r = r'.
Proof.
  revert b. induction a as [|c a IH]; intros [|d b] Ha Hb H; repeat rewrite ?append_nil, ?append_cons in H;
    injection H; clear H.
  - intros ->. done.
  - intros _ <-. done.
  - intros _ ->. done.
  - simpl in Ha, Hb. apply andb_true_iff in Ha as [_ Ha], Hb as [_ Hb].
    intros H ->. destruct (IH b Ha Hb H) as [-> ->]. done.
Qed.

Lemma path_prefixes_prefix acc path p :
  p ∈ path_prefixes acc path → ∃ t, acc +:+ path = p +:+ t.
Proof.
  revert acc. induction path as [|c path IH]; intros acc; cbn [path_prefixes].
  { intros ->%list_elem_of_singleton. by exists "". }
  destruct (decide (c = "/"%char)) as [->|].
  - rewrite elem_of_cons. intros [->|Hp]; [by eexists|].
    destruct (IH _ Hp) as [t Ht]. exists t. rewrite <- Ht. by rewrite append_assoc.
  - intros Hp. destruct (IH _ Hp) as [t Ht]. exists t. rewrite <- Ht. by rewrite append_assoc.
Qed.

Lemma path_prefixes_self acc path : acc +:+ path ∈ path_prefixes acc path.
Proof.
  revert acc. induction path as [|c path IH]; intros acc; cbn [path_prefixes].
  { rewrite append_empty_r. left. }
  case_decide as Hc; [subst; right|];
    [specialize (IH (acc +:+ "/"))|specialize (IH (acc +:+ String c ""))];
    by rewrite append_assoc in IH.
Qed.

Lemma append_length_ne (s t : string) : (0 < String.length t)%nat → s +:+ t ≠ s.
Proof. intros Ht H. apply (f_equal String.length) in H. rewrite length_append in H. lia. Qed.

(** The names of a directory's files are not among its own prefixes. *)
Lemma file_name_not_prefix path p addr i :
  file_name path p addr i ∉ path_prefixes "" path.
Proof.
  intros Hin. apply path_prefixes_prefix in Hin as [t Ht]. rewrite append_nil in Ht.
  unfold file_name in Ht. apply (f_equal String.length) in Ht.
  rewrite !length_append in Ht. simpl in Ht. lia.
Qed.

(** ** Lemmas: the two loops *)

Section names.
Context (path p addr : string).
Abbreviation name := (file_name path p addr).

(** Distinct existing names are no more than the existing paths. *)
Lemma names_bound fs n :
  (∀ i, (i < n)%nat → name i ∈ paths fs) → (n ≤ size (paths fs))%nat.
Proof.
  intros H. set (X := (list_to_set (name <$> seq 0 n) : gset string)).
  assert (Hnd : NoDup (name <$> seq 0 n)) by (apply (NoDup_fmap_2 _), NoDup_seq).
  transitivity (size X); [|apply subseteq_size].
  - unfold X. rewrite size_list_to_set by done. by rewrite length_fmap, length_seq.
  - intros f. unfold X. rewrite elem_of_list_to_set, list_elem_of_fmap.
    intros (i & -> & Hi). apply elem_of_seq in Hi. apply H. lia.
Qed.

Lemma free_index_run fuel fs idx :
  let k := free_index fuel fs path p addr idx in
  (idx ≤ k)%nat ∧ (∀ i, ((idx ≤ i)%nat ∧ (i < k)%nat) → name i ∈ paths fs) ∧
  (name k ∉ paths fs ∨ k = (idx + fuel)%nat).
Proof.
  revert idx. induction fuel as [|fuel IH]; intros idx; cbn [free_index].
  { split_and!; [done|lia|right; lia]. }
  unfold existsSync. case_bool_decide as He.
  - destruct (IH (S idx)) as (Hle & Hall & Hk). split_and!; [lia| |].
    + intros i Hi. destruct (decide (i = idx)) as [->|]; [done|]. apply Hall. lia.
    + destruct Hk as [?|?]; [by left|right; lia].
  - split_and!; [done|lia|by left].
Qed.

(** The search stops at the first free index. *)
Lemma free_index_spec fs :
  let k := free_index (S (size (paths fs))) fs path p addr 0 in
  (name k ∉ paths fs) ∧ (∀ i, (i < k)%nat → name i ∈ paths fs).
Proof.
  intros k. destruct (free_index_run (S (size (paths fs))) fs 0) as (_ & Hall & Hk).
  fold k in Hall, Hk. assert (Hall' : ∀ i, (i < k)%nat → name i ∈ paths fs).
  { intros i Hi. apply Hall. lia. }
  split; [|done]. destruct Hk as [?|Hk]; [done|].
  pose proof (names_bound fs k Hall'). lia.
Qed.

Lemma free_index_unique fs n :
  (∀ i, (i < n)%nat → name i ∈ paths fs) → name n ∉ paths fs →
  free_index (S (size (paths fs))) fs path p addr 0 = n.
Proof.
  intros Hlt Hn. destruct (free_index_spec fs) as [Hk Hall]. revert Hk Hall.
  generalize (free_index (S (size (paths fs))) fs path p addr 0) as k. intros k Hk Hall.
  destruct (decide (k < n)%nat); [by destruct Hk; apply Hlt|].
  destruct (decide (n < k)%nat); [by destruct Hn; apply Hall|]. lia.
Qed.
End names.

Lemma read_files_loop_spec fuel fs path p addr l acc k :
  let name := file_name (out_dir path addr) p addr in
  (length l < fuel)%nat →
  (∀ i d, l !! i = Some d → files fs !! name (k + i)%nat = Some d) →
  name (k + length l)%nat ∉ paths fs →
  read_files_loop fuel fs path p addr acc k = Ret (acc ++ l).
Proof.
  intros name. revert acc k l. induction fuel as [|fuel IH]; intros acc k l Hf Hl Hend; [lia|].
  cbn [read_files_loop]. unfold read_file_name. fold name. unfold existsSync.
  destruct l as [|d l].
  - rewrite Nat.add_0_r in Hend. rewrite bool_decide_eq_false_2 by done. simpl.
    by rewrite app_nil_r.
  - pose proof (Hl 0%nat d eq_refl) as H0. rewrite Nat.add_0_r in H0.
    rewrite bool_decide_eq_true_2; [|apply elem_of_union_l, elem_of_dom; eauto].
    rewrite H0. simpl. rewrite (IH _ (S k) l).
    + by rewrite <- app_assoc.
    + simpl in Hf. lia.
    + intros i d' Hi. replace (S k + i)%nat with (k + S i)%nat by lia. by apply Hl.
    + by replace (S k + length l)%nat with (k + length (d :: l))%nat by (simpl; lia).
Qed.

(** [read_files] returns the contents of the files numbered from [0] up to the
    first number missing. *)
Lemma read_files_spec fs path p addr l :
  let name := file_name (out_dir path addr) p addr in
  (∀ i d, l !! i = Some d → files fs !! name i = Some d) →
  name (length l) ∉ paths fs →
  read_files fs path p addr = Ret l.
Proof.
  intros name Hl Hend. unfold read_files.
  rewrite (read_files_loop_spec _ _ _ _ _ l [] 0); [done| |done|done].
  enough (length l ≤ size (paths fs))%nat by lia.
  apply (names_bound (out_dir path addr) p addr). intros i Hi.
  apply lookup_lt_is_Some in Hi as [d Hd]. apply elem_of_union_l, elem_of_dom. eauto.
Qed.

(** ** Lemmas: writing *)

(** No file stands where a directory of [path] is needed. *)
Definition dir_clear (fs : fsys) (path : string) : Prop :=
  Forall (λ q, files fs !! q = None) (path_prefixes "" path).

Lemma mkdirSync_clear fs path :
  dir_clear fs path →
  mkdirSync fs path = Ret (FS (files fs) (list_to_set (path_prefixes "" path) ∪ dirs fs)).
Proof.
  intros H. unfold mkdirSync.
  destruct (existsb _ _) eqn:E; [|done]. apply existsb_exists in E as (q & Hq & Hf).
  apply bool_decide_eq_true in Hf. unfold dir_clear in H. rewrite list.Forall_forall in H.
  apply list_elem_of_In in Hq. rewrite (H q Hq) in Hf. by destruct Hf.
Qed.

(** Writing takes the first free number and touches nothing else. *)
Lemma write_new_file_name_spec fs path p addr data n :
  dir_clear fs path →
  (∀ i, (i < n)%nat → is_Some (files fs !! file_name path p addr i)) →
  file_name path p addr n ∉ paths fs →
  write_new_file_name fs path p addr data =
  Ret (FS (<[file_name path p addr n := data]> (files fs))
          (list_to_set (path_prefixes "" path) ∪ dirs fs), file_name path p addr n).
Proof.
  intros Hc Hlt Hn. unfold write_new_file_name. rewrite (mkdirSync_clear _ _ Hc).
  cbn -[free_index size paths]. rewrite (free_index_unique path p addr _ n); [done| |].
  - intros i Hi. apply elem_of_union_l, elem_of_dom. simpl. by apply Hlt.
  - unfold paths in *. simpl. intros [?|[H|?]%elem_of_union]%elem_of_union; [set_solver| |set_solver].
    apply elem_of_list_to_set in H. by eapply file_name_not_prefix.
Qed.

Lemma dir_clear_write fs path p addr n data ds :
  dir_clear fs path → dir_clear (FS (<[file_name path p addr n := data]> (files fs)) ds) path.
Proof.
  unfold dir_clear. rewrite !list.Forall_forall. intros H q Hq. simpl.
  rewrite lookup_insert_ne; [by apply H|].
  intros <-. by eapply file_name_not_prefix.
Qed.

(** ** Lemmas: one directory per signatory *)

(** [f] is inside the directory of [addr]. *)
Definition inside (out addr f : string) : Prop := ∃ r, f = out_dir out addr +:+ "/" +:+ r.

Lemma out_dir_app out addr r : out_dir out addr +:+ r = out +:+ "/" +:+ (addr +:+ r).
Proof. unfold out_dir. by rewrite !append_assoc. Qed.

Lemma file_name_inside out addr p addr' i : inside out addr (file_name (out_dir out addr) p addr' i).
Proof. by eexists. Qed.

(** Two signatories share no file. *)
Lemma inside_disjoint out addr addr' f :
  no_slash addr = true → no_slash addr' = true → addr ≠ addr' →
  inside out addr f → ¬ inside out addr' f.
Proof.
  intros H1 H2 Hne [r ->] [r' H]. rewrite !out_dir_app in H. do 2 apply append_inj_r in H.
  by apply slash_split in H as [? _].
Qed.

(** No directory on the way to a signatory's is inside a signatory's. *)
Lemma inside_not_prefix out addr addr' f :
  no_slash addr' = true → inside out addr f → f ∉ path_prefixes "" (out_dir out addr').
Proof.
  intros H [r ->] Hin. apply path_prefixes_prefix in Hin as [t Ht].
  rewrite append_nil, out_dir_app in Ht. unfold out_dir in Ht. rewrite !append_assoc in Ht.
  do 2 apply append_inj_r in Ht. rewrite Ht, !no_slash_app in H.
  apply andb_true_iff in H as [_ H]. done.
Qed.

(** What writing in the directory of [addr] may change. *)
Record only_inside (out addr : string) (fs fs' : fsys) : Prop := {
  oi_files : ∀ f, ¬ inside out addr f → files fs' !! f = files fs !! f;
  oi_dirs : dirs fs' = list_to_set (path_prefixes "" (out_dir out addr)) ∪ dirs fs
}.

Lemma only_inside_trans out addr fs1 fs2 fs3 :
  only_inside out addr fs1 fs2 → only_inside out addr fs2 fs3 → only_inside out addr fs1 fs3.
Proof.
  intros [F1 D1] [F2 D2]. split.
  - intros f Hf. by rewrite F2, F1.
  - rewrite D2, D1. by rewrite (assoc_L (∪)), union_idemp_L.
Qed.

(** The files of the other signatories are left alone. *)
Lemma only_inside_frame out addr addr' fs fs' f :
  no_slash addr = true → no_slash addr' = true → addr ≠ addr' →
  only_inside out addr fs fs' → inside out addr' f →
  files fs' !! f = files fs !! f ∧ (f ∈ paths fs' ↔ f ∈ paths fs).
Proof.
  intros H1 H2 Hne [F D] Hf.
  assert (Hff : files fs' !! f = files fs !! f).
  { apply F. by apply (inside_disjoint out addr'). }
  split; [done|]. unfold paths. rewrite D, !elem_of_union, !elem_of_dom, Hff, elem_of_list_to_set.
  pose proof (inside_not_prefix out addr' addr f H1 Hf). tauto.
Qed.

Lemma only_inside_clear out addr addr' fs fs' :
  no_slash addr' = true → only_inside out addr fs fs' →
  dir_clear fs (out_dir out addr') → dir_clear fs' (out_dir out addr').
Proof.
  unfold dir_clear. rewrite !list.Forall_forall. intros H [F _] Hc q Hq.
  rewrite F; [by apply Hc|]. intros Hin. by eapply inside_not_prefix.
Qed.

Lemma pretty_N_go_no_slash x s : no_slash s = true → no_slash (pretty_N_go x s) = true.
Proof.
  revert s. induction (N.lt_wf_0 x) as [x _ IH]; intros s Hs.
  destruct (decide (x = 0)%N) as [->|Hx]; [by rewrite pretty_N_go_0|].
  rewrite pretty_N_go_step by lia. apply IH; [apply N.div_lt; lia|].
  unfold pretty_N_char. by repeat case_match.
Qed.

(** Nothing is inside a directory that does not exist. *)
Lemma fs_wf_fresh fs out addr p i :
  fs_wf fs → no_slash p = true → no_slash addr = true →
  out_dir out addr ∉ paths fs → file_name (out_dir out addr) p addr i ∉ paths fs.
Proof.
  intros Hwf Hp Ha Hd Hin. apply Hd, elem_of_union_r. unfold file_name in Hin.
  apply (Hwf _ (p +:+ "_" +:+ addr +:+ "_" +:+ pretty i +:+ ".txt")); [|done].
  rewrite !no_slash_app, Hp, Ha. simpl. rewrite andb_true_r.
  unfold pretty, pretty_nat, pretty, pretty_N. case_decide; [done|].
  apply pretty_N_go_no_slash. done.
Qed.
