(* ===== verification/ClaimMain.v ===== *)
(** * Running a claim campaign ([claim_init.js] and [claim_final_approve.js])

    The calls the scripts build, the preconditions they check, the loop that
    submits one extrinsic per batch, the files written for the other
    signatories and the script that sends the final approvals.  The encoders
    ([methodToHex], [toHex]), the fee estimation and the node's answers are parameters. *)

From stdpp Require Import sorting.
From S2P Require Import Prelude JsString JsNumber ClaimCsv TxLifecycle ClaimArgs ClaimFiles.

Open Scope Z_scope.

Definition INIT_CAMPAIGN : bool := true.
Definition EXISTENTIAL_DEPOSIT : string := "10000000000000000".

(** ** Calls *)

#[warnings="-register-all"]
Inductive call : Type :=
  | BeginClaim (b : jsmap) (msg : option string)
  | BeginAirdrop (b : jsmap)
  | AddBeneficiaries (b : jsmap)
  | AirdropAddBeneficiaries (b : jsmap)
  | Sudo (c : call)
  | AsMulti (threshold : jsval) (others : list (option string))
      (timepoint : option (Z * option Z)) (call_hex : string) (max_weight : Z)
  | ApproveAsMulti (threshold : jsval) (others : list (option string))
      (timepoint : Z * option Z) (call_hash : option string) (max_weight : Z)
  | BatchAll (cs : list call).

(** [Array.prototype.sort()] on strings; [undefined] goes last. *)
Definition sort_strings (l : list (option string)) : list (option string) :=
  (Some <$> merge_sort String.le (omap id l)) ++ filter (λ o, o = None) l.

(** [signatories.filter(key => key != who).sort()] *)
Definition other_signatories (who : string) (signatories : list (option string))
    : list (option string) :=
  sort_strings (filter (λ key, key ≠ Some who) signatories).

(** What the script remembers of a call waiting for approvals. *)
Record multi_call : Type := MultiCall {
  mc_block : Z;
  mc_index : option Z;
  mc_hash : option string;
  mc_weight : Z;
  mc_data : string
}.

Inductive send_result : Type :=
  | SendMinusOne
  | SendUndefined
  | SendSudo (i : tx_info)
  | SendMulti (m : multi_call).

Definition await (o : lc_outcome) : js tx_return :=
  match o with
  | Pending => Hang
  | Returned r => Ret r
  end.

(** [options.threshold > 0] *)
Definition is_multisig (threshold : jsval) : bool := num_ltb (Fin 0 0) (to_num threshold).

(** The string a template literal makes of an optional value. *)
Definition template (s : option string) : string := default "undefined" s.

(** ** Preconditions *)

(** The chain data [check_preconditions] fetches. *)
Record chain_info : Type := ChainInfo {
  claim_active : bool;
  max_batch_size : Z;
  free_balance : Z
}.

Fixpoint sum_amounts (tot : Z) (m : jsmap) : js Z :=
  match m with
  | [] => Ret tot
  | (_, v) :: m => x ← BigInt v; sum_amounts (tot + x) m
  end.

Fixpoint sum_batches (tot : Z) (bs : list jsmap) : js Z :=
  match bs with
  | [] => Ret tot
  | m :: bs => t ← sum_amounts tot m; sum_batches t bs
  end.

Definition check_preconditions (ci : chain_info) (bs : list jsmap) (batch_size : jsval)
    : js bool :=
  if Bool.eqb (claim_active ci) INIT_CAMPAIGN then Ret false
  else
    ed ← BigInt EXISTENTIAL_DEPOSIT;
    tot ← sum_batches ed bs;
    if free_balance ci <? tot then Ret false
    else if num_ltb (of_Z (max_batch_size ci)) (to_num batch_size) then Ret false
    else Ret true.

Section scripts.
(** Third-party code: the encodings of the call, [method.toHex()], and of the
    extrinsic with it, [toHex()]; weight estimation. *)
Context (methodToHex toHex : call → string) (paymentWeight : call → Z).
(** The address of the key that signs, and what the node does with the [m]-th
    extrinsic submitted. *)
Context (account : string) (submit : nat → list attempt).

Definition send_as_multi_sudo (threshold : jsval) (signatories : list (option string))
    (c : call) (attempts : list attempt) : call * js send_result :=
  let sudo_call := Sudo c in
  let proposal :=
    AsMulti threshold (other_signatories account signatories) None (methodToHex sudo_call) 0 in
  (proposal,
   r ← await (handleTransactionLifecycle attempts);
   match r with
   | TxMinusOne => Ret SendMinusOne
   | TxUndefined => Throw TypeError
   | TxSuccess i =>
       Ret (SendMulti (MultiCall (tx_number i) (tx_index i) (tx_call i)
              (paymentWeight sudo_call) (methodToHex sudo_call)))
   end).

Definition send_as_sudo (c : call) (attempts : list attempt) : call * js send_result :=
  (Sudo c,
   r ← await (handleTransactionLifecycle attempts);
   Ret (match r with
        | TxMinusOne => SendMinusOne
        | TxUndefined => SendUndefined
        | TxSuccess i => SendSudo i
        end)).

Definition send (threshold : jsval) (signatories : list (option string)) (c : call)
    (attempts : list attempt) : call * js send_result :=
  if is_multisig threshold then send_as_multi_sudo threshold signatories c attempts
  else send_as_sudo c attempts.

Definition send_begin_claim_tx (threshold : jsval) (signatories : list (option string))
    (b : jsmap) (msg : option string) (attempts : list attempt) : call * js send_result :=
  send threshold signatories
    (if USE_PALLET_TOKEN_CLAIM then BeginClaim b msg else BeginAirdrop b) attempts.

Definition send_add_beneficiaries_tx (threshold : jsval) (signatories : list (option string))
    (b : jsmap) (attempts : list attempt) : call * js send_result :=
  send threshold signatories
    (if USE_PALLET_TOKEN_CLAIM then AddBeneficiaries b else AirdropAddBeneficiaries b) attempts.

(** One round of the submission loop of [main]. *)
Definition send_batch (o : init_options) (m : nat) (b : jsmap) : call * js send_result :=
  if INIT_CAMPAIGN && (m =? 0)%nat
  then send_begin_claim_tx (threshold o) (multisig_addresses o) b (claim_msg o) (submit m)
  else send_add_beneficiaries_tx (threshold o) (multisig_addresses o) b (submit m).

(** The extrinsics sent, and the calls to be approved. *)
Fixpoint send_loop (o : init_options) (m : nat) (bs : list jsmap) (to_approve : list multi_call)
    : list call * js (list multi_call) :=
  match bs with
  | [] => ([], Ret to_approve)
  | b :: bs =>
      let '(c, r) := send_batch o m b in
      match r with
      | Ret SendMinusOne => ([c], Ret to_approve)
      | Ret (SendMulti mc) =>
          let '(cs, r) := send_loop o (S m) bs
            (if is_multisig (threshold o) then to_approve ++ [mc] else to_approve) in
          (c :: cs, r)
      | Ret _ => let '(cs, r) := send_loop o (S m) bs to_approve in (c :: cs, r)
      | Throw e => ([c], Throw e)
      | Exit z => ([c], Exit z)
      | Hang => ([c], Hang)
      end
  end.

(** ** Approvals *)

Definition get_approve_as_multi (approvee : multi_call) (threshold : jsval) (approver : string)
    (signatories : list (option string)) : call :=
  ApproveAsMulti threshold (other_signatories approver signatories)
    (mc_block approvee, mc_index approvee) (mc_hash approvee) 0.

Definition get_approve_batch (approvees : list multi_call) (threshold : jsval)
    (approver : string) (signatories : list (option string)) : call :=
  BatchAll ((λ a, get_approve_as_multi a threshold approver signatories) <$> approvees).

Definition get_final_approve (approvee : multi_call) (threshold : jsval) (approver : string)
    (signatories : list (option string)) : call :=
  AsMulti threshold (other_signatories approver signatories)
    (Some (mc_block approvee, mc_index approvee)) (mc_data approvee) (mc_weight approvee).

Fixpoint write_final_approves (fs : fsys) (path addr : string) (hexes : list string) : js fsys :=
  match hexes with
  | [] => Ret fs
  | h :: hexes =>
      r ← write_new_file_name fs path "encoded_final_approve" addr h;
      write_final_approves r.1 path addr hexes
  end.

(** The files for one signatory. *)
Definition write_approvals_for (fs : fsys) (o : init_options) (to_approve : list multi_call)
    (addr : string) : js fsys :=
  let path := out_dir (template (out_file_path o)) addr in
  r ← write_new_file_name fs path "encoded_batch_approve" addr
        (toHex (get_approve_batch to_approve (threshold o) addr (multisig_addresses o)));
  write_final_approves r.1 path addr
    ((λ m, toHex (get_final_approve m (threshold o) addr (multisig_addresses o))) <$> to_approve).

Fixpoint write_approvals (fs : fsys) (o : init_options) (to_approve : list multi_call)
    (addrs : list string) : js fsys :=
  match addrs with
  | [] => Ret fs
  | addr :: addrs =>
      fs' ← write_approvals_for fs o to_approve addr;
      write_approvals fs' o to_approve addrs
  end.

(** ** The two programs *)

(** [main] of claim_init.js once the options are parsed: the extrinsics sent, and
    the file system left behind. *)
Definition run_init (o : init_options) (answer : string) (fs : fsys)
    (csv_data : list (gmap string string)) (ci : chain_info) : list call * js fsys :=
  let addrs := template <$> multisig_addresses o in
  if negb (bool_decide (answer = "Y")) && negb (bool_decide (answer = "y")) then ([], Exit 0)
  else if negb (check_no_prev_calls fs (template (out_file_path o)) addrs) then ([], Exit 1)
  else
    match read_airdrop_csv USE_PALLET_TOKEN_CLAIM csv_data (template (address_col_label o))
            (template (amount_col_label o)) (batch_size o) with
    | Ret bs =>
        match check_preconditions ci bs (batch_size o) with
        | Ret true =>
            let '(sent, r) := send_loop o 0 bs [] in
            (sent, to_approve ← r; write_approvals fs o to_approve addrs)
        | Ret false => ([], Ret fs)
        | Throw e => ([], Throw e)
        | Exit z => ([], Exit z)
        | Hang => ([], Hang)
        end
    | Throw e => ([], Throw e)
    | Exit z => ([], Exit z)
    | Hang => ([], Hang)
    end.

(** The whole script, from its command line. *)
Definition claim_init_main (now : string) (args : list string) (answer : string) (fs : fsys)
    (csv_data : list (gmap string string)) (ci : chain_info) : list call * js fsys :=
  match parse_args now args with
  | Ret o => run_init o answer fs csv_data ci
  | Throw e => ([], Throw e)
  | Exit z => ([], Exit z)
  | Hang => ([], Hang)
  end.

(** claim_final_approve.js: the recorded calls are sent until one fails. *)
Context (isHex : string → bool).

(** [send]: the extrinsics submitted, and the value returned. *)
Definition approve_send (m : nat) (tx : string) : list string * js tx_return :=
  if isHex tx then ([tx], await (handleTransactionLifecycle (submit m)))
  else ([], Ret TxMinusOne).

Fixpoint approve_send_loop (m : nat) (txs : list string) : list string * js unit :=
  match txs with
  | [] => ([], Ret tt)
  | tx :: txs =>
      match approve_send m tx with
      | (sent, Ret TxMinusOne) => (sent, Ret tt)
      | (sent, Ret _) => let '(sent', r) := approve_send_loop (S m) txs in (sent ++ sent', r)
      | (sent, Throw e) => (sent, Throw e)
      | (sent, Exit z) => (sent, Exit z)
      | (sent, Hang) => (sent, Hang)
      end
  end.

Definition run_approve (o : approve_options) (answer : string) (fs : fsys)
    : list string * js unit :=
  if negb (bool_decide (answer = "Y")) && negb (bool_decide (answer = "y")) then ([], Exit 0)
  else
    match read_files fs (template (a_out_file_path o)) "encoded_final_approve" account with
    | Ret txs => approve_send_loop 0 txs
    | Throw e => ([], Throw e)
    | Exit z => ([], Exit z)
    | Hang => ([], Hang)
    end.

Definition claim_final_approve_main (args : list string) (answer : string) (fs : fsys)
    : list string * js unit :=
  match approve_parse_args args with
  | Ret o => run_approve o answer fs
  | Throw e => ([], Throw e)
  | Exit z => ([], Exit z)
  | Hang => ([], Hang)
  end.
End scripts.

(** ** Reference: the campaign as a list of calls *)

(** The call batch number [m] stands for. *)
Definition campaign_call (o : init_options) (m : nat) (b : jsmap) : call :=
  match m with
  | O => BeginClaim b (claim_msg o)
  | S _ => AddBeneficiaries b
  end.

Section campaign.
Context (methodToHex : call → string) (paymentWeight : call → Z) (account : string).

(** The extrinsic that carries a call. *)
Definition extrinsic (o : init_options) (c : call) : call :=
  if is_multisig (threshold o)
  then AsMulti (threshold o) (other_signatories account (multisig_addresses o)) None
         (methodToHex (Sudo c)) 0
  else Sudo c.

Definition campaign (o : init_options) (m : nat) (bs : list jsmap) : list call :=
  imap (λ i b, extrinsic o (campaign_call o (m + i) b)) bs.

(** What is recorded of the call once included as [i]. *)
Definition pending_call (c : call) (i : tx_info) : multi_call :=
  MultiCall (tx_number i) (tx_index i) (tx_call i) (paymentWeight (Sudo c)) (methodToHex (Sudo c)).

Definition pending_calls (o : init_options) (m : nat) (bs : list jsmap) (info : nat → tx_info)
    : list multi_call :=
  imap (λ i b, pending_call (campaign_call o (m + i) b) (info (m + i)%nat)) bs.

(** Whether the loop goes on after the answer to an extrinsic. *)
Definition goes_on (o : init_options) (a : lc_outcome) : bool :=
  match a with
  | Returned (TxSuccess _) => true
  | Returned TxUndefined => negb (is_multisig (threshold o))
  | _ => false
  end.

(** How the loop ends when it does not go on. *)
Definition stops_with (o : init_options) (a : lc_outcome) (to_approve : list multi_call)
    : js (list multi_call) :=
  match a with
  | Returned TxMinusOne => Ret to_approve
  | Pending => Hang
  | _ => Throw TypeError
  end.

(** ** Lemmas on the submission loop *)

Lemma campaign_cons o m b bs :
  campaign o m (b :: bs) = extrinsic o (campaign_call o m b) :: campaign o (S m) bs.
Proof.
  unfold campaign. rewrite imap_cons, Nat.add_0_r. f_equal.
  apply imap_ext. intros i ? _. simpl. by rewrite Nat.add_succ_r.
Qed.

Lemma pending_calls_cons o m b bs info :
  pending_calls o m (b :: bs) info =
  pending_call (campaign_call o m b) (info m) :: pending_calls o (S m) bs info.
Proof.
  unfold pending_calls. rewrite imap_cons, Nat.add_0_r. f_equal.
  apply imap_ext. intros i ? _. simpl. by rewrite Nat.add_succ_r.
Qed.

Lemma campaign_length o m bs : length (campaign o m bs) = length bs.
Proof. apply length_imap. Qed.

Lemma send_batch_eq submit o m b :
  send_batch methodToHex paymentWeight account submit o m b =
  send methodToHex paymentWeight account (threshold o) (multisig_addresses o)
    (campaign_call o m b) (submit m).
Proof. by destruct m. Qed.

(** One round, by the answer of the node. *)
Lemma send_loop_step submit o m b bs acc :
  send_loop methodToHex paymentWeight account submit o m (b :: bs) acc =
  let a := handleTransactionLifecycle (submit m) in
  let c := campaign_call o m b in
  if goes_on o a then
    let r := send_loop methodToHex paymentWeight account submit o (S m) bs
               (match a with
                | Returned (TxSuccess i) =>
                    if is_multisig (threshold o) then acc ++ [pending_call c i] else acc
                | _ => acc
                end) in
    (extrinsic o c :: r.1, r.2)
  else ([extrinsic o c], stops_with o a acc).
Proof.
  cbn [send_loop]. rewrite send_batch_eq. unfold send, extrinsic.
  destruct (is_multisig (threshold o)) eqn:Em;
    unfold send_as_multi_sudo, send_as_sudo, goes_on; rewrite Em;
    destruct (handleTransactionLifecycle (submit m)) as [|[| |i]]; simpl; try done;
    by destruct (send_loop _ _ _ _ _ _ _ _).
Qed.

(** Everything goes on: every call is sent. *)
Lemma send_loop_all submit o m bs acc info :
  (∀ i, (i < length bs)%nat →
     handleTransactionLifecycle (submit (m + i)%nat) = Returned (TxSuccess (info (m + i)%nat)) ∨
     (is_multisig (threshold o) = false ∧
      handleTransactionLifecycle (submit (m + i)%nat) = Returned TxUndefined)) →
  send_loop methodToHex paymentWeight account submit o m bs acc =
  (campaign o m bs,
   Ret (if is_multisig (threshold o) then acc ++ pending_calls o m bs info else acc)).
Proof.
  revert m acc. induction bs as [|b bs IH]; intros m acc H.
  { cbn. rewrite app_nil_r. by destruct (is_multisig _). }
  assert (H0 := H 0%nat ltac:(simpl; lia)). rewrite Nat.add_0_r in H0.
  rewrite send_loop_step, campaign_cons, pending_calls_cons. cbv zeta.
  rewrite IH.
  2:{ intros i Hi. replace (S m + i)%nat with (m + S i)%nat by lia. apply H. simpl. lia. }
  destruct H0 as [->|[Em ->]]; simpl.
  - destruct (is_multisig (threshold o)); simpl; [by rewrite <- app_assoc|done].
  - by rewrite Em.
Qed.

(** Where the loop stops. *)
Lemma send_loop_stops submit o m bs acc :
  ∃ k, (k ≤ length bs)%nat ∧
    (send_loop methodToHex paymentWeight account submit o m bs acc).1 = take k (campaign o m bs) ∧
    (∀ i, (S i < k)%nat → goes_on o (handleTransactionLifecycle (submit (m + i)%nat)) = true) ∧
    ((k < length bs)%nat → ∃ i, k = S i ∧
       goes_on o (handleTransactionLifecycle (submit (m + i)%nat)) = false).
Proof.
  revert m acc. induction bs as [|b bs IH]; intros m acc.
  { exists 0%nat. simpl. split_and!; [done..|lia|lia]. }
  rewrite send_loop_step, campaign_cons. cbv zeta.
  destruct (goes_on o (handleTransactionLifecycle (submit m))) eqn:Eg.
  - destruct (IH (S m) (match handleTransactionLifecycle (submit m) with
        | Returned (TxSuccess i) =>
            if is_multisig (threshold o) then acc ++ [pending_call (campaign_call o m b) i] else acc
        | _ => acc end)) as (k & Hk & Hs & Hgo & Hst).
    exists (S k). split_and!; [simpl; lia|cbn [fst take]; by rewrite Hs| |].
    + intros [|i] Hi; [by rewrite Nat.add_0_r|].
      replace (m + S i)%nat with (S m + i)%nat by lia. apply Hgo. lia.
    + intros Hlt. destruct Hst as (i & -> & Hi); [simpl in Hlt; lia|].
      exists (S i). split; [done|]. by replace (m + S i)%nat with (S m + i)%nat by lia.
  - exists 1%nat. split_and!; [simpl; lia|done|lia|].
    intros _. exists 0%nat. by rewrite Nat.add_0_r.
Qed.

(** The first answer that stops the loop decides how it ends. *)
Lemma send_loop_stop_at submit o m k bs acc info :
  (k < length bs)%nat →
  (∀ i, (i < k)%nat →
     handleTransactionLifecycle (submit (m + i)%nat) = Returned (TxSuccess (info (m + i)%nat))) →
  goes_on o (handleTransactionLifecycle (submit (m + k)%nat)) = false →
  send_loop methodToHex paymentWeight account submit o m bs acc =
  (take (S k) (campaign o m bs),
   stops_with o (handleTransactionLifecycle (submit (m + k)%nat))
     (if is_multisig (threshold o) then acc ++ pending_calls o m (take k bs) info else acc)).
Proof.
  revert m k acc. induction bs as [|b bs IH]; intros m k acc Hk Hs Hstop; [simpl in Hk; lia|].
  rewrite send_loop_step, campaign_cons. cbv zeta. destruct k as [|k].
  { rewrite Nat.add_0_r in Hstop |- *. rewrite Hstop. cbn.
    rewrite app_nil_r. by destruct (is_multisig _). }
  pose proof (Hs 0%nat ltac:(lia)) as H0. rewrite Nat.add_0_r in H0. rewrite H0. cbn [goes_on].
  replace (m + S k)%nat with (S m + k)%nat in * by lia.
  rewrite (IH (S m) k); [|simpl in Hk; lia| |done].
  - cbn [take]. rewrite pending_calls_cons. cbn [fst snd]. f_equal; [].
    destruct (is_multisig (threshold o)); [by rewrite <- app_assoc|done].
  - intros i Hi. replace (S m + i)%nat with (m + S i)%nat by lia. apply Hs. lia.
Qed.
End campaign.

(** ** Lemmas on the files written *)

Abbreviation final_name out addr := (file_name (out_dir out addr) "encoded_final_approve" addr).
Abbreviation batch_name out addr := (file_name (out_dir out addr) "encoded_batch_approve" addr).

(** The directory of [addr] holds exactly the contents [hexes], numbered from 0. *)
Definition holds (fs : fsys) (out addr : string) (hexes : list string) : Prop :=
  (∀ i d, hexes !! i = Some d → files fs !! final_name out addr i = Some d) ∧
  ∀ i, (length hexes ≤ i)%nat → final_name out addr i ∉ paths fs.

Lemma holds_read fs out addr hexes :
  holds fs out addr hexes → read_files fs out "encoded_final_approve" addr = Ret hexes.
Proof. intros [H1 H2]. apply read_files_spec; [done|]. by apply H2. Qed.

Lemma final_batch_ne out addr i j : final_name out addr i ≠ batch_name out addr j.
Proof. unfold file_name. intros H. do 2 apply append_inj_r in H. done. Qed.

(** Appending one file keeps the shape. *)
Lemma holds_snoc fs out addr hexes h :
  no_slash addr = true → dir_clear fs (out_dir out addr) → holds fs out addr hexes →
  ∃ fs', write_new_file_name fs (out_dir out addr) "encoded_final_approve" addr h =
           Ret (fs', final_name out addr (length hexes)) ∧
    holds fs' out addr (hexes ++ [h]) ∧ dir_clear fs' (out_dir out addr) ∧
    only_inside out addr fs fs' ∧
    ∀ f, (∀ i, f ≠ final_name out addr i) → files fs' !! f = files fs !! f.
Proof.
  intros Hns Hc [H1 H2]. eexists. split_and!.
  - apply write_new_file_name_spec; [done| |by apply H2].
    intros i Hi. apply lookup_lt_is_Some in Hi as [d Hd]. rewrite (H1 _ _ Hd). eauto.
  - split; simpl.
    + intros i d [Hi|[Hl Hi]]%lookup_app_Some.
      * rewrite lookup_insert_ne; [by apply H1|].
        intros Heq%(inj (final_name out addr)). apply lookup_lt_Some in Hi. lia.
      * apply list_lookup_singleton_Some in Hi as [Hi ->].
        replace i with (length hexes) by lia. by rewrite lookup_insert_eq.
    + intros i Hi. rewrite length_app in Hi. simpl in Hi. unfold paths. simpl.
      rewrite dom_insert_L, !elem_of_union, elem_of_singleton, elem_of_list_to_set.
      specialize (H2 i ltac:(lia)). unfold paths in H2. rewrite elem_of_union in H2.
      intros [[Heq%(inj (final_name out addr))|?]|[Hp|?]]; [lia|tauto| |tauto].
      by apply (file_name_not_prefix (out_dir out addr)) in Hp.
  - by apply dir_clear_write.
  - split; [|done]. simpl. intros f Hf. apply lookup_insert_ne. intros <-.
    apply Hf, file_name_inside.
  - intros f Hf. apply lookup_insert_ne. intros <-. by eapply Hf.
Qed.

Lemma write_final_approves_spec hexes' fs out addr hexes :
  no_slash addr = true → dir_clear fs (out_dir out addr) → holds fs out addr hexes →
  ∃ fs', write_final_approves fs (out_dir out addr) addr hexes' = Ret fs' ∧
    holds fs' out addr (hexes ++ hexes') ∧ (fs' = fs ∨ only_inside out addr fs fs') ∧
    ∀ f, (∀ i, f ≠ final_name out addr i) → files fs' !! f = files fs !! f.
Proof.
  revert fs hexes. induction hexes' as [|h hexes' IH]; intros fs hexes Hns Hc Hh.
  { exists fs. rewrite app_nil_r. split_and!; [done..|by left|done]. }
  cbn [write_final_approves].
  destruct (holds_snoc fs out addr hexes h Hns Hc Hh) as (fs1 & -> & Hh1 & Hc1 & Ho1 & Hf1).
  destruct (IH fs1 _ Hns Hc1 Hh1) as (fs2 & Hw & Hh2 & Ho2 & Hf2). exists fs2.
  rewrite <- app_assoc in Hh2. split_and!; [done..|right|].
  - destruct Ho2 as [->|Ho2]; [done|by eapply only_inside_trans].
  - intros f Hf. by rewrite Hf2, Hf1.
Qed.

Section approvals.
Context (toHex : call → string) (o : init_options) (ms : list multi_call).
Abbreviation out := (template (out_file_path o)).

(** The encoded final approvals of one signatory. *)
Definition final_hexes (addr : string) : list string :=
  (λ m, toHex (get_final_approve m (threshold o) addr (multisig_addresses o))) <$> ms.

(** Nothing of [addr] has been written yet. *)
Definition untouched (fs : fsys) (addr : string) : Prop :=
  dir_clear fs (out_dir out addr) ∧ holds fs out addr [] ∧ batch_name out addr 0 ∉ paths fs.

Lemma write_approvals_for_spec fs addr :
  no_slash addr = true → untouched fs addr →
  ∃ fs', write_approvals_for toHex fs o ms addr = Ret fs' ∧
    holds fs' out addr (final_hexes addr) ∧
    files fs' !! batch_name out addr 0 =
      Some (toHex (get_approve_batch ms (threshold o) addr (multisig_addresses o))) ∧
    only_inside out addr fs fs'.
Proof.
  intros Hns (Hc & Hh & Hb). unfold write_approvals_for.
  set (hex := toHex (get_approve_batch _ _ _ _)).
  rewrite (write_new_file_name_spec fs _ "encoded_batch_approve" addr hex 0 Hc ltac:(lia) Hb).
  cbn [mbind js_bind fst]. set (fs1 := FS _ _).
  assert (Ho1 : only_inside out addr fs fs1).
  { split; [|done]. intros f Hf. apply lookup_insert_ne. intros <-. apply Hf, file_name_inside. }
  assert (Hh1 : holds fs1 out addr []).
  { split; [done|]. intros i Hi. destruct Hh as [_ Hh]. specialize (Hh i Hi).
    unfold paths, fs1 in *. simpl. rewrite dom_insert_L, !elem_of_union, elem_of_singleton,
      elem_of_list_to_set in *.
    intros [[Heq|?]|[Hp|?]]; [by eapply final_batch_ne|tauto| |tauto].
    by apply (file_name_not_prefix (out_dir out addr)) in Hp. }
  destruct (write_final_approves_spec (final_hexes addr) fs1 out addr [] Hns)
    as (fs2 & Hw & Hh2 & Ho2 & Hf2);
    [by apply dir_clear_write|done|].
  exists fs2. split_and!; [done|done| |].
  - rewrite Hf2; [apply lookup_insert_eq|]. intros i Heq. by eapply final_batch_ne.
  - destruct Ho2 as [->|Ho2]; [done|by eapply only_inside_trans].
Qed.

Lemma untouched_frame fs fs' addr addr' :
  no_slash addr = true → no_slash addr' = true → addr ≠ addr' →
  only_inside out addr fs fs' → untouched fs addr' → untouched fs' addr'.
Proof.
  intros H1 H2 Hne Ho (Hc & [_ Hh] & Hb).
  pose proof (λ f, only_inside_frame out addr addr' fs fs' f H1 H2 Hne Ho) as Hf.
  split_and!.
  - by eapply only_inside_clear.
  - split; [done|]. intros i Hi. rewrite (proj2 (Hf _ (file_name_inside _ _ _ _ _))). by apply Hh.
  - by rewrite (proj2 (Hf _ (file_name_inside _ _ _ _ _))).
Qed.

Lemma write_approvals_spec addrs fs :
  NoDup addrs → Forall (λ a, no_slash a = true) addrs → Forall (untouched fs) addrs →
  ∃ fs', write_approvals toHex fs o ms addrs = Ret fs' ∧
    Forall (λ a, holds fs' out a (final_hexes a) ∧
      files fs' !! batch_name out a 0 =
        Some (toHex (get_approve_batch ms (threshold o) a (multisig_addresses o)))) addrs ∧
    ∀ a f, no_slash a = true → a ∉ addrs → inside out a f →
      files fs' !! f = files fs !! f ∧ (f ∈ paths fs' ↔ f ∈ paths fs).
Proof.
  intros Hnd. revert fs. induction Hnd as [|addr addrs Hni Hnd IH]; intros fs Hns Hu.
  { exists fs. by split_and!. }
  apply list.Forall_cons in Hns as [Ha Hns], Hu as [Hua Hu]. cbn [write_approvals].
  destruct (write_approvals_for_spec fs addr Ha Hua) as (fs1 & -> & Hh & Hb & Ho).
  destruct (IH fs1 Hns) as (fs2 & Hw & Hall & Hfr).
  { rewrite list.Forall_forall in *. intros a Hin. eapply untouched_frame; [done|by apply Hns| |done|].
    - by intros ->.
    - by apply Hu. }
  exists fs2. split_and!; [done| |].
  - constructor; [|done]. split.
    + destruct Hh as [Hh1 Hh2]. split.
      * intros i d Hi. rewrite (proj1 (Hfr addr _ Ha Hni (file_name_inside _ _ _ _ _))). by apply Hh1.
      * intros i Hi. rewrite (proj2 (Hfr addr _ Ha Hni (file_name_inside _ _ _ _ _))). by apply Hh2.
    + by rewrite (proj1 (Hfr addr _ Ha Hni (file_name_inside _ _ _ _ _))).
  - intros a f Hsa Hna Hin. apply not_elem_of_cons in Hna as [Hne Hna].
    destruct (Hfr a f Hsa Hna Hin) as [-> ->].
    by apply (only_inside_frame out addr a).
Qed.

(** A well-formed file system without the output directories is untouched. *)
Lemma untouched_init fs addrs :
  fs_wf fs → Forall (λ a, no_slash a = true) addrs →
  Forall (λ a, dir_clear fs (out_dir out a)) addrs →
  check_no_prev_calls fs out addrs = true → Forall (untouched fs) addrs.
Proof.
  intros Hwf. induction addrs as [|a addrs IH]; [done|].
  rewrite !list.Forall_cons. intros [Ha Hns] [Hc Hcs]. cbn [check_no_prev_calls].
  unfold existsSync at 1. case_bool_decide as Hd; [done|]. intros Hk.
  split; [|by apply IH]. split_and!; [done| |by apply fs_wf_fresh].
  split; [done|]. intros i _. by apply fs_wf_fresh.
Qed.
End approvals.

(** ** Lemmas on the signatories *)

Lemma omap_id_Some {A} (l : list A) : omap id (Some <$> l) = l.
Proof. induction l as [|x l IH]; [done|]. exact (f_equal (cons x) IH). Qed.

Lemma filter_None_Some {A} (l : list A) : filter (λ x, x = None) (Some <$> l) = [].
Proof. by induction l. Qed.

Lemma filter_Some_ne (who : string) (l : list string) :
  filter (λ key, key ≠ Some who) (Some <$> l) = Some <$> filter (λ s, s ≠ who) l.
Proof.
  induction l as [|s l IH]; [done|]. cbn [fmap list_fmap]. rewrite !filter_cons.
  repeat case_decide; [|naive_solver..|done]. cbn. by rewrite IH.
Qed.

Lemma other_signatories_Some who (l : list string) :
  other_signatories who (Some <$> l) = Some <$> merge_sort String.le (filter (λ s, s ≠ who) l).
Proof.
  unfold other_signatories, sort_strings.
  by rewrite filter_Some_ne, omap_id_Some, filter_None_Some, app_nil_r.
Qed.

Lemma merge_sort_perm (l l' : list string) :
  l ≡ₚ l' → merge_sort String.le l = merge_sort String.le l'.
Proof.
  intros H. apply (Sorted_unique String.le); [apply Sorted_merge_sort, _..|].
  by rewrite !merge_sort_Permutation.
Qed.

Lemma filter_ne_perm (who : string) (l : list string) :
  NoDup l → who ∈ l → who :: filter (λ s, s ≠ who) l ≡ₚ l.
Proof.
  intros Hnd Hin. apply NoDup_Permutation; [|done|].
  - constructor; [|by apply list.NoDup_filter].
    by intros [? _]%list_elem_of_filter.
  - intros x. rewrite elem_of_cons, list_elem_of_filter.
    destruct (decide (x = who)) as [->|]; tauto.
Qed.

(** ** Lemmas on the preconditions *)

(** The amount a string stands for, when it is one. *)
Definition amount_of (v : string) : Z :=
  match BigInt v with Ret x => x | _ => 0 end.

Definition total_of (bs : list jsmap) : Z :=
  foldr Z.add 0 ((λ p, amount_of p.2) <$> concat bs).

(** Every amount of the batch can be read, and is not zero. *)
Definition amounts_ok (m : jsmap) : Prop :=
  Forall (λ p, ∃ x, BigInt p.2 = Ret x ∧ x ≠ 0) m.

Lemma sum_amounts_ok tot m :
  amounts_ok m → sum_amounts tot m = Ret (tot + total_of [m]).
Proof.
  intros H. unfold total_of. simpl. rewrite app_nil_r. revert tot.
  induction H as [|[k v] m (x & Hx & _) _ IH]; intros tot; simpl; [f_equal; lia|].
  simpl in Hx. assert (amount_of v = x) as -> by (unfold amount_of; by rewrite Hx).
  rewrite Hx. simpl. rewrite IH. f_equal. symmetry. apply Z.add_assoc.
Qed.

Lemma total_of_cons m bs : total_of (m :: bs) = total_of [m] + total_of bs.
Proof.
  unfold total_of. simpl. rewrite app_nil_r, fmap_app.
  generalize ((λ p : mapkey * string, amount_of p.2) <$> concat bs) as l2.
  generalize ((λ p : mapkey * string, amount_of p.2) <$> m) as l1. intros l1 l2.
  induction l1; simpl; lia.
Qed.

Lemma sum_batches_ok tot bs :
  Forall amounts_ok bs → sum_batches tot bs = Ret (tot + total_of bs).
Proof.
  intros H. revert tot. induction H as [|m bs Hm _ IH]; intros tot.
  { cbn. f_equal. lia. }
  cbn [sum_batches]. rewrite (sum_amounts_ok _ _ Hm). cbn [mbind js_bind]. rewrite IH.
  rewrite (total_of_cons m bs). f_equal. lia.
Qed.

Definition state_amounts_ok (s : csv_state) : Prop :=
  Forall amounts_ok (beneficiaries s) ∧ amounts_ok (current_map s).

Lemma map_set_amounts m k v x :
  BigInt v = Ret x → x ≠ 0 → amounts_ok m → amounts_ok (map_set m k v).
Proof.
  intros Hv Hx. induction 1 as [|[k' v'] m Hp Hm IH]; simpl.
  { repeat constructor; simpl; eauto. }
  destruct (same_key k' k); constructor; simpl; eauto.
Qed.

Lemma csv_entry_amounts u ac mc b s r s' :
  csv_entry u ac mc b s r = Ret s' → state_amounts_ok s → state_amounts_ok s'.
Proof.
  intros H [Hb Hc]. unfold csv_entry in H. destruct (r !! mc) as [amt|]; [|done].
  apply bind_Ret_inv in H as (v & Hv & H). destruct (Z.eqb_spec v 0) as [|Hv0]; [by simplify_eq|].
  destruct (r !! ac) as [addr|]; [|done]. destruct (map_has _ _); [done|].
  assert (Hk : ∀ k n, state_amounts_ok
    (count_entry b (CsvState (beneficiaries s) (count s) (map_set (current_map s) k (parse_amount amt)) n))).
  { intros k n. unfold count_entry, state_amounts_ok. simpl.
    pose proof (map_set_amounts (current_map s) k _ v Hv Hv0 Hc).
    destruct (num_eqb _ _); simpl; [|by split]. split; [apply Forall_app; by repeat constructor|constructor]. }
  destruct u; [apply bind_Ret_inv in H as (a & _ & H)|]; injection H as <-; apply Hk.
Qed.

Lemma read_airdrop_csv_amounts u rows ac mc b bs :
  read_airdrop_csv u rows ac mc b = Ret bs → Forall amounts_ok bs.
Proof.
  unfold read_airdrop_csv. intros H. apply bind_Ret_inv in H as (s & Hs & [= <-]).
  assert (state_amounts_ok s) as [H1 H2]; [|apply Forall_app; by repeat constructor].
  revert Hs. assert (H0 : state_amounts_ok csv_init) by (by repeat constructor).
  revert H0. generalize csv_init as s0.
  induction rows as [|r rows IH]; intros s0 H0 Hs; cbn [csv_loop] in Hs; [by simplify_eq|].
  apply bind_Ret_inv in Hs as (s1 & H1 & Hs).
  eapply IH; [|done]. by eapply csv_entry_amounts.
Qed.

(** The final approvals of a signatory, sent one by one. *)
Lemma approve_send_loop_all submit isHex m txs :
  Forall (λ tx, isHex tx = true) txs →
  (∀ i, (i < length txs)%nat →
     ∃ info, handleTransactionLifecycle (submit (m + i)%nat) = Returned (TxSuccess info)) →
  approve_send_loop submit isHex m txs = (txs, Ret tt).
Proof.
  intros Hh. revert m. induction Hh as [|tx txs Hx Hh IH]; intros m H; [done|].
  cbn [approve_send_loop]. unfold approve_send. rewrite Hx. destruct (H 0%nat) as [info Hi]; [simpl; lia|].
  rewrite Nat.add_0_r in Hi. rewrite Hi. simpl. rewrite IH; [done|].
  intros i Hlt. replace (S m + i)%nat with (m + S i)%nat by lia. apply H. simpl. lia.
Qed.

(** ** Properties *)

(** C30: the extrinsics sent are, in order and without gaps, the begin-claim call
    for the first batch and one add-beneficiaries call for each later batch; a
    batch is sent only when the answers to all earlier ones let the loop go on,
    and the loop stops early only after an answer that does not. *)
Theorem campaign_in_order methodToHex paymentWeight account submit o bs :
  ∃ k, (k ≤ length bs)%nat ∧
    (send_loop methodToHex paymentWeight account submit o 0 bs []).1 =
      take k (campaign methodToHex account o 0 bs) ∧
    (∀ m, (S m < k)%nat → goes_on o (handleTransactionLifecycle (submit m)) = true) ∧
    ((k < length bs)%nat → ∃ m, k = S m ∧
       goes_on o (handleTransactionLifecycle (submit m)) = false).
Proof. apply (send_loop_stops methodToHex paymentWeight account submit o 0). Qed.

(** When every extrinsic is included successfully the loop sends the whole
    campaign and remembers, for a multisig, one pending call per batch: the
    timepoint of its inclusion, its hash, weight and encoding. *)
Theorem campaign_complete methodToHex paymentWeight account submit o bs info :
  (∀ m, (m < length bs)%nat →
     handleTransactionLifecycle (submit m) = Returned (TxSuccess (info m))) →
  send_loop methodToHex paymentWeight account submit o 0 bs [] =
  (campaign methodToHex account o 0 bs,
   Ret (if is_multisig (threshold o) then pending_calls methodToHex paymentWeight o 0 bs info else [])).
Proof. intros H. rewrite (send_loop_all _ _ _ _ _ _ _ _ info); [done|]. intros i Hi. left. by apply H. Qed.

(** Concrete data for the examples. *)
Definition sample_hex (c : call) : string :=
  match c with
  | BeginClaim _ _ => "0x00"
  | AddBeneficiaries _ => "0x01"
  | Sudo (BeginClaim _ _) => "0x10"
  | Sudo _ => "0x11"
  | AsMulti _ _ _ h _ => "0x2" +:+ h
  | _ => "0x3"
  end.
Definition sample_tx_hex (c : call) : string := sample_hex c +:+ "00".

Definition sample_weight (c : call) : Z := 42.
Definition sample_info : tx_info := TxInfo (Some "0xb") (Some "0xhash") 7 (Some 2).
Definition sample_multi : init_options :=
  set_multisig [Some "alice"; Some "bob"; Some "carol"]
    (set_threshold (VStr "2") (set_batch_size (VStr "1") (init_defaults "0"))).
Definition sample_single : init_options := set_batch_size (VStr "1") (init_defaults "0").
Definition sample_batches : list jsmap :=
  [[(KObj 0 (Ethereum sample_eth), "1000000000000000000")]; []].

Lemma campaign_complete_witness :
  send_loop sample_hex sample_weight "alice" (λ _, [sample_included]) sample_multi 0
    sample_batches [] =
  (campaign sample_hex "alice" sample_multi 0 sample_batches,
   Ret [MultiCall 7 (Some 2) (Some "0xhash") 42 "0x10"; MultiCall 7 (Some 2) (Some "0xhash") 42 "0x11"]).
Proof.
  etransitivity.
  - apply (campaign_complete _ _ _ _ _ _ (λ _, sample_info)). intros m _. vm_compute. reflexivity.
  - vm_compute. reflexivity.
Defined.

(** Without a multisig a batch whose five submissions were all refused with
    error 1014 is skipped silently: the loop's result is the same as if that
    batch had been included. *)
Theorem campaign_lost_batch methodToHex paymentWeight account submit submit' o bs :
  is_multisig (threshold o) = false →
  (∀ m, (m < length bs)%nat →
     handleTransactionLifecycle (submit m) = Returned TxUndefined ∨
     ∃ i, handleTransactionLifecycle (submit m) = Returned (TxSuccess i)) →
  (∀ m, (m < length bs)%nat →
     ∃ i, handleTransactionLifecycle (submit' m) = Returned (TxSuccess i)) →
  send_loop methodToHex paymentWeight account submit o 0 bs [] =
  send_loop methodToHex paymentWeight account submit' o 0 bs [].
Proof.
  intros Hm H H'.
  pose (inf s (m : nat) := match handleTransactionLifecycle (s m) with
    | Returned (TxSuccess i) => i | _ => sample_info end).
  rewrite (send_loop_all _ _ _ submit _ _ _ _ (inf submit)),
    (send_loop_all _ _ _ submit' _ _ _ _ (inf submit')), Hm; [done| |];
    intros i Hi; unfold inf.
  - left. destruct (H' i Hi) as [j Hj]. simpl. by rewrite Hj.
  - simpl. destruct (H i Hi) as [->|[j ->]]; auto.
Qed.

Lemma campaign_lost_batch_witness :
  send_loop sample_hex sample_weight "alice"
    (λ m, if (m =? 0)%nat then replicate 5 sample_low_priority else [sample_included])
    sample_single 0 sample_batches [] =
  send_loop sample_hex sample_weight "alice" (λ _, [sample_included]) sample_single 0
    sample_batches [].
Proof.
  apply campaign_lost_batch.
  - vm_compute. reflexivity.
  - intros [|m] _; [left|right; exists sample_info]; vm_compute; reflexivity.
  - intros m _. exists sample_info. vm_compute. reflexivity.
Defined.

(** With a multisig the same event raises a TypeError after the earlier
    batches have been proposed on chain, and no file is written for the other
    signatories. *)
Theorem campaign_multisig_lost_batch methodToHex toHex paymentWeight account submit o fs rows ci bs k info :
  is_multisig (threshold o) = true →
  check_no_prev_calls fs (template (out_file_path o)) (template <$> multisig_addresses o) = true →
  read_airdrop_csv USE_PALLET_TOKEN_CLAIM rows (template (address_col_label o))
    (template (amount_col_label o)) (batch_size o) = Ret bs →
  check_preconditions ci bs (batch_size o) = Ret true →
  (k < length bs)%nat →
  (∀ m, (m < k)%nat → handleTransactionLifecycle (submit m) = Returned (TxSuccess (info m))) →
  handleTransactionLifecycle (submit k) = Returned TxUndefined →
  run_init methodToHex toHex paymentWeight account submit o "Y" fs rows ci =
  (take (S k) (campaign methodToHex account o 0 bs), Throw TypeError).
Proof.
  intros Hm Hp Hr Hc Hk Hs Hu. unfold run_init. rewrite Hp, Hr, Hc. simpl.
  rewrite (send_loop_stop_at _ _ _ _ _ 0 k _ _ info); [|done|done|].
  - simpl. by rewrite Hu.
  - simpl. by rewrite Hu; simpl; rewrite Hm.
Qed.

Definition sample_rows : list (gmap string string) :=
  [sample_row sample_eth "1"; sample_row sample_eth "2.5"].
Definition sample_chain : chain_info := ChainInfo false 1000 (10 ^ 20).

Lemma campaign_multisig_lost_batch_witness :
  ∃ sent, length sent = 2%nat ∧
  run_init sample_hex sample_tx_hex sample_weight "alice"
    (λ m, if (m =? 1)%nat then replicate 5 sample_low_priority else [sample_included])
    sample_multi "Y" (FS ∅ ∅) sample_rows sample_chain = (sent, Throw TypeError).
Proof.
  eexists. split; cycle 1.
  - eapply (campaign_multisig_lost_batch _ _ _ _ _ _ _ _ _ _ 1 (λ _, sample_info));
      try (vm_compute; reflexivity).
    + simpl. lia.
    + intros m Hm. destruct m as [|m]; [vm_compute; reflexivity|lia].
  - vm_compute. reflexivity.
Defined.

(** Every signatory's calls address the same multisig account: the other
    signatories are listed in order, without the caller, and together with the
    caller they sort to the same list whoever calls. *)
Theorem other_signatories_same_multisig addrs a :
  NoDup addrs → a ∈ addrs →
  ∃ others, other_signatories a (Some <$> addrs) = (Some <$> others) ∧
    Sorted String.le others ∧ (a ∉ others) ∧
    merge_sort String.le (a :: others) = merge_sort String.le addrs.
Proof.
  intros Hnd Hin. rewrite other_signatories_Some. eexists. split; [done|].
  split_and!; [apply Sorted_merge_sort, _| |].
  - rewrite merge_sort_Permutation. by intros [? _]%list_elem_of_filter.
  - apply merge_sort_perm. by rewrite merge_sort_Permutation, filter_ne_perm.
Qed.

Lemma other_signatories_same_multisig_witness :
  ∃ others, other_signatories "bob" (Some <$> ["carol"; "bob"; "alice"]) = (Some <$> others) ∧
    Sorted String.le others ∧ ("bob" ∉ others) ∧
    merge_sort String.le ("bob" :: others) = merge_sort String.le ["carol"; "bob"; "alice"].
Proof.
  apply other_signatories_same_multisig.
  - apply (bool_decide_unpack _). vm_compute. exact I.
  - right. left.
Defined.

(** On the batches read from any file [check_preconditions] does not fail;
    it accepts exactly when no claim is active, the pallet's free balance covers
    the existential deposit plus the sum of all amounts, and the batch size does
    not exceed the pallet's limit. *)
Theorem check_preconditions_decides ci rows ac mc b bs :
  read_airdrop_csv USE_PALLET_TOKEN_CLAIM rows ac mc b = Ret bs →
  check_preconditions ci bs b =
  Ret (negb (claim_active ci) && (10 ^ 16 + total_of bs <=? free_balance ci)
       && negb (num_ltb (of_Z (max_batch_size ci)) (to_num b))).
Proof.
  intros Hr%read_airdrop_csv_amounts. unfold check_preconditions, INIT_CAMPAIGN.
  destruct (claim_active ci); [done|]. cbn [Bool.eqb negb andb].
  replace (BigInt EXISTENTIAL_DEPOSIT) with (Ret (A:=Z) (10 ^ 16)) by (vm_compute; reflexivity).
  cbn [mbind js_bind]. rewrite (sum_batches_ok _ _ Hr). cbn [mbind js_bind].
  rewrite Z.leb_antisym. destruct (_ <? _); [done|].
  by destruct (num_ltb _ _).
Qed.

Definition sample_read : list jsmap :=
  match read_airdrop_csv true sample_rows "address" "total" (VStr "1") with
  | Ret bs => bs
  | _ => []
  end.

Lemma check_preconditions_decides_witness :
  check_preconditions sample_chain sample_read (VStr "1") =
  Ret (negb (claim_active sample_chain)
       && (10 ^ 16 + total_of sample_read <=? free_balance sample_chain)
       && negb (num_ltb (of_Z (max_batch_size sample_chain)) (to_num (VStr "1")))) ∧
  check_preconditions sample_chain sample_read (VStr "1") = Ret true ∧
  total_of sample_read = 35 * 10 ^ 17.
Proof.
  split_and!; [|vm_compute; reflexivity..].
  apply (check_preconditions_decides sample_chain sample_rows "address" "total").
  vm_compute. reflexivity.
Defined.

(** C12: the two scripts fit together.  When a multisig campaign is sent
    successfully from a directory tree without earlier output, every signatory
    who then runs claim_final_approve.js on the same output path sends exactly
    one final approval per batch, in the order of the batches, each naming the
    timepoint at which the proposal was included, the encoded sudo call of that
    batch and its weight. *)
Theorem final_approve_replays_campaign methodToHex toHex paymentWeight account isHex submit submit' o oa fs
    rows ci bs addrs info a :
  (∀ c, isHex (toHex c) = true) →
  is_multisig (threshold o) = true →
  multisig_addresses o = Some <$> addrs → NoDup addrs →
  Forall (λ a, no_slash a = true) addrs →
  fs_wf fs → Forall (λ a, dir_clear fs (out_dir (template (out_file_path o)) a)) addrs →
  check_no_prev_calls fs (template (out_file_path o)) addrs = true →
  read_airdrop_csv USE_PALLET_TOKEN_CLAIM rows (template (address_col_label o))
    (template (amount_col_label o)) (batch_size o) = Ret bs →
  check_preconditions ci bs (batch_size o) = Ret true →
  (∀ m, (m < length bs)%nat →
     handleTransactionLifecycle (submit m) = Returned (TxSuccess (info m))) →
  a_out_file_path oa = out_file_path o → a ∈ addrs →
  (∀ m, (m < length bs)%nat →
     ∃ i, handleTransactionLifecycle (submit' m) = Returned (TxSuccess i)) →
  ∃ fs',
    run_init methodToHex toHex paymentWeight account submit o "Y" fs rows ci =
      (campaign methodToHex account o 0 bs, Ret fs') ∧
    run_approve a submit' isHex oa "Y" fs' =
      (imap (λ m b, let c := Sudo (campaign_call o m b) in
         toHex (AsMulti (threshold o) (other_signatories a (multisig_addresses o))
           (Some (tx_number (info m), tx_index (info m))) (methodToHex c) (paymentWeight c))) bs,
       Ret tt).
Proof.
  intros Hhex Hm Haddr Hnd Hns Hwf Hcl Hp Hr Hc Hs Hout Ha Hs'.
  assert (Ht : template <$> multisig_addresses o = addrs).
  { rewrite Haddr, <- list_fmap_compose. apply list_fmap_id. }
  set (ms := pending_calls methodToHex paymentWeight o 0 bs info).
  pose proof (untouched_init o fs addrs Hwf Hns Hcl Hp) as Hu.
  destruct (write_approvals_spec toHex o ms addrs fs Hnd Hns Hu) as (fs' & Hw & Hall & _).
  exists fs'. split.
  - unfold run_init. rewrite Ht, Hp, Hr, Hc. simpl.
    rewrite (send_loop_all _ _ _ _ _ _ _ _ info), Hm; [by rewrite <- Hw|].
    intros m Hlt. left. by apply Hs.
  - rewrite list.Forall_forall in Hall. destruct (Hall a Ha) as [Hh _].
    assert (Hf : final_hexes toHex o ms a = imap (λ m b, let c := Sudo (campaign_call o m b) in
         toHex (AsMulti (threshold o) (other_signatories a (multisig_addresses o))
           (Some (tx_number (info m), tx_index (info m))) (methodToHex c) (paymentWeight c))) bs)
      by (unfold final_hexes, ms, pending_calls; by rewrite fmap_imap).
    rewrite <- Hf. unfold run_approve. simpl. rewrite Hout, (holds_read _ _ _ _ Hh).
    apply approve_send_loop_all.
    + apply list.Forall_forall. intros h Hin. apply list_elem_of_fmap in Hin as (? & -> & _). apply Hhex.
    + rewrite Hf, length_imap. apply Hs'.
Qed.

Lemma final_approve_replays_campaign_witness :
  ∃ fs',
    run_init sample_hex sample_tx_hex sample_weight "alice" (λ _, [sample_included]) sample_multi "Y"
      (FS ∅ ∅) sample_rows sample_chain =
      (campaign sample_hex "alice" sample_multi 0 sample_read, Ret fs') ∧
    run_approve "bob" (λ _, [sample_included]) (String.prefix "0x") approve_defaults "Y" fs' =
      (["0x20x1000"; "0x20x1100"; "0x20x1100"], Ret tt).
Proof.
  apply (final_approve_replays_campaign sample_hex sample_tx_hex sample_weight "alice" (String.prefix "0x")
           (λ _, [sample_included]) (λ _, [sample_included]) sample_multi approve_defaults
           (FS ∅ ∅) sample_rows sample_chain sample_read ["alice"; "bob"; "carol"]
           (λ _, sample_info) "bob"); try (vm_compute; reflexivity).
  - intros [| | | |[]| | | ]; reflexivity.
  - apply (bool_decide_unpack _). vm_compute. exact I.
  - repeat constructor.
  - intros d n _ H. set_solver.
  - apply list.Forall_forall. intros x _. apply list.Forall_forall. intros q _. apply lookup_empty.
  - right. left.
  - intros m _. exists sample_info. vm_compute. reflexivity.
Defined.
