(* ===== verification/JsObject.v ===== *)
(** * JavaScript objects used as dictionaries, and printed integers

    An object is the list of its own enumerable properties in
    [Object.entries] order.  The keys the scripts use (hex public keys, pallet
    names, hashes) are not array indices, so that order is the order of
    insertion. *)

From Stdlib Require Import Ascii.
From stdpp Require Import pretty.
From S2P Require Import Prelude JsString JsNumber.

Open Scope Z_scope.

Definition jsobj (V : Type) : Type := list (string * V).

(** [o[k] = v] *)
Fixpoint obj_set {V} (o : jsobj V) (k : string) (v : V) : jsobj V :=
  match o with
  | [] => [(k, v)]
  | (k', v') :: o => if decide (k' = k) then (k', v) :: o else (k', v') :: obj_set o k v
  end.

(** [o[k]]; [None] is [undefined]. *)
Fixpoint obj_get {V} (o : jsobj V) (k : string) : option V :=
  match o with
  | [] => None
  | (k', v') :: o => if decide (k' = k) then Some v' else obj_get o k
  end.

(** ** Lemmas on objects *)

Section objects.
Context {V : Type}.
Implicit Types (o : jsobj V) (k : string) (v : V).

Lemma obj_set_fresh o k v : k ∉ o.*1 → obj_set o k v = o ++ [(k, v)].
Proof.
  induction o as [|[k' v'] o IH]; simpl; [done|]. rewrite not_elem_of_cons. intros [Hne Hni].
  rewrite decide_False by done. by rewrite IH.
Qed.

Lemma obj_set_keys o k v :
  (obj_set o k v).*1 = if decide (k ∈ o.*1) then o.*1 else o.*1 ++ [k].
Proof.
  induction o as [|[k' v'] o IH]; [done|]. cbn [obj_set].
  destruct (decide (k' = k)) as [->|Hne]; cbn [fmap list_fmap fst] in *.
  { by rewrite decide_True by left. }
  rewrite IH. destruct (decide (k ∈ o.*1)) as [Hin|Hin].
  - by rewrite decide_True by (by right).
  - by rewrite decide_False by (by intros [?|?]%elem_of_cons).
Qed.

Lemma obj_set_NoDup o k v : NoDup o.*1 → NoDup (obj_set o k v).*1.
Proof.
  intros H. rewrite obj_set_keys. case_decide; [done|].
  apply list.NoDup_app. split_and!; [done| |apply NoDup_singleton].
  by intros x Hx ->%list_elem_of_singleton.
Qed.

Lemma obj_get_set o k v : obj_get (obj_set o k v) k = Some v.
Proof.
  induction o as [|[k' v'] o IH]; simpl; [by rewrite decide_True|].
  case_decide; simpl; [by rewrite decide_True|by rewrite decide_False].
Qed.

Lemma obj_get_set_ne o k k' v : k ≠ k' → obj_get (obj_set o k v) k' = obj_get o k'.
Proof.
  intros Hne. induction o as [|[k0 v0] o IH]; simpl; [by rewrite decide_False|].
  case_decide; simpl; [subst; by rewrite !decide_False|]. by rewrite IH.
Qed.

Lemma obj_get_Some o k v : NoDup o.*1 → obj_get o k = Some v ↔ (k, v) ∈ o.
Proof.
  induction o as [|[k' v'] o IH]; simpl.
  { intros _. split; [done|]. by intros ?%elem_of_nil. }
  intros [Hni Hnd]%list.NoDup_cons. rewrite elem_of_cons.
  destruct (decide (k' = k)) as [->|Hne].
  - split; [intros [=->]; by left|]. intros [[=->]|Hin]; [done|].
    destruct Hni. apply list_elem_of_fmap. by exists (k, v).
  - rewrite IH by done. split; [by right|]. intros [[=]|?]; [by subst|done].
Qed.

(** Building an object from pairs with distinct keys keeps them all, in order. *)
Lemma foldl_obj_set (l : list (string * V)) o :
  NoDup (o.*1 ++ l.*1) → foldl (λ o p, obj_set o p.1 p.2) o l = o ++ l.
Proof.
  revert o. induction l as [|[k v] l IH]; intros o Hnd; simpl; [by rewrite app_nil_r|].
  simpl in Hnd. rewrite obj_set_fresh.
  - rewrite IH, <- app_assoc; [done|]. by rewrite fmap_app, <- app_assoc.
  - apply list.NoDup_app in Hnd as (_ & Hd & _). intros Hin. apply (Hd k Hin). left.
Qed.
End objects.

(** ** Printing integers *)

Lemma pretty_N_char_digit x : (x < 10)%N → digit 10 (pretty_N_char x) = Some (Z.of_N x).
Proof.
  intros H.
  assert (x = 0 ∨ x = 1 ∨ x = 2 ∨ x = 3 ∨ x = 4 ∨ x = 5 ∨ x = 6 ∨ x = 7 ∨ x = 8 ∨ x = 9)%N
    as Hx by lia.
  by repeat destruct Hx as [->|Hx]; [..|rewrite Hx].
Qed.

Lemma pretty_N_go_length y s :
  js_length (pretty_N_go y s) = js_length (pretty_N_go y "") + js_length s.
Proof.
  revert s. induction (N.lt_wf_0 y) as [y _ IH]. intros s.
  destruct (decide (y = 0)%N) as [->|Hy]; [rewrite !pretty_N_go_0; unfold js_length; simpl; lia|].
  assert (Hdiv : (y `div` 10 < y)%N) by (apply N.div_lt; lia).
  rewrite !(pretty_N_go_step y) by lia.
  rewrite (IH _ Hdiv (String _ s)), (IH _ Hdiv (String _ "")).
  unfold js_length. simpl. lia.
Qed.

Lemma pretty_N_go_parse x s acc :
  parse_digits 10 acc (pretty_N_go x s) =
  parse_digits 10 (if decide (x = 0%N) then acc else
    acc * 10 ^ js_length (pretty_N_go x "") + Z.of_N x) s.
Proof.
  revert s acc. induction (N.lt_wf_0 x) as [x _ IH]; intros s acc.
  destruct (decide (x = 0)%N) as [->|Hx]; [by rewrite pretty_N_go_0|].
  assert (Hdiv : (x `div` 10 < x)%N) by (apply N.div_lt; lia).
  rewrite !(pretty_N_go_step x) by lia. rewrite (IH _ Hdiv). cbn [parse_digits].
  rewrite pretty_N_char_digit by (apply N.mod_lt; lia). cbn [mbind option_bind]. f_equal.
  pose proof (N.div_mod' x 10) as Hdm.
  rewrite (pretty_N_go_length _ (String _ "")).
  change (js_length (String _ "")) with 1. case_decide as Hd.
  - rewrite Hd, pretty_N_go_0. change (10 ^ (js_length "" + 1)) with 10. lia.
  - rewrite Z.pow_add_r by (unfold js_length; lia). change (10 ^ 1) with 10. lia.
Qed.

Lemma pretty_N_digits (x : N) : all_digits (pretty x) ∧ dval (pretty x) = Z.of_N x ∧ pretty x ≠ "".
Proof.
  unfold pretty, pretty_N. destruct (decide (x = 0)%N) as [->|Hx].
  { split_and!; [by exists 0|done..]. }
  pose proof (pretty_N_go_parse x "" 0) as H. rewrite decide_False in H by done.
  cbn [parse_digits] in H. rewrite Z.mul_0_l in H.
  unfold all_digits, dval. rewrite H. split_and!; [eauto|done|].
  intros He. rewrite He in H. cbn [parse_digits] in H. injection H. lia.
Qed.

(** A printed non-negative integer reads back, exactly with [BigInt] and as the
    nearest double with [Number]. *)
Lemma pretty_Z_digits (z : Z) : 0 ≤ z →
  all_digits (pretty z) ∧ dval (pretty z) = z ∧ pretty z ≠ "".
Proof.
  intros Hz. assert (pretty z = pretty (Z.to_N z)) as ->.
  { destruct z as [|p|p]; [done..|lia]. }
  rewrite <- (Z2N.id z) at 3 by done. apply pretty_N_digits.
Qed.

Lemma BigInt_pretty z : 0 ≤ z → BigInt (pretty z) = Ret z.
Proof. intros Hz. destruct (pretty_Z_digits z Hz) as (Hd & Hv & _). by rewrite BigInt_digits, Hv. Qed.

Lemma ToNumber_pretty z : 0 ≤ z → ToNumber (pretty z) = of_Z z.
Proof. intros Hz. destruct (pretty_Z_digits z Hz) as (Hd & Hv & Hn). by rewrite ToNumber_digits, Hv. Qed.
