(* ===== verification/SnapshotBalances.v ===== *)
(** * Snapshot and restore of balances ([scripts/snapshot-restore-balance/snapshot-balances.js])

    [takeSnapshot] dumps the total balance of every account, [restoreBalances]
    pays them back from a custody account, filtered and capped.  JSON files are
    represented by the value their text denotes. *)

From stdpp Require Import pretty.
From S2P Require Import Prelude JsString JsNumber JsObject.

Open Scope Z_scope.

Definition DEFAULT_WS_ENDPOINT : string := "wss://testnet-rpc.zkverify.io".
Definition DEFAULT_WS_ENDPOINTS (key : string) : option string :=
  if decide (key = "local") then Some "ws://localhost:9944"
  else if decide (key = "testnet") then Some DEFAULT_WS_ENDPOINT
  else None.
Definition DEFAULT_SNAPSHOT_PATH : string := "snapshot_balances.json".
Definition DEFAULT_FILTERING_PATH : string := "filter_account.json".
Definition DEFAULT_SUDO : string := "".
Definition DEFAULT_CAP : Z := 1000000000000000000000.
Definition EXISTENTIAL_DEPOSIT : Z := 10000000000000000.
Definition MODULE_ACCOUNT_ENDS : string := "0000000000000000000000000000000000000000".
Definition FILTER_MODULE_ACCOUNT : bool := true.

(** The JSON documents the script exchanges: an object or an array of strings. *)
Inductive json : Type :=
  | JObj (o : jsobj string)
  | JArr (l : list string).

(** [Object.entries] *)
Definition entries (j : json) : list (string * string) :=
  match j with
  | JObj o => o
  | JArr l => imap (λ i s, (pretty i, s)) l
  end.

(** [BigInt(v)] *)
Definition BigInt_val (v : jsval) : js Z :=
  match v with
  | VUndef => Throw TypeError
  | VStr s => BigInt s
  | VNum (Fin m e) =>
      if m mod 2 ^ Z.max 0 (- e) =? 0
      then Ret (m * 2 ^ Z.max 0 e / 2 ^ Z.max 0 (- e))
      else Throw RangeError
  | VNum _ => Throw RangeError
  end.

(** ** What the chain and the key store answer *)

Record account_entry : Type := AccountEntry {
  storage_key : list Z;
  free : Z;
  reserved : Z
}.

Record env : Type := Env {
  accounts : list account_entry;          (* [api.query.system.account.entries()] *)
  nonce_of : string → Z;                  (* [nonce] of an address *)
  free_of : string → Z;                   (* [data.free] of an address *)
  accepts : nat → bool;                   (* does the [i]-th [signAndSend] succeed *)
  address_of : string → string            (* [keyring.addFromUri(uri).address] *)
}.

(** Transfers, as built by the script. *)
Inductive tx : Type :=
  | TransferAllowDeath (account : string) (balance : Z)
  | SudoAs (who : string) (call : tx).

Record submission : Type := Submission {
  sub_tx : tx;
  sub_nonce : Z;
  sub_ok : bool
}.

(** ** filterBalance *)

Definition filterBalance (account balance : string) (blockList : json) : js bool :=
  if num_ltb (ToNumber balance) (of_Z EXISTENTIAL_DEPOSIT) then Ret true
  else
    match blockList with
    | JObj _ => Throw TypeError               (* [includes] is not a function *)
    | JArr l =>
        if bool_decide (account ∈ l) then Ret true
        else Ret (FILTER_MODULE_ACCOUNT && endsWith account MODULE_ACCOUNT_ENDS)
    end.

(** ** restoreBalances *)

Definition cap_balance (capValue balance : Z) : Z :=
  if 0 <? capValue then if capValue <? balance then capValue else balance else balance.

Fixpoint new_balances (capValue : Z) (filter : json) (balances : list (string * string))
    (newBalances : jsobj Z) : js (jsobj Z) :=
  match balances with
  | [] => Ret newBalances
  | (account, balance) :: rest =>
      skip ← filterBalance account balance filter;
      if (skip : bool) then new_balances capValue filter rest newBalances
      else
        balance ← BigInt balance;
        new_balances capValue filter rest
          (obj_set newBalances account (cap_balance capValue balance))
  end.

Definition make_transfer (custodyAddress executor account : string) (balance : Z) : tx :=
  let transfer := TransferAllowDeath account balance in
  if bool_decide (custodyAddress ≠ executor) then SudoAs custodyAddress transfer else transfer.

Fixpoint transfer_loop (accepts : nat → bool) (custodyAddress executor : string) (i : nat)
    (nonce : Z) (balances : list (string * Z)) : list submission :=
  match balances with
  | [] => []
  | (account, balance) :: rest =>
      let transfer := make_transfer custodyAddress executor account balance in
      let ok := accepts i in
      Submission transfer nonce ok ::
      transfer_loop accepts custodyAddress executor (S i)
        (if ok then nonce + 1 else nonce) rest
  end.

(** [JSON.parse(fs.readFileSync(path))] *)
Definition read_json (fs : gmap string json) (path : string) : js json :=
  match fs !! path with
  | Some j => Ret j
  | None => Throw (JsError "ENOENT")
  end.

Definition restoreBalances (e : env) (fs : gmap string json) (snapshotBalancesFile
    custodyAddress filterFile : string) (capValue : jsval) (executor : string)
    : list submission * js unit :=
  let prepared :=
    balances ← read_json fs snapshotBalancesFile;
    filter ← read_json fs filterFile;
    capValue ← BigInt_val capValue;
    balances ← new_balances capValue filter (entries balances) [];
    let totalAmount := foldl Z.add 0 balances.*2 in
    if free_of e custodyAddress <? totalAmount then Exit 1 else Ret balances in
  match prepared with
  | Ret balances =>
      (transfer_loop (accepts e) custodyAddress executor 0 (nonce_of e executor) balances, Ret tt)
  | Throw x => ([], Throw x)
  | Exit z => ([], Exit z)
  | Hang => ([], Hang)
  end.

(** ** takeSnapshot *)

Section script.
(** Third-party: address decoding and hex encoding; implementation-defined: the
    order in which [sort] leaves elements under the script's comparator, which
    never answers that two elements are equal. *)
Context (decodeAddress : list Z → list Z) (u8aToHex : list Z → string).
Context (arr_sort : ((string * string) → (string * string) → Z) →
                    list (string * string) → list (string * string)).

Definition ss58ToPublicKey (ss58Address : list Z) : string :=
  u8aToHex (decodeAddress ss58Address).

(** [a.slice(-n)] *)
Definition slice_last (n : nat) (a : list Z) : list Z := drop (length a - n) a.

Definition balance_cmp (a b : string * string) : Z :=
  match BigInt b.2, BigInt a.2 with
  | Ret y, Ret x => if y <? x then 1 else -1
  | _, _ => -1
  end.

Definition public_key (a : account_entry) : string :=
  ss58ToPublicKey (slice_last 32 (storage_key a)).

Definition takeSnapshot (accounts : list account_entry) : json :=
  let balances :=
    foldl (λ o a, obj_set o (public_key a) (pretty (free a + reserved a))) [] accounts in
  let sortedBalances := arr_sort balance_cmp balances in
  JObj (foldl (λ acc p, obj_set acc p.1 p.2) [] sortedBalances).

(** ** main *)

Record options : Type := Options {
  wsEndpoint : string;
  filter_path : string;
  snapshotFile : string;
  capValue : jsval;
  sudo : string
}.

Definition defaults : options :=
  Options DEFAULT_WS_ENDPOINT DEFAULT_FILTERING_PATH DEFAULT_SNAPSHOT_PATH
    (VNum (of_Z DEFAULT_CAP)) DEFAULT_SUDO.

Definition is_arg (arg short long : string) : bool :=
  bool_decide (arg = short) || bool_decide (arg = long).

Definition set_option (arg : string) : option (string → options → options) :=
  if is_arg arg "-e" "--end-point" then
    Some (λ v o, Options (default v (DEFAULT_WS_ENDPOINTS v)) (filter_path o) (snapshotFile o)
                   (capValue o) (sudo o))
  else if is_arg arg "-f" "--filter" then
    Some (λ v o, Options (wsEndpoint o) v (snapshotFile o) (capValue o) (sudo o))
  else if is_arg arg "-s" "--snapshot" then
    Some (λ v o, Options (wsEndpoint o) (filter_path o) v (capValue o) (sudo o))
  else if is_arg arg "-c" "--cap" then
    Some (λ v o, Options (wsEndpoint o) (filter_path o) (snapshotFile o) (VStr v) (sudo o))
  else if is_arg arg "-S" "--sudo" then
    Some (λ v o, Options (wsEndpoint o) (filter_path o) (snapshotFile o) (capValue o) v)
  else None.

(** The loop over all arguments but the last, which is never an option. *)
Fixpoint arg_loop (args newArgs : list string) (o : options) : js (list string * options) :=
  match args with
  | [] => Ret (newArgs, o)
  | a :: tl =>
      match tl with
      | [] => Ret (newArgs ++ [a], o)
      | v :: rest =>
          match set_option a with
          | Some set => arg_loop rest newArgs (set v o)
          | None =>
              if is_arg a "-h" "--help" then Exit 1
              else arg_loop tl (newArgs ++ [a]) o
          end
      end
  end.

(** The files after the run, the extrinsics submitted, and how the run ends. *)
Definition main (e : env) (fs : gmap string json) (args : list string)
    : gmap string json * list submission * js unit :=
  match arg_loop args [] defaults with
  | Ret (newArgs, o) =>
      match newArgs with
      | [] => (fs, [], Exit 1)
      | command :: args =>
          let command := toLowerCase command in
          if bool_decide (command = "snapshot") then
            (<[snapshotFile o := takeSnapshot (accounts e)]> fs, [], Exit 0)
          else if bool_decide (command = "restore") then
            match args with
            | [custodyStr] =>
                let '(custodyAddress, executor) :=
                  if bool_decide (sudo o ≠ "")
                  then (custodyStr, address_of e (sudo o))
                  else (address_of e custodyStr, address_of e custodyStr) in
                let '(subs, r) := restoreBalances e fs (snapshotFile o) custodyAddress
                                    (filter_path o) (capValue o) executor in
                (fs, subs, _ ← r; Exit 0)
            | _ => (fs, [], Exit 1)
            end
          else (fs, [], Exit 1)
      end
  | Throw x => (fs, [], Throw x)
  | Exit z => (fs, [], Exit z)
  | Hang => (fs, [], Hang)
  end.
End script.

(** ** Reference: who is paid what *)

(** The accounts left out, on the exact balance. *)
Definition skipped (blockList : list string) (account : string) (balance : Z) : bool :=
  (balance <? EXISTENTIAL_DEPOSIT - 1) || bool_decide (account ∈ blockList)
  || endsWith account MODULE_ACCOUNT_ENDS.

(** At most the cap; a cap of zero is none. *)
Definition capped (cap balance : Z) : Z := if 0 <? cap then Z.min cap balance else balance.

Definition payout (capValue : Z) (blockList : list string) (balances : list (string * Z))
    : list (string * Z) :=
  (λ p, (p.1, capped capValue p.2)) <$> filter (λ p, skipped blockList p.1 p.2 = false) balances.

Definition total (l : list (string * Z)) : Z := foldr Z.add 0 l.*2.

(** A decimal balance, as the snapshot writes it. *)
Definition decimal (s : string) : Prop := all_digits s ∧ s ≠ "".

Definition values (balances : jsobj string) : list (string * Z) :=
  (λ p, (p.1, dval p.2)) <$> balances.

(** ** Lemmas *)

Lemma filterBalance_spec account balance l :
  decimal balance →
  filterBalance account balance (JArr l) = Ret (skipped l account (dval balance)).
Proof.
  intros [Hd Hn]. unfold filterBalance, skipped, EXISTENTIAL_DEPOSIT.
  rewrite (ToNumber_digits _ Hd Hn).
  pose proof (num_ltb_1e16 (dval balance) (dval_nonneg _)) as H.
  change (10 ^ 16) with 10000000000000000 in H. rewrite H.
  destruct (_ <? _); simpl; [done|]. by case_bool_decide.
Qed.

Lemma cap_balance_capped cap b : cap_balance cap b = capped cap b.
Proof. unfold cap_balance, capped. destruct (0 <? cap); [|done]. destruct (Z.ltb_spec cap b); lia. Qed.

Lemma payout_cons cap l p ps :
  payout cap l (p :: ps) =
  if skipped l p.1 p.2 then payout cap l ps
  else (p.1, cap_balance cap p.2) :: payout cap l ps.
Proof.
  unfold payout. rewrite filter_cons, cap_balance_capped. by destruct (skipped l p.1 p.2).
Qed.

Lemma new_balances_spec cap l balances acc :
  Forall (λ p, decimal p.2) balances → NoDup (acc.*1 ++ balances.*1) →
  new_balances cap (JArr l) balances acc = Ret (acc ++ payout cap l (values balances)).
Proof.
  intros Hd. revert acc. induction Hd as [|[a b] bs Hb Hd IH]; intros acc Hnd.
  { cbn. by rewrite app_nil_r. }
  cbn [values fmap list_fmap fst snd] in *. simpl in Hb. cbn [new_balances].
  rewrite (filterBalance_spec _ _ _ Hb), payout_cons. cbn [mbind js_bind fst snd].
  assert (Hnd' : NoDup (acc.*1 ++ bs.*1)).
  { eapply sublist_NoDup; [exact Hnd|]. apply sublist_app; [done|]. by constructor. }
  destruct (skipped l a (dval b)); [by apply IH|].
  rewrite (BigInt_digits _ (proj1 Hb)). cbn [mbind js_bind]. rewrite obj_set_fresh.
  - rewrite IH, <- app_assoc; [done|]. by rewrite fmap_app, <- app_assoc.
  - apply list.NoDup_app in Hnd as (_ & Hx & _). intros Hin. apply (Hx a Hin). left.
Qed.

Lemma foldl_total (l : list (string * Z)) z : foldl Z.add z l.*2 = z + total l.
Proof.
  revert z. unfold total. induction l as [|p l IH]; intros z; [simpl; lia|].
  rewrite fmap_cons. cbn [foldl foldr]. rewrite IH. lia.
Qed.

Lemma capped_le cap b : 0 < cap → capped cap b ≤ cap.
Proof. intros H. unfold capped. case_match; lia. Qed.

Lemma transfer_loop_txs acc custody executor i nonce pay :
  sub_tx <$> transfer_loop acc custody executor i nonce pay =
  (λ p, make_transfer custody executor p.1 p.2) <$> pay.
Proof. revert i nonce. induction pay as [|[a b] pay IH]; intros i nonce; simpl; [done|]. f_equal. apply IH. Qed.

Lemma transfer_loop_nonce acc custody executor i nonce pay k s :
  let subs := transfer_loop acc custody executor i nonce pay in
  subs !! k = Some s →
  sub_nonce s = nonce + Z.of_nat (length (filter (λ x, sub_ok x = true) (take k subs))).
Proof.
  revert i nonce k. induction pay as [|[a b] pay IH]; intros i nonce k; [done|].
  cbn [transfer_loop]. destruct k as [|k]; simpl; [intros [= <-]; simpl; lia|].
  intros Hk. rewrite (IH _ _ _ Hk), filter_cons. simpl. destruct (acc i); simpl; lia.
Qed.

(** The outcome of a restore on a snapshot of decimal balances. *)
Lemma restoreBalances_spec e fs file custody ffile cap executor c l balances :
  fs !! file = Some (JObj balances) → fs !! ffile = Some (JArr l) → BigInt_val cap = Ret c →
  Forall (λ p, decimal p.2) balances → NoDup balances.*1 →
  restoreBalances e fs file custody ffile cap executor =
  if free_of e custody <? total (payout c l (values balances)) then ([], Exit 1)
  else (transfer_loop (accepts e) custody executor 0 (nonce_of e executor)
          (payout c l (values balances)), Ret tt).
Proof.
  intros Hf Hff Hc Hd Hnd. unfold restoreBalances, read_json. rewrite Hf, Hff, Hc.
  cbn [mbind js_bind entries]. rewrite (new_balances_spec c l balances [] Hd Hnd).
  cbn [mbind js_bind app]. rewrite foldl_total, Z.add_0_l. by destruct (_ <? _).
Qed.

(** ** Lemmas on the snapshot *)

Section snapshot.
Context (decodeAddress : list Z → list Z) (u8aToHex : list Z → string).
Context (arr_sort : ((string * string) → (string * string) → Z) →
                    list (string * string) → list (string * string)).
Hypothesis sort_perm : ∀ cmp l, arr_sort cmp l ≡ₚ l.
Abbreviation pk := (public_key decodeAddress u8aToHex).

Lemma takeSnapshot_spec accs :
  NoDup (pk <$> accs) →
  ∃ balances, takeSnapshot decodeAddress u8aToHex arr_sort accs = JObj balances ∧
    balances ≡ₚ ((λ a, (pk a, pretty (free a + reserved a))) <$> accs).
Proof.
  intros Hnd. unfold takeSnapshot.
  assert (Hfold : foldl (λ o a, obj_set o (pk a) (pretty (free a + reserved a))) [] accs =
    foldl (λ o p, obj_set o p.1 p.2) [] ((λ a, (pk a, pretty (free a + reserved a))) <$> accs)).
  { generalize (@nil (string * string)). clear Hnd.
    induction accs as [|a accs IH]; intros o; [done|]. apply IH. }
  assert (Hkeys : ((λ a, (pk a, pretty (free a + reserved a))) <$> accs).*1 = pk <$> accs)
    by (by rewrite <- list_fmap_compose).
  rewrite Hfold, (foldl_obj_set (_ <$> accs) []) by (by rewrite Hkeys).
  rewrite app_nil_l. eexists. split; [done|].
  rewrite (foldl_obj_set _ []), app_nil_l; [apply sort_perm|].
  rewrite fmap_nil, app_nil_l. by rewrite sort_perm, Hkeys.
Qed.
End snapshot.

Lemma values_pretty (l : list account_entry) (f : account_entry → string) :
  Forall (λ a, 0 ≤ free a + reserved a) l →
  values ((λ a, (f a, pretty (free a + reserved a))) <$> l) =
  (λ a, (f a, free a + reserved a)) <$> l.
Proof.
  induction 1 as [|a l Ha _ IH]; [done|]. unfold values in *. cbn [fmap list_fmap fst snd].
  destruct (pretty_Z_digits _ Ha) as (_ & -> & _). f_equal. exact IH.
Qed.

Lemma decimal_pretty (l : list account_entry) (f : account_entry → string) :
  Forall (λ a, 0 ≤ free a + reserved a) l →
  Forall (λ p, decimal p.2) ((λ a, (f a, pretty (free a + reserved a))) <$> l).
Proof.
  induction 1 as [|a l Ha _ IH]; constructor; [|exact IH].
  destruct (pretty_Z_digits _ Ha) as (? & _ & ?). done.
Qed.

Lemma payout_perm cap l ps ps' : ps ≡ₚ ps' → payout cap l ps ≡ₚ payout cap l ps'.
Proof. intros H. unfold payout. by rewrite H. Qed.

Lemma total_perm l l' : l ≡ₚ l' → total l = total l'.
Proof.
  unfold total. induction 1; rewrite ?fmap_cons; cbn [foldr]; lia.
Qed.

(** The two command lines of the round trip. *)
Lemma main_snapshot d u srt e fs :
  main d u srt e fs ["snapshot"] =
  (<[DEFAULT_SNAPSHOT_PATH := takeSnapshot d u srt (accounts e)]> fs, [], Exit 0).
Proof. reflexivity. Qed.

Lemma main_restore d u srt e fs cap seed :
  main d u srt e fs ["-c"; cap; "restore"; seed] =
  let '(subs, r) := restoreBalances e fs DEFAULT_SNAPSHOT_PATH (address_of e seed)
                      DEFAULT_FILTERING_PATH (VStr cap) (address_of e seed) in
  (fs, subs, _ ← r; Exit 0).
Proof. reflexivity. Qed.

(** ** Properties *)

(** On a decimal balance [filterBalance] skips exactly the accounts whose
    balance is below the existential deposit less one unit, those of the block
    list and the module accounts.  The comparison rounds the balance to a
    double, so the balance [EXISTENTIAL_DEPOSIT - 1] is not skipped. *)
Theorem filterBalance_decides account balance l :
  all_digits balance → balance ≠ "" →
  filterBalance account balance (JArr l) =
  Ret ((dval balance <? EXISTENTIAL_DEPOSIT - 1) || bool_decide (account ∈ l)
       || endsWith account MODULE_ACCOUNT_ENDS).
Proof. intros Hd Hn. by apply filterBalance_spec. Qed.

Lemma filterBalance_decides_witness :
  filterBalance "0x01" "9999999999999999" (JArr []) = Ret false ∧
  filterBalance "0x01" "9999999999999998" (JArr []) = Ret true.
Proof.
  split; (etransitivity; [apply filterBalance_decides; [by eexists|done]|]);
    vm_compute; reflexivity.
Defined.

(** A restore from a snapshot of decimal balances either submits nothing and
    exits with code 1, when the custody account cannot cover the total, or
    submits exactly one transfer per account that is not skipped, of its balance
    or of the cap, the transfers adding up to no more than the custody's free
    balance and none exceeding a positive cap. *)
Theorem restore_pays e fs file custody ffile cap executor c l balances :
  fs !! file = Some (JObj balances) → fs !! ffile = Some (JArr l) → BigInt_val cap = Ret c →
  Forall (λ p, decimal p.2) balances → NoDup balances.*1 →
  let pay := payout c l (values balances) in
  let '(subs, r) := restoreBalances e fs file custody ffile cap executor in
  (0 < c → Forall (λ p, p.2 ≤ c) pay) ∧
  (free_of e custody < total pay → subs = [] ∧ r = Exit 1) ∧
  (total pay ≤ free_of e custody →
     r = Ret tt ∧ sub_tx <$> subs = (λ p, make_transfer custody executor p.1 p.2) <$> pay).
Proof.
  intros Hf Hff Hc Hd Hnd pay.
  rewrite (restoreBalances_spec e fs file custody ffile cap executor c l balances) by done.
  fold pay. assert (Hcap : 0 < c → Forall (λ p, p.2 ≤ c) pay).
  { intros Hpos. apply Forall_fmap, list.Forall_forall. intros p _. simpl. by apply capped_le. }
  destruct (Z.ltb_spec (free_of e custody) (total pay)).
  - split_and!; [done|done|lia].
  - split_and!; [done|lia|]. intros _. split; [done|]. apply transfer_loop_txs.
Qed.

Definition sample_env : env :=
  Env [AccountEntry [1; 2] (3 * 10 ^ 16) 5; AccountEntry [3; 4] (2 * 10 ^ 16) 0;
       AccountEntry [5] 7 0]
    (λ _, 9) (λ _, 10 ^ 20) (λ i, negb (i =? 0)%nat) (λ uri, "addr" +:+ uri).
Definition sample_hex (u : list Z) : string := "0x" +:+ pretty (hd 0 u).
Definition sample_snapshot : jsobj string :=
  [("0xaa", "20000000000000000"); ("0xbb", "70000000000000000"); ("0xcc", "12")].

Lemma restore_pays_witness :
  let fs := <["s" := JObj sample_snapshot]> {["f" := JArr []]} in
  let pay := [("0xaa", 20000000000000000); ("0xbb", 50000000000000000)] in
  let '(subs, r) :=
    restoreBalances sample_env fs "s" "custody" "f" (VStr "50000000000000000") "exec" in
  (0 < 50000000000000000 → Forall (λ p, p.2 ≤ 50000000000000000) pay) ∧
  (free_of sample_env "custody" < total pay → subs = [] ∧ r = Exit 1) ∧
  (total pay ≤ free_of sample_env "custody" →
     r = Ret tt ∧ sub_tx <$> subs = (λ p, make_transfer "custody" "exec" p.1 p.2) <$> pay).
Proof.
  intros fs pay.
  pose proof (restore_pays sample_env fs "s" "custody" "f" (VStr "50000000000000000") "exec"
    50000000000000000 [] sample_snapshot) as H.
  apply H; [vm_compute; reflexivity..| |].
  - repeat constructor; (by eexists) || done.
  - apply (bool_decide_unpack _). vm_compute. exact I.
Defined.

(** The nonce of each submission is the account's nonce plus the number of
    submissions accepted before it, so the accepted ones use consecutive nonces
    without a gap, whichever submissions fail. *)
Theorem restore_nonces acc custody executor nonce pay k s :
  let subs := transfer_loop acc custody executor 0 nonce pay in
  subs !! k = Some s →
  sub_nonce s = nonce + Z.of_nat (length (filter (λ x, sub_ok x = true) (take k subs))).
Proof. apply transfer_loop_nonce. Qed.

Lemma restore_nonces_witness :
  sub_nonce (Submission (TransferAllowDeath "b" 2) 7 true) =
  7 + Z.of_nat (length (filter (λ x, sub_ok x = true)
        (take 1 (transfer_loop (λ i, (i =? 1)%nat) "c" "c" 0 7 [("a", 1); ("b", 2)])))).
Proof. apply (restore_nonces (λ i, (i =? 1)%nat) "c" "c" 7 [("a", 1); ("b", 2)] 1). reflexivity. Defined.

(** C31: snapshot then restore.  From a chain whose accounts have distinct public
    keys, [snapshot] followed by [restore] with a decimal cap and any block list
    submits, in some order, one transfer for every account that is neither below
    the minimum nor blocked nor a module account, of its free plus reserved
    balance, or of the cap when that is positive and less.  When the custody
    account does not cover the total, nothing is submitted and the script exits
    with code 1.  The snapshot file is all that links the two runs. *)
Theorem snapshot_restore_roundtrip decodeAddress u8aToHex arr_sort e e' fs cap blockList seed :
  (∀ cmp l, arr_sort cmp l ≡ₚ l) →
  NoDup (public_key decodeAddress u8aToHex <$> accounts e) →
  Forall (λ a, 0 ≤ free a + reserved a) (accounts e) →
  all_digits cap → fs !! DEFAULT_FILTERING_PATH = Some (JArr blockList) →
  let pay := payout (dval cap) blockList
    ((λ a, (public_key decodeAddress u8aToHex a, free a + reserved a)) <$> accounts e) in
  let '(fs', subs, r) := main decodeAddress u8aToHex arr_sort e fs ["snapshot"] in
  let '(fs'', subs', r') := main decodeAddress u8aToHex arr_sort e' fs' ["-c"; cap; "restore"; seed] in
  subs = [] ∧ r = Exit 0 ∧ fs'' = fs' ∧
  if free_of e' (address_of e' seed) <? total pay then subs' = [] ∧ r' = Exit 1
  else r' = Exit 0 ∧ (sub_tx <$> subs') ≡ₚ ((λ p, TransferAllowDeath p.1 p.2) <$> pay).
Proof.
  intros Hs Hnd Hpos Hcap Hff pay. set (custody := address_of e' seed).
  destruct (takeSnapshot_spec decodeAddress u8aToHex arr_sort Hs _ Hnd) as (bal & Hsnap & Hperm).
  rewrite main_snapshot, main_restore, Hsnap. fold custody.
  assert (Hpay : payout (dval cap) blockList (values bal) ≡ₚ pay).
  { apply payout_perm. unfold values. rewrite Hperm. fold (values ((λ a, (public_key decodeAddress
      u8aToHex a, pretty (free a + reserved a))) <$> accounts e)). by rewrite values_pretty. }
  rewrite (restoreBalances_spec e' _ _ custody _ _ custody (dval cap) blockList bal).
  - rewrite (total_perm _ _ Hpay). destruct (_ <? _); [done|].
    split_and!; [done..|]. rewrite transfer_loop_txs, Hpay.
    unfold make_transfer. rewrite bool_decide_eq_false_2 by naive_solver. done.
  - apply lookup_insert_eq.
  - by rewrite lookup_insert_ne.
  - by apply BigInt_digits.
  - rewrite Hperm. by apply decimal_pretty.
  - rewrite Hperm, <- list_fmap_compose. exact Hnd.
Qed.

(** The second account is blocked, the first above the cap. *)
Lemma snapshot_restore_roundtrip_witness :
  let '(fs', subs, r) := main id sample_hex (λ _ l, l) sample_env
    {[DEFAULT_FILTERING_PATH := JArr ["0x3"]]} ["snapshot"] in
  let '(fs'', subs', r') :=
    main id sample_hex (λ _ l, l) sample_env fs' ["-c"; "25000000000000000"; "restore"; "//Custody"] in
  subs = [] ∧ r = Exit 0 ∧ fs'' = fs' ∧
  r' = Exit 0 ∧ (sub_tx <$> subs') ≡ₚ [TransferAllowDeath "0x1" 25000000000000000].
Proof.
  apply (snapshot_restore_roundtrip id sample_hex (λ _ l, l) sample_env sample_env
           {[DEFAULT_FILTERING_PATH := JArr ["0x3"]]} "25000000000000000" ["0x3"] "//Custody").
  - done.
  - apply (bool_decide_unpack _). vm_compute. exact I.
  - repeat constructor; simpl; lia.
  - by eexists.
  - reflexivity.
Defined.
