(* ===== verification/SnapshotVks.v ===== *)
(** * Snapshot and restore of verification keys ([scripts/snapshot-restore-vks/snapshot-vks.js])

    [takeSnapshot] dumps, per verifier pallet, the registered keys with their
    owners and usage statistics; [restore] registers them again, each on behalf
    of its owner.  The snapshot file is represented by the value it denotes. *)

From Stdlib Require Import Ascii.
From S2P Require Import Prelude JsString JsNumber JsObject.

Open Scope Z_scope.

Definition DEFAULT_PALLETS : list string :=
  ["fflonk"; "groth16"; "plonky2"; "risc0"; "sp1"; "ultrahonk"; "ultraplonk"].
Definition DEFAULT_WS_ENDPOINT : string := "wss://zkverify-volta-rpc.zkverify.io".
Definition DEFAULT_WS_ENDPOINTS (key : string) : option string :=
  if decide (key = "local") then Some "ws://localhost:9944"
  else if decide (key = "testnet") then Some DEFAULT_WS_ENDPOINT
  else None.
Definition DEFAULT_SNAPSHOT_PATH : string := "snapshot_vks.json".
Definition DEFAULT_GRAPHQL : string :=
  "https://zkpvnetwork.squids.live/zkverify@v8/api/graphql".

(** The name of the runtime pallet, the property of [sub] that is read;
    [None] is [undefined]. *)
Definition pallet (p : string) : option string :=
  obj_get [("fflonk", "settlementFFlonkPallet"); ("groth16", "settlementGroth16Pallet");
           ("plonky2", "settlementPlonky2Pallet"); ("risc0", "settlementRisc0Pallet");
           ("sp1", "settlementSp1Pallet"); ("ultrahonk", "settlementUltrahonkPallet");
           ("ultraplonk", "settlementUltraplonkPallet")] p.

Definition palletToGraphQl (p : string) : option string :=
  obj_get [("fflonk", "SettlementFFlonkPallet"); ("groth16", "SettlementGroth16Pallet");
           ("plonky2", "SettlementPlonky2Pallet"); ("risc0", "SettlementRisc0Pallet");
           ("sp1", "SettlementSp1Pallet"); ("ultrahonk", "SettlementUltrahonkPallet");
           ("ultraplonk", "SettlementUltraplonkPallet")] p.

(** ** Data *)

Record vk_stat : Type := VkStat {
  total : Z;
  lastUsed : option string
}.

Record vk_entry : Type := VkEntry {
  vk : string;
  owners : list string;
  bonded : number;
  stat : option vk_stat
}.

Definition vk_table : Type := jsobj vk_entry.
Definition snapshot : Type := jsobj vk_table.

(** The answer of the GraphQL service: the count, and the time stamps of the
    [edges] returned. *)
Record gql_answer : Type := GqlAnswer {
  totalCount : Z;
  edges : list string
}.

(** What the chain, the services and the key store answer. *)
Record env : Type := Env {
  vks_of : string → list (string * string);              (* (hash, vk) per runtime pallet *)
  tickets_of : string → list (string * string * Z);      (* (owner, hash, bond) *)
  request : string → option string → string → js gql_answer;
  parse_date : string → number;                          (* [new Date(s)], in ms *)
  nonce_of : string → Z;
  accepts : nat → bool;
  address_of : string → string
}.

Definition getVkStats (e : env) (gqlEndpoint : string) (pallet : option string) (vkey : string)
    : js vk_stat :=
  out ← request e gqlEndpoint pallet vkey;
  let total := totalCount out in
  if 0 <? total then
    match edges out with
    | t :: _ => Ret (VkStat total (Some t))
    | [] => Throw TypeError
    end
  else Ret (VkStat total None).

(** ** takeSnapshot *)

(** The statistics recorded with a key: [null] without an endpoint. *)
Definition fetch_stat (e : env) (gqlEndpoint : option string) (p hash : string)
    : js (option vk_stat) :=
  match gqlEndpoint with
  | Some g => s ← getVkStats e g (palletToGraphQl p) hash; Ret (Some s)
  | None => Ret None
  end.

Fixpoint vkeys_loop (e : env) (p : string) (gqlEndpoint : option string)
    (vkeys : list (string * string)) (table : vk_table) : js vk_table :=
  match vkeys with
  | [] => Ret table
  | (hash, vk) :: rest =>
      stat ← fetch_stat e gqlEndpoint p hash;
      vkeys_loop e p gqlEndpoint rest (obj_set table hash (VkEntry vk [] (Fin 0 0) stat))
  end.

(** The callback over the tickets. *)
Definition add_ticket (table : vk_table) (owner hash : string) (value : Z) : js vk_table :=
  match obj_get table hash with
  | None => Throw TypeError
  | Some d =>
      let bonded :=
        if (length (owners d) =? 0)%nat
        then num_div (of_Z value) (of_Z 1000000000000000000)
        else bonded d in
      Ret (obj_set table hash (VkEntry (vk d) (owners d ++ [owner]) bonded (stat d)))
  end.

Fixpoint tickets_loop (tickets : list (string * string * Z)) (table : vk_table) : js vk_table :=
  match tickets with
  | [] => Ret table
  | (owner, hash, value) :: rest =>
      table ← add_ticket table owner hash value; tickets_loop rest table
  end.

Fixpoint takeSnapshot (e : env) (pallets : list string) (gqlEndpoint : option string)
    (vks : snapshot) : js snapshot :=
  match pallets with
  | [] => Ret vks
  | p :: rest =>
      match pallet p with
      | None => Throw TypeError
      | Some sub =>
          table ← vkeys_loop e p gqlEndpoint (vks_of e sub) [];
          table ← tickets_loop (tickets_of e sub) table;
          takeSnapshot e rest gqlEndpoint (obj_set vks p table)
      end
  end.

(** ** restore *)

(** [sudoAs(owner, <pallet>.registerVk(vk))], its nonce and whether the node took
    it. *)
Record submission : Type := Submission {
  sub_pallet : string;
  sub_owner : string;
  sub_vk : string;
  sub_nonce : Z;
  sub_ok : bool
}.

(** The submissions so far and the next nonce. *)
Definition rstate : Type := list submission * Z.

Definition submit (e : env) (sub owner vk : string) (st : rstate) : rstate :=
  let ok := accepts e (length st.1) in
  (st.1 ++ [Submission sub owner vk st.2 ok], if ok then st.2 + 1 else st.2).

Fixpoint owner_loop (e : env) (p vk : string) (owners : list string) (st : rstate)
    : rstate * js unit :=
  match owners with
  | [] => (st, Ret tt)
  | owner :: rest =>
      match pallet p with
      | None => (st, Throw TypeError)
      | Some sub => owner_loop e p vk rest (submit e sub owner vk st)
      end
  end.

(** The [usedAfter] test; reading [lastUsed] of a null [stat] raises. *)
Definition unused (e : env) (usedAfter : option number) (stat : option vk_stat) : js bool :=
  match usedAfter with
  | None => Ret false
  | Some t =>
      match stat with
      | None => Throw TypeError
      | Some s =>
          match lastUsed s with
          | None => Ret true
          | Some d => Ret (num_ltb (parse_date e d) t)
          end
      end
  end.

Fixpoint vk_loop (e : env) (replace : option string) (usedAfter : option number) (p : string)
    (vks : vk_table) (st : rstate) : rstate * js unit :=
  match vks with
  | [] => (st, Ret tt)
  | (hash, d) :: rest =>
      match unused e usedAfter (stat d) with
      | Ret true => vk_loop e replace usedAfter p rest st
      | Ret false =>
          let owners := match replace with Some r => [r] | None => owners d end in
          match owner_loop e p (vk d) owners st with
          | (st, Ret _) => vk_loop e replace usedAfter p rest st
          | stopped => stopped
          end
      | Throw x => (st, Throw x)
      | Exit z => (st, Exit z)
      | Hang => (st, Hang)
      end
  end.

Fixpoint pallet_loop (e : env) (replace : option string) (usedAfter : option number)
    (vksMap : snapshot) (st : rstate) : rstate * js unit :=
  match vksMap with
  | [] => (st, Ret tt)
  | (p, vks) :: rest =>
      match vk_loop e replace usedAfter p vks st with
      | (st, Ret _) => pallet_loop e replace usedAfter rest st
      | stopped => stopped
      end
  end.

(** [pallets] is a parameter the function does not use. *)
Definition restore (e : env) (fs : gmap string snapshot) (pallets : list string)
    (snapshotVksFile sudo : string) (replace : option string) (usedAfter : option number)
    : list submission * js unit :=
  match fs !! snapshotVksFile with
  | None => ([], Throw (JsError "ENOENT"))
  | Some vksMap =>
      let '(st, r) := pallet_loop e replace usedAfter vksMap ([], nonce_of e sudo) in
      (st.1, r)
  end.

(** ** main *)

Record options : Type := Options {
  wsEndpoint : string;
  snapshotFile : string;
  pallets : list string;
  gqlEndpoint : option string;
  replace : option string;
  usedAfter : option number
}.

Definition defaults : options :=
  Options DEFAULT_WS_ENDPOINT DEFAULT_SNAPSHOT_PATH DEFAULT_PALLETS (Some DEFAULT_GRAPHQL) None None.

(** [s.split(',')] *)
Fixpoint split_comma (s : string) : list string :=
  match s with
  | EmptyString => [""]
  | String c s' =>
      if decide (c = ","%char) then "" :: split_comma s'
      else match split_comma s' with
           | w :: ws => String c w :: ws
           | [] => [String c ""]
           end
  end.

Definition is_arg (arg short long : string) : bool :=
  bool_decide (arg = short) || bool_decide (arg = long).

(** The options that take the next argument. *)
Definition set_option (e : env) (arg : string) : option (string → options → options) :=
  if is_arg arg "-e" "--end-point" then
    Some (λ v o, Options (default v (DEFAULT_WS_ENDPOINTS v)) (snapshotFile o) (pallets o)
                   (gqlEndpoint o) (replace o) (usedAfter o))
  else if is_arg arg "-s" "--snapshot" then
    Some (λ v o, Options (wsEndpoint o) v (pallets o) (gqlEndpoint o) (replace o) (usedAfter o))
  else if is_arg arg "-p" "--pallets" then
    Some (λ v o, Options (wsEndpoint o) (snapshotFile o) (trim <$> split_comma v)
                   (gqlEndpoint o) (replace o) (usedAfter o))
  else if is_arg arg "-q" "--gql" then
    Some (λ v o, Options (wsEndpoint o) (snapshotFile o) (pallets o)
                   (if decide (v = "null") then None else Some v) (replace o) (usedAfter o))
  else if is_arg arg "-r" "--replace" then
    Some (λ v o, Options (wsEndpoint o) (snapshotFile o) (pallets o) (gqlEndpoint o) (Some v)
                   (usedAfter o))
  else None.

Definition set_used_after (t : number) (o : options) : options :=
  Options (wsEndpoint o) (snapshotFile o) (pallets o) (gqlEndpoint o) (replace o) (Some t).

Fixpoint arg_loop (e : env) (args newArgs : list string) (o : options)
    : js (list string * options) :=
  match args with
  | [] => Ret (newArgs, o)
  | a :: tl =>
      match tl with
      | [] => Ret (newArgs ++ [a], o)
      | v :: rest =>
          match set_option e a with
          | Some set => arg_loop e rest newArgs (set v o)
          | None =>
              if is_arg a "-u" "--used" then arg_loop e tl newArgs (set_used_after (Fin 0 0) o)
              else if is_arg a "-u" "--used-after" then
                arg_loop e rest newArgs (set_used_after (parse_date e v) o)
              else if is_arg a "-h" "--help" then Exit 1
              else arg_loop e tl (newArgs ++ [a]) o
          end
      end
  end.

Definition main (e : env) (fs : gmap string snapshot) (args : list string)
    : gmap string snapshot * list submission * js unit :=
  match arg_loop e args [] defaults with
  | Ret (newArgs, o) =>
      match newArgs with
      | [] => (fs, [], Exit 1)
      | command :: args =>
          let command := toLowerCase command in
          if bool_decide (command = "snapshot") then
            match takeSnapshot e (pallets o) (gqlEndpoint o) [] with
            | Ret vks => (<[snapshotFile o := vks]> fs, [], Exit 0)
            | Throw x => (fs, [], Throw x)
            | Exit z => (fs, [], Exit z)
            | Hang => (fs, [], Hang)
            end
          else if bool_decide (command = "restore") then
            match args with
            | [seed] =>
                let '(subs, r) := restore e fs (pallets o) (snapshotFile o) (address_of e seed)
                                    (replace o) (usedAfter o) in
                (fs, subs, _ ← r; Exit 0)
            | _ => (fs, [], Exit 1)
            end
          else (fs, [], Exit 1)
      end
  | Throw x => (fs, [], Throw x)
  | Exit z => (fs, [], Exit z)
  | Hang => (fs, [], Hang)
  end.

(** ** Reference *)

(** Owners of a key, in the order of the tickets. *)
Definition owners_of (tickets : list (string * string * Z)) (hash : string) : list string :=
  (λ t, t.1.1) <$> filter (λ t, t.1.2 = hash) tickets.

(** A registration: runtime pallet, owner, key. *)
Definition registration : Type := string * string * string.

Definition registrations (sub vk : string) (owners : list string) : list registration :=
  (λ o, (sub, o, vk)) <$> owners.

(** The registrations a pallet's table stands for. *)
Definition table_registrations (e : env) (replace : option string) (usedAfter : option number)
    (p : string) (vks : vk_table) : list registration :=
  concat ((λ d, match unused e usedAfter (stat d.2) with
                | Ret false =>
                    registrations (default p (pallet p)) (vk d.2)
                      (match replace with Some r => [r] | None => owners d.2 end)
                | _ => []
                end) <$> vks).

Definition reg_of (s : submission) : registration := (sub_pallet s, sub_owner s, sub_vk s).

(** The registrations of the chain itself. *)
Definition chain_registrations (e : env) (p : string) : list registration :=
  let sub := default p (pallet p) in
  concat ((λ v, registrations sub v.2 (owners_of (tickets_of e sub) v.1)) <$> vks_of e sub).

(** ** Lemmas on restore *)

Lemma submit_reg e sub owner vk st :
  reg_of <$> (submit e sub owner vk st).1 = (reg_of <$> st.1) ++ [(sub, owner, vk)].
Proof. unfold submit. cbv zeta. cbn [fst]. by rewrite fmap_app. Qed.

Lemma owner_loop_spec e p sub vk owners st :
  pallet p = Some sub →
  ∃ st', owner_loop e p vk owners st = (st', Ret tt) ∧
    reg_of <$> st'.1 = (reg_of <$> st.1) ++ registrations sub vk owners.
Proof.
  intros Hp. revert st. induction owners as [|o owners IH]; intros st.
  { exists st. by rewrite app_nil_r. }
  cbn [owner_loop]. rewrite Hp. destruct (IH (submit e sub o vk st)) as (st' & -> & Hr).
  exists st'. split; [done|]. rewrite Hr, submit_reg, <- app_assoc. done.
Qed.

Lemma vk_loop_spec e replace usedAfter p sub vks st :
  pallet p = Some sub →
  Forall (λ d, ∃ b, unused e usedAfter (stat d.2) = Ret b) vks →
  ∃ st', vk_loop e replace usedAfter p vks st = (st', Ret tt) ∧
    reg_of <$> st'.1 = (reg_of <$> st.1) ++ table_registrations e replace usedAfter p vks.
Proof.
  intros Hp Hu. revert st. induction Hu as [|[h d] vks [b Hb] Hu IH]; intros st.
  { exists st. by rewrite app_nil_r. }
  simpl in Hb. unfold table_registrations in *. rewrite fmap_cons. cbn [vk_loop concat snd].
  rewrite Hb. destruct b; [apply IH|].
  destruct (owner_loop_spec e p sub (vk d)
    (match replace with Some r => [r] | None => owners d end) st Hp) as (st1 & -> & H1).
  destruct (IH st1) as (st2 & -> & H2). exists st2. split; [done|].
  rewrite H2, H1, Hp, <- app_assoc. done.
Qed.

(** Every table of the snapshot can be restored. *)
Definition restorable (e : env) (usedAfter : option number) (snap : snapshot) : Prop :=
  Forall (λ t, is_Some (pallet t.1) ∧
    Forall (λ d, ∃ b, unused e usedAfter (stat d.2) = Ret b) t.2) snap.

Lemma pallet_loop_spec e replace usedAfter snap st :
  restorable e usedAfter snap →
  ∃ st', pallet_loop e replace usedAfter snap st = (st', Ret tt) ∧
    reg_of <$> st'.1 = (reg_of <$> st.1) ++
      concat ((λ t, table_registrations e replace usedAfter t.1 t.2) <$> snap).
Proof.
  intros Hs. revert st. induction Hs as [|[p vks] snap [[sub Hp] Hu] Hs IH]; intros st.
  { exists st. by rewrite app_nil_r. }
  rewrite fmap_cons. cbn [pallet_loop concat fst snd].
  destruct (vk_loop_spec e replace usedAfter p sub vks st Hp Hu) as (st1 & -> & H1).
  destruct (IH st1) as (st2 & -> & H2). exists st2. split; [done|].
  by rewrite H2, H1, <- app_assoc.
Qed.

(** ** Nonces *)

Abbreviation accepted l := (Z.of_nat (length (filter (λ x, sub_ok x = true) l))).

(** The next nonce and those used are the first one plus the number accepted
    before. *)
Definition nonces_ok (n : Z) (st : rstate) : Prop :=
  st.2 = n + accepted st.1 ∧
  ∀ k s, st.1 !! k = Some s → sub_nonce s = n + accepted (take k st.1).

Lemma submit_nonces n e sub owner vk st : nonces_ok n st → nonces_ok n (submit e sub owner vk st).
Proof.
  intros [H1 H2]. unfold submit. split; simpl.
  - rewrite list.filter_app, length_app. destruct (accepts e (length st.1)); simpl; lia.
  - intros k s Hk. apply lookup_app_Some in Hk as [Hk|[Hl Hk]].
    + rewrite take_app_le by (apply lookup_lt_Some in Hk; lia). by apply H2.
    + apply list_lookup_singleton_Some in Hk as [Hk <-]. simpl.
      by rewrite take_app_length' by lia.
Qed.

Lemma owner_loop_nonces n e p vk owners st :
  nonces_ok n st → nonces_ok n (owner_loop e p vk owners st).1.
Proof.
  revert st. induction owners as [|o owners IH]; intros st H; [done|]. cbn [owner_loop].
  destruct (pallet p); [|done]. by apply IH, submit_nonces.
Qed.

Lemma vk_loop_nonces n e replace usedAfter p vks st :
  nonces_ok n st → nonces_ok n (vk_loop e replace usedAfter p vks st).1.
Proof.
  revert st. induction vks as [|[h d] vks IH]; intros st H; [done|]. cbn [vk_loop].
  destruct (unused _ _ _) as [[]|x|z|]; [by apply IH| |done..].
  pose proof (owner_loop_nonces n e p (vk d)
    (match replace with Some r => [r] | None => owners d end) st H) as Ho.
  destruct (owner_loop _ _ _ _ _) as [st1 [[]| | |]]; [by apply IH|done..].
Qed.

Lemma pallet_loop_nonces n e replace usedAfter snap st :
  nonces_ok n st → nonces_ok n (pallet_loop e replace usedAfter snap st).1.
Proof.
  revert st. induction snap as [|[p vks] snap IH]; intros st H; [done|]. cbn [pallet_loop].
  pose proof (vk_loop_nonces n e replace usedAfter p vks st H) as Hv.
  destruct (vk_loop _ _ _ _ _ _) as [st1 [[]| | |]]; [by apply IH|done..].
Qed.

(** ** Lemmas on the snapshot *)

(** What [restore] reads of an entry. *)
Definition view (d : vk_entry) : string * list string * option vk_stat := (vk d, owners d, stat d).

Definition add_owner (hash owner : string) (x : string * (string * list string * option vk_stat))
    : string * (string * list string * option vk_stat) :=
  (x.1, (x.2.1.1, x.2.1.2 ++ (if decide (x.1 = hash) then [owner] else []), x.2.2)).

Definition table_view (t : vk_table) : list (string * (string * list string * option vk_stat)) :=
  (λ p, (p.1, view p.2)) <$> t.

Lemma table_view_keys t : (table_view t).*1 = t.*1.
Proof. unfold table_view. by rewrite <- list_fmap_compose. Qed.

Lemma add_ticket_view table owner hash value :
  NoDup table.*1 → hash ∈ table.*1 →
  ∃ table', add_ticket table owner hash value = Ret table' ∧
    table_view table' = add_owner hash owner <$> table_view table.
Proof.
  intros Hnd Hin. unfold add_ticket. apply list_elem_of_fmap in Hin as ([h d] & -> & Hin).
  simpl. rewrite (proj2 (obj_get_Some _ _ _ Hnd) Hin). eexists. split; [done|].
  set (b := if (_ =? _)%nat then _ else _). clearbody b.
  induction table as [|[h' d'] table IH]; [by apply elem_of_nil in Hin|].
  rewrite fmap_cons in Hnd. apply list.NoDup_cons in Hnd as [Hni Hnd]. simpl in Hni.
  cbn [obj_set]. destruct (decide (h' = h)) as [->|Hne].
  - assert (d' = d) as ->.
    { apply elem_of_cons in Hin as [[=]|Hin]; [done|].
      destruct Hni. apply list_elem_of_fmap. by exists (h, d). }
    unfold table_view. rewrite !fmap_cons. f_equal.
    { unfold add_owner, view. simpl. by rewrite decide_True. }
    rewrite <- list_fmap_compose. apply list_fmap_ext. intros i [h2 d2] Hi.
    unfold add_owner, view. simpl. rewrite decide_False, app_nil_r; [done|].
    intros ->. apply Hni, list_elem_of_fmap. exists (h, d2). split; [done|].
    by eapply list_elem_of_lookup_2.
  - apply elem_of_cons in Hin as [[=]|Hin]; [by subst|].
    unfold table_view in *. rewrite !fmap_cons. f_equal.
    { unfold add_owner, view. simpl. by rewrite decide_False, app_nil_r. }
    by apply IH.
Qed.

Lemma owners_of_cons owner h value tickets hash :
  owners_of ((owner, h, value) :: tickets) hash =
  (if decide (hash = h) then [owner] else []) ++ owners_of tickets hash.
Proof.
  unfold owners_of. rewrite filter_cons. simpl.
  destruct (decide (h = hash)), (decide (hash = h)); by subst.
Qed.

Lemma tickets_loop_view tickets table :
  NoDup table.*1 → Forall (λ t, t.1.2 ∈ table.*1) tickets →
  ∃ table', tickets_loop tickets table = Ret table' ∧
    table_view table' =
    (λ x, (x.1, (x.2.1.1, x.2.1.2 ++ owners_of tickets x.1, x.2.2))) <$> table_view table.
Proof.
  revert table. induction tickets as [|[[owner hash] value] tickets IH]; intros table Hnd Ht.
  { exists table. split; [done|]. symmetry. rewrite <- (list_fmap_id (table_view table)) at 2.
    apply list_fmap_ext. intros i [h [[v os] s]] _. cbn. by rewrite app_nil_r. }
  apply list.Forall_cons in Ht as [Hh Ht]. simpl in Hh. cbn [tickets_loop].
  destruct (add_ticket_view table owner hash value Hnd Hh) as (t1 & -> & Hv1). cbn [mbind js_bind].
  assert (Hk : t1.*1 = table.*1).
  { rewrite <- !table_view_keys, Hv1, <- list_fmap_compose. done. }
  destruct (IH t1) as (t2 & -> & Hv2); [by rewrite Hk..|]. exists t2. split; [done|].
  rewrite Hv2, Hv1, <- list_fmap_compose. apply list_fmap_ext. intros i [h [[v os] s]] _.
  unfold add_owner. simpl. by rewrite owners_of_cons, <- app_assoc.
Qed.

Lemma vkeys_loop_spec e p gql vkeys table :
  NoDup (table.*1 ++ vkeys.*1) →
  Forall (λ v, ∃ s, fetch_stat e gql p v.1 = Ret s) vkeys →
  ∃ new, vkeys_loop e p gql vkeys table = Ret (table ++ new) ∧
    Forall2 (λ v d, d.1 = v.1 ∧ vk d.2 = v.2 ∧ owners d.2 = [] ∧
                    fetch_stat e gql p v.1 = Ret (stat d.2)) vkeys new.
Proof.
  intros Hnd Hs. revert table Hnd. induction Hs as [|[h v] vkeys [s Hs] _ IH]; intros table Hnd.
  { exists []. by rewrite app_nil_r. }
  cbn [vkeys_loop]. simpl in Hs. rewrite Hs. cbn [mbind js_bind]. rewrite fmap_cons in Hnd.
  cbn [fst] in Hnd. rewrite obj_set_fresh.
  2:{ apply list.NoDup_app in Hnd as (_ & Hx & _). intros Hin. apply (Hx h Hin). left. }
  destruct (IH (table ++ [(h, VkEntry v [] (Fin 0 0) s)])) as (new & -> & H2).
  { by rewrite fmap_app, <- app_assoc. }
  eexists. rewrite <- app_assoc. split; [done|]. by constructor.
Qed.

(** What the snapshot needs of a pallet: a known name, distinct key hashes,
    tickets for registered keys only, statistics that can be fetched. *)
Definition snapshot_ok (e : env) (gql : option string) (p : string) : Prop :=
  ∃ sub, pallet p = Some sub ∧ NoDup (vks_of e sub).*1 ∧
    Forall (λ t, t.1.2 ∈ (vks_of e sub).*1) (tickets_of e sub) ∧
    Forall (λ v, ∃ s, fetch_stat e gql p v.1 = Ret s) (vks_of e sub).

(** A faithful table: one entry per key, in order, with its owners. *)
Definition table_ok (e : env) (gql : option string) (p : string) (table : vk_table) : Prop :=
  ∃ sub, pallet p = Some sub ∧
    Forall2 (λ v d, d.1 = v.1 ∧ vk d.2 = v.2 ∧ owners d.2 = owners_of (tickets_of e sub) v.1 ∧
                    fetch_stat e gql p v.1 = Ret (stat d.2)) (vks_of e sub) table.

Lemma pallet_table e gql p sub :
  pallet p = Some sub → snapshot_ok e gql p →
  ∃ table, (t ← vkeys_loop e p gql (vks_of e sub) []; tickets_loop (tickets_of e sub) t) = Ret table ∧
    table_ok e gql p table.
Proof.
  intros Hp (sub' & Hp' & Hnd & Ht & Hs). rewrite Hp in Hp'. injection Hp' as <-.
  destruct (vkeys_loop_spec e p gql (vks_of e sub) [] Hnd Hs) as (t1 & -> & H1).
  cbn [mbind js_bind app].
  assert (Hk : t1.*1 = (vks_of e sub).*1).
  { clear -H1. induction H1 as [|v d l k (Hd & _) _ IH]; [done|]. rewrite !fmap_cons. by f_equal. }
  destruct (tickets_loop_view (tickets_of e sub) t1) as (t2 & -> & Hv); [by rewrite Hk..|].
  exists t2. split; [done|]. exists sub. split; [done|].
  clear -H1 Hv. unfold table_view in Hv. rewrite <- list_fmap_compose in Hv.
  revert t2 Hv. induction H1 as [|v [h d] l k (Hd & Hvk & Ho & Hst) _ IH]; intros t2 Hv.
  { destruct t2; [constructor|done]. }
  destruct t2 as [|[h2 d2] t2]; [done|]. rewrite !fmap_cons in Hv. injection Hv as Hh Hv1 Ho2 Hs2 Hv.
  constructor; [|by apply IH]. simpl in *. rewrite Ho, app_nil_l in Ho2. split_and!; congruence.
Qed.

Lemma vks_takeSnapshot_spec e gql pallets snap0 :
  NoDup (snap0.*1 ++ pallets) → Forall (snapshot_ok e gql) pallets →
  ∃ snap, takeSnapshot e pallets gql snap0 = Ret (snap0 ++ snap) ∧
    Forall2 (λ p t, t.1 = p ∧ table_ok e gql p t.2) pallets snap.
Proof.
  intros Hnd Hok. revert snap0 Hnd. induction Hok as [|p pallets Hp Hok IH]; intros snap0 Hnd.
  { exists []. by rewrite app_nil_r. }
  cbn [takeSnapshot]. pose proof Hp as (sub & Hsub & _). rewrite Hsub.
  destruct (pallet_table e gql p sub Hsub Hp) as (table & Ht & Htok).
  apply bind_Ret_inv in Ht as (t1 & -> & Ht). cbn [mbind js_bind]. rewrite Ht. cbn [mbind js_bind].
  rewrite obj_set_fresh.
  2:{ apply list.NoDup_app in Hnd as (_ & Hx & _). intros Hin. apply (Hx p Hin). left. }
  destruct (IH (snap0 ++ [(p, table)])) as (snap & -> & H2).
  { by rewrite fmap_app, <- app_assoc. }
  eexists. rewrite <- app_assoc. split; [done|]. by constructor.
Qed.

Lemma table_registrations_ok e gql e' p table :
  table_ok e gql p table → table_registrations e' None None p table = chain_registrations e p.
Proof.
  intros (sub & Hp & H). unfold table_registrations, chain_registrations. rewrite Hp. simpl.
  f_equal. induction H as [|v d l k (Hd & Hvk & Ho & _) _ IH]; [done|].
  rewrite !fmap_cons. f_equal; [|exact IH]. by rewrite Hvk, Ho.
Qed.

(** A faithful snapshot can be restored, to the registrations of the chain. *)
Lemma snapshot_registrations e gql e' ps (snap : snapshot) :
  Forall2 (λ p t, t.1 = p ∧ table_ok e gql p t.2) ps snap →
  restorable e' None snap ∧
  concat ((λ t, table_registrations e' None None t.1 t.2) <$> snap) =
  concat (chain_registrations e <$> ps).
Proof.
  induction 1 as [|p [q t] ps ts [Hq Ht] _ [IH1 IH2]]; [split; [constructor|done]|]. simpl in Hq, Ht. subst q. split.
  - constructor; [|exact IH1]. destruct Ht as (sub & Hp & _). simpl. split; [eauto|].
    apply list.Forall_forall. intros d _. by exists false.
  - rewrite !fmap_cons. cbn [concat fst snd]. f_equal; [|exact IH2]. by eapply table_registrations_ok.
Qed.

(** ** Lemmas on the command line *)

Lemma arg_loop_step e a v rest newArgs o :
  arg_loop e (a :: v :: rest) newArgs o =
  match set_option e a with
  | Some set => arg_loop e rest newArgs (set v o)
  | None =>
      if is_arg a "-u" "--used" then arg_loop e (v :: rest) newArgs (set_used_after (Fin 0 0) o)
      else if is_arg a "-u" "--used-after" then
        arg_loop e rest newArgs (set_used_after (parse_date e v) o)
      else if is_arg a "-h" "--help" then Exit 1
      else arg_loop e (v :: rest) (newArgs ++ [a]) o
  end.
Proof. reflexivity. Qed.

(** Once a first positional argument is found it stays the command. *)
Lemma arg_loop_head e args c cs o :
  arg_loop e args (c :: cs) o = Exit 1 ∨ ∃ cs' o', arg_loop e args (c :: cs) o = Ret (c :: cs', o').
Proof.
  remember (length args) as n eqn:Hn. revert args cs o Hn.
  induction n as [n IH] using lt_wf_ind; intros args cs o Hn.
  destruct args as [|a [|v rest]]; [right; by eauto..|]. rewrite arg_loop_step. simpl in Hn.
  destruct (set_option e a); [by apply (IH (length rest)); [lia|]|].
  destruct (is_arg a "-u" "--used"); [by apply (IH (length (v :: rest))); [simpl; lia|]|].
  destruct (is_arg a "-u" "--used-after"); [by apply (IH (length rest)); [lia|]|].
  destruct (is_arg a "-h" "--help"); [by left|].
  by apply (IH (length (v :: rest)) ltac:(simpl; lia) (v :: rest) (cs ++ [a])).
Qed.

(** ** Properties *)

(** [restore] on a snapshot of known pallets registers, in the order of the
    file, every key that is not filtered out by its last use: once for the
    replacement owner if there is one, otherwise once for each recorded owner. *)
Theorem restore_registers e fs pallets file sudo replace usedAfter snap :
  fs !! file = Some snap → restorable e usedAfter snap →
  let '(subs, r) := restore e fs pallets file sudo replace usedAfter in
  r = Ret tt ∧
  reg_of <$> subs = concat ((λ t, table_registrations e replace usedAfter t.1 t.2) <$> snap).
Proof.
  intros Hf Hs. unfold restore. rewrite Hf.
  destruct (pallet_loop_spec e replace usedAfter snap ([], nonce_of e sudo) Hs) as (st & -> & H).
  done.
Qed.

Definition sample_env : env :=
  Env (λ sub, if decide (sub = "settlementGroth16Pallet") then [("0xh1", "vk1"); ("0xh2", "vk2")] else [])
    (λ sub, if decide (sub = "settlementGroth16Pallet")
            then [("alice", "0xh2", 10 ^ 18); ("bob", "0xh1", 10 ^ 18); ("carol", "0xh2", 5)] else [])
    (λ _ _ hash, Ret (if decide (hash = "0xh1") then GqlAnswer 0 [] else GqlAnswer 2 ["d"]))
    (λ _, of_Z 1000) (λ _, 4) (λ i, negb (i =? 1)%nat) id.

Definition sample_table : snapshot :=
  [("groth16", [("0xh1", VkEntry "vk1" ["bob"] (Fin 1 0) (Some (VkStat 0 None)));
                ("0xh2", VkEntry "vk2" ["alice"; "carol"] (Fin 1 0) (Some (VkStat 2 (Some "d"))))])].

Lemma restore_registers_witness :
  let '(subs, r) := restore sample_env {["f" := sample_table]} [] "f" "sudo" None (Some (Fin 0 0)) in
  r = Ret tt ∧
  reg_of <$> subs = [("settlementGroth16Pallet", "alice", "vk2");
                     ("settlementGroth16Pallet", "carol", "vk2")].
Proof.
  apply (restore_registers sample_env {["f" := sample_table]} [] "f" "sudo" None (Some (Fin 0 0))
           sample_table); [reflexivity|].
  repeat constructor; simpl; (by eexists) || done.
Defined.

(** However [restore] ends, each submission's nonce is the sudo account's
    nonce plus the number of submissions accepted before it. *)
Theorem restore_vks_nonces e fs pallets file sudo replace usedAfter k s :
  let subs := (restore e fs pallets file sudo replace usedAfter).1 in
  subs !! k = Some s →
  sub_nonce s =
  nonce_of e sudo + Z.of_nat (length (filter (λ x, sub_ok x = true) (take k subs))).
Proof.
  unfold restore. destruct (fs !! file) as [snap|]; [|done].
  pose proof (pallet_loop_nonces (nonce_of e sudo) e replace usedAfter snap ([], nonce_of e sudo)) as H.
  destruct (pallet_loop _ _ _ _ _) as [st r]. simpl in *. apply H. split; simpl; [lia|done].
Qed.

Lemma restore_vks_nonces_witness :
  sub_nonce (Submission "settlementGroth16Pallet" "carol" "vk2" 5 true) = 4 + 1.
Proof.
  etransitivity.
  - apply (restore_vks_nonces sample_env {["f" := sample_table]} [] "f" "sudo" None None 2).
    vm_compute. reflexivity.
  - vm_compute. reflexivity.
Defined.

(** C32: snapshot then restore.  If the tickets of the source chain name registered
    keys only, [snapshot] succeeds and [restore] of its file registers exactly
    one key per ticket: for every pallet, key by key, the key on behalf of each
    of its owners in the order of the tickets. *)
Theorem vks_snapshot_restore e e' fs seed :
  Forall (snapshot_ok e (Some DEFAULT_GRAPHQL)) DEFAULT_PALLETS →
  let '(fs', _, r) := main e fs ["snapshot"] in
  let '(_, subs, r') := main e' fs' ["restore"; seed] in
  r = Exit 0 ∧ r' = Exit 0 ∧
  reg_of <$> subs = concat (chain_registrations e <$> DEFAULT_PALLETS).
Proof.
  intros Hok.
  destruct (vks_takeSnapshot_spec e (Some DEFAULT_GRAPHQL) DEFAULT_PALLETS []) as (snap & Hs & Hf2).
  { apply (bool_decide_unpack _). vm_compute. exact I. }
  { done. }
  assert (Hm : main e fs ["snapshot"] =
    match takeSnapshot e DEFAULT_PALLETS (Some DEFAULT_GRAPHQL) [] with
    | Ret vks => (<[DEFAULT_SNAPSHOT_PATH := vks]> fs, [], Exit 0)
    | Throw x => (fs, [], Throw x) | Exit z => (fs, [], Exit z) | Hang => (fs, [], Hang)
    end) by reflexivity.
  assert (Hm' : ∀ fs', main e' fs' ["restore"; seed] =
    let '(subs, r) := restore e' fs' DEFAULT_PALLETS DEFAULT_SNAPSHOT_PATH (address_of e' seed)
                        None None in
    (fs', subs, _ ← r; Exit 0)) by reflexivity.
  destruct (snapshot_registrations e _ e' _ _ Hf2) as [Hr Hreg].
  rewrite app_nil_l in Hs. rewrite Hm, Hs. cbv beta iota. rewrite Hm', <- Hreg. unfold restore. rewrite lookup_insert_eq.
  cbv beta iota.
  destruct (pallet_loop_spec e' None None snap ([], nonce_of e' (address_of e' seed)) Hr)
    as (st & -> & H). done.
Qed.

Lemma vks_snapshot_restore_witness :
  let '(fs', _, r) := main sample_env ∅ ["snapshot"] in
  let '(_, subs, r') := main sample_env fs' ["restore"; "//Sudo"] in
  r = Exit 0 ∧ r' = Exit 0 ∧
  reg_of <$> subs = [("settlementGroth16Pallet", "bob", "vk1");
                     ("settlementGroth16Pallet", "alice", "vk2");
                     ("settlementGroth16Pallet", "carol", "vk2")].
Proof.
  apply (vks_snapshot_restore sample_env sample_env ∅ "//Sudo").
  assert (Hno : ∀ p sub, pallet p = Some sub → sub ≠ "settlementGroth16Pallet" →
    snapshot_ok sample_env (Some DEFAULT_GRAPHQL) p).
  { intros p sub Hp Hne. exists sub. simpl. rewrite !decide_False by done.
    split_and!; [done|constructor..]. }
  repeat constructor; try (eapply Hno; [reflexivity|done]).
  eexists. split; [reflexivity|]. split_and!.
  - apply (bool_decide_unpack _). vm_compute. exact I.
  - apply (bool_decide_unpack _). vm_compute. exact I.
  - repeat constructor; eexists; reflexivity.
Defined.

(** The short option [-U] that the usage text gives for [--used-after] is not
    recognised: it is taken for the command, and nothing is restored. *)
Theorem used_after_short_option_rejected e fs date seed :
  main e fs ["-U"; date; "restore"; seed] = (fs, [], Exit 1).
Proof.
  unfold main. rewrite arg_loop_step. cbn [app].
  replace (set_option e "-U") with (@None (string → options → options)) by reflexivity.
  change (is_arg "-U" "-u" "--used") with false. change (is_arg "-U" "-u" "--used-after") with false.
  change (is_arg "-U" "-h" "--help") with false. cbv iota.
  destruct (arg_loop_head e [date; "restore"; seed] "-U" [] defaults) as [->|(cs & o & ->)];
    reflexivity.
Qed.
