(* ===== verification/ZkvLib.v ===== *)
(** * The zombienet test library ([zombienet-tests/zkv-lib/index.js])

    The shared API handle, the transaction handler the scenarios use (retries,
    in-block or finalized, event filter), event waiting, the wrappers that build
    the extrinsics, and the custom type and RPC tables given to the API. *)

From S2P Require Import Prelude JsString TxLifecycle.

Open Scope Z_scope.

(** ** init_api *)

(** The module variable [api]: the endpoint it is connected to. *)
Definition api_handle : Type := option string.

(** [nodesByName[nodeName]] is [None] when the node is unknown. *)
Definition init_api (api : api_handle) (nodesByName : gmap string string) (nodeName : string)
    : api_handle * js string :=
  match api with
  | Some h => (api, Ret h)
  | None =>
      match nodesByName !! nodeName with
      | Some wsUri => (Some wsUri, Ret wsUri)
      | None => (None, Throw TypeError)
      end
  end.

(** ** The transaction handler *)

Inductive BlockUntil : Type :=
  | UntilInBlock
  | UntilFinalized.

#[export] Instance BlockUntil_eq_dec : EqDecision BlockUntil.
Proof. solve_decision. Defined.

Inductive ext_status : Type :=
  | IsReady
  | IsInBlock (hash : string)
  | IsFinalized (hash : string)
  | IsInvalid
  | IsError
  | IsOther.

Record ext_update : Type := ExtUpdate {
  u_status : ext_status;
  u_records : list event_record
}.

Inductive ext_event : Type :=
  | Notified (u : ext_update)
  | NotSent (code : option Z).

(** What the node does with one submission, and the lengths of the mempool
    polled after it if it has to be retried. *)
Record try : Type := Try {
  t_events : list ext_event;
  t_polls : list nat
}.

(** The variables shared by all attempts. *)
Record zstate : Type := ZState {
  z_success : bool;       (* [transactionSuccessEvent] *)
  z_done : bool;
  z_ready : bool          (* [hasBeenReady] *)
}.

Definition z_init : zstate := ZState false false false.

Inductive zsettlement : Type :=
  | ZResolved (blockHash : option string) (records : list event_record)
  | ZRejected (r : rejection).

Definition is_extrinsic_success (r : event_record) : bool :=
  bool_decide (section r = "system") && bool_decide (method r = "ExtrinsicSuccess").

(** The status part of the callback: new state, block hash, and whether it has
    rejected the promise for a retry. *)
Definition on_status (until : BlockUntil) (st : zstate) (u : ext_update)
    : zstate * option string * bool :=
  match u_status u with
  | IsReady => (ZState (z_success st) (z_done st) true, None, false)
  | IsInBlock h =>
      (ZState (z_success st || existsb is_extrinsic_success (u_records u))
         (z_done st || bool_decide (until = UntilInBlock)) (z_ready st), Some h, false)
  | IsFinalized _ =>
      (ZState (z_success st) (z_done st || bool_decide (until = UntilFinalized)) (z_ready st),
       None, false)
  | IsInvalid => (ZState (z_success st) true (z_ready st), None, z_ready st)
  | IsError => (ZState (z_success st) true (z_ready st), None, false)
  | IsOther => (st, None, false)
  end.

(** The whole callback; a promise settles once, so an earlier rejection wins. *)
Definition on_notify (until : BlockUntil) (st : zstate) (u : ext_update)
    : zstate * option zsettlement :=
  let '(st, blockHash, retry) := on_status until st u in
  if retry then (st, Some (ZRejected Retry))
  else if z_done st then
    if z_success st then (st, Some (ZResolved blockHash (u_records u)))
    else (st, Some (ZRejected NotRetry))
  else (st, None).

Fixpoint run_try (until : BlockUntil) (st : zstate) (evs : list ext_event)
    : zstate * option zsettlement :=
  match evs with
  | [] => (st, None)
  | Notified u :: evs =>
      match on_notify until st u with
      | (st', None) => run_try until st' evs
      | settled => settled
      end
  | NotSent code :: _ =>
      (st, Some (ZRejected (if bool_decide (code = Some 1014) then Retry else NotRetry)))
  end.

(** [waitForEmptyMempool]: does a poll find it empty? *)
Fixpoint waitForEmptyMempool (polls : list nat) : bool :=
  match polls with
  | [] => false
  | pending :: polls => if (0 <? pending)%nat then waitForEmptyMempool polls else true
  end.

Inductive zreturn : Type :=
  | ZMinusOne
  | ZUndefined
  | ZSuccess (block : option string) (events : list event_record).

Inductive zoutcome : Type :=
  | ZPending
  | ZReturned (r : zreturn).

Fixpoint z_loop (until : BlockUntil) (flt : event_record → bool) (st : zstate) (max_retries : Z)
    (retVal : zreturn) (tries : list try) : zoutcome :=
  if negb (z_done st) && (0 <? max_retries) then
    match tries with
    | [] => ZPending
    | t :: rest =>
        match run_try until st (t_events t) with
        | (_, None) => ZPending
        | (st', Some (ZResolved b records)) =>
            z_loop until flt st' max_retries (ZSuccess b (List.filter flt records)) rest
        | (st', Some (ZRejected NotRetry)) =>
            z_loop until flt (ZState (z_success st') true (z_ready st')) max_retries ZMinusOne rest
        | (st', Some (ZRejected Retry)) =>
            if waitForEmptyMempool (t_polls t)
            then z_loop until flt (ZState (z_success st') false (z_ready st')) (max_retries - 1)
                   ZUndefined rest
            else ZPending
        end
    end
  else ZReturned retVal.

(** [filter === undefined] keeps every event. *)
Definition handle (until : BlockUntil) (filter : option (event_record → bool)) (tries : list try)
    : zoutcome :=
  z_loop until (default (λ _, true) filter) z_init 5 ZMinusOne tries.

(** The argument of [exports.receivedEvents]: what a submission returned, or the
    [events] property read from it ([undefined] on [-1]). *)
Inductive received : Type :=
  | AData (r : zreturn)
  | AEvents (events : option (list event_record)).

Definition receivedEvents (data : received) : js bool :=
  match data with
  | AEvents (Some events) | AData (ZSuccess _ events) => Ret (0 <? length events)%nat
  | AData ZMinusOne => Ret false
  | AEvents None | AData ZUndefined => Throw TypeError
  end.

(** ** The extrinsics *)

(** The values given to the API; an object of the API (an integer or a hash read
    from an event) is given by its string. *)
Inductive jsv : Type :=
  | JUndefined
  | JNull
  | JBool (b : bool)
  | JNum (z : Z)
  | JStr (s : string)
  | JArr (l : list jsv)
  | JObj (fields : list (string * jsv))
  | JMap (entries : list (jsv * jsv))
  | JExt (pallet name : string) (args : list jsv).

Inductive ext : Type :=
  | Call (pallet name : string) (args : list jsv)
  | SudoCall (call : ext).

(** What is handed to the handler; [SignAndSend None] is a call with an undefined
    signer. *)
Inductive sender : Type :=
  | SignAndSend (signer : option string)
  | Send.

Record request : Type := Request {
  r_ext : ext;
  r_sender : sender;
  r_until : BlockUntil;
  r_filter : option (event_record → bool)
}.

Definition submitExtrinsic (e : ext) (signer : option string) (until : BlockUntil)
    (filter : option (event_record → bool)) : request :=
  Request e (SignAndSend signer) until filter.

Definition submitExtrinsicUnsigned (e : ext) (until : BlockUntil)
    (filter : option (event_record → bool)) : request :=
  Request e Send until filter.

(** The exported function of the same name, which calls [submitExtrinsic]. *)
Definition exports_submitExtrinsicUnsigned (e : ext) (until : BlockUntil)
    (filter : option (event_record → bool)) : request :=
  submitExtrinsic e None until filter.

Definition in_section (s : string) (e : event_record) : bool := bool_decide (section e = s).
Definition is_method (m : string) (e : event_record) : bool := bool_decide (method e = m).

Definition submitProof (pallet signer : string) (verifierArgs : list jsv) : request :=
  submitExtrinsic
    (Call pallet "submitProof"
       (if (length verifierArgs <? 4)%nat then verifierArgs ++ [JNull] else verifierArgs))
    (Some signer) UntilInBlock
    (Some (λ e, is_method "ProofVerified" e
                || (in_section "aggregate" e && is_method "NewProof" e)
                || (in_section "aggregate" e && is_method "AggregationComplete" e))).

Definition new_domain (e : event_record) : bool :=
  in_section "aggregate" e && is_method "NewDomain" e.

Definition registerDomain (signer : string)
    (aggregation_size queue_len rules proof_rules destination deliveryOwner : jsv) : request :=
  submitExtrinsic
    (Call "aggregate" "registerDomain"
       [aggregation_size; queue_len; rules; proof_rules; destination; deliveryOwner])
    (Some signer) UntilInBlock (Some new_domain).

Definition sudoRegisterDomain (signer : string)
    (aggregation_size queue_len rules proof_rules destination deliveryOwner : jsv) : request :=
  submitExtrinsic
    (SudoCall (Call "aggregate" "registerDomain"
       [aggregation_size; queue_len; rules; proof_rules; destination; deliveryOwner]))
    (Some signer) UntilInBlock (Some new_domain).

Definition unregisterDomain (signer : string) (domain_id : jsv) : request :=
  submitExtrinsic (Call "aggregate" "unregisterDomain" [domain_id]) (Some signer) UntilInBlock None.

Definition holdDomain (signer : string) (domain_id : jsv) : request :=
  submitExtrinsic (Call "aggregate" "holdDomain" [domain_id]) (Some signer) UntilInBlock None.

Definition allowlistProofSubmitters (signer : string) (domain_id allowList : jsv) : request :=
  submitExtrinsic (Call "aggregate" "allowlistProofSubmitters" [domain_id; allowList])
    (Some signer) UntilInBlock None.

Definition removeProofSubmitters (signer : string) (domain_id allowList : jsv) : request :=
  submitExtrinsic (Call "aggregate" "removeProofSubmitters" [domain_id; allowList])
    (Some signer) UntilInBlock None.

Definition aggregate (signer : string) (domain_id aggregation_id : jsv) : request :=
  submitExtrinsic (Call "aggregate" "aggregate" [domain_id; aggregation_id]) (Some signer)
    UntilInBlock (Some (in_section "aggregate")).

(** The two requests of [sudoInitClaim]. *)
Definition fund_claim (signer : string) (palletAddress : string) (initial_balance : jsv) : request :=
  submitExtrinsic (Call "balances" "transferAllowDeath" [JStr palletAddress; initial_balance])
    (Some signer) UntilInBlock None.

Definition begin_claim_request (signer : string) (beneficiaries message : jsv) : request :=
  submitExtrinsic (SudoCall (Call "tokenClaim" "beginClaim" [beneficiaries; message]))
    (Some signer) UntilInBlock (Some (in_section "tokenClaim")).

Definition claim (signer signature : jsv) : request :=
  submitExtrinsicUnsigned (Call "tokenClaim" "claim" [signer; signature]) UntilInBlock
    (Some (in_section "tokenClaim")).

Definition claimEthereum (signer signature dest : jsv) : request :=
  submitExtrinsicUnsigned (Call "tokenClaim" "claimEthereum" [signer; signature; dest])
    UntilInBlock (Some (in_section "tokenClaim")).

Definition sudoRegisterCA (signer : string) (ca_name root_cert_der : jsv) : request :=
  submitExtrinsic (SudoCall (Call "crl" "registerCa" [ca_name; root_cert_der])) (Some signer)
    UntilInBlock (Some (in_section "crl")).

Definition updateCrl (signer : string) (ca_name crl_input : jsv) : request :=
  submitExtrinsic (Call "crl" "updateCrl" [ca_name; crl_input]) (Some signer) UntilInBlock
    (Some (in_section "crl")).

Definition registerVk (pallet signer : string) (vk : jsv) : request :=
  submitExtrinsic (Call pallet "registerVk" [vk]) (Some signer) UntilInBlock
    (Some (λ e, in_section "settlementUltraplonkPallet" e && is_method "VkRegistered" e)).

(** Running a request against a node. *)
Definition perform (r : request) (tries : list try) : zoutcome :=
  handle (r_until r) (r_filter r) tries.

(** ** waitForEvent *)

Inductive tick : Type :=
  | Events (records : list event_record)
  | TimeoutExpired.

(** [None] is [-1]; the outer option is [None] while nothing has settled. *)
Fixpoint waitForEvent (pallet name : string) (ticks : list tick) : option (option event_record) :=
  match ticks with
  | [] => None
  | TimeoutExpired :: _ => Some None
  | Events records :: ticks =>
      match List.find (λ e, in_section pallet e && is_method name e) records with
      | Some e => Some (Some e)
      | None => waitForEvent pallet name ticks
      end
  end.

(** ** isVolta *)

Definition isVolta (chain : string) : bool := String.prefix "Volta " chain.

(** ** Custom types and RPC methods *)

(** Type expressions of the API's registry. *)
Inductive ty : Type :=
  | Ty (name : string)
  | Vec (t : ty)
  | Arr (t : ty) (n : nat).

Inductive type_def : Type :=
  | Struct (fields : list (string * ty))
  | Enum (variants : list (string * option ty)).

Definition unit_enum (names : list string) : type_def := Enum ((λ n, (n, None)) <$> names).

Definition zkvTypes : list (string * type_def) :=
  [("MerkleProof",
    Struct [("root", Ty "H256"); ("proof", Vec (Ty "H256")); ("number_of_leaves", Ty "u32");
            ("leaf_index", Ty "u32"); ("leaf", Ty "H256")]);
   ("Curve", unit_enum ["Bn254"; "Bls12_381"]);
   ("Groth16Vk",
    Struct [("curve", Ty "Curve"); ("alphaG1", Ty "Bytes"); ("betaG2", Ty "Bytes");
            ("gammaG2", Ty "Bytes"); ("deltaG2", Ty "Bytes"); ("gammaAbcG1", Vec (Ty "Bytes"))]);
   ("Plonky2Config", unit_enum ["Keccak"; "Poseidon"]);
   ("Plonky2Vk", Struct [("config", Ty "Plonky2Config"); ("bytes", Ty "Bytes")]);
   ("EzklVK", Struct [("vkBytes", Ty "Bytes")]);
   ("UltrahonkVk",
    Enum [("V0_84", Some (Ty "Bytes")); ("V3_0", Some (Ty "Bytes")); ("Legacy", Some (Ty "Bytes"))]);
   ("FflonkVk",
    Struct [("power", Ty "u8"); ("k1", Ty "U256"); ("k2", Ty "U256"); ("w", Ty "U256");
            ("w3", Ty "U256"); ("w4", Ty "U256"); ("w8", Ty "U256"); ("wr", Ty "U256");
            ("x2", Arr (Arr (Ty "U256") 2) 3); ("c0", Arr (Ty "U256") 3)])].

(** An RPC method: parameters and result. *)
Record rpc : Type := Rpc {
  rpc_section : string;
  rpc_name : string;
  rpc_params : list (string * ty);
  rpc_result : ty
}.

Definition vk_hash_rpc (name : string) (t : ty) : rpc :=
  Rpc "vk_hash" name [("vk", t)] (Ty "H256").

Definition zkvRpc : list rpc :=
  [Rpc "aggregate" "statementPath"
     [("at", Ty "BlockHash"); ("domain_id", Ty "u32"); ("aggregation_id", Ty "u64");
      ("statement", Ty "H256")] (Ty "MerkleProof");
   vk_hash_rpc "ezkl" (Ty "EzklVK");
   vk_hash_rpc "fflonk" (Ty "FflonkVk");
   vk_hash_rpc "groth16" (Ty "Groth16Vk");
   vk_hash_rpc "plonky2" (Ty "Plonky2Vk");
   vk_hash_rpc "risc0" (Ty "H256");
   vk_hash_rpc "ultrahonk" (Ty "UltrahonkVk");
   vk_hash_rpc "ultraplonk" (Ty "Bytes");
   vk_hash_rpc "sp1" (Ty "H256")].

(** The registry's own types. *)
Definition builtin (name : string) : bool :=
  bool_decide (name ∈ ["H256"; "u8"; "u32"; "u64"; "U256"; "Bytes"; "BlockHash"]).

Fixpoint ty_name (t : ty) : string :=
  match t with Ty n => n | Vec t => ty_name t | Arr t _ => ty_name t end.

(** Names a definition refers to. *)
Definition def_names (d : type_def) : list string :=
  match d with
  | Struct fields => (λ f, ty_name f.2) <$> fields
  | Enum variants => omap (λ v, ty_name <$> v.2) variants
  end.

(** Every name is built in, or defined earlier in the list. *)
Fixpoint resolved (known : list string) (defs : list (string * type_def)) : bool :=
  match defs with
  | [] => true
  | (n, d) :: defs =>
      forallb (λ m, builtin m || bool_decide (m ∈ known)) (def_names d)
      && negb (bool_decide (n ∈ known)) && resolved (known ++ [n]) defs
  end.

(** ** Lemmas on the handler *)

Section inblock.
Context (flt : event_record → bool).

(** The update a success is read from. *)
Definition included (u : ext_update) (b : option string) (records : list event_record) : Prop :=
  (∃ h, u_status u = IsInBlock h ∧ b = Some h) ∧ records = u_records u ∧
  existsb is_extrinsic_success (u_records u) = true.

Definition fresh (st : zstate) : Prop := z_success st = false ∧ z_done st = false.

Lemma on_notify_inblock st u :
  fresh st →
  match on_notify UntilInBlock st u with
  | (st', None) => fresh st'
  | (st', Some (ZResolved b records)) => z_done st' = true ∧ included u b records
  | (st', Some (ZRejected _)) => z_success st' = false
  end.
Proof.
  destruct st as [s d r]. intros [Hs Hd]. simpl in *. subst s d. unfold on_notify, on_status.
  destruct (u_status u) as [|h| | | |] eqn:Eu; simpl; try done.
  - destruct (existsb _ _) eqn:Ex; simpl; [|done]. split; [done|]. unfold included. eauto.
  - by destruct r.
Qed.

Lemma run_try_inblock st evs :
  fresh st →
  match run_try UntilInBlock st evs with
  | (_, None) => True
  | (st', Some (ZResolved b records)) =>
      z_done st' = true ∧ ∃ u, Notified u ∈ evs ∧ included u b records
  | (st', Some (ZRejected _)) => z_success st' = false
  end.
Proof.
  revert st. induction evs as [|[u|code] evs IH]; intros st Hf; [done| |by destruct Hf].
  cbn [run_try]. pose proof (on_notify_inblock st u Hf) as H.
  destruct (on_notify UntilInBlock st u) as [st' [[b rs|r]|]].
  - destruct H as [? ?]. split; [done|]. exists u. split; [left|done].
  - done.
  - specialize (IH st' H). destruct (run_try UntilInBlock st' evs) as [st2 [[b rs|r]|]]; [|done..].
    destruct IH as (? & u' & ? & ?). split; [done|]. exists u'. split; [by right|done].
Qed.

Lemma z_loop_done until st n ret tries :
  z_done st = true → z_loop until flt st n ret tries = ZReturned ret.
Proof. intros H. destruct tries; simpl; by rewrite H. Qed.

Lemma z_loop_inblock tries st n ret b evs :
  fresh st → (∀ b evs, ret ≠ ZSuccess b evs) →
  z_loop UntilInBlock flt st n ret tries = ZReturned (ZSuccess b evs) →
  ∃ t u, t ∈ tries ∧ Notified u ∈ t_events t ∧ included u b (u_records u) ∧
    evs = List.filter flt (u_records u).
Proof.
  revert st n ret. induction tries as [|t tries IH]; intros st n ret Hf Hr H; cbn [z_loop] in H.
  { destruct (_ && _); [done|]. injection H as ->. by destruct (Hr b evs). }
  destruct (_ && _); [|injection H as ->; by destruct (Hr b evs)]. pose proof (run_try_inblock st (t_events t) Hf) as Ht.
  destruct (run_try UntilInBlock st (t_events t)) as [st' [[b' rs|[]]|]]; [| | |done].
  - destruct Ht as (Hd & u & Hu & Hi). rewrite z_loop_done in H by done. simplify_eq.
    destruct Hi as (Hi1 & -> & Hi2). exists t, u. split_and!; [left|done|done|done].
  - destruct (waitForEmptyMempool _); [|done]. apply IH in H as (t' & u & Ht' & ?); [|by split|done].
    exists t', u. split; [by right|done].
  - rewrite z_loop_done in H by done. done.
Qed.
End inblock.

Section any_mode.
Context (until : BlockUntil) (flt : event_record → bool).

Lemma on_notify_resolved st u st' b rs :
  z_done st = false → on_notify until st u = (st', Some (ZResolved b rs)) →
  z_done st' = true ∧ rs = u_records u ∧ (until = UntilFinalized → b = None).
Proof.
  destruct st as [s d r]. simpl. intros -> H. unfold on_notify, on_status in H.
  destruct (u_status u); simpl in H; repeat case_match; simplify_eq; try done;
    case_bool_decide; simplify_eq/=; done.
Qed.

Lemma on_notify_open st u st' :
  z_done st = false → on_notify until st u = (st', None) → z_done st' = false.
Proof.
  destruct st as [s d r]. simpl. intros -> H. unfold on_notify, on_status in H.
  destruct (u_status u); simpl in H; repeat case_match; simplify_eq; done.
Qed.

Lemma run_try_resolved st evs st' b rs :
  z_done st = false → run_try until st evs = (st', Some (ZResolved b rs)) →
  z_done st' = true ∧ (until = UntilFinalized → b = None) ∧
  ∃ u, Notified u ∈ evs ∧ rs = u_records u.
Proof.
  revert st. induction evs as [|[u|code] evs IH]; intros st Hd H; [done| |done].
  cbn [run_try] in H. destruct (on_notify until st u) as [st1 [x|]] eqn:E; simplify_eq.
  - apply on_notify_resolved in E as (? & -> & ?); [|done].
    split_and!; [done..|]. exists u. split; [left|done].
  - apply on_notify_open in E; [|done]. destruct (IH _ E H) as (? & ? & u' & ? & ?).
    split_and!; [done..|]. exists u'. split; [by right|done].
Qed.

Lemma z_loop_success tries st n ret b evs :
  (∀ b evs, ret ≠ ZSuccess b evs) →
  z_loop until flt st n ret tries = ZReturned (ZSuccess b evs) →
  (until = UntilFinalized → b = None) ∧
  ∃ t u, t ∈ tries ∧ Notified u ∈ t_events t ∧ evs = List.filter flt (u_records u).
Proof.
  revert st n ret. induction tries as [|t tries IH]; intros st n ret Hr H; cbn [z_loop] in H.
  { destruct (_ && _); [done|]. injection H as ->. by destruct (Hr b evs). }
  destruct (negb (z_done st)) eqn:Hd; simpl in H; [|injection H as ->; by destruct (Hr b evs)].
  destruct (0 <? n); simpl in H; [|injection H as ->; by destruct (Hr b evs)].
  apply negb_true_iff in Hd.
  destruct (run_try until st (t_events t)) as [st' [[b' rs|[]]|]] eqn:E; [| | |done].
  - apply run_try_resolved in E as (Hd' & Hb & u & Hu & ->); [|done].
    rewrite z_loop_done in H by done. injection H as <- <-.
    split; [done|]. exists t, u. split_and!; [left|done|done].
  - destruct (waitForEmptyMempool _); [|done].
    apply IH in H as (Hb & t' & u & Ht' & ?); [|done].
    split; [done|]. exists t', u. split; [by right|done].
  - rewrite z_loop_done in H by done. done.
Qed.

(** An event that settles the attempt, whatever came before. *)
Definition decisive (ev : ext_event) : bool :=
  match ev with
  | NotSent _ => true
  | Notified u =>
      match u_status u with
      | IsInBlock _ => bool_decide (until = UntilInBlock)
      | IsFinalized _ => bool_decide (until = UntilFinalized)
      | IsInvalid | IsError => true
      | _ => false
      end
  end.

Lemma run_try_settles st evs :
  existsb decisive evs = true → ∃ st' s, run_try until st evs = (st', Some s).
Proof.
  revert st. induction evs as [|[u|code] evs IH]; intros st H; [done| |by eexists _, _].
  cbn [run_try]. destruct (on_notify until st u) as [st1 [s|]] eqn:E; [by eexists _, _|].
  simpl in H. apply orb_true_iff in H as [H|H]; [exfalso|by apply IH].
  destruct st as [s d r]. unfold on_notify, on_status in E.
  destruct (u_status u); simpl in *; try done; try rewrite H in E; rewrite ?orb_true_r in E;
    simpl in E; repeat case_match; done.
Qed.

(** Enough settling attempts make the loop return, and only as many as there are
    retries matter. *)
Lemma z_loop_returns (n : nat) tries st ret :
  Forall (λ t, existsb decisive (t_events t) = true ∧ waitForEmptyMempool (t_polls t) = true) tries →
  (n ≤ length tries)%nat →
  ∃ r, z_loop until flt st (Z.of_nat n) ret tries = ZReturned r ∧
       z_loop until flt st (Z.of_nat n) ret (take n tries) = ZReturned r.
Proof.
  revert tries st ret. induction n as [|n IH]; intros tries st ret Ht Hn.
  { exists ret. destruct tries; simpl; by rewrite andb_false_r. }
  destruct tries as [|t tries]; [simpl in Hn; lia|]. apply list.Forall_cons in Ht as [[Hs Hp] Ht].
  cbn [z_loop take]. destruct (z_done st) eqn:Hd; cbn [negb andb]; [by exists ret|].
  destruct (0 <? Z.of_nat (S n)); [|by exists ret].
  destruct (run_try_settles st _ Hs) as (st' & s & E). rewrite E, Hp.
  replace (Z.of_nat (S n) - 1) with (Z.of_nat n) by lia. simpl in Hn.
  destruct s as [b rs|[]]; [|apply IH; [done|lia]|].
  - apply run_try_resolved in E as (Hd' & _); [|done].
    eexists. split; by apply z_loop_done.
  - eexists. split; by apply z_loop_done.
Qed.
End any_mode.

(** ** Properties *)

(** When a scenario waits for inclusion, a reported success names the block
    of an update that contained [system.ExtrinsicSuccess] for the submission,
    and its events are those of that update kept by the filter. *)
Theorem inblock_success tries filter b evs :
  handle UntilInBlock filter tries = ZReturned (ZSuccess b evs) →
  ∃ t u h, t ∈ tries ∧ Notified u ∈ t_events t ∧ u_status u = IsInBlock h ∧ b = Some h ∧
    existsb is_extrinsic_success (u_records u) = true ∧
    evs = List.filter (default (λ _, true) filter) (u_records u).
Proof.
  intros H. apply z_loop_inblock in H as (t & u & Ht & Hu & Hi & He); [|done..].
  destruct Hi as ((h & Hh & Hb) & _ & Hx). by exists t, u, h.
Qed.

Definition sample_try : try :=
  Try [Notified (ExtUpdate IsReady []);
       Notified (ExtUpdate (IsInBlock "0xb") [EventRecord "aggregate" "NewProof" [] 1; sample_success])] [].
Definition sample_retry : try :=
  Try [Notified (ExtUpdate IsReady []); Notified (ExtUpdate IsInvalid [])] [2; 0]%nat.

Lemma inblock_success_witness :
  ∃ t u h, t ∈ [sample_retry; sample_try] ∧ Notified u ∈ t_events t ∧ u_status u = IsInBlock h ∧
    Some "0xb" = Some h ∧ existsb is_extrinsic_success (u_records u) = true ∧
    [EventRecord "aggregate" "NewProof" [] 1] =
      List.filter (default (λ _, true) (Some (in_section "aggregate"))) (u_records u).
Proof. apply inblock_success. vm_compute. reflexivity. Defined.

(** C33: the handler returns after at most five submissions whenever each of them
    is settled by the node and the mempool empties after each: the result
    depends on the first five only. *)
Theorem handle_returns until filter tries :
  Forall (λ t, existsb (decisive until) (t_events t) = true ∧
               waitForEmptyMempool (t_polls t) = true) tries →
  (5 ≤ length tries)%nat →
  ∃ r, handle until filter tries = ZReturned r ∧ handle until filter (take 5 tries) = ZReturned r.
Proof. intros Ht Hn. by apply (z_loop_returns until _ 5 tries z_init). Qed.

Lemma handle_returns_witness :
  ∃ r, handle UntilFinalized None (replicate 6 sample_retry) = ZReturned r ∧
       handle UntilFinalized None (take 5 (replicate 6 sample_retry)) = ZReturned r.
Proof.
  apply handle_returns; [|simpl; lia]. repeat constructor.
Defined.

(** When a scenario waits for finalization the success flag is never taken
    back: an execution that succeeded in a block later retracted makes the
    handler report success, even if the execution that was finalized failed;
    and the block it reports is always null. *)
Theorem finalized_success_sticky filter h1 h2 rs1 rs2 rs3 polls :
  existsb is_extrinsic_success rs1 = true →
  handle UntilFinalized filter
    [Try [Notified (ExtUpdate (IsInBlock h1) rs1); Notified (ExtUpdate (IsInBlock h2) rs2);
          Notified (ExtUpdate (IsFinalized h2) rs3)] polls] =
  ZReturned (ZSuccess None (List.filter (default (λ _, true) filter) rs3)).
Proof. intros H. unfold handle. cbn -[existsb]. unfold on_notify, on_status. simpl. by rewrite H. Qed.

Lemma finalized_success_sticky_witness :
  handle UntilFinalized None
    [Try [Notified (ExtUpdate (IsInBlock "0x1") [sample_success]);
          Notified (ExtUpdate (IsInBlock "0x2") [EventRecord "system" "ExtrinsicFailed" [] 1]);
          Notified (ExtUpdate (IsFinalized "0x2") [])] []] = ZReturned (ZSuccess None []).
Proof. apply (finalized_success_sticky None). reflexivity. Defined.

(** [registerVk] only looks for events of the ultraplonk pallet: for a key
    registered on another pallet [receivedEvents] never says that events were
    received, even though the registration succeeded. *)
Theorem registerVk_other_pallet pallet signer vk tries r :
  (∀ t u e, t ∈ tries → Notified u ∈ t_events t → e ∈ u_records u →
     section e ≠ "settlementUltraplonkPallet") →
  perform (registerVk pallet signer vk) tries = ZReturned r →
  receivedEvents (AData r) ≠ Ret true.
Proof.
  intros Hno H. destruct r as [| |b evs]; [done..|].
  apply z_loop_success in H as (_ & t & u & Ht & Hu & ->); [|done].
  assert (Hnil : List.filter (λ e, in_section "settlementUltraplonkPallet" e &&
                                   is_method "VkRegistered" e) (u_records u) = []).
  { assert (Hs : Forall (λ e, section e ≠ "settlementUltraplonkPallet") (u_records u)).
    { apply list.Forall_forall. intros e He. by apply (Hno t u e). }
    induction Hs as [|e rs He _ IH]; [done|]. simpl. unfold in_section at 1.
    by rewrite bool_decide_eq_false_2. }
  simpl. by rewrite Hnil.
Qed.

Lemma registerVk_other_pallet_witness :
  let tries := [Try [Notified (ExtUpdate (IsInBlock "0xb")
    [EventRecord "settlementGroth16Pallet" "VkRegistered" [] 1; sample_success])] []] in
  receivedEvents (AData (ZSuccess (Some "0xb") [])) ≠ Ret true.
Proof.
  intros tries. apply (registerVk_other_pallet "settlementGroth16Pallet" "alice" (JStr "vk") tries).
  - intros t u e ->%list_elem_of_singleton Hu He. simpl in Hu.
    apply list_elem_of_singleton in Hu as [= ->]. simpl in He. set_solver.
  - vm_compute. reflexivity.
Defined.

(** The custom type table is closed: every type it mentions is built in or
    defined before use, no name is defined twice, and every parameter and
    result type of the RPC table is built in or defined in it. *)
Theorem zkv_types_resolved :
  resolved [] zkvTypes = true ∧
  Forall (λ r, Forall (λ t, builtin (ty_name t) = true ∨ ty_name t ∈ zkvTypes.*1)
                 (rpc_result r :: (rpc_params r).*2)) zkvRpc.
Proof.
  split; [vm_compute; reflexivity|]. apply (bool_decide_unpack _). vm_compute. exact I.
Qed.
