(* ===== verification/Merkle.v ===== *)
(** * Checking an aggregation's Merkle path ([zombienet-tests/js_scripts/0012-aggregate_proofs.js])

    [verifyProof] recomputes the root of an aggregation from a statement and the
    path returned by the [statementPath] RPC, on hex strings.  Keccak-256, a
    third-party package, is a parameter: [keccak s] is
    [Keccak256(s).toString('hex')] for a ['0x']-prefixed [s].

    The reference is the tree the path is taken from: rows of hashes, paired
    left to right, an unpaired last hash being moved up unchanged. *)

From Stdlib Require Import Ascii.
From S2P Require Import Prelude JsString.

Open Scope Z_scope.

(** [s.replace(/^0x/, '')] *)
Definition stripHexPrefix (s : string) : string :=
  match s with
  | String "0" (String "x" r) => r
  | _ => s
  end%char.

(** The answer of the RPC ([MerkleProof]). *)
Record merkle_proof : Type := MerkleProof {
  mp_leaf : string;
  mp_leaf_index : Z;
  mp_number_of_leaves : Z;
  mp_proof : list string
}.

Section merkle.
Context (keccak : string → string).

(** One round of the loop: the new hash. *)
Definition combine (position width : Z) (hash p : string) : string :=
  if (position mod 2 =? 1) || (position + 1 =? width)
  then keccak ("0x" +:+ (p +:+ hash))
  else keccak ("0x" +:+ (hash +:+ p)).

Fixpoint climb (position width : Z) (hash : string) (proof : list string) : string :=
  match proof with
  | [] => hash
  | p :: proof =>
      climb (position / 2) ((width - 1) / 2 + 1)
        (combine position width hash (stripHexPrefix p)) proof
  end.

Definition verifyProof (proof : merkle_proof) (publishedRoot : string) : bool :=
  let hash := climb (mp_leaf_index proof) (mp_number_of_leaves proof)
                (keccak (mp_leaf proof)) (mp_proof proof) in
  bool_decide (stripHexPrefix publishedRoot = hash).

(** ** Reference: the tree *)

Definition node (a b : string) : string := keccak ("0x" +:+ (a +:+ b)).

Fixpoint next_row (row : list string) : list string :=
  match row with
  | a :: b :: rest => node a b :: next_row rest
  | _ => row
  end.

(** [height] bounds the number of rows; [length row] is enough. *)
Fixpoint root (height : nat) (row : list string) : string :=
  match height, row with
  | S height, _ :: _ :: _ => root height (next_row row)
  | _, _ => default "" (head row)
  end.

(** The siblings met on the way up from index [i]. *)
Fixpoint path (height : nat) (row : list string) (i : nat) : list string :=
  match height, row with
  | S height, _ :: _ :: _ =>
      let sibling := if Nat.odd i then row !! (i - 1)%nat else row !! S i in
      match sibling with
      | Some s => ("0x" +:+ s) :: path height (next_row row) (i / 2)
      | None => path height (next_row row) (i / 2)
      end
  | _, _ => []
  end.

Definition tree_root (leaves : list string) : string :=
  root (length leaves) (keccak <$> leaves).

(** What the RPC returns for the leaf at index [i]. *)
Definition statement_path (leaves : list string) (i : nat) : merkle_proof :=
  MerkleProof (default "" (leaves !! i)) (Z.of_nat i) (Z.of_nat (length leaves))
    (path (length leaves) (keccak <$> leaves) i).

(** The strings hashed while climbing. *)
Fixpoint inputs (position width : Z) (hash : string) (proof : list string) : list string :=
  match proof with
  | [] => []
  | p :: proof =>
      let p := stripHexPrefix p in
      (if (position mod 2 =? 1) || (position + 1 =? width)
       then "0x" +:+ (p +:+ hash) else "0x" +:+ (hash +:+ p))
      :: inputs (position / 2) ((width - 1) / 2 + 1) (combine position width hash p) proof
  end.

(** ** Lemmas on rows *)

Lemma row_ind (P : list string → Prop) :
  P [] → (∀ a, P [a]) → (∀ a b rest, P rest → P (a :: b :: rest)) → ∀ row, P row.
Proof.
  intros H0 H1 H2. fix IH 1. intros [|a [|b rest]]; [done|done|]. apply H2, IH.
Qed.

Lemma next_row_length row : length (next_row row) = ((length row + 1) / 2)%nat.
Proof.
  induction row as [|a|a b rest IH] using row_ind; [done..|]. cbn [next_row length]. rewrite IH.
  replace (S (S (length rest)) + 1)%nat with (1 * 2 + (length rest + 1))%nat by lia.
  rewrite Nat.div_add_l by lia. lia.
Qed.

Lemma next_row_pair row j a b :
  row !! (2 * j)%nat = Some a → row !! S (2 * j) = Some b →
  next_row row !! j = Some (node a b).
Proof.
  revert j. induction row as [|x|x y rest IH] using row_ind; intros j.
  - done.
  - destruct j; [done|]. by replace (2 * S j)%nat with (S (S (2 * j))) by lia.
  - destruct j as [|j]; [intros [= ->] [= ->]; done|].
    replace (2 * S j)%nat with (S (S (2 * j))) by lia. cbn [lookup list_lookup next_row]. apply IH.
Qed.

Lemma next_row_last row j a :
  row !! (2 * j)%nat = Some a → row !! S (2 * j) = None → next_row row !! j = Some a.
Proof.
  revert j. induction row as [|x|x y rest IH] using row_ind; intros j.
  - done.
  - destruct j; [done|]. by replace (2 * S j)%nat with (S (S (2 * j))) by lia.
  - destruct j as [|j]; [done|].
    replace (2 * S j)%nat with (S (S (2 * j))) by lia. cbn [lookup list_lookup next_row]. apply IH.
Qed.

Lemma stripHexPrefix_0x s : stripHexPrefix ("0x" +:+ s) = s.
Proof. done. Qed.

(** Evenness, on the loop's integers. *)
Lemma mod2_odd (i : nat) : (Z.of_nat i mod 2 =? 1) = Nat.odd i.
Proof.
  change 2 with (Z.of_nat 2) at 1. rewrite <- (Nat2Z.inj_mod i 2). destruct (Nat.odd i) eqn:E.
  - apply Nat.odd_spec in E as [k ->].
    replace ((2 * k + 1) mod 2)%nat with 1%nat by (rewrite Nat.add_comm, Nat.mul_comm, Nat.Div0.mod_add; done).
    done.
  - rewrite <- Nat.negb_even in E. apply negb_false_iff, Nat.even_spec in E as [k ->].
    by rewrite Nat.mul_comm, Nat.Div0.mod_mul.
Qed.

Lemma double_div2 (i : nat) : if Nat.odd i then i = S (2 * (i / 2))%nat else i = (2 * (i / 2))%nat.
Proof.
  pose proof (Nat.div_mod i 2 ltac:(lia)) as Hi.
  pose proof (mod2_odd i) as Ho. change 2 with (Z.of_nat 2) in Ho at 1.
  rewrite <- (Nat2Z.inj_mod i 2) in Ho. pose proof (Nat.mod_upper_bound i 2 ltac:(lia)).
  destruct (Nat.odd i); lia.
Qed.

Lemma row_step (a b : string) (rest : list string) (height : nat) :
  (length (a :: b :: rest) ≤ S height)%nat → (length (next_row (a :: b :: rest)) ≤ height)%nat.
Proof.
  rewrite next_row_length. cbn [length]. intros H.
  replace (S (S (length rest)) + 1)%nat with (1 * 2 + (length rest + 1))%nat by lia.
  rewrite Nat.div_add_l by lia.
  pose proof (Nat.Div0.div_le_upper_bound (length rest + 1) 2 (length rest)). 
  destruct rest; simpl in *; lia.
Qed.

Lemma half_up_odd k : ((S (S (2 * k)) + 1) / 2)%nat = S k.
Proof. symmetry. apply (Nat.div_unique _ _ _ 1); lia. Qed.

Lemma half_up_even k : ((S (2 * k) + 1) / 2)%nat = S k.
Proof. symmetry. apply (Nat.div_unique _ _ _ 0); lia. Qed.

(** From the last hash of a row every sibling is on the left, whatever position
    the loop believes it is at, as long as it believes it is the last. *)
Lemma climb_last height row i h pos width :
  (length row ≤ height)%nat → row !! i = Some h → S i = length row →
  pos + 1 = width →
  climb pos width h (path height row i) = root height row.
Proof.
  revert row i h pos width. induction height as [|height IH]; intros row i h pos width Hl Hi Hlast Hp.
  { lia. }
  destruct row as [|a [|b rest]]; [done| |].
  { cbn. destruct i; [|done]. by injection Hi as ->. }
  assert (Hrow := row_step a b rest height Hl). set (row := a :: b :: rest) in *.
  assert (Hlen := next_row_length row). pose proof (double_div2 i) as Hd.
  cbn [path root]. unfold row at 1 5. cbv beta iota. remember (i / 2)%nat as k eqn:Ek. clear Ek.
  destruct (Nat.odd i).
  - assert (Hs : is_Some (row !! (i - 1)%nat)) by (apply lookup_lt_is_Some; lia).
    destruct Hs as [s Hs]. rewrite Hs. cbn [climb]. rewrite stripHexPrefix_0x. unfold combine.
    rewrite (proj2 (Z.eqb_eq (pos + 1) width)), orb_true_r by lia. apply IH; [done| | |].
    + apply next_row_pair; [by replace (2 * k)%nat with (i - 1)%nat by lia|by rewrite <- Hd].
    + rewrite Hlen, <- Hlast, Hd, half_up_odd. done.
    + by replace (width - 1) with pos by lia.
  - rewrite (lookup_ge_None_2 row (S i)) by lia. apply IH; [done| | |done].
    + apply next_row_last; [by rewrite <- Hd|]. apply lookup_ge_None_2. lia.
    + rewrite Hlen, <- Hlast, Hd, half_up_even. done.
Qed.

Lemma width_step (w : nat) : (0 < w)%nat → (Z.of_nat w - 1) / 2 + 1 = Z.of_nat ((w + 1) / 2).
Proof.
  intros Hw. rewrite Nat2Z.inj_div. replace (Z.of_nat (w + 1)) with (1 * 2 + (Z.of_nat w - 1)) by lia.
  change (Z.of_nat 2) with 2. rewrite Z.div_add_l by lia. lia.
Qed.

(** Climbing from any hash of a row reaches the root. *)
Lemma climb_path height row i h :
  (length row ≤ height)%nat → row !! i = Some h →
  climb (Z.of_nat i) (Z.of_nat (length row)) h (path height row i) = root height row.
Proof.
  revert row i h. induction height as [|height IH]; intros row i h Hl Hi.
  { apply lookup_lt_Some in Hi. lia. }
  destruct (decide (S i = length row)) as [Hlast|Hnl]; [apply climb_last; done || lia|].
  pose proof (lookup_lt_Some _ _ _ Hi) as Hlt.
  destruct row as [|a [|b rest]]; [done|simpl in *; lia|].
  assert (Hrow := row_step a b rest height Hl). set (row := a :: b :: rest) in *.
  assert (Hlen := next_row_length row). pose proof (double_div2 i) as Hd.
  assert (Hdiv : Z.of_nat i / 2 = Z.of_nat (i / 2)) by (by rewrite Nat2Z.inj_div).
  assert (Hnext : ∀ h', next_row row !! (i / 2)%nat = Some h' →
    climb (Z.of_nat i / 2) ((Z.of_nat (length row) - 1) / 2 + 1) h'
      (path height (next_row row) (i / 2)) = root height (next_row row)).
  { intros h' Hh. rewrite Hdiv, width_step, <- Hlen by lia. by apply IH. }
  clear IH Hdiv. cbn [path root]. unfold row at 2 6. cbv beta iota.
  destruct (Nat.odd i) eqn:Eo.
  - assert (Hs : is_Some (row !! (i - 1)%nat)) by (apply lookup_lt_is_Some; lia).
    destruct Hs as [s Hs]. rewrite Hs. cbn [climb]. rewrite stripHexPrefix_0x. unfold combine.
    rewrite mod2_odd, Eo. apply Hnext.
    apply next_row_pair; [by replace (2 * (i / 2))%nat with (i - 1)%nat by lia|by rewrite <- Hd].
  - assert (Hs : is_Some (row !! S i)) by (apply lookup_lt_is_Some; lia).
    destruct Hs as [s Hs]. rewrite Hs. cbn [climb]. rewrite stripHexPrefix_0x. unfold combine.
    rewrite mod2_odd, Eo, (proj2 (Z.eqb_neq (Z.of_nat i + 1) _)) by lia. cbn [orb]. apply Hnext.
    apply next_row_pair; [by rewrite <- Hd|]. by rewrite <- Hd.
Qed.

(** ** Lemmas on binding *)

Hypothesis keccak_length : ∀ s, String.length (keccak s) = 64%nat.

(** Equal roots: the two climbs agree, or two different strings they hash at the
    same height collide. *)
Lemma climb_binding pos width h h' proof proof' :
  String.length h = 64%nat → String.length h' = 64%nat → length proof = length proof' →
  climb pos width h proof = climb pos width h' proof' →
  (h = h' ∧ stripHexPrefix <$> proof = stripHexPrefix <$> proof') ∨
  ∃ i x y, inputs pos width h proof !! i = Some x ∧ inputs pos width h' proof' !! i = Some y ∧
    x ≠ y ∧ keccak x = keccak y.
Proof.
  revert pos width h h' proof'. induction proof as [|p proof IH]; intros pos width h h' [|p' proof'] Hh Hh' Hl H;
    try done; [by left|].
  cbn [climb] in H. injection Hl as Hl. cbn [inputs].
  apply IH in H as [[Hc Hp]|(i & x & y & Hx & Hy & ?)]; [| |unfold combine; case_match; apply keccak_length..|done].
  2:{ right. by exists (S i), x, y. }
  set (x := if _ || _ then "0x" +:+ (stripHexPrefix p +:+ h) else _).
  set (y := if _ || _ then "0x" +:+ (stripHexPrefix p' +:+ h') else _).
  assert (Hk : keccak x = keccak y) by (unfold combine in Hc; subst x y; by destruct (_ || _)).
  destruct (decide (x = y)) as [Heq|Hne]; [left|right; by exists 0%nat, x, y].
  subst x y. rewrite !fmap_cons, Hp. clear -Heq Hh Hh'. destruct (_ || _).
  - apply append_split_l in Heq as [_ Heq]; [|done]. apply append_split_r in Heq as [-> ->]; [done|lia].
  - apply append_split_l in Heq as [_ Heq]; [|done]. apply append_split_l in Heq as [-> ->]; [done|lia].
Qed.
End merkle.

(** The strings a verification hashes. *)
Definition hashed (keccak : string → string) (p : merkle_proof) : list string :=
  mp_leaf p :: inputs keccak (mp_leaf_index p) (mp_number_of_leaves p) (keccak (mp_leaf p)) (mp_proof p).

Lemma verifyProof_path keccak leaves i l :
  leaves !! i = Some l →
  verifyProof keccak (statement_path keccak leaves i) ("0x" +:+ tree_root keccak leaves) = true.
Proof.
  intros Hl. unfold verifyProof, statement_path, tree_root. cbn [mp_leaf mp_leaf_index
    mp_number_of_leaves mp_proof]. rewrite Hl. cbn [default].
  apply bool_decide_eq_true_2. rewrite stripHexPrefix_0x.
  pose proof (climb_path keccak (length leaves) (keccak <$> leaves) i (keccak l)) as H.
  rewrite length_fmap in H. symmetry. apply H; [done|].
  by rewrite list_lookup_fmap, Hl.
Qed.

(** A proof accepted against the root of a tree is the tree's own path, unless
    Keccak-256 collides. *)
Lemma verifyProof_binding keccak leaves i p :
  (∀ s, String.length (keccak s) = 64%nat) → (i < length leaves)%nat →
  mp_leaf_index p = Z.of_nat i → mp_number_of_leaves p = Z.of_nat (length leaves) →
  length (mp_proof p) = length (mp_proof (statement_path keccak leaves i)) →
  verifyProof keccak p ("0x" +:+ tree_root keccak leaves) = true →
  (leaves !! i = Some (mp_leaf p) ∧
   stripHexPrefix <$> mp_proof p = stripHexPrefix <$> mp_proof (statement_path keccak leaves i)) ∨
  ∃ x y, x ∈ hashed keccak p ∧ y ∈ hashed keccak (statement_path keccak leaves i) ∧
    x ≠ y ∧ keccak x = keccak y.
Proof.
  intros Hk Hi Hidx Hn Hlen Hv. apply lookup_lt_is_Some in Hi as [l Hl].
  set (q := statement_path keccak leaves i) in *.
  assert (Hq : mp_leaf q = l) by (unfold q; simpl; by rewrite Hl).
  unfold verifyProof in Hv. apply bool_decide_eq_true in Hv.
  rewrite stripHexPrefix_0x, Hidx, Hn in Hv.
  assert (Hc : climb keccak (Z.of_nat i) (Z.of_nat (length leaves)) (keccak l) (mp_proof q) =
               tree_root keccak leaves).
  { pose proof (climb_path keccak (length leaves) (keccak <$> leaves) i (keccak l)) as H.
    rewrite length_fmap in H. apply H; [done|]. by rewrite list_lookup_fmap, Hl. }
  rewrite <- Hc in Hv.
  apply (climb_binding keccak Hk) in Hv; [|apply Hk..|done].
  unfold hashed. rewrite Hidx, Hn, Hq. cbn [mp_leaf_index mp_number_of_leaves q].
  destruct Hv as [[Heq Hp]|(k & x & y & Hx & Hy & Hne & Hxy)].
  - destruct (decide (mp_leaf p = l)) as [->|Hne]; [left; done|].
    right. exists (mp_leaf p), l. split_and!; [left|left|done|done].
  - right. exists y, x. split_and!; [right; by eapply list_elem_of_lookup_2..|done|done].
Qed.

(** ** Properties *)

(** Completeness: for any number of leaves and any index, the path of a leaf in
    the tree is accepted against the tree's root, the unpaired nodes that move
    up without a sibling included. *)
Theorem verifyProof_complete keccak leaves i :
  (i < length leaves)%nat →
  verifyProof keccak (statement_path keccak leaves i) ("0x" +:+ tree_root keccak leaves) = true.
Proof. intros [l Hl]%lookup_lt_is_Some. by apply verifyProof_path with l. Qed.

Definition sample_keccak (s : string) : string :=
  String.substring 0 64 (s +:+ "0000000000000000000000000000000000000000000000000000000000000000").

Lemma verifyProof_complete_witness :
  let leaves := ["0xa"; "0xb"; "0xc"; "0xd"; "0xe"; "0xf"; "0x1"] in
  length (mp_proof (statement_path sample_keccak leaves 6)) = 2%nat ∧
  verifyProof sample_keccak (statement_path sample_keccak leaves 6)
    ("0x" +:+ tree_root sample_keccak leaves) = true.
Proof. split; [vm_compute; reflexivity|]. apply verifyProof_complete. simpl. lia. Defined.

(** C15: soundness: a proof of the right length accepted against the root of a tree
    for index [i] proves the leaf of the tree at [i] with the tree's own path,
    or exhibits two different strings, one hashed while checking it and one
    hashed while checking the tree's path, with the same Keccak-256 hash. *)
Theorem verifyProof_sound keccak leaves i p :
  (∀ s, String.length (keccak s) = 64%nat) → (i < length leaves)%nat →
  mp_leaf_index p = Z.of_nat i → mp_number_of_leaves p = Z.of_nat (length leaves) →
  length (mp_proof p) = length (mp_proof (statement_path keccak leaves i)) →
  verifyProof keccak p ("0x" +:+ tree_root keccak leaves) = true →
  (leaves !! i = Some (mp_leaf p) ∧
   stripHexPrefix <$> mp_proof p = stripHexPrefix <$> mp_proof (statement_path keccak leaves i)) ∨
  ∃ x y, x ∈ hashed keccak p ∧ y ∈ hashed keccak (statement_path keccak leaves i) ∧
    x ≠ y ∧ keccak x = keccak y.
Proof. apply verifyProof_binding. Qed.

Lemma verifyProof_sound_witness :
  let keccak := λ s, if decide (String.length (sample_keccak s) = 64%nat) then sample_keccak s
                     else sample_keccak "" in
  let leaves := ["0xa"; "0xb"; "0xc"] in
  let p := statement_path keccak leaves 2 in
  (leaves !! 2%nat = Some (mp_leaf p) ∧
   stripHexPrefix <$> mp_proof p = stripHexPrefix <$> mp_proof (statement_path keccak leaves 2)) ∨
  ∃ x y, x ∈ hashed keccak p ∧ y ∈ hashed keccak (statement_path keccak leaves 2) ∧
    x ≠ y ∧ keccak x = keccak y.
Proof.
  intros keccak leaves p. apply verifyProof_sound.
  - intros s. unfold keccak. case_decide; [done|vm_compute; reflexivity].
  - simpl. lia.
  - reflexivity.
  - reflexivity.
  - reflexivity.
  - vm_compute. reflexivity.
Defined.
