(* ===== verification/Node.v ===== *)
(** * What a scenario script sees of a node

    The scenarios are programs that submit extrinsics to a node, read its state
    and wait.  [Node] is that interface: what the node does with submissions and
    what it answers to queries.  [io] is the monad of the scripts over any node:
    the state of the node is threaded, and a script ends like any other piece of
    JavaScript ([js]).

    It holds also the parts of [zkv-lib] that need a node ([submitExtrinsic] run
    to its result, [getBalance], [sudoInitClaim]) and the coercions of the
    language that the scripts apply to the API's integers. *)

From Stdlib Require Import Ascii.
From stdpp Require Import pretty.
From S2P Require Import Prelude JsString JsNumber JsObject TxLifecycle ZkvLib Merkle.

Open Scope Z_scope.

(** ** The scripts' monad *)

Definition io (S A : Type) : Type := S → js A * S.

#[export] Instance io_ret {S} : MRet (io S) := λ A a s, (Ret a, s).
#[export] Instance io_bind {S} : MBind (io S) := λ A B f m s,
  match m s with
  | (Ret a, s') => f a s'
  | (Throw e, s') => (Throw e, s')
  | (Exit c, s') => (Exit c, s')
  | (Hang, s') => (Hang, s')
  end.

Definition lift {S A} (r : js A) : io S A := λ s, (r, s).
Definition throw {S A} (e : js_error) : io S A := lift (Throw e).

(** ** The interface *)

(** The queries and the waits of the scripts, with the type of the answer.
    Balances and block numbers are integers; other API objects are given by
    their string. *)
Inductive query : Type → Type :=
  | AccountFree (address : string) : query Z          (* [system.account(..).data.free] *)
  | SystemNumber : query Z
  | SystemChain : query string
  | SystemName : query string
  | SystemVersion : query string
  | LocalPeerId : query string
  | StatementPath (block : option string) (domain_id id statement : jsv) : query merkle_proof
  | VkHash (verifier : string) (vk : jsv) : query string
  | SudoKey : query (option string)
  | SpecVersion : query Z                             (* [getRuntimeVersion().specVersion] *)
  | BlockNumber : query Z                             (* [chain.getBlock()], its header's number *)
  | PaymentWeight (e : ext) (signer : string) : query jsv
  | MultisigWhen (multisig call_hash : string) : query (option jsv)
  | PalletAccountIdQ : query (option string)          (* [tokenClaim.palletAccountId] *)
  | BeneficiaryKeys : query (list string)
  | NextHead : query Z                                (* the next head a subscription delivers *)
  | Sleep (milliseconds : Z) : query unit.

(** [node_send] is one [signAndSend] or [send]: the notifications, in order.
    [node_tries] is what the node does with the successive submissions of a
    request. *)
Class Node (S : Type) := {
  node_send : ext → sender → S → list ext_event * S;
  node_tries : request → S → list try * S;
  node_query {A} : query A → S → js A * S
}.

Section scripts.
Context {S : Type} `{!Node S}.

Definition ask {A} (q : query A) : io S A := node_query q.

(** [const { wsUri } = networkInfo.nodesByName[nodeName]; await zombie.connect(..)] *)
Definition connect (nodesByName : gmap string string) (nodeName : string) : io S string :=
  match nodesByName !! nodeName with
  | Some wsUri => mret wsUri
  | None => throw TypeError
  end.

(** [init_api] in a fresh process. *)
Definition zkv_init (nodesByName : gmap string string) (nodeName : string) : io S string :=
  lift (init_api None nodesByName nodeName).2.

(** [await submitExtrinsic(..)]: the handler is left pending, or returns. *)
Definition submit (r : request) : io S zreturn := λ s,
  let '(tries, s') := node_tries r s in
  match perform r tries with
  | ZPending => (Hang, s')
  | ZReturned v => (Ret v, s')
  end.

Definition getBalance (user : string) : io S Z := ask (AccountFree user).

(** [palletAddressOption.unwrap()] throws on [None]. *)
Definition unwrap_option {A} (o : option A) : io S A :=
  match o with
  | Some a => mret a
  | None => throw (JsError "Option: unwrapping a None value")
  end.

Definition sudoInitClaim (signer : string) (beneficiaries initial_balance message : jsv)
    : io S zreturn :=
  palletAddressOption ← ask PalletAccountIdQ;
  palletAddress ← unwrap_option palletAddressOption;
  _ ← submit (fund_claim signer palletAddress initial_balance);
  submit (begin_claim_request signer beneficiaries message).

(** ** Property accesses *)

(** [data.events]: [None] is [undefined]. *)
Definition events_of (data : zreturn) : io S (option (list event_record)) :=
  match data with
  | ZSuccess _ events => mret (Some events)
  | ZMinusOne => mret None
  | ZUndefined => throw TypeError
  end.

(** [data.events.filter(p)] *)
Definition events_filter (p : event_record → bool) (data : zreturn) : io S (list event_record) :=
  events ← events_of data;
  match events with
  | Some events => mret (List.filter p events)
  | None => throw TypeError
  end.

(** [data.block] *)
Definition block_of (data : zreturn) : io S (option string) :=
  match data with
  | ZSuccess block _ => mret block
  | ZMinusOne => mret None
  | ZUndefined => throw TypeError
  end.

(** [events[0].data[k]]; [None] is [undefined]. *)
Definition first_data (k : nat) (events : list event_record) : io S (option string) :=
  match events with
  | e :: _ => mret (data e !! k)
  | [] => throw TypeError
  end.

(** [x.toString()] *)
Definition to_string (x : option string) : io S string :=
  match x with
  | Some x => mret x
  | None => throw TypeError
  end.

Definition received (data : received) : io S bool := lift (receivedEvents data).
End scripts.

Definition arg (x : option string) : jsv :=
  match x with Some x => JStr x | None => JUndefined end.

(** ** Comparisons of API integers *)

(** [a <= b] of two API objects: neither has a numeric value of its own, both
    become their strings, and strings compare by code units.  A comparison with
    [undefined] is false. *)
Definition object_leb (a b : option string) : bool :=
  match a, b with
  | Some a, Some b => String.leb a b
  | _, _ => false
  end.

(** [a - b], [a / k] and comparisons with a number: both operands become
    numbers. *)
Definition bn_number (z : Z) : number := ToNumber (pretty z).
Definition num_sub (x y : number) : number := num_add x (num_opp y).

(** ** Lemmas *)

Lemma bind_Ret {S A B} (m : io S A) (f : A → io S B) s a s' :
  m s = (Ret a, s') → (m ≫= f) s = f a s'.
Proof. unfold mbind, io_bind. by intros ->. Qed.

Lemma bind_Throw {S A B} (m : io S A) (f : A → io S B) s e s' :
  m s = (Throw e, s') → (m ≫= f) s = (Throw e, s').
Proof. unfold mbind, io_bind. by intros ->. Qed.

Lemma bind_Hang {S A B} (m : io S A) (f : A → io S B) s s' :
  m s = (Hang, s') → (m ≫= f) s = (Hang, s').
Proof. unfold mbind, io_bind. by intros ->. Qed.

Lemma bind_inv {S A B} (m : io S A) (f : A → io S B) s b s' :
  (m ≫= f) s = (Ret b, s') → ∃ a s1, m s = (Ret a, s1) ∧ f a s1 = (Ret b, s').
Proof. unfold mbind, io_bind. destruct (m s) as [[a|e|c|] s1]; intros; simplify_eq; eauto. Qed.

(** A submission that is included: notifications that settle nothing, then a block
    with the events. *)
Definition waiting (e : ext_event) : Prop :=
  match e with
  | Notified u => u_status u = IsReady ∨ u_status u = IsOther
  | NotSent _ => False
  end.

Definition included_in {S} `{!Node S} (r : request) (s : S) (block : string)
    (records : list event_record) (s' : S) : Prop :=
  ∃ pre post polls, Forall waiting pre ∧
    node_tries r s = ([Try (pre ++ Notified (ExtUpdate (IsInBlock block) records) :: post) polls], s').

Lemma run_try_waiting pre evs st :
  Forall waiting pre → z_done st = false →
  ∃ st', run_try UntilInBlock st (pre ++ evs) = run_try UntilInBlock st' evs ∧
    z_success st' = z_success st ∧ z_done st' = false.
Proof.
  intros Hp. revert st. induction Hp as [|[u|] pre Hu Hp IH]; intros st Hd; [by eauto| |done].
  destruct Hu as [Hu|Hu]; cbn [app run_try]; unfold on_notify, on_status; rewrite Hu; cbn;
    rewrite Hd.
  - by apply (IH (ZState (z_success st) false true)).
  - by apply IH.
Qed.

Lemma submit_included {S} `{!Node S} r (s : S) block records s' :
  r_until r = UntilInBlock → included_in r s block records s' →
  existsb is_extrinsic_success records = true →
  submit r s = (Ret (ZSuccess (Some block) (List.filter (default (λ _, true) (r_filter r)) records)), s').
Proof.
  intros Hu (pre & post & polls & Hp & Ht) Hs. unfold submit, perform, handle. rewrite Ht, Hu.
  cbn [z_loop z_init z_done negb andb Z.ltb Z.compare t_events].
  destruct (run_try_waiting pre (Notified (ExtUpdate (IsInBlock block) records) :: post) z_init Hp eq_refl)
    as (st & -> & H1 & H2).
  cbn [run_try]. unfold on_notify, on_status. cbn [u_status u_records z_done z_success].
  rewrite H1, H2, Hs. done.
Qed.

Lemma submit_received {S} `{!Node S} r flt (s : S) block records s' :
  r_until r = UntilInBlock → r_filter r = Some flt → included_in r s block records s' →
  existsb is_extrinsic_success records = true → existsb flt records = true →
  ∃ es, submit r s = (Ret (ZSuccess (Some block) es), s') ∧ es ≠ [].
Proof.
  intros Hu Hflt Hinc Hs Hin. eexists. split; [by apply submit_included|]. rewrite Hflt.
  apply existsb_exists in Hin as (e & Hin & Hse). intros E.
  assert (In e (List.filter flt records)) as Hfe by by apply filter_In.
  cbn [default from_option id] in E. unfold id in E. by rewrite E in Hfe.
Qed.

Lemma received_some {S} block es (s : S) :
  es ≠ [] → received (AData (ZSuccess block es)) s = (Ret true, s).
Proof. by destruct es. Qed.

(** Digit strings of the same length compare like the numbers they denote. *)
Lemma digit_code c d : digit 10 c = Some d → Z.of_N (N_of_ascii c) = d + 48.
Proof.
  destruct c as [[] [] [] [] [] [] [] []]; vm_compute; intros [= <-]; reflexivity.
Qed.

Lemma dval_cons c s : all_digits (String c s) →
  ∃ d, digit 10 c = Some d ∧ all_digits s ∧ dval (String c s) = d * 10 ^ js_length s + dval s.
Proof.
  intros H. destruct (all_digits_cons c s H) as [[d Hd] Hs]. exists d. split_and!; [done..|].
  pose proof (dval_app (String c "") s) as E. rewrite append_cons, append_nil in E.
  rewrite E; [|by exists d; cbn; rewrite Hd|done]. unfold dval at 1. cbn. by rewrite Hd.
Qed.

Lemma dval_range s : all_digits s → 0 ≤ dval s < 10 ^ js_length s.
Proof.
  induction s as [|c s IH]; [by split|]. intros H.
  destruct (dval_cons c s H) as (d & Hd & Hs & ->). specialize (IH Hs).
  pose proof (digit_bound 10 c d Hd). unfold js_length in *. cbn [String.length].
  rewrite Nat2Z.inj_succ, Z.pow_succ_r by lia. nia.
Qed.

Lemma compare_digits s t :
  all_digits s → all_digits t → js_length s = js_length t →
  String.compare s t = (dval s ?= dval t).
Proof.
  revert t. induction s as [|c s IH]; intros [|c' t] Hs Ht Hl; [done|discriminate Hl..|].
  destruct (dval_cons c s Hs) as (d & Hd & Hs' & ->), (dval_cons c' t Ht) as (d' & Hd' & Ht' & ->).
  assert (Hl' : js_length s = js_length t) by (unfold js_length in *; simpl in Hl; lia).
  pose proof (dval_range s Hs'). pose proof (dval_range t Ht'). rewrite Hl' in *.
  cbn [String.compare]. unfold Ascii.compare. rewrite <- N2Z.inj_compare.
  rewrite (digit_code c d Hd), (digit_code c' d' Hd').
  destruct (Z.compare_spec (d + 48) (d' + 48)) as [E|E|E].
  - assert (d = d') as -> by lia. rewrite (IH t Hs' Ht' eq_refl).
    destruct (Z.compare_spec (dval s) (dval t)); symmetry;
      [apply Z.compare_eq_iff|apply Z.compare_lt_iff|apply Z.compare_gt_iff]; lia.
  - symmetry. apply Z.compare_lt_iff. nia.
  - symmetry. apply Z.compare_gt_iff. nia.
Qed.

Lemma leb_digits s t :
  all_digits s → all_digits t → js_length s = js_length t →
  String.leb s t = (dval s <=? dval t).
Proof. intros Hs Ht Hl. unfold String.leb, Z.leb. by rewrite compare_digits. Qed.
