(* ===== verification/ScenarioTx.v ===== *)
(** * The transfer scenarios ([zombienet-tests/js_scripts/0002-script.js],
    [0003-transaction.js], [0004-failing_transaction.js])

    Scripts that follow one transaction themselves: a promise settled by the
    callback given to [signAndSend].  A promise settles once; a rejected
    [signAndSend] leaves it pending, since the executor is an async function
    whose own rejection nobody handles. *)

From S2P Require Import Prelude TxLifecycle ZkvLib Node.

Open Scope Z_scope.

Definition ALICE : string := "5GrwvaEF5zXb26Fz9rcQpDWS57CtERHpNehXCPcNoHGKutQY".
Definition BOB : string := "5FHneW46xGXgs5mUiveU4sbTyGBzmstUspZC92UhjJM694ty".

(** How the promise settled. *)
Inductive settled : Type :=
  | Resolved
  | RejectedWith (reason : string).

(** Notifications until the promise settles; [None] when it stays pending. *)
Fixpoint follow (callback : bool → ext_update → bool * option settled) (success : bool)
    (evs : list ext_event) : bool * option settled :=
  match evs with
  | [] => (success, None)
  | NotSent _ :: _ => (success, None)
  | Notified u :: evs =>
      match callback success u with
      | (success', None) => follow callback success' evs
      | r => r
      end
  end.

(** ** 0002 *)

Section scripts.
Context {S : Type} `{!Node S}.

Definition run_0002 (nodesByName : gmap string string) (nodeName : string) : io S Z :=
  _ ← connect nodesByName nodeName;
  _ ← ask LocalPeerId;
  mret 2.

(** ** 0003: a transfer of one unit *)

Definition is_success (e : event_record) : bool := in_section "system" e && is_method "ExtrinsicSuccess" e.
Definition is_failure (e : event_record) : bool := in_section "system" e && is_method "ExtrinsicFailed" e.

Definition callback_0003 (success : bool) (u : ext_update) : bool * option settled :=
  match u_status u with
  | IsInBlock _ => (success || existsb is_success (u_records u), None)
  | IsFinalized _ =>
      (success, Some (if success then Resolved else RejectedWith "ExtrinsicSuccess has not been seen"))
  | IsError => (success, Some (RejectedWith "Transaction status.isError"))
  | _ => (success, None)
  end.

(** Both handlers of the promise return; what they return is dropped. *)
Definition await_settled (r : bool * option settled) : io S bool :=
  match r with
  | (success, Some _) => mret success
  | (_, None) => lift Hang
  end.

Definition transfer_to_bob (amount : jsv) : io S (list ext_event) := λ s,
  let '(evs, s') := node_send (Call "balances" "transferAllowDeath" [JStr BOB; amount])
                      (SignAndSend (Some ALICE)) s in
  (Ret evs, s').

Definition run_0003 (nodesByName : gmap string string) (nodeName : string) : io S Z :=
  _ ← connect nodesByName nodeName;
  _ ← ask SystemNumber;
  _ ← ask (AccountFree ALICE);
  _ ← ask (AccountFree BOB);
  evs ← transfer_to_bob (JNum 1);
  _ ← await_settled (follow callback_0003 false evs);
  balance_alice ← ask (AccountFree ALICE);
  _ ← ask (AccountFree BOB);
  mret balance_alice.

(** ** 0004: a transfer that should fail *)

(** One event: the flag and whether the promise was rejected. *)
Definition event_0004 (acc : bool * bool) (e : event_record) : bool * bool :=
  let '(success, rejected) := acc in
  if is_success e then (true, rejected)
  else if is_failure e then (false, true)
  else acc.

Definition callback_0004 (success : bool) (u : ext_update) : bool * option settled :=
  match u_status u with
  | IsInBlock _ =>
      let '(success, rejected) := foldl event_0004 (success, false) (u_records u) in
      (success, if rejected : bool then Some (RejectedWith "Extrinsic failed") else None)
  | IsFinalized _ =>
      (success, Some (if success then Resolved else RejectedWith "ExtrinsicSuccess has not been seen"))
  | IsError => (false, Some (RejectedWith "Transaction status.isError"))
  | _ => (success, None)
  end.

Definition run_0004 (nodesByName : gmap string string) (nodeName : string) : io S Z :=
  _ ← connect nodesByName nodeName;
  _ ← ask (AccountFree ALICE);
  _ ← ask (AccountFree BOB);
  evs ← transfer_to_bob (JStr "1152921504606846977");
  success ← await_settled (follow callback_0004 false evs);
  if negb success then mret 0
  else
    _ ← ask (AccountFree ALICE);
    _ ← ask (AccountFree BOB);
    mret 1.
End scripts.

(** ** Lemmas *)

(** Balances are read without side effects. *)
Definition reads {S} `{!Node S} (balance : S → string → Z) : Prop :=
  (∀ a s, node_query (AccountFree a) s = (Ret (balance s a), s)) ∧
  (∀ s, ∃ n, node_query SystemNumber s = (Ret n, s)).

(** Does a final status arrive? *)
Fixpoint finalizes (evs : list ext_event) : bool :=
  match evs with
  | Notified (ExtUpdate (IsFinalized _) _) :: _ => true
  | Notified (ExtUpdate IsError _) :: _ => true
  | Notified _ :: evs => finalizes evs
  | _ => false
  end.

Lemma follow_0003 evs : ∀ success,
  is_Some (follow callback_0003 success evs).2 ↔ finalizes evs = true.
Proof.
  induction evs as [|[[st rs]|c] evs IH]; intros success; simpl;
    [split; [by intros []|done]| |split; [by intros []|done]].
  destruct st; simpl; rewrite ?IH; try done; split; try done; by eexists.
Qed.

Lemma foldl_0004 records : ∀ success rejected,
  existsb is_failure records = false →
  foldl event_0004 (success, rejected) records = (success || existsb is_success records, rejected).
Proof.
  induction records as [|e records IH]; intros success rejected; simpl; [by rewrite orb_false_r|].
  intros [He Hr]%orb_false_iff. destruct (is_success e) eqn:Es; rewrite ?He, IH by done; by destruct success.
Qed.

Lemma foldl_0004_failed records : ∀ success rejected,
  existsb is_failure records = true → existsb is_success records = false →
  foldl event_0004 (success, rejected) records = (false, true).
Proof.
  induction records as [|e records IH]; intros success rejected; simpl; [done|].
  intros Hf [He Hs]%orb_false_iff. rewrite He. destruct (is_failure e) eqn:Ef; simpl in Hf.
  - destruct (existsb is_failure records) eqn:Er; [by apply IH|]. rewrite foldl_0004 by done.
    by rewrite Hs.
  - by apply IH.
Qed.

(** A status that neither script acts on. *)
Definition silent (e : ext_event) : bool :=
  match e with
  | Notified (ExtUpdate IsReady _) | Notified (ExtUpdate IsOther _) | Notified (ExtUpdate IsInvalid _) => true
  | _ => false
  end.

Lemma follow_silent callback success pre evs :
  (∀ st rs, silent (Notified (ExtUpdate st rs)) = true → callback success (ExtUpdate st rs) = (success, None)) →
  forallb silent pre = true → follow callback success (pre ++ evs) = follow callback success evs.
Proof.
  intros Hc. induction pre as [|[[st rs]|c] pre IH]; [done| |done]. cbn [forallb app follow].
  intros [He Hp]%andb_true_iff. rewrite (Hc st rs He). by apply IH.
Qed.

(** ** Properties *)

(** 0003 reports nothing of the transaction: once a final status arrives it returns
    Alice's balance, whether the transfer succeeded, failed or was never
    included; the [-1] of the error handler is lost.  Without a final status
    (also when the node refuses the transaction) it never returns. *)
Theorem transaction_outcome_ignored {S} `{!Node S} balance nodesByName nodeName ws evs s s' :
  reads balance → nodesByName !! nodeName = Some ws →
  node_send (Call "balances" "transferAllowDeath" [JStr BOB; JNum 1]) (SignAndSend (Some ALICE)) s =
    (evs, s') →
  run_0003 nodesByName nodeName s = (if finalizes evs then Ret (balance s' ALICE) else Hang, s').
Proof.
  intros [Hb Hn] Hws Hs. unfold run_0003, connect, ask. rewrite Hws.
  destruct (Hn s) as [n Hn'].
  rewrite (bind_Ret _ _ _ ws s), (bind_Ret _ _ _ n s), !(bind_Ret _ _ _ _ _ (Hb _ _)) by done.
  rewrite (bind_Ret _ _ _ evs s') by (unfold transfer_to_bob; by rewrite Hs).
  pose proof (follow_0003 evs false) as Hf. destruct (follow callback_0003 false evs) as [b [r|]]; simpl in Hf.
  - rewrite (proj1 Hf) by (by eexists). rewrite (bind_Ret _ _ _ b s') by done.
    by rewrite !(bind_Ret _ _ _ _ _ (Hb _ _)).
  - destruct (finalizes evs); [by destruct (proj2 Hf eq_refl)|]. by rewrite (bind_Hang _ _ _ s').
Qed.

(** 0004 tells the two outcomes apart: [1] when the transfer is included with a
    success event and finalized, [0] when it is included with a failure event. *)
Theorem failing_transaction_decides {S} `{!Node S} balance nodesByName nodeName ws pre h records fin rest s s' :
  reads balance → nodesByName !! nodeName = Some ws → forallb silent pre = true →
  existsb is_success records ≠ existsb is_failure records →
  node_send (Call "balances" "transferAllowDeath" [JStr BOB; JStr "1152921504606846977"])
    (SignAndSend (Some ALICE)) s =
    (pre ++ Notified (ExtUpdate (IsInBlock h) records) :: Notified (ExtUpdate (IsFinalized fin) []) :: rest, s') →
  run_0004 nodesByName nodeName s = (Ret (if existsb is_success records then 1 else 0), s').
Proof.
  intros [Hb Hn] Hws Hp Hne Hs. unfold run_0004, connect, ask. rewrite Hws.
  rewrite (bind_Ret _ _ _ ws s), !(bind_Ret _ _ _ _ _ (Hb _ _)) by done.
  erewrite bind_Ret by (unfold transfer_to_bob; by rewrite Hs).
  rewrite follow_silent by (done || by intros [] rs; simpl).
  cbn [follow callback_0004 u_status u_records]. destruct (existsb is_success records) eqn:Es.
  - rewrite foldl_0004, Es by (by destruct (existsb is_failure records)). simpl.
    rewrite (bind_Ret _ _ _ true s') by done. simpl. by rewrite !(bind_Ret _ _ _ _ _ (Hb _ _)).
  - rewrite foldl_0004_failed by (done || by destruct (existsb is_failure records)). simpl.
    by rewrite (bind_Ret _ _ _ false s').
Qed.

(** ** A node with balances only *)

Module Toy.
Record toy : Type := { balances : gmap string Z }.

Definition free (s : toy) (a : string) : Z := default 0 (balances s !! a).

Definition amount_of (v : jsv) : Z :=
  match v with
  | JNum z => z
  | JStr x => JsString.dval x
  | _ => 0
  end.

(** A fee of one unit; the transfer is included and finalized at once. *)
Definition send (e : ext) (sd : sender) (s : toy) : list ext_event * toy :=
  match e, sd with
  | Call "balances" "transferAllowDeath" [JStr dest; v], SignAndSend (Some from) =>
      let x := amount_of v in
      let ok := bool_decide (x + 1 ≤ free s from) in
      let paid := <[from := free s from - 1]> (balances s) in
      let moved := <[dest := free s dest + x]> (<[from := free s from - 1 - x]> (balances s)) in
      ([Notified (ExtUpdate IsReady []);
        Notified (ExtUpdate (IsInBlock "0xb")
          [EventRecord "system" (if ok then "ExtrinsicSuccess" else "ExtrinsicFailed") [] 1]);
        Notified (ExtUpdate (IsFinalized "0xb") [])],
       {| balances := if ok then moved else paid |})
  | _, _ => ([NotSent None], s)
  end.

#[export] Instance toy_node : Node toy := {
  node_send := send;
  node_tries r s := let '(evs, s') := send (r_ext r) (r_sender r) s in ([Try evs []], s');
  node_query A q s :=
    match q in query A return js A * toy with
    | AccountFree a => (Ret (free s a), s)
    | SystemNumber => (Ret 1, s)
    | _ => (Throw TypeError, s)
    end
}.

Lemma toy_reads : reads free.
Proof. split; [done|]. intros s. by exists 1. Qed.

(** Alice cannot pay. *)
Definition poor : toy := {| balances := {[ALICE := 1]} |}.
(** Alice's endowment in the development presets of the runtime. *)
Definition endowed : toy := {| balances := {[ALICE := 10 ^ 24]} |}.
Definition network : gmap string string := {["alice" := "ws://alice"]}.
End Toy.
Import (hints) Toy.

Lemma transaction_outcome_ignored_witness :
  run_0003 Toy.network "alice" Toy.poor =
    (Ret 0, {| Toy.balances := <[ALICE := 0]> {[ALICE := 1]} |}).
Proof.
  rewrite (transaction_outcome_ignored Toy.free Toy.network "alice" "ws://alice"
    (Toy.send (Call "balances" "transferAllowDeath" [JStr BOB; JNum 1]) (SignAndSend (Some ALICE))
       Toy.poor).1 Toy.poor {| Toy.balances := <[ALICE := 0]> {[ALICE := 1]} |} Toy.toy_reads eq_refl);
    vm_compute; reflexivity.
Defined.

(** With the endowment of the development presets the transfer of 0004 is
    affordable, and the script does not return the [0] it is run for. *)
Lemma failing_transaction_endowed :
  (run_0004 Toy.network "alice" Toy.endowed).1 = Ret 1 ∧ (run_0004 Toy.network "alice" Toy.poor).1 = Ret 0.
Proof. split; vm_compute; reflexivity. Qed.
