(* ===== verification/ScenarioUpgrade.v ===== *)
(** * The runtime upgrade scenario ([zombienet-tests/js_scripts/0008-update-runtime-multisig-scheduler.js])

    A multisig account becomes the sudo key, schedules a runtime upgrade five
    blocks ahead through two of its members, waits for the block and compares the
    runtime versions.  Address derivation and call encoding are third-party:
    parameters. *)

From stdpp Require Import sorting.
From S2P Require Import Prelude JsString TxLifecycle ZkvLib Node ScenarioTx.

Open Scope Z_scope.

Definition CHARLIE : string := "5FLSigC9HGRKVhB9FiEo4Y3koPsNmBmLJbpXg2mp1hXcS59Y".

(** [l.sort()] *)
Definition sort_addresses (l : list string) : list string := merge_sort String.le l.

Module Upgrade.
Inductive ReturnCode : Type :=
  | Ok
  | ErrWrongSudoAccount
  | ErrClaimMembership
  | ErrSameRuntimeVersion
  | ErrUnsupportedNetwork.

Definition code (r : ReturnCode) : Z :=
  match r with
  | Ok => 1
  | ErrWrongSudoAccount => 2
  | ErrClaimMembership => 3
  | ErrSameRuntimeVersion => 4
  | ErrUnsupportedNetwork => 5
  end.

Section script.
Context {S : Type} `{!Node S}.
(** [createKeyMulti], [encodeAddress] with the prefix, [method.toHex()],
    [method.hash]. *)
Context (createKeyMulti : list string → Z → string) (encodeAddress : string → Z → string).
Context (call_hex call_hash : ext → string).

(** [!startingBlockNumber]: undefined or zero. *)
Definition unset (startingBlockNumber : option Z) : bool :=
  match startingBlockNumber with
  | Some n => n =? 0
  | None => true
  end.

(** The callback of the subscription, over at most [fuel] heads; the promise
    stays pending when they do not reach the target. *)
Fixpoint wait_heads (fuel : nat) (startingBlockNumber : option Z) (numberOfBlocks : Z) : io S unit :=
  match fuel with
  | O => lift Hang
  | Datatypes.S fuel =>
      number ← ask NextHead;
      let start := if unset startingBlockNumber then number else default 0 startingBlockNumber in
      if start + numberOfBlocks <=? number then mret tt
      else wait_heads fuel (Some start) numberOfBlocks
  end.

Definition waitForBlocks (fuel : nat) (numberOfBlocks : Z) : io S unit :=
  wait_heads fuel None numberOfBlocks.

Definition threshold : Z := 2.
Definition ss58Prefix : Z := 251.

(** [wasm] is the content of the runtime file in hexadecimal; [None] when it
    cannot be read. *)
Definition run (fuel : nat) (nodesByName : gmap string string) (nodeName : string)
    (wasm : option string) : io S Z :=
  _ ← connect nodesByName nodeName;
  _ ← ask SystemChain;
  _ ← ask SystemName;
  _ ← ask SystemVersion;
  match wasm with
  | None => throw (JsError "ENOENT")
  | Some wasm_hex =>
      let multisigAddress := createKeyMulti [ALICE; BOB; CHARLIE] threshold in
      let Ss58MultiAddress := encodeAddress multisigAddress ss58Prefix in
      _ ← submit (submitExtrinsic (Call "sudo" "setKey" [JStr Ss58MultiAddress]) (Some ALICE)
                    UntilFinalized None);
      newSudoKey ← ask SudoKey;
      if match newSudoKey with
         | Some k => negb (bool_decide (k = Ss58MultiAddress))
         | None => false
         end
      then mret (code ErrWrongSudoAccount)
      else
        currentRuntimeVersion ← ask SpecVersion;
        _ ← ask SudoKey;
        let updateRuntimeCall := JExt "system" "setCode" [JStr ("0x" +:+ wasm_hex)] in
        blockNumber ← ask BlockNumber;
        let when := blockNumber + 5 in
        let priority := 100 in
        let scheduleTx :=
          Call "scheduler" "schedule" [JNum when; JNull; JNum priority; updateRuntimeCall] in
        let sudoScheduleTx := SudoCall scheduleTx in
        weight ← ask (PaymentWeight sudoScheduleTx ALICE);
        _ ← submit (submitExtrinsic
                      (Call "multisig" "asMulti"
                         [JNum threshold; JArr (JStr <$> sort_addresses [BOB; CHARLIE]); JNull;
                          JStr (call_hex sudoScheduleTx); JNum 0])
                      (Some ALICE) UntilInBlock None);
        info ← ask (MultisigWhen multisigAddress (call_hash sudoScheduleTx));
        match info with
        | None => throw TypeError
        | Some timepoint =>
            _ ← submit (submitExtrinsic
                          (Call "multisig" "asMulti"
                             [JNum threshold; JArr (JStr <$> sort_addresses [ALICE; CHARLIE]); timepoint;
                              JStr (call_hex sudoScheduleTx); weight])
                          (Some BOB) UntilInBlock None);
            blockNumberEnd ← ask BlockNumber;
            let blocksToWait := when - blockNumberEnd + 1 in
            _ ← waitForBlocks fuel blocksToWait;
            updatedRuntimeVersion ← ask SpecVersion;
            if updatedRuntimeVersion =? currentRuntimeVersion then mret (code ErrSameRuntimeVersion)
            else mret (code Ok)
        end
  end.

(** ** Lemmas *)

(** Heads arrive one by one: [height] is the number of the last one. *)
Definition consecutive (height : S → Z) : Prop :=
  ∀ s, ∃ s', node_query NextHead s = (Ret (height s + 1), s') ∧ height s' = height s + 1.

Lemma wait_heads_run height (Hc : consecutive height) n start :
  0 < start →
  ∀ fuel s, start + n ≤ height s + Z.of_nat fuel → (0 < fuel)%nat →
  ∃ s', wait_heads fuel (Some start) n s = (Ret tt, s') ∧
    height s' = Z.max (height s + 1) (start + n).
Proof.
  intros Hs. induction fuel as [|fuel IH]; intros s Hf Hpos; [lia|]. cbn [wait_heads].
  destruct (Hc s) as (s1 & Hq & Hh). unfold ask. rewrite (bind_Ret _ _ _ _ _ Hq). cbn [unset].
  rewrite (proj2 (Z.eqb_neq start 0)) by lia. cbv zeta. change (default 0 (Some start)) with start.
  destruct (Z.leb_spec (start + n) (height s + 1)) as [Hle|Hgt].
  - exists s1. split; [done|]. lia.
  - destruct (IH s1) as (s' & Hw & Hh'); [lia..|]. exists s'. split; [done|]. lia.
Qed.

Lemma waitForBlocks_run height (Hc : consecutive height) n fuel s :
  0 ≤ height s → Z.max n 0 + 1 ≤ Z.of_nat fuel →
  ∃ s', waitForBlocks fuel n s = (Ret tt, s') ∧ height s' = height s + 1 + Z.max n 0.
Proof.
  intros Hs Hf. unfold waitForBlocks. destruct fuel as [|fuel]; [lia|]. cbn [wait_heads].
  destruct (Hc s) as (s1 & Hq & Hh). unfold ask. rewrite (bind_Ret _ _ _ _ _ Hq). cbv zeta. cbn [unset].
  destruct (Z.leb_spec (height s + 1 + n) (height s + 1)) as [Hle|Hgt].
  - exists s1. split; [done|]. lia.
  - destruct (wait_heads_run height Hc n (height s + 1) ltac:(lia) fuel s1) as (s' & Hw & Hh'); [lia..|].
    exists s'. split; [done|]. lia.
Qed.

(** The chain only grows, heads arrive one by one, and the block number is that of
    the last head. *)
Record clock (height : S → Z) : Prop := {
  clock_heads : consecutive height;
  clock_tries r s ts s' : node_tries r s = (ts, s') → height s ≤ height s';
  clock_query A (q : query A) s r s' : node_query q s = (r, s') → height s ≤ height s';
  clock_number s r s' : node_query BlockNumber s = (r, s') → r = Ret (height s) ∧ s' = s
}.

Lemma clock_submit height (Hc : clock height) r s v s' :
  submit r s = (Ret v, s') → height s ≤ height s'.
Proof.
  unfold submit. destruct (node_tries r s) as [ts s1] eqn:E. pose proof (clock_tries _ Hc _ _ _ _ E).
  destruct (perform r ts); intros; by simplify_eq.
Qed.

Lemma wait_heads_reaches height (Hc : clock height) n : ∀ fuel start s s',
  unset start = false →
  wait_heads fuel start n s = (Ret tt, s') → default 0 start + n ≤ height s'.
Proof.
  induction fuel as [|fuel IH]; intros start s s' Hs; cbn [wait_heads]; [done|].
  destruct (clock_heads _ Hc s) as (s1 & Hq & Hh). unfold ask. rewrite (bind_Ret _ _ _ _ _ Hq). rewrite Hs. cbv zeta.
  destruct (Z.leb_spec (default 0 start + n) (height s + 1)).
  - intros [= <-]. lia.
  - intros Hw. destruct start as [z|]; [|done]. by apply (IH (Some z) s1 s').
Qed.

Lemma waitForBlocks_reaches height (Hc : clock height) n fuel s s' :
  0 ≤ height s → waitForBlocks fuel n s = (Ret tt, s') → height s + 1 + n ≤ height s'.
Proof.
  intros H0. unfold waitForBlocks. destruct fuel as [|fuel]; cbn [wait_heads]; [done|].
  destruct (clock_heads _ Hc s) as (s1 & Hq & Hh). unfold ask. rewrite (bind_Ret _ _ _ _ _ Hq). cbv zeta. cbn [unset].
  destruct (Z.leb_spec (height s + 1 + n) (height s + 1)).
  - intros [= <-]. lia.
  - intros Hw. pose proof (wait_heads_reaches height Hc n fuel (Some (height s + 1)) s1 s') as Hr.
    cbn [unset] in Hr. rewrite (proj2 (Z.eqb_neq (height s + 1) 0)) in Hr by lia.
    specialize (Hr eq_refl Hw). change (default 0 (Some (height s + 1))) with (height s + 1) in Hr. lia.
Qed.
End script.
End Upgrade.

(** One bind of a script that returned. *)
Tactic Notation "io_inv" hyp(H) ident(a) ident(s1) :=
  let E := fresh "E" a in apply bind_inv in H as (a & s1 & E & H).

(** The upgrade scenario compares the runtime versions at the right time: when it
    reaches a verdict about the upgrade, the second version was read after the
    block the upgrade had been scheduled for, and the verdict is whether the two
    versions differ. *)
Theorem upgrade_compared_after_schedule {S} `{!Node S} createKeyMulti encodeAddress call_hex call_hash
    height fuel nodes name wasm s c s' :
  Upgrade.clock height → 0 ≤ height s →
  Upgrade.run createKeyMulti encodeAddress call_hex call_hash fuel nodes name wasm s = (Ret c, s') →
  c = Upgrade.code Upgrade.ErrWrongSudoAccount ∨
  ∃ s0 s0' v1 s1 s2 v2,
    node_query SpecVersion s0 = (Ret v1, s0') ∧ height s0 ≤ height s1 ∧
    node_query BlockNumber s1 = (Ret (height s1), s1) ∧
    node_query SpecVersion s2 = (Ret v2, s') ∧ height s1 + 5 < height s2 ∧
    c = Upgrade.code (if v2 =? v1 then Upgrade.ErrSameRuntimeVersion else Upgrade.Ok).
Proof.
  intros Hc H0 H. unfold Upgrade.run, connect in H.
  pose proof (λ A q s r s', Upgrade.clock_query height Hc A q s r s') as Hq. unfold ask in H.
  io_inv H ws sa. destruct (nodes !! name) as [w|]; [|done]. apply (inj2 pair) in Ews as [_ <-].
  io_inv H ch sb. io_inv H nm sc. io_inv H vs sd. apply Hq in Ech, Enm, Evs.
  destruct wasm as [hex|]; [|done]. cbv zeta in H.
  io_inv H k0 se. apply (Upgrade.clock_submit height Hc) in Ek0. io_inv H key sf. apply Hq in Ekey.
  lazymatch type of H with (if ?b then _ else _) _ = _ => destruct b end; [left; by apply (inj2 pair) in H as [[= <-] _]|right].
  io_inv H v1 sg. pose proof (Hq _ _ _ _ _ Ev1). io_inv H key2 sh. apply Hq in Ekey2.
  io_inv H bn si. pose proof Ebn as Hbn. apply (Upgrade.clock_number height Hc) in Ebn as [[= ->] ->].
  io_inv H wt sj. apply Hq in Ewt. io_inv H r1 sk. apply (Upgrade.clock_submit height Hc) in Er1.
  io_inv H info sl. apply Hq in Einfo. destruct info as [tp|]; [|done].
  io_inv H r2 sm. apply (Upgrade.clock_submit height Hc) in Er2. io_inv H be sn.
  apply (Upgrade.clock_number height Hc) in Ebe as [[= ->] ->]. io_inv H u so. destruct u.
  apply (Upgrade.waitForBlocks_reaches height Hc) in Eu; [|lia]. io_inv H v2 sp.
  exists sf, sg, v1, sh, so, v2. split_and!; [done|lia|done| |lia|].
  - destruct (v2 =? v1); by apply (inj2 pair) in H as [_ <-].
  - destruct (v2 =? v1); by apply (inj2 pair) in H as [[= <-] _].
Qed.

(** ** A chain that upgrades itself *)

Module UpgradeToy.
Record chain : Type := Chain {
  height : Z;
  sudo_key : string;
  proposed : option Z;        (* the block of the call that waits for approval *)
  scheduled : option Z
}.

(** Every extrinsic takes a block; the second [asMulti] executes the call. *)
Definition execute (e : ext) (s : chain) : chain :=
  let h := height s + 1 in
  match e with
  | Call "sudo" "setKey" [JStr k] => Chain h k (proposed s) (scheduled s)
  | Call "multisig" "asMulti" [_; _; JNull; _; _] => Chain h (sudo_key s) (proposed s) (scheduled s)
  | Call "multisig" "asMulti" _ => Chain h (sudo_key s) None (proposed s)
  | _ => Chain h (sudo_key s) (proposed s) (scheduled s)
  end.

Definition notify (h : Z) : list ext_event :=
  [Notified (ExtUpdate (IsInBlock "0xb") [EventRecord "system" "ExtrinsicSuccess" [] 1]);
   Notified (ExtUpdate (IsFinalized "0xb") [])].

Definition version (s : chain) : Z :=
  match scheduled s with
  | Some b => if b <=? height s then 2 else 1
  | None => 1
  end.

(** The payment query shows the call to be proposed. *)
Definition seen (e : ext) (s : chain) : chain :=
  match e with
  | SudoCall (Call "scheduler" "schedule" (JNum w :: _)) =>
      Chain (height s) (sudo_key s) (Some w) (scheduled s)
  | _ => s
  end.

#[export] Instance upgrade_node : Node chain := {
  node_send e _ s := (notify (height s), execute e s);
  node_tries r s := ([Try (notify (height s)) []], execute (r_ext r) s);
  node_query A q s :=
    match q in query A return js A * chain with
    | SystemChain | SystemName | SystemVersion => (Ret "zkv", s)
    | SudoKey => (Ret (Some (sudo_key s)), s)
    | SpecVersion => (Ret (version s), s)
    | BlockNumber => (Ret (height s), s)
    | PaymentWeight e _ => (Ret (JNum 7), seen e s)
    | MultisigWhen _ _ => (Ret ((λ _, JNum (height s)) <$> proposed s), s)
    | NextHead => (Ret (height s + 1), Chain (height s + 1) (sudo_key s) (proposed s) (scheduled s))
    | _ => (Throw TypeError, s)
    end
}.

Lemma execute_height e s : height (execute e s) = height s + 1.
Proof. unfold execute. repeat case_match; done. Qed.

Lemma seen_height e s : height (seen e s) = height s.
Proof. unfold seen. repeat case_match; done. Qed.

Lemma toy_clock : Upgrade.clock height.
Proof.
  split.
  - intros s. by eexists.
  - intros r s ts s' [= _ <-]. rewrite execute_height. lia.
  - intros A q s r s' Hq. destruct q; apply (inj2 pair) in Hq as [_ <-]; rewrite ?seen_height; simpl; lia.
  - by intros s r s' [= <- <-].
Qed.

Definition genesis : chain := Chain 3 "alice" None None.
End UpgradeToy.
Import (hints) UpgradeToy.

Definition sample_upgrade : js Z * UpgradeToy.chain :=
  Upgrade.run (λ _ _, "0xmulti") (λ a _, a) (λ _, "0xcall") (λ _, "0xhash") 10
    {["alice" := "ws"]} "alice" (Some "00") UpgradeToy.genesis.

Lemma upgrade_compared_after_schedule_witness :
  sample_upgrade = (Ret 1, sample_upgrade.2) ∧
  (1 = Upgrade.code Upgrade.ErrWrongSudoAccount ∨
   ∃ s0 s0' v1 s1 s2 v2,
    node_query SpecVersion s0 = (Ret v1, s0') ∧ UpgradeToy.height s0 ≤ UpgradeToy.height s1 ∧
    node_query BlockNumber s1 = (Ret (UpgradeToy.height s1), s1) ∧
    node_query SpecVersion s2 = (Ret v2, sample_upgrade.2) ∧ UpgradeToy.height s1 + 5 < UpgradeToy.height s2 ∧
    1 = Upgrade.code (if v2 =? v1 then Upgrade.ErrSameRuntimeVersion else Upgrade.Ok)).
Proof.
  split; [vm_compute; reflexivity|].
  apply (upgrade_compared_after_schedule (λ _ _, "0xmulti") (λ a _, a) (λ _, "0xcall") (λ _, "0xhash")
    UpgradeToy.height 10 {["alice" := "ws"]} "alice" (Some "00") UpgradeToy.genesis 1 sample_upgrade.2
    UpgradeToy.toy_clock); [simpl; lia|]. vm_compute. reflexivity.
Defined.
