(* ===== verification/ScenarioXcm.v ===== *)
(** * The teleport scenarios ([zombienet-tests/js_scripts/0013-xcm/relay_send.js],
    [para_recv_sendback.js])

    Tokens are teleported from the relay chain to a test parachain, which waits
    for them and sends them back.  [BN], the big number class of the API, is a
    parameter: [BN x] is [new BN(x, 10)]. *)

From S2P Require Import Prelude JsString TxLifecycle ZkvLib Node ScenarioTx.

Open Scope Z_scope.

Definition BLOCK_TIME : Z := 6000.

(** ** The arguments of the two extrinsics *)

Definition here : jsv := JObj [("Here", JStr "")].

(** [{ V4: { parents, interior } }] *)
Definition v4_location (parents : jsv) (interior : jsv) : jsv :=
  JObj [("V4", JObj [("parents", parents); ("interior", interior)])].

Definition account_x1 (id : jsv) : jsv :=
  JObj [("X1", JArr [JObj [("AccountId32", JObj [("network", JNull); ("id", id)])]])].

Definition v4_assets (parents : Z) (amount : jsv) : jsv :=
  JObj [("V4", JArr [JObj [("id", JObj [("parents", JNum parents); ("interior", here)]);
                           ("fun", JObj [("Fungible", amount)])]])].

Definition teleport_assets (dest beneficiary assets : jsv) : ext :=
  Call "xcmPallet" "teleportAssets" [dest; beneficiary; assets; JStr "0"].

Section scripts.
Context {S : Type} `{!Node S} (BN : option string → js Z).

(** ** On the relay chain *)

Definition relay_dest : jsv :=
  v4_location (JStr "0") (JObj [("X1", JArr [JObj [("Parachain", JNum 1599)]])]).

(** Ok 1, WrongBalance 2, ExtrinsicUnsuccessful 3. *)
Definition run_relay_send (nodesByName : gmap string string) (nodeName : string) (args : list string)
    : io S Z :=
  _ ← connect nodesByName nodeName;
  balance_alice_pre ← ask (AccountFree ALICE);
  let amount := args !! 0%nat in
  let benef := args !! 1%nat in
  let teleport := teleport_assets relay_dest (v4_location (JStr "0") (account_x1 (arg benef)))
                    (v4_assets 0 (arg amount)) in
  r ← submit (submitExtrinsic teleport (Some ALICE) UntilInBlock None);
  ok ← received (AData r);
  if negb ok then mret 3
  else
    balance_alice_post ← ask (AccountFree ALICE);
    let paid := balance_alice_pre - balance_alice_post in
    limit ← lift (BN amount);
    if paid <=? limit then mret 2 else mret 1.

(** ** On the parachain *)

Definition ALICE_REMOTE_ORIGIN : string :=
  "0x7b2ac6587a1931a0b108bb03777f8e552293bd6a6ea3790a5fe14e214f13072b".

(** The waiting loop: [true] when the balance is there, [false] when it gives up. *)
Fixpoint wait_teleport (fuel : nat) (receiver : string) (amount : option string)
    (timeout balance_receiver : Z) : io S bool :=
  target ← lift (BN amount);
  if balance_receiver =? target then mret true
  else
    match fuel with
    | O => lift Hang
    | Datatypes.S fuel =>
        _ ← ask (Sleep 1000);
        let timeout := timeout - 1000 in
        balance_receiver ← ask (AccountFree receiver);
        if timeout <=? 0 then mret false
        else wait_teleport fuel receiver amount timeout balance_receiver
    end.

(** Ok 1, WrongTeleportReceived 2, ExtrinsicUnsuccessful 3. *)
Definition run_para_recv_sendback (fuel : nat) (nodesByName : gmap string string) (nodeName : string)
    (args : list string) : io S Z :=
  _ ← connect nodesByName nodeName;
  let amount := args !! 0%nat in
  let receiver := default "undefined" (args !! 1%nat) in
  let timeout := BLOCK_TIME * 3 in
  balance_receiver ← ask (AccountFree receiver);
  there ← wait_teleport fuel receiver amount timeout balance_receiver;
  if negb there then mret 2
  else
    let teleport := teleport_assets (v4_location (JStr "1") here)
                      (v4_location (JStr "0") (account_x1 (JStr ALICE_REMOTE_ORIGIN)))
                      (v4_assets 1 (arg amount)) in
    r ← submit (submitExtrinsic teleport (Some ALICE) UntilInBlock None);
    ok ← received (AData r);
    if negb ok then mret 3 else mret 1.

(** ** Lemmas *)

(** Sleeping a second takes the chain from [s] to [tick s]; reading a balance
    changes nothing. *)
Definition ticks (tick : S → S) (balance : S → string → Z) : Prop :=
  (∀ s, node_query (Sleep 1000) s = (Ret tt, tick s)) ∧
  (∀ a s, node_query (AccountFree a) s = (Ret (balance s a), s)).

(** The first of the next [n] seconds at which the balance is [x]. *)
Fixpoint arrives (tick : S → S) (balance : S → Z) (x : Z) (n : nat) (s : S) : option S :=
  match n with
  | O => None
  | Datatypes.S n => if balance s =? x then Some s else arrives tick balance x n (tick s)
  end.

Lemma wait_teleport_run tick balance receiver amount x :
  ticks tick balance → BN amount = Ret x →
  ∀ n fuel s, (0 < n ≤ fuel)%nat →
  wait_teleport fuel receiver amount (1000 * Z.of_nat n) (balance s receiver) s =
    match arrives tick (λ s, balance s receiver) x n s with
    | Some s' => (Ret true, s')
    | None => (Ret false, Nat.iter n tick s)
    end.
Proof.
  intros [Hs Hb] HBN. induction n as [|n IH]; intros fuel s Hf; [lia|]. destruct fuel as [|fuel]; [lia|].
  cbn [wait_teleport]. rewrite HBN. rewrite (bind_Ret _ _ _ x s) by done. cbn [arrives].
  destruct (Z.eqb_spec (balance s receiver) x) as [He|He]; [done|].
  unfold ask. rewrite (bind_Ret _ _ _ _ _ (Hs s)), (bind_Ret _ _ _ _ _ (Hb receiver (tick s))). cbv zeta.
  destruct n as [|n].
  - rewrite (proj2 (Z.leb_le _ 0)) by lia. done.
  - rewrite (proj2 (Z.leb_gt _ 0)) by lia.
    replace (1000 * Z.of_nat (Datatypes.S (Datatypes.S n)) - 1000)
      with (1000 * Z.of_nat (Datatypes.S n)) by lia.
    rewrite IH by lia. destruct (arrives _ _ _ _ _); [done|]. by rewrite <- Nat.iter_succ_r.
Qed.
End scripts.

(** ** Properties *)

(** The parachain scenario waits for the teleport at most three block times: it
    always ends its loop, it goes on exactly when the balance read at the start
    or after one of the next seventeen seconds is the amount, and else answers
    [WrongTeleportReceived]; the balance it reads after the eighteenth second
    is not looked at. *)
Theorem teleport_wait_bounded {S} `{!Node S} BN tick balance nodes name ws fuel amount receiver x s :
  ticks tick balance → BN (Some amount) = Ret x → nodes !! name = Some ws → (18 ≤ fuel)%nat →
  (arrives tick (λ s, balance s receiver) x 18 s = None →
   run_para_recv_sendback BN fuel nodes name [amount; receiver] s = (Ret 2, Nat.iter 18 tick s)) ∧
  (∀ s', arrives tick (λ s, balance s receiver) x 18 s = Some s' →
   balance s' receiver = x ∧
   run_para_recv_sendback BN fuel nodes name [amount; receiver] s =
     (r ← submit (submitExtrinsic
        (teleport_assets (v4_location (JStr "1") here)
           (v4_location (JStr "0") (account_x1 (JStr ALICE_REMOTE_ORIGIN))) (v4_assets 1 (JStr amount)))
        (Some ALICE) UntilInBlock None);
      ok ← received (AData r);
      if negb ok then mret 3 else mret 1) s').
Proof.
  intros Ht HBN Hn Hf.
  assert (Harr : ∀ n s s', arrives tick (λ s, balance s receiver) x n s = Some s' → balance s' receiver = x).
  { induction n as [|n IH]; intros s1 s'; cbn [arrives]; [done|].
    destruct (Z.eqb_spec (balance s1 receiver) x); [by intros [= <-]|apply IH]. }
  pose proof (wait_teleport_run BN tick balance receiver (Some amount) x Ht HBN 18 fuel s ltac:(lia)) as Hw.
  unfold run_para_recv_sendback, connect, ask. rewrite Hn.
  rewrite (bind_Ret _ _ _ ws s) by done. cbn [lookup list_lookup default]. cbv zeta.
  change (default "undefined" ([amount; receiver] !! 1%nat)) with receiver.
  rewrite (bind_Ret _ _ _ _ _ (proj2 Ht receiver s)).
  change (BLOCK_TIME * 3) with (1000 * Z.of_nat 18).
  split.
  - intros Hno. rewrite Hno in Hw. by rewrite (bind_Ret _ _ _ _ _ Hw).
  - intros s' Hs'. split; [by eapply Harr|]. rewrite Hs' in Hw. by rewrite (bind_Ret _ _ _ _ _ Hw).
Qed.

(** ** A parachain that receives a teleport at a given second *)

Module XcmToy.
Record para : Type := Para { second : Z; arrival : Z }.

Definition balance (s : para) (a : string) : Z := if arrival s <=? second s then 10 ^ 18 else 0.
Definition tick (s : para) : para := Para (second s + 1) (arrival s).

#[export] Instance para_node : Node para := {
  node_send _ _ s := ([], s);
  node_tries _ s :=
    ([Try [Notified (ExtUpdate (IsInBlock "0xb") [EventRecord "system" "ExtrinsicSuccess" [] 1])] []], s);
  node_query A q s :=
    match q in query A return js A * para with
    | AccountFree a => (Ret (balance s a), s)
    | Sleep _ => (Ret tt, tick s)
    | _ => (Throw TypeError, s)
    end
}.

Lemma para_ticks : ticks tick balance.
Proof. by split. Qed.

Definition big (x : option string) : js Z := Ret (dval (default "0" x)).
End XcmToy.
Import (hints) XcmToy.

(** At second 17 the teleport is still noticed, at second 18 it is not. *)
Lemma teleport_wait_bounded_witness :
  run_para_recv_sendback XcmToy.big 18 Toy.network "alice" ["1000000000000000000"; "bob"]
    (XcmToy.Para 0 18) = (Ret 2, XcmToy.Para 18 18) ∧
  (run_para_recv_sendback XcmToy.big 18 Toy.network "alice" ["1000000000000000000"; "bob"]
    (XcmToy.Para 0 17)).1 = Ret 1.
Proof.
  split; [|vm_compute; reflexivity].
  apply (teleport_wait_bounded XcmToy.big XcmToy.tick XcmToy.balance Toy.network "alice" "ws://alice" 18
           "1000000000000000000" "bob" (10 ^ 18) (XcmToy.Para 0 18) XcmToy.para_ticks eq_refl eq_refl
           (le_n 18)). vm_compute. reflexivity.
Defined.
