(* ===== verification/ScenarioProofs.v ===== *)
(** * The proof submission scenarios ([zombienet-tests/js_scripts/0006-proof_should_pay.js],
    [0007-proof_with_vk.js], [0009-proof_on_disabled_verifier_should_pay_just_a_little_fee.js],
    [0014-vk_hash_api.js])

    What a proof costs, proofs by key and by hash, a disabled verifier, and the
    key hashes computed by the RPC.  The proofs and keys of the [*_data.js] files
    are arguments. *)

From stdpp Require Import pretty.
From S2P Require Import Prelude JsString JsNumber JsObject TxLifecycle ZkvLib Node ScenarioTx.

Open Scope Z_scope.

(** What a data file exports. *)
Record proof_data : Type := {
  PROOF : jsv;
  PUBS : jsv;
  VK : jsv;
  VKEY_HASH : string;
  STATEMENT_HASH : string
}.

Definition MIN_PRICE : Z := 1000000000.

(** [balanceAlice - newBalanceAlice <= MIN_PRICE] *)
Definition paid_too_little (balance new_balance : Z) : bool :=
  num_leb (num_sub (bn_number balance) (bn_number new_balance)) (of_Z MIN_PRICE).

Section scripts.
Context {S : Type} `{!Node S}.

(** [await submitProof(pallet, signer, ...args)] *)
Definition prove (pallet signer : string) (args : list jsv) : io S zreturn :=
  submit (submitProof pallet signer args).

Definition vk_arg (vk : jsv) : jsv := JObj [("Vk", vk)].
Definition hash_arg (hash : string) : jsv := JObj [("Hash", JStr hash)].

(** ** 0006: valid and invalid proofs are paid for *)

(** Ok 1, ErrProofVerificationFailed 2, ErrFalseProofVerified 3,
    ErrValidProofNotPay 4, ErrInvalidProofNotPay 5. *)
Definition run_0006 (d : proof_data) (nodesByName : gmap string string) (nodeName : string) : io S Z :=
  _ ← zkv_init nodesByName nodeName;
  balanceAlice ← getBalance ALICE;
  r ← prove "settlementUltraplonkPallet" ALICE [vk_arg (VK d); PROOF d; PUBS d];
  ok ← received (AData r);
  if negb ok then mret 2
  else
    newBalanceAlice ← getBalance ALICE;
    if paid_too_little balanceAlice newBalanceAlice then mret 4
    else
      let balanceAlice := newBalanceAlice in
      r ← prove "settlementUltraplonkPallet" ALICE [vk_arg (VK d); PROOF d; JNum 0];
      ok ← received (AData r);
      if (ok : bool) then mret 3
      else
        newBalanceAlice ← getBalance ALICE;
        if paid_too_little balanceAlice newBalanceAlice then mret 5 else mret 1.

(** ** 0007: proofs with a key and with its hash *)

(** [expected != events[0].data[0]] *)
Definition first_differs (expected : string) (events : list event_record) : io S bool :=
  x ← first_data 0 events;
  mret (negb (bool_decide (x = Some expected))).

(** [events[0]] is read only after [receivedEvents(events)] was true. *)
Definition list_of (events : option (list event_record)) : list event_record := default [] events.

(** Ok 1, ErrProofVerificationFailed 2, ErrAcceptAnUnregisteredHash 3,
    ErrVkRegistrationFailed 4, ErrWrongKeyHash 5, ErrProofVerificationHashFailed 6,
    ErrWrongStatementHash 7. *)
Definition run_0007 (d : proof_data) (nodesByName : gmap string string) (nodeName : string) : io S Z :=
  let pallet := "settlementUltraplonkPallet" in
  _ ← zkv_init nodesByName nodeName;
  r ← prove pallet ALICE [vk_arg (VK d); PROOF d; PUBS d];
  events ← events_of r;
  ok ← received (AEvents events);
  if negb ok then mret 2
  else
    wrong ← first_differs (STATEMENT_HASH d) (list_of events);
    if (wrong : bool) then mret 7
    else
      r ← prove pallet ALICE [hash_arg (VKEY_HASH d); PROOF d; PUBS d];
      ok ← received (AData r);
      if (ok : bool) then mret 3
      else
        r ← submit (registerVk pallet ALICE (VK d));
        events ← events_of r;
        ok ← received (AEvents events);
        if negb ok then mret 4
        else
          wrong ← first_differs (VKEY_HASH d) (list_of events);
          if (wrong : bool) then mret 5
          else
            r ← prove pallet ALICE [hash_arg (VKEY_HASH d); PROOF d; PUBS d];
            events ← events_of r;
            ok ← received (AEvents events);
            if negb ok then mret 6
            else
              wrong ← first_differs (STATEMENT_HASH d) (list_of events);
              if (wrong : bool) then mret 7 else mret 1.

(** ** 0009: a disabled verifier is cheap *)

Definition FACTOR : Z := 70.

(** [paidBalanceOnDisable > paidBalanceOnVerify / FACTOR] *)
Definition too_costly (paidOnDisable paidOnVerify : Z) : bool :=
  num_ltb (num_div (bn_number paidOnVerify) (of_Z FACTOR)) (bn_number paidOnDisable).

(** Ok 1, ErrProofVerificationFailed 2, ErrCannotDisable 3, ErrVerifiedOnDisable 4,
    ErrDisableProofTooCostly 6. *)
Definition run_0009 (d : proof_data) (nodesByName : gmap string string) (nodeName : string) : io S Z :=
  let pallet := "settlementRisc0Pallet" in
  _ ← zkv_init nodesByName nodeName;
  balanceAlice ← getBalance ALICE;
  r ← prove pallet ALICE [vk_arg (VK d); PROOF d; PUBS d];
  ok ← received (AData r);
  if negb ok then mret 2
  else
    newBalanceAlice ← getBalance ALICE;
    let paidBalanceOnVerify := balanceAlice - newBalanceAlice in
    r ← submit (submitExtrinsic (SudoCall (Call pallet "disable" [JBool true])) (Some ALICE)
                  UntilInBlock None);
    ok ← received (AData r);
    if negb ok then mret 3
    else
      balanceAlice ← getBalance ALICE;
      r ← prove pallet ALICE [vk_arg (VK d); PROOF d; PUBS d];
      ok ← received (AData r);
      if (ok : bool) then mret 4
      else
        newBalanceAlice ← getBalance ALICE;
        let paidBalanceOnDisable := balanceAlice - newBalanceAlice in
        if too_costly paidBalanceOnDisable paidBalanceOnVerify then mret 6 else mret 1.

(** ** 0014: hashes of verification keys *)

(** A row of the table: name, RPC method of [api.rpc.vk_hash], key, expected hash. *)
Record vk_row : Type := { vr_name : string; vr_rpc : string; vr_vk : jsv; vr_expected : string }.

(** The keys and hashes of the data files; Risc0 and Sp1 keys are their own
    hashes. *)
Record vk_tables : Type := {
  ezkl : jsv * string; fflonk : jsv * string; groth16 : jsv * string; plonky2 : jsv * string;
  risc0 : string; ultrahonk : jsv * string; ultraplonk : jsv * string; sp1 : string
}.

Definition vk_hash_table (t : vk_tables) : list vk_row :=
  [{| vr_name := "Ezkl"; vr_rpc := "ezkl"; vr_vk := (ezkl t).1; vr_expected := (ezkl t).2 |};
   {| vr_name := "Fflonk"; vr_rpc := "fflonk"; vr_vk := (fflonk t).1; vr_expected := (fflonk t).2 |};
   {| vr_name := "Groth16"; vr_rpc := "groth16"; vr_vk := (groth16 t).1; vr_expected := (groth16 t).2 |};
   {| vr_name := "Plonky2"; vr_rpc := "plonky2"; vr_vk := (plonky2 t).1; vr_expected := (plonky2 t).2 |};
   {| vr_name := "Risc0"; vr_rpc := "risc0"; vr_vk := JStr (risc0 t); vr_expected := risc0 t |};
   {| vr_name := "UltraHonk"; vr_rpc := "ultrahonk"; vr_vk := (ultrahonk t).1;
      vr_expected := (ultrahonk t).2 |};
   {| vr_name := "UltraPLONK"; vr_rpc := "ultraplonk"; vr_vk := (ultraplonk t).1;
      vr_expected := (ultraplonk t).2 |};
   {| vr_name := "Sp1"; vr_rpc := "sp1"; vr_vk := JStr (sp1 t); vr_expected := sp1 t |}].

(** Ok 1, ErrIncorrectHash 6. *)
Fixpoint check_hashes (rows : list vk_row) : io S Z :=
  match rows with
  | [] => mret 1
  | verifier :: rows =>
      verifier_hash ← ask (VkHash (vr_rpc verifier) (vr_vk verifier));
      if negb (bool_decide (verifier_hash = vr_expected verifier)) then mret 6
      else check_hashes rows
  end.

Definition run_0014 (t : vk_tables) (nodesByName : gmap string string) (nodeName : string) : io S Z :=
  _ ← zkv_init nodesByName nodeName;
  check_hashes (vk_hash_table t).
End scripts.

(** ** Lemmas *)

(** The price check is right up to the rounding of the two balances. *)
Lemma paid_too_little_bounds a b :
  0 ≤ a < 2 ^ 81 → 0 ≤ b < 2 ^ 81 →
  if paid_too_little a b then a - b ≤ MIN_PRICE + 2 ^ 28 else MIN_PRICE - 2 ^ 28 < a - b.
Proof.
  intros Ha Hb. destruct (of_Z_error a Ha) as (x & Hx & Hxa), (of_Z_error b Hb) as (y & Hy & Hyb).
  unfold paid_too_little, bn_number, num_sub. rewrite !ToNumber_pretty by lia.
  rewrite (num_add_int _ _ _ _ Hx (is_int_opp _ _ Hy)), num_leb_small by (unfold MIN_PRICE; lia).
  change (2 ^ 28) with (2 ^ 27 + 2 ^ 27). destruct (Z.leb_spec (x + - y) MIN_PRICE); lia.
Qed.

Lemma check_hashes_spec {S} `{!Node S} (hash : string → jsv → string) rows :
  (∀ rpc vk s, node_query (VkHash rpc vk) s = (Ret (hash rpc vk), s)) →
  ∀ s, check_hashes rows s =
    (Ret (if forallb (λ r, bool_decide (hash (vr_rpc r) (vr_vk r) = vr_expected r)) rows then 1 else 6), s).
Proof.
  intros Hh. induction rows as [|r rows IH]; intros s; [done|]. cbn [check_hashes forallb].
  unfold ask. rewrite (bind_Ret _ _ _ _ _ (Hh _ _ s)). case_bool_decide; cbn [negb andb]; [by rewrite IH|done].
Qed.

(** The table of 0014 uses RPC methods that [zkv-lib] declares. *)
Lemma vk_hash_table_declared t :
  Forall (λ r, ("vk_hash", vr_rpc r) ∈ (λ p, (rpc_section p, rpc_name p)) <$> zkvRpc) (vk_hash_table t).
Proof. repeat constructor; apply (bool_decide_unpack _); vm_compute; exact Logic.I. Qed.

(** ** Properties *)

(** 0006 decides whether proofs are paid for, up to the rounding of balances to
    doubles: when a valid proof is accepted and an invalid one refused, it
    returns [Ok] if both cost more than the minimum price by [2 ^ 28], and only
    if both cost more than the minimum price less [2 ^ 28]. *)
Theorem proof_price_decides {S} `{!Node S} balance d nodes name ws block e es s s1 s2 :
  reads balance → nodes !! name = Some ws →
  prove "settlementUltraplonkPallet" ALICE [vk_arg (VK d); PROOF d; PUBS d] s =
    (Ret (ZSuccess block (e :: es)), s1) →
  prove "settlementUltraplonkPallet" ALICE [vk_arg (VK d); PROOF d; JNum 0] s1 = (Ret ZMinusOne, s2) →
  Forall (λ s, 0 ≤ balance s ALICE < 2 ^ 81) [s; s1; s2] →
  let p1 := balance s ALICE - balance s1 ALICE in
  let p2 := balance s1 ALICE - balance s2 ALICE in
  (MIN_PRICE + 2 ^ 28 < p1 → MIN_PRICE + 2 ^ 28 < p2 → run_0006 d nodes name s = (Ret 1, s2)) ∧
  ((run_0006 d nodes name s).1 = Ret 1 → MIN_PRICE - 2 ^ 28 < p1 ∧ MIN_PRICE - 2 ^ 28 < p2).
Proof.
  intros [Hb _] Hn Hp1 Hp2 Hr p1 p2. rewrite !list.Forall_cons in Hr. destruct Hr as (R0 & R1 & R2 & _).
  unfold run_0006, zkv_init, getBalance, ask.
  rewrite (bind_Ret _ _ _ ws s) by (unfold lift, init_api; by rewrite Hn).
  rewrite (bind_Ret _ _ _ _ _ (Hb _ s)), (bind_Ret _ _ _ _ _ Hp1), (bind_Ret _ _ _ true s1) by done.
  cbn [negb]. rewrite (bind_Ret _ _ _ _ _ (Hb _ s1)).
  pose proof (paid_too_little_bounds _ _ R0 R1) as B1. pose proof (paid_too_little_bounds _ _ R1 R2) as B2.
  destruct (paid_too_little (balance s ALICE) _).
  { split; [intros; lia|]. intros [=]. }
  cbv zeta. rewrite (bind_Ret _ _ _ _ _ Hp2), (bind_Ret _ _ _ false s2) by done.
  rewrite (bind_Ret _ _ _ _ _ (Hb _ s2)).
  destruct (paid_too_little (balance s1 ALICE) _); split; try done; intros; lia.
Qed.

(** ** A node that charges for proofs *)

Module PayToy.
Record pay : Type := Pay { alice_free : Z; price : Z }.

Definition records (e : ext) : list event_record :=
  match e with
  | Call p "submitProof" [_; _; JNum 0; _] => [EventRecord "system" "ExtrinsicFailed" [] 1]
  | Call p "submitProof" _ =>
      [EventRecord p "ProofVerified" ["0xst"] 1; EventRecord "system" "ExtrinsicSuccess" [] 1]
  | _ => [EventRecord "system" "ExtrinsicSuccess" [] 1]
  end.

Definition notify (e : ext) : list ext_event := [Notified (ExtUpdate (IsInBlock "0xb") (records e))].

#[export] Instance pay_node : Node pay := {
  node_send e _ s := (notify e, Pay (alice_free s - price s) (price s));
  node_tries r s := ([Try (notify (r_ext r)) []], Pay (alice_free s - price s) (price s));
  node_query A q s :=
    match q in query A return js A * pay with
    | AccountFree a => (Ret (alice_free s), s)
    | SystemNumber => (Ret 1, s)
    | _ => (Throw TypeError, s)
    end
}.

Definition balance (s : pay) (a : string) : Z := alice_free s.

Lemma pay_reads : reads balance.
Proof. split; [done|]. intros s. by exists 1. Qed.
End PayToy.
Import (hints) PayToy.

Definition sample_proof : proof_data := {|
  PROOF := JStr "0xp"; PUBS := JArr []; VK := JStr "0xvk"; VKEY_HASH := "0xh"; STATEMENT_HASH := "0xst"
|}.

Lemma proof_price_decides_witness :
  run_0006 sample_proof Toy.network "alice" (PayToy.Pay (10 ^ 24) (10 ^ 16)) =
    (Ret 1, PayToy.Pay (10 ^ 24 - 2 * 10 ^ 16) (10 ^ 16)) ∧
  (run_0006 sample_proof Toy.network "alice" (PayToy.Pay (10 ^ 24) 1000)).1 = Ret 4.
Proof.
  split; [|vm_compute; reflexivity].
  apply (proof_price_decides PayToy.balance sample_proof Toy.network "alice" "ws://alice" (Some "0xb")
           (EventRecord "settlementUltraplonkPallet" "ProofVerified" ["0xst"] 1) []
           (PayToy.Pay (10 ^ 24) (10 ^ 16)) (PayToy.Pay (10 ^ 24 - 10 ^ 16) (10 ^ 16))
           (PayToy.Pay (10 ^ 24 - 2 * 10 ^ 16) (10 ^ 16)) PayToy.pay_reads eq_refl).
  - vm_compute. reflexivity.
  - vm_compute. reflexivity.
  - repeat (apply list.Forall_cons; split; [vm_compute; split; congruence|]). by apply list.Forall_nil.
  - vm_compute. reflexivity.
  - vm_compute. reflexivity.
Defined.
