(* ===== verification/TeeData.v ===== *)
(** * The TCB data of the TEE sample ([zombienet-tests/js_scripts/tee_intel_data.js])

    [fetchTdxTcbInfo] asks Intel's service for the current TCB info of the
    sample's platform and gives the body of the answer and its issuer chain, from
    a header, as hexadecimal strings.

    The request is a sequence of events.  Strings are lists of Unicode scalar
    values and buffers lists of bytes; Node's decoding of UTF-8 and ECMAScript's
    [decodeURIComponent] are written out.  The theorem says that the bytes of the
    answer reach the caller however it is cut into chunks between characters; a
    cut inside a character destroys it. *)

From Stdlib Require Import Ascii.
From stdpp Require Import pretty.
From S2P Require Import Prelude JsString JsObject ZkvLib Node.

Open Scope Z_scope.

(** ** UTF-8 *)

(** U+FFFD, which stands for malformed input. *)
Definition replacement : Z := 65533.

(** [Buffer.from(s, 'utf8')], one scalar value. *)
Definition utf8_char (c : Z) : list Z :=
  if c <? 128 then [c]
  else if c <? 2048 then [192 + c / 64; 128 + c mod 64]
  else if c <? 65536 then [224 + c / 4096; 128 + c / 64 mod 64; 128 + c mod 64]
  else [240 + c / 262144; 128 + c / 4096 mod 64; 128 + c / 64 mod 64; 128 + c mod 64].

Definition utf8 (s : list Z) : list Z := s ≫= utf8_char.

(** The decoder: bytes still needed, the bits read, and the range of the next
    byte. *)
Record decoder : Type := Decoder { needed : nat; bits : Z; lower : Z; upper : Z }.
Definition decoder_init : decoder := Decoder 0 0 128 191.

(** A first byte. *)
Definition lead (b : Z) : list Z * decoder :=
  if b <? 128 then ([b], decoder_init)
  else if b <? 194 then ([replacement], decoder_init)
  else if b <? 224 then ([], Decoder 1 (b - 192) 128 191)
  else if b <? 240 then
    ([], Decoder 2 (b - 224) (if b =? 224 then 160 else 128) (if b =? 237 then 159 else 191))
  else if b <? 245 then
    ([], Decoder 3 (b - 240) (if b =? 240 then 144 else 128) (if b =? 244 then 143 else 191))
  else ([replacement], decoder_init).

Definition feed (st : decoder) (b : Z) : list Z * decoder :=
  match needed st with
  | O => lead b
  | S n =>
      if (lower st <=? b) && (b <=? upper st) then
        let c := bits st * 64 + (b - 128) in
        match n with
        | O => ([c], decoder_init)
        | S _ => ([], Decoder n c 128 191)
        end
      else let '(out, st') := lead b in (replacement :: out, st')
  end.

Fixpoint decode (st : decoder) (bs : list Z) : list Z :=
  match bs with
  | [] => match needed st with O => [] | S _ => [replacement] end
  | b :: bs => let '(out, st') := feed st b in out ++ decode st' bs
  end.

(** [chunk.toString()] *)
Definition buffer_toString (bs : list Z) : list Z := decode decoder_init bs.

(** ** Hexadecimal digits *)

Definition hex_digit (d : Z) : ascii :=
  Ascii.ascii_of_N (Z.to_N (if d <? 10 then 48 + d else 87 + d)).

(** [buffer.toString('hex')] *)
Fixpoint buffer_hex (bs : list Z) : string :=
  match bs with
  | [] => EmptyString
  | b :: bs => String (hex_digit (b / 16)) (String (hex_digit (b mod 16)) (buffer_hex bs))
  end.

(** ['0x' + Buffer.from(s, 'utf8').toString('hex')] *)
Definition hex_utf8 (s : list Z) : string := "0x" +:+ buffer_hex (utf8 s).

(** ** Percent-encoding *)

Definition hex_value (c : Z) : option Z :=
  if (48 <=? c) && (c <=? 57) then Some (c - 48)
  else if (65 <=? c) && (c <=? 70) then Some (c - 55)
  else if (97 <=? c) && (c <=? 102) then Some (c - 87)
  else None.

(** How many bytes the first byte of a character announces. *)
Definition announced (b : Z) : option nat :=
  if b <? 128 then Some 0%nat
  else if b <? 192 then None
  else if b <? 224 then Some 1%nat
  else if b <? 240 then Some 2%nat
  else if b <? 248 then Some 3%nat
  else None.

(** One or more escapes make up a character, checked as a whole: what remains to
    be read of it, and the bytes read. *)
Definition character (bs : list Z) : option Z :=
  match buffer_toString bs with
  | [c] => if bool_decide (utf8 [c] = bs) then Some c else None
  | _ => None
  end.

(** [decodeURIComponent]; [None] is a [URIError]. *)
Fixpoint decode_uri (n : nat) (bs : list Z) (s : list Z) : option (list Z) :=
  match s with
  | [] => match n with O => Some [] | S _ => None end
  | c :: s =>
      if c =? 37 then
        match s with
        | h :: l :: s =>
            h ← hex_value h; l ← hex_value l;
            let b := h * 16 + l in
            match n with
            | O =>
                n ← announced b;
                match n with
                | O => r ← decode_uri 0 [] s; Some (b :: r)
                | S _ => decode_uri n [b] s
                end
            | S O => c ← character (bs ++ [b]); r ← decode_uri 0 [] s; Some (c :: r)
            | S n => decode_uri n (bs ++ [b]) s
            end
        | _ => None
        end
      else match n with O => r ← decode_uri 0 [] s; Some (c :: r) | S _ => None end
  end.

Definition decodeURIComponent (s : list Z) : option (list Z) := decode_uri 0 [] s.

(** ** The request *)

Inductive http_event : Type :=
  | Response (statusCode : Z) (issuer_chain : option (list Z))
  | Data (chunk : list Z)
  | End
  | RequestError (e : js_error).

(** What [fetchTdxTcbInfo] resolves to. *)
Record tcb_info : Type := { vkTcbResp : jsv; vkTcbCert : jsv }.

Definition string_undefined : list Z := [117; 110; 100; 101; 102; 105; 110; 101; 100].

(** The listeners of the response, once set: the certificates and the body. *)
Fixpoint listen (certChainPem body : list Z) (evs : list http_event) : js tcb_info :=
  match evs with
  | [] => Hang
  | Data chunk :: evs => listen certChainPem (body ++ buffer_toString chunk) evs
  | End :: _ => Ret {| vkTcbResp := JStr (hex_utf8 body); vkTcbCert := JStr (hex_utf8 certChainPem) |}
  | RequestError e :: _ => Throw e
  | Response _ _ :: evs => listen certChainPem body evs
  end.

(** A promise settles once.  An exception in the listener of the response is not
    caught and ends the process.  A missing header is read as [undefined]. *)
Fixpoint fetchTdxTcbInfo (evs : list http_event) : js tcb_info :=
  match evs with
  | [] => Hang
  | Response statusCode issuer_chain :: evs =>
      if negb (statusCode =? 200) then
        Throw (JsError ("Intel API returned status " +:+ pretty statusCode))
      else
        match decodeURIComponent (default string_undefined issuer_chain) with
        | None => Exit 1
        | Some certChainPem => listen certChainPem [] evs
        end
  | RequestError e :: _ => Throw e
  | _ :: evs => fetchTdxTcbInfo evs
  end.

(** ** Round trips *)

Definition scalar (c : Z) : Prop := 0 ≤ c < 55296 ∨ 57344 ≤ c < 1114112.

(** The six-bit digits of a scalar value. *)
Lemma six_bits c : c = c / 64 * 64 + c mod 64 ∧ 0 ≤ c mod 64 < 64.
Proof. pose proof (Z.div_mod c 64). pose proof (Z.mod_pos_bound c 64). lia. Qed.

Lemma div_4096 c : c / 4096 = c / 64 / 64.
Proof. by rewrite Z.div_div. Qed.

Lemma div_262144 c : c / 262144 = c / 64 / 64 / 64.
Proof. by rewrite !Z.div_div. Qed.

Lemma decode_lead b bs :
  decode decoder_init (b :: bs) = (lead b).1 ++ decode (lead b).2 bs.
Proof. simpl. unfold feed. simpl. by destruct (lead b). Qed.

Lemma decode_last c l u b bs :
  l ≤ b ≤ u → decode (Decoder 1 c l u) (b :: bs) = c * 64 + (b - 128) :: decode decoder_init bs.
Proof.
  intros [Hl Hu]. apply Z.leb_le in Hl, Hu. cbn [decode]. unfold feed. cbn [needed lower upper bits].
  by rewrite Hl, Hu.
Qed.

Lemma decode_more n c l u b bs :
  l ≤ b ≤ u →
  decode (Decoder (S (S n)) c l u) (b :: bs) = decode (Decoder (S n) (c * 64 + (b - 128)) 128 191) bs.
Proof.
  intros [Hl Hu]. apply Z.leb_le in Hl, Hu. cbn [decode]. unfold feed. cbn [needed lower upper bits].
  by rewrite Hl, Hu.
Qed.

(** Case analysis on the comparisons of a goal, by linear arithmetic. *)
Ltac compare_all :=
  repeat match goal with
    | |- context [?a <? ?b] => destruct (Z.ltb_spec a b); try lia
    | |- context [?a =? ?b] => destruct (Z.eqb_spec a b); try lia
    end.

Lemma decode_char c bs : scalar c → decode decoder_init (utf8_char c ++ bs) = c :: decode decoder_init bs.
Proof.
  intros Hc. unfold utf8_char, scalar in *. rewrite div_4096, div_262144.
  destruct (six_bits c) as [E0 B0], (six_bits (c / 64)) as [E1 B1], (six_bits (c / 64 / 64)) as [E2 B2].
  generalize dependent (c mod 64). generalize dependent (c / 64 mod 64).
  generalize dependent (c / 64 / 64 mod 64). generalize dependent (c / 64 / 64 / 64).
  generalize dependent (c / 64 / 64). generalize dependent (c / 64).
  intros x1 x2 x3 y2 E2 B2 y1 E1 B1 y0 E0 B0.
  destruct (Z.ltb_spec c 128); [|destruct (Z.ltb_spec c 2048); [|destruct (Z.ltb_spec c 65536)]];
    cbn [app]; rewrite decode_lead; unfold lead; compare_all; cbn [fst snd app];
    rewrite ?decode_more, ?decode_last by lia; try done; f_equal; lia.
Qed.

Lemma buffer_toString_utf8 s : Forall scalar s → buffer_toString (utf8 s) = s.
Proof.
  unfold buffer_toString. induction 1 as [|c s Hc Hs IH]; [done|].
  unfold utf8 in *. rewrite bind_cons, decode_char by done. by rewrite IH.
Qed.

(** A text as a header carries it: characters are kept or written byte by byte as
    [%XX]. *)
Definition upper_digit (d : Z) : Z := if d <? 10 then 48 + d else 55 + d.
Definition percent (b : Z) : list Z := [37; upper_digit (b / 16); upper_digit (b mod 16)].
Definition escape_char (keep : Z → bool) (c : Z) : list Z :=
  if keep c then [c] else utf8_char c ≫= percent.
Definition escape (keep : Z → bool) (s : list Z) : list Z := s ≫= escape_char keep.

Lemma hex_value_digit d : 0 ≤ d < 16 → hex_value (upper_digit d) = Some d.
Proof.
  intros Hd. unfold hex_value, upper_digit.
  destruct (Z.ltb_spec d 10).
  - destruct (Z.leb_spec 48 (48 + d)), (Z.leb_spec (48 + d) 57); simpl; try lia. f_equal. lia.
  - destruct (Z.leb_spec 48 (55 + d)), (Z.leb_spec (55 + d) 57), (Z.leb_spec 65 (55 + d)),
      (Z.leb_spec (55 + d) 70); cbn [andb]; try lia. f_equal. lia.
Qed.

Lemma decode_percent n bs b s :
  0 ≤ b < 256 →
  decode_uri n bs (percent b ++ s) =
    match n with
    | O => n ← announced b;
           match n with
           | O => r ← decode_uri 0 [] s; Some (b :: r)
           | S _ => decode_uri n [b] s
           end
    | S O => c ← character (bs ++ [b]); r ← decode_uri 0 [] s; Some (c :: r)
    | S n => decode_uri n (bs ++ [b]) s
    end.
Proof.
  intros Hb. unfold percent. cbn [app decode_uri Z.eqb Pos.eqb].
  rewrite !hex_value_digit by (try apply Z.mod_pos_bound; try split; try apply Z.div_pos;
                               try apply Z.div_lt_upper_bound; lia).
  cbn [mbind option_bind]. cbv zeta. replace (b / 16 * 16 + b mod 16) with b; [done|].
  pose proof (Z.div_mod b 16). lia.
Qed.

Lemma character_char c : scalar c → character (utf8_char c) = Some c.
Proof.
  intros Hc. assert (Eu : utf8 [c] = utf8_char c).
  { unfold utf8. rewrite bind_cons. apply app_nil_r. }
  pose proof (buffer_toString_utf8 [c] ltac:(by constructor)) as E. rewrite Eu in E.
  unfold character. rewrite E, Eu. by rewrite bool_decide_eq_true_2.
Qed.

Lemma decode_uri_char c s :
  scalar c → decode_uri 0 [] ((utf8_char c ≫= percent) ++ s) = r ← decode_uri 0 [] s; Some (c :: r).
Proof.
  intros Hc. pose proof (character_char c Hc) as Hch. revert Hch.
  unfold utf8_char, scalar in *. rewrite div_4096, div_262144.
  destruct (six_bits c) as [E0 B0], (six_bits (c / 64)) as [E1 B1], (six_bits (c / 64 / 64)) as [E2 B2].
  generalize dependent (c mod 64). generalize dependent (c / 64 mod 64).
  generalize dependent (c / 64 / 64 mod 64). generalize dependent (c / 64 / 64 / 64).
  generalize dependent (c / 64 / 64). generalize dependent (c / 64).
  intros x1 x2 x3 y2 E2 B2 y1 E1 B1 y0 E0 B0.
  destruct (Z.ltb_spec c 128); [|destruct (Z.ltb_spec c 2048); [|destruct (Z.ltb_spec c 65536)]];
    intros Hch; rewrite ?bind_cons; change ([] ≫= percent) with (@nil Z); rewrite ?app_nil_r, <- ?app_assoc; rewrite decode_percent by lia;
    unfold announced; compare_all; cbn [mbind option_bind];
    repeat (rewrite decode_percent by lia; cbn [app]); rewrite ?Hch; done.
Qed.

Lemma decode_escape keep s :
  (∀ c, keep c = true → c ≠ 37) → Forall scalar s → decodeURIComponent (escape keep s) = Some s.
Proof.
  intros Hk. unfold decodeURIComponent, escape. induction 1 as [|c s Hc Hs IH]; [done|].
  rewrite bind_cons. unfold escape_char at 1. destruct (keep c) eqn:E.
  - cbn [app decode_uri]. rewrite (proj2 (Z.eqb_neq c 37)) by auto. by rewrite IH.
  - by rewrite decode_uri_char, IH.
Qed.

(** The body, chunk by chunk. *)
Lemma listen_chunks cert body chunks texts evs :
  Forall2 (λ ch t, ch = utf8 t ∧ Forall scalar t) chunks texts →
  listen cert body ((Data <$> chunks) ++ evs) = listen cert (body ++ concat texts) evs.
Proof.
  intros H. revert body. induction H as [|ch t chunks texts [-> Ht] _ IH]; intros body; simpl.
  - by rewrite app_nil_r.
  - by rewrite buffer_toString_utf8, IH, app_assoc.
Qed.

Lemma utf8_concat chunks texts :
  Forall2 (λ ch t, ch = utf8 t ∧ Forall scalar t) chunks texts → utf8 (concat texts) = concat chunks.
Proof.
  induction 1 as [|ch t chunks texts [-> Ht] _ IH]; [done|]. simpl. unfold utf8 in *.
  by rewrite bind_app, IH.
Qed.

(** ** Properties *)

(** [fetchTdxTcbInfo] gives the bytes of the service's answer: whatever the number
    and the sizes of the chunks, when no character is cut the hexadecimal strings
    it resolves to are the body and the unescaped certificates, whatever
    happens after the end of the answer. *)
Theorem tcb_info_exact keep cert chunks texts evs :
  (∀ c, keep c = true → c ≠ 37) → Forall scalar cert →
  Forall2 (λ ch t, ch = utf8 t ∧ Forall scalar t) chunks texts →
  fetchTdxTcbInfo (Response 200 (Some (escape keep cert)) :: (Data <$> chunks) ++ End :: evs) =
    Ret {| vkTcbResp := JStr ("0x" +:+ buffer_hex (concat chunks));
           vkTcbCert := JStr ("0x" +:+ buffer_hex (utf8 cert)) |}.
Proof.
  intros Hk Hc Hch. cbn [fetchTdxTcbInfo negb Z.eqb Pos.eqb from_option id].
  rewrite decode_escape, (listen_chunks _ _ _ texts) by done. simpl. unfold hex_utf8.
  by rewrite (utf8_concat _ _ Hch).
Qed.

(** A body with a letter outside ASCII, in two chunks. *)
Definition sample_texts : list (list Z) := [[123; 34; 233]; [8364; 34; 125]].
Definition sample_keep (c : Z) : bool := (48 <=? c) && (c <=? 122).

Lemma tcb_info_exact_witness :
  fetchTdxTcbInfo (Response 200 (Some (escape sample_keep [45; 66; 10; 128512])) ::
    (Data <$> (utf8 <$> sample_texts)) ++ [End; RequestError TypeError]) =
  Ret {| vkTcbResp := JStr "0x7b22c3a9e282ac227d"; vkTcbCert := JStr "0x2d420af09f9880" |}.
Proof.
  rewrite (tcb_info_exact sample_keep [45; 66; 10; 128512] (utf8 <$> sample_texts) sample_texts
             [RequestError TypeError]).
  - vm_compute. reflexivity.
  - intros c H ->. discriminate.
  - repeat constructor; unfold scalar; lia.
  - repeat constructor; unfold scalar; lia.
Defined.

(** A character that two chunks share is lost: C3 A9 arrives as two replacement
    characters. *)
Lemma tcb_info_cut_character :
  fetchTdxTcbInfo [Response 200 (Some []); Data [195]; Data [169]; End] =
  Ret {| vkTcbResp := JStr "0xefbfbdefbfbd"; vkTcbCert := JStr "0x" |}.
Proof. vm_compute. reflexivity. Qed.

(** Without the header the certificates are the word [undefined]. *)
Lemma tcb_info_no_header :
  fetchTdxTcbInfo [Response 200 None; End] =
  Ret {| vkTcbResp := JStr "0x"; vkTcbCert := JStr "0x756e646566696e6564" |}.
Proof. vm_compute. reflexivity. Qed.
