(* ===== verification/ScenarioAggregate.v ===== *)
(** * The aggregation scenario ([zombienet-tests/js_scripts/0012-aggregate_proofs.js])

    The scenario fills an aggregation with one proof of each verifier, publishes
    it, checks the path of every statement against the published receipt, and
    walks domains through their life and their submission rules.  Each part of
    [run] is a definition of its own; an early [return] is the left injection of
    a sum.

    Against any node: what a run that returns [Ok] has checked, and the two
    places where a wrong answer of the node is returned as [Ok]. *)

From stdpp Require Import pretty.
From S2P Require Import Prelude JsString JsNumber JsObject TxLifecycle ZkvLib Merkle Node ScenarioTx TeeData.

Open Scope Z_scope.

Module Aggregation.
Inductive ReturnCode : Type :=
  | Ok
  | ErrDomainRegistrationFailed
  | ErrProofVerificationFailed
  | ErrAggregationNotReady
  | ErrNoAggregation
  | ErrAggregationProofFailedVerification
  | ErrDomainUnregistrationFailed
  | ErrDomainHoldFailed
  | ErrProofOnUnregisteredDomain
  | ErrWrongDomainId
  | ErrPublishShouldNotPay
  | ErrProofFromInvalidSubmitter
  | ErrProofFromValidSubmitter
  | ErrAllowlist
  | ErrRegisterCA
  | ErrUpdateCrl.

#[export] Instance ReturnCode_eq_dec : EqDecision ReturnCode.
Proof. solve_decision. Defined.

Definition code (r : ReturnCode) : Z :=
  match r with
  | Ok => 1
  | ErrDomainRegistrationFailed => 2
  | ErrProofVerificationFailed => 3
  | ErrAggregationNotReady => 4
  | ErrNoAggregation => 5
  | ErrAggregationProofFailedVerification => 6
  | ErrDomainUnregistrationFailed => 7
  | ErrDomainHoldFailed => 8
  | ErrProofOnUnregisteredDomain => 9
  | ErrWrongDomainId => 10
  | ErrPublishShouldNotPay => 11
  | ErrProofFromInvalidSubmitter => 12
  | ErrProofFromValidSubmitter => 13
  | ErrAllowlist => 14
  | ErrRegisterCA => 15
  | ErrUpdateCrl => 16
  end.

(** ** The verifiers *)

(** What a data file exports: a key, a proof and its public inputs. *)
Record sample : Type := Sample { VK : jsv; PROOF : jsv; PUBS : jsv }.

(** The data files; the Ultrahonk files export two proofs of the same key. *)
Record samples : Type := {
  FFLONK : sample; RISC0_V2_2 : sample; RISC0_V3_0 : sample; GROTH16 : sample;
  ULTRAHONK_V3_0_ZK : sample; ULTRAHONK_V3_0_PLAIN : sample; ULTRAHONK_V0_84_PLAIN : sample;
  ULTRAHONK_LEGACY_PLAIN : sample; ULTRAPLONK : sample; PLONKY2 : sample; SP1 : sample;
  EZKL : sample;
  TEE_PROOF : jsv; TEE_PUBS : jsv; TEE_ROOT_CERT_DER : jsv; TEE_CRL_PEM : jsv; TEE_CRL_CHAIN_PEM : jsv
}.

Record verifier : Type := { name : string; pallet : string; args : list jsv }.

Definition verifier_of (name pallet : string) (d : sample) : verifier := {|
  name := name; pallet := pallet; args := [JObj [("Vk", VK d)]; PROOF d; PUBS d]
|}.

Definition tee_verifier (d : samples) (tcb : tcb_info) : verifier := {|
  name := "Tee"; pallet := "settlementTeePallet";
  args := [JObj [("Vk", JObj [("Intel", JObj [("tcb_response", vkTcbResp tcb);
                                              ("certificates", vkTcbCert tcb)])])];
           TEE_PROOF d; TEE_PUBS d]
|}.

Definition verifiers_table (d : samples) (tcb : tcb_info) (volta : bool) : list verifier :=
  [verifier_of "FFlonk" "settlementFFlonkPallet" (FFLONK d);
   verifier_of "Risc0.V.2.2" "settlementRisc0Pallet" (RISC0_V2_2 d);
   verifier_of "Risc0.V.3.0" "settlementRisc0Pallet" (RISC0_V3_0 d);
   verifier_of "Groth16" "settlementGroth16Pallet" (GROTH16 d);
   verifier_of "Ultrahonk.V.3.0 (ZK)" "settlementUltrahonkPallet" (ULTRAHONK_V3_0_ZK d);
   verifier_of "Ultrahonk.V.3.0 (Plain)" "settlementUltrahonkPallet" (ULTRAHONK_V3_0_PLAIN d);
   verifier_of "Ultrahonk.V.0.84 (Plain)" "settlementUltrahonkPallet" (ULTRAHONK_V0_84_PLAIN d);
   verifier_of "Ultrahonk.Legacy (Plain)" "settlementUltrahonkPallet" (ULTRAHONK_LEGACY_PLAIN d);
   verifier_of "Ultraplonk" "settlementUltraplonkPallet" (ULTRAPLONK d);
   verifier_of "Plonky2" "settlementPlonky2Pallet" (PLONKY2 d);
   verifier_of "Sp1" "settlementSp1Pallet" (SP1 d);
   tee_verifier d tcb]
  ++ (if volta then [verifier_of "Ezkl" "settlementEzklPallet" (EZKL d)] else []).

(** [Buffer.from('Intel_SGX_Processor').toString('hex')], prefixed. *)
Definition caName : string := "0x496e74656c5f5347585f50726f636573736f72".

Definition destination : jsv := JObj [("None", JNull)].

Section script.
Context {S : Type} `{!Node S} (keccak : string → string).

(** ** Early returns *)

(** A part of [run]: it has returned a code, or goes on. *)
Abbreviation part A := (io S (ReturnCode + A)).

Definition continue {A} (a : A) : part A := mret (inr a).
Definition return_ {A} (c : ReturnCode) : part A := mret (inl c).

Definition and_then {A B} (m : part A) (f : A → part B) : part B :=
  r ← m;
  match r with
  | inl c => mret (inl c)
  | inr a => f a
  end.

Definition always {A} (m : io S A) : part A := a ← m; mret (inr a).

Notation "'let!' x := m 'in' k" := (and_then m (λ x, k))
  (at level 10, x pattern, m at level 100, k at level 200, only parsing).
Notation "m ;! k" := (and_then m (λ _, k)) (at level 100, right associativity, only parsing).

(** [if (!receivedEvents(data)) return c] *)
Definition expect_events (c : ReturnCode) (r : zreturn) : part unit :=
  ok ← received (AData r);
  if (ok : bool) then continue tt else return_ c.

(** [if (receivedEvents(data)) return c] *)
Definition expect_none (c : ReturnCode) (r : zreturn) : part unit :=
  ok ← received (AData r);
  if (ok : bool) then return_ c else continue tt.

(** A submission that must give events, or must not. *)
Definition must (c : ReturnCode) (q : request) : part zreturn :=
  let! r := always (submit q) in
  expect_events c r ;! continue r.

Definition must_not (c : ReturnCode) (q : request) : part unit :=
  let! r := always (submit q) in
  expect_none c r.

(** [data.events[0].data[k]] after [receivedEvents(data)]. *)
Definition event_data (k : nat) (r : zreturn) : io S (option string) :=
  events ← events_filter (λ _, true) r;
  first_data k events.

(** [data.events.filter((event) => event.method === m)[0].data[k]] *)
Definition method_data (m : string) (k : nat) (r : zreturn) : io S (option string) :=
  events ← events_filter (is_method m) r;
  first_data k events.

Definition new_state (r : zreturn) : io S string :=
  x ← method_data "DomainStateChanged" 1 r;
  to_string x.

Definition expect_state (state : string) (c : ReturnCode) (r : zreturn) : part unit :=
  let! found := always (new_state r) in
  if bool_decide (found = state) then continue tt else return_ c.

Definition prove (v : verifier) (signer : string) (domainId : option string) : io S zreturn :=
  submit (submitProof (pallet v) signer (args v ++ [arg domainId])).

(** [data.events.filter((event) => event.method === 'NewProof').length] *)
Definition new_proofs (r : zreturn) : io S nat :=
  events ← events_filter (is_method "NewProof") r;
  mret (length events).

(** ** Filling an aggregation *)

Definition register_ca (d : samples) : part unit :=
  must ErrRegisterCA (sudoRegisterCA ALICE (JStr caName) (TEE_ROOT_CERT_DER d)) ;!
  must ErrUpdateCrl
    (updateCrl BOB (JStr caName)
       (JObj [("Pem", JObj [("crl", TEE_CRL_PEM d); ("cert_chain", TEE_CRL_CHAIN_PEM d)])])) ;!
  continue tt.

(** A domain of Bob's; the result is its identifier. *)
Definition register_domain (size queue : jsv) (proof_rules : string) : part (option string) :=
  let! r := must ErrDomainRegistrationFailed
              (registerDomain BOB size queue (JStr "Untrusted") (JStr proof_rules) destination JNull) in
  always (event_data 0 r).

Definition is_complete (e : event_record) : bool :=
  in_section "aggregate" e && is_method "AggregationComplete" e.

(** The first loop: has a submission failed, the completion events, and
    [verifier.statementHash] of each verifier. *)
Fixpoint submit_proofs (vs : list verifier) (domainId : option string)
    : io S (bool * list event_record * list (option string)) :=
  match vs with
  | [] => mret (false, [], [])
  | v :: vs =>
      data ← prove v ALICE domainId;
      ok ← received (AData data);
      statementHash ← (if (ok : bool) then event_data 0 data else mret None);
      complete ← events_filter is_complete data;
      rest ← submit_proofs vs domainId;
      let '(failed, completes, hashes) := rest in
      mret (negb ok || failed, complete ++ completes, statementHash :: hashes)
  end.

(** ** Publishing *)

(** [receipts]: the block of a publication, and the event if there was one. *)
Definition receipt : Type := option string * option event_record.

Fixpoint publish (complete : list event_record) : part (list receipt) :=
  match complete with
  | [] => continue []
  | event :: complete =>
      let! prePublish := always (getBalance BOB) in
      let! r := must ErrNoAggregation
                  (aggregate BOB (arg (data event !! 0%nat)) (arg (data event !! 1%nat))) in
      let! events := always (events_filter (is_method "NewAggregationReceipt") r) in
      let! block := always (block_of r) in
      let! after := always (getBalance BOB) in
      if object_leb (Some (pretty after)) (Some (pretty prePublish)) then return_ ErrPublishShouldNotPay
      else
        let! receipts := publish complete in
        continue ((block, head events) :: receipts)
  end.

(** One receipt: the path of every statement. *)
Fixpoint check_paths (block domainId id root : option string) (hashes : list (option string))
    : io S bool :=
  match hashes with
  | [] => mret true
  | h :: hashes =>
      path ← ask (StatementPath block (arg domainId) (arg id) (arg h));
      root' ← to_string root;
      rest ← check_paths block domainId id root hashes;
      mret (verifyProof keccak path root' && rest)
  end.

Fixpoint check_receipts (receipts : list receipt) (hashes : list (option string)) : io S bool :=
  match receipts with
  | [] => mret true
  | (_, None) :: _ => throw TypeError
  | (block, Some e) :: receipts =>
      ok ← check_paths block (data e !! 0%nat) (data e !! 1%nat) (data e !! 2%nat) hashes;
      rest ← check_receipts receipts hashes;
      mret (ok && rest)
  end.

Definition aggregate_and_check (vs : list verifier) (domainId : option string) : part unit :=
  let! (failed, complete, hashes) := always (submit_proofs vs domainId) in
  if (failed : bool) then return_ ErrProofVerificationFailed
  else if (length complete =? 0)%nat then return_ ErrAggregationNotReady
  else
    let! receipts := publish complete in
    let! checked := always (check_receipts receipts hashes) in
    if (checked : bool) then continue tt else return_ ErrAggregationProofFailedVerification.

(** ** The life of a domain *)

Definition domain_life (v : verifier) (domainId : option string) : part (option string) :=
  let id := arg domainId in
  must_not ErrDomainUnregistrationFailed (unregisterDomain ALICE id) ;!
  must_not ErrDomainHoldFailed (holdDomain ALICE id) ;!
  must_not ErrDomainUnregistrationFailed (unregisterDomain BOB id) ;!
  let! r := must ErrDomainHoldFailed (holdDomain BOB id) in
  expect_state "Removable" ErrDomainHoldFailed r ;!
  let! r := must ErrDomainUnregistrationFailed (unregisterDomain BOB id) in
  expect_state "Removed" ErrDomainHoldFailed r ;!
  let! n := always (r ← prove v ALICE domainId; new_proofs r) in
  if (0 <? n)%nat then return_ ErrProofOnUnregisteredDomain
  else
    let! newDomainId := register_domain (JNum 4) (JNum 8) "Untrusted" in
    if object_leb newDomainId domainId then return_ ErrWrongDomainId
    else continue newDomainId.

(** The variable [states] of the last message is not defined. *)
Definition hold_machine (v : verifier) (newDomainId : option string) : part unit :=
  let! r := always (prove v ALICE newDomainId) in
  expect_events ErrProofVerificationFailed r ;!
  let! aggId := always (method_data "NewProof" 2 r) in
  let! r := must ErrDomainHoldFailed (holdDomain BOB (arg newDomainId)) in
  expect_state "Hold" ErrDomainHoldFailed r ;!
  let! r := must ErrNoAggregation (aggregate BOB (arg newDomainId) (arg aggId)) in
  let! found := always (new_state r) in
  if bool_decide (found = "Removable") then continue tt
  else always (throw (JsError "states is not defined")).

(** ** Who may submit *)

Definition only_owner (v : verifier) : part unit :=
  let! domainId := register_domain (JNum 4) (JNum 8) "OnlyOwner" in
  let! n := always (r ← prove v ALICE domainId; new_proofs r) in
  if (0 <? n)%nat then return_ ErrProofFromInvalidSubmitter
  else
    let! n := always (r ← prove v BOB domainId; new_proofs r) in
    if (n =? 0)%nat then return_ ErrProofFromValidSubmitter else continue tt.

Definition submitShouldFail (v : verifier) (who : string) (domainId : option string)
    (error : ReturnCode) : io S ReturnCode :=
  r ← prove v who domainId;
  n ← new_proofs r;
  if (0 <? n)%nat then mret error else mret Ok.

Definition submitShouldSuccess (v : verifier) (who : string) (domainId : option string)
    (error : ReturnCode) : io S ReturnCode :=
  r ← prove v who domainId;
  n ← new_proofs r;
  if (n =? 0)%nat then mret error else mret Ok.

(** [if (err1 !== ReturnCode.Ok || err2 !== ReturnCode.Ok) return err1] *)
Definition both_ok (err1 err2 : ReturnCode) : part unit :=
  if negb (bool_decide (err1 = Ok)) || negb (bool_decide (err2 = Ok)) then return_ err1
  else continue tt.

Definition only_allowlisted (v : verifier) : part unit :=
  let! domainId := register_domain (JNum 4) (JNum 8) "OnlyAllowlisted" in
  let! err1 := always (submitShouldFail v ALICE domainId ErrProofFromInvalidSubmitter) in
  let! err2 := always (submitShouldFail v BOB domainId ErrProofFromInvalidSubmitter) in
  both_ok err1 err2 ;!
  must ErrAllowlist (allowlistProofSubmitters BOB (arg domainId) (JArr [JStr ALICE])) ;!
  let! err1 := always (submitShouldFail v BOB domainId ErrProofFromInvalidSubmitter) in
  let! err2 := always (submitShouldSuccess v ALICE domainId ErrProofFromInvalidSubmitter) in
  both_ok err1 err2 ;!
  must ErrAllowlist (removeProofSubmitters BOB (arg domainId) (JArr [JStr ALICE])) ;!
  continue tt.

(** ** run *)

(** [verifiers[0]] *)
Definition first_verifier (d : samples) : verifier :=
  verifier_of "FFlonk" "settlementFFlonkPallet" (FFLONK d).

(** The body of [run] for a list of verifiers, the first of which is used by the
    checks of the domains: everything before the domain with an allowlist. *)
Definition first_checks (d : samples) (first : verifier) (vs : list verifier) : part unit :=
  register_ca d ;!
  let! domainId := register_domain (JNum (Z.of_nat (length vs))) JNull "Untrusted" in
  aggregate_and_check vs domainId ;!
  let! newDomainId := domain_life first domainId in
  hold_machine first newDomainId ;!
  only_owner first.

Definition checks (d : samples) (first : verifier) (vs : list verifier) : part unit :=
  first_checks d first vs ;!
  only_allowlisted first.

(** [tcb] is what [fetchTdxTcbInfo()] gives. *)
Definition run (d : samples) (tcb : js tcb_info) (nodesByName : gmap string string)
    (nodeName : string) : io S Z :=
  _ ← zkv_init nodesByName nodeName;
  tcb ← lift tcb;
  chain ← ask SystemChain;
  let vs := verifiers_table d tcb (isVolta chain) in
  r ← checks d (first_verifier d) vs;
  mret (code (match r with inl c => c | inr _ => Ok end)).
End script.

(** ** Parts that do not return [Ok] *)

Section parts.
Context {S : Type} `{!Node S} (keccak : string → string).
Abbreviation part A := (io S (ReturnCode + A)).

Definition honest {A} (m : part A) : Prop := ∀ s s', m s ≠ (Ret (inl Ok), s').

Lemma honest_continue {A} (a : A) : honest (continue a).
Proof. intros s s' [=]. Qed.

Lemma honest_return {A} c : c ≠ Ok → honest (return_ (A:=A) c).
Proof. intros Hc s s' [=]. done. Qed.

Lemma honest_io {A B} (m : io S A) (f : A → part B) : (∀ a, honest (f a)) → honest (m ≫= f).
Proof. intros Hf s s' (a & s1 & _ & H)%bind_inv. by apply Hf in H. Qed.

Lemma honest_always {A} (m : io S A) : honest (always m).
Proof. apply honest_io. intros a s s' [=]. Qed.

Lemma honest_and_then {A B} (m : part A) (f : A → part B) :
  honest m → (∀ a, honest (f a)) → honest (and_then m f).
Proof.
  intros Hm Hf s s' ([c|a] & s1 & H1 & H2)%bind_inv; [|by apply Hf in H2].
  injection H2 as -> ->. by apply Hm in H1.
Qed.

(** A part that returns [Ok] or goes on has gone through its first half. *)
Definition passed {A} (r : js (ReturnCode + A)) : Prop :=
  match r with Ret (inl c) => c = Ok | Ret (inr _) => True | _ => False end.

Lemma passed_and_then {A B} (m : part A) (f : A → part B) s r s' :
  honest m → and_then m f s = (r, s') → passed r →
  ∃ a s1, m s = (Ret (inr a), s1) ∧ f a s1 = (r, s').
Proof.
  intros Hm H Hr. unfold and_then, mbind, io_bind in H.
  destruct (m s) as [[[c|a]|e|c|] s1] eqn:E; [|by eauto|injection H as <- <-; done..].
  injection H as <- <-. simpl in Hr. subst c. by apply Hm in E.
Qed.

Lemma always_inv {A} (m : io S A) s a s' : always m s = (Ret (inr a), s') → m s = (Ret a, s').
Proof. intros (a' & s1 & H & [= <- <-])%bind_inv. done. Qed.

Lemma always_Ret {A} (m : io S A) s a s' : m s = (Ret a, s') → always m s = (Ret (inr a), s').
Proof. intros H. unfold always. by rewrite (bind_Ret _ _ _ _ _ H). Qed.
End parts.

Ltac honest :=
  repeat first
    [apply honest_always | apply honest_continue | by apply honest_return
    |apply honest_and_then; [|intros ?] | apply honest_io; intros ? | case_match].

Section facts.
Context {S : Type} `{!Node S} (keccak : string → string).

Lemma must_honest c q : c ≠ Ok → honest (S:=S) (must c q).
Proof. intros. unfold must, expect_events. honest. Qed.

Lemma must_not_honest c q : c ≠ Ok → honest (S:=S) (must_not c q).
Proof. intros. unfold must_not, expect_none. honest. Qed.

Lemma register_ca_honest d : honest (S:=S) (register_ca d).
Proof. unfold register_ca. honest; by apply must_honest. Qed.

Lemma register_domain_honest size queue rules : honest (S:=S) (register_domain size queue rules).
Proof. unfold register_domain. honest; by apply must_honest. Qed.

Lemma publish_honest complete : honest (S:=S) (publish complete).
Proof.
  induction complete as [|e complete IH]; cbn [publish]; [honest|]. honest. apply IH.
Qed.

Lemma aggregate_and_check_honest vs id : honest (S:=S) (aggregate_and_check keccak vs id).
Proof. unfold aggregate_and_check. honest; by apply publish_honest. Qed.

(** A statement's path was asked for and accepted. *)
Definition path_accepted (block domainId id : option string) (root : string) (h : option string)
    : Prop :=
  ∃ s s' path, node_query (StatementPath block (arg domainId) (arg id) (arg h)) s = (Ret path, s') ∧
    verifyProof keccak path root = true.

Lemma check_paths_accepted block domainId id root hashes : ∀ s s',
  check_paths keccak block domainId id root hashes s = (Ret true, s') → hashes ≠ [] →
  ∃ root', root = Some root' ∧ Forall (path_accepted block domainId id root') hashes.
Proof.
  induction hashes as [|h hashes IH]; [done|]. intros s s' H _. cbn [check_paths] in H.
  apply bind_inv in H as (path & s1 & Hq & H). apply bind_inv in H as (root' & s2 & Hr & H).
  apply bind_inv in H as (rest & s3 & Hrest & H). injection H as E _.
  destruct root as [root|]; [|discriminate Hr]. injection Hr as -> ->.
  apply andb_true_iff in E as [E ->]. exists root'. split; [done|]. constructor; [by exists s, s2, path|].
  destruct hashes as [|h' hashes]; [constructor|]. destruct (IH _ _ Hrest) as (? & [= <-] & ?); done.
Qed.

Definition receipt_accepted (hashes : list (option string)) (r : receipt) : Prop :=
  ∃ e root, r.2 = Some e ∧ data e !! 2%nat = Some root ∧
    Forall (path_accepted r.1 (data e !! 0%nat) (data e !! 1%nat) root) hashes.

Lemma check_receipts_accepted receipts hashes : ∀ s s',
  check_receipts keccak receipts hashes s = (Ret true, s') → hashes ≠ [] →
  Forall (receipt_accepted hashes) receipts.
Proof.
  induction receipts as [|[block [e|]] receipts IH]; intros s s' H Hh; [constructor| |discriminate H].
  cbn [check_receipts] in H.
  apply bind_inv in H as (ok & s1 & Hok & H). apply bind_inv in H as (rest & s2 & Hrest & H).
  injection H as E _. apply andb_true_iff in E as [-> ->].
  destruct (check_paths_accepted _ _ _ _ _ _ _ Hok Hh) as (root & Hroot & Hall).
  constructor; [by exists e, root|eauto].
Qed.

Lemma submit_proofs_length vs id : ∀ s x s',
  submit_proofs vs id s = (Ret x, s') → length x.2 = length vs.
Proof.
  induction vs as [|v vs IH]; intros s x s' H; [by injection H as <- _|]. cbn [submit_proofs] in H.
  do 4 apply bind_inv in H as (? & ? & _ & H). apply bind_inv in H as ([[f c] hs] & s1 & Hrest & H).
  injection H as <- _. cbn. f_equal. by apply IH in Hrest.
Qed.

Lemma first_checks_honest d v vs : honest (S:=S) (first_checks keccak d v vs).
Proof.
  unfold first_checks. apply honest_and_then; [apply register_ca_honest|intros _].
  apply honest_and_then; [apply register_domain_honest|intros id].
  apply honest_and_then; [apply aggregate_and_check_honest|intros _].
  apply honest_and_then; [unfold domain_life; honest|intros new_id].
  apply honest_and_then; [unfold hold_machine; honest|intros _]. unfold only_owner. honest.
Qed.

Lemma publish_length complete : ∀ s rs s',
  publish complete s = (Ret (inr rs), s') → length rs = length complete.
Proof.
  induction complete as [|e complete IH]; intros s rs s' H; [by injection H as <- _|].
  cbn [publish] in H. do 5 (apply passed_and_then in H as (? & ? & _ & H); [|honest; by apply must_honest|done]).
  case_match; [discriminate H|].
  apply passed_and_then in H as (rs' & ? & Hrs & H); [|apply publish_honest|done].
  injection H as <- _. cbn. f_equal. by apply IH in Hrs.
Qed.
End facts.
End Aggregation.

(** ** Identifiers as strings *)

(** The scenario's comparison of identifiers and balances is the order of the
    integers when both have the same number of digits, and not in general. *)
Lemma ids_compared_same_digits a b :
  0 ≤ a → 0 ≤ b → js_length (pretty a) = js_length (pretty b) →
  object_leb (Some (pretty a)) (Some (pretty b)) = (a <=? b).
Proof.
  intros Ha Hb Hl. destruct (pretty_Z_digits a Ha) as (Da & Va & _), (pretty_Z_digits b Hb) as (Db & Vb & _).
  simpl. by rewrite leb_digits, Va, Vb.
Qed.

Lemma ids_compared_as_strings : object_leb (Some (pretty 10)) (Some (pretty 9)) = true.
Proof. vm_compute. reflexivity. Qed.

(** ** Properties *)

Import Aggregation.

(** C35: a run of the aggregation scenario that returns [Ok] has published at least one
    aggregation, and for every one it published and every proof it submitted
    (one for each of the table's verifiers) the node gave a path that
    [verifyProof] accepted against the published receipt. *)
Theorem aggregation_paths_checked {S} `{!Node S} keccak d tcb nodes name s s' :
  run keccak d tcb nodes name s = (Ret 1, s') →
  ∃ t chain id complete hashes receipts s1 s2 s3,
    tcb = Ret t ∧
    submit_proofs (verifiers_table d t (isVolta chain)) id s1 = (Ret (false, complete, hashes), s2) ∧
    length hashes = length (verifiers_table d t (isVolta chain)) ∧
    publish complete s2 = (Ret (inr receipts), s3) ∧
    receipts ≠ [] ∧ Forall (receipt_accepted keccak hashes) receipts.
Proof.
  intros H. apply bind_inv in H as (ws & s0 & _ & H). apply bind_inv in H as (t & s1 & Ht & H).
  injection Ht as -> <-. apply bind_inv in H as (chain & s2 & _ & H).
  apply bind_inv in H as (r & s3 & Hr & H).
  assert (passed (Ret r)) as Hp.
  { apply (inj2 pair) in H as [[= H] _]. by destruct r as [[]|]. }
  clear H. set (vs := verifiers_table d t (isVolta chain)) in *.
  apply passed_and_then in Hr as ([] & s4 & Hr & _); [|apply first_checks_honest|done].
  apply passed_and_then in Hr as ([] & s5 & _ & Hr); [|apply register_ca_honest|done].
  apply passed_and_then in Hr as (id & s6 & _ & Hr); [|apply register_domain_honest|done].
  apply passed_and_then in Hr as ([] & s7 & Hr & _); [|apply aggregate_and_check_honest|done].
  apply passed_and_then in Hr as ([[[] complete] hashes] & s8 & Hs%always_inv & Hr);
    [discriminate Hr| |apply honest_always|done].
  destruct (length complete =? 0)%nat eqn:El; [discriminate Hr|].
  apply passed_and_then in Hr as (receipts & s9 & Hpub & Hr); [|apply publish_honest|done].
  apply passed_and_then in Hr as ([] & s10 & Hc%always_inv & Hr); [|discriminate Hr|apply honest_always|done].
  pose proof (submit_proofs_length _ _ _ _ _ Hs) as Hl. pose proof (publish_length _ _ _ _ Hpub).
  exists t, chain, id, complete, hashes, receipts, s6, s8, s9. split_and!; try done.
  - intros ->. by rewrite <- H in El.
  - eapply check_receipts_accepted; [done|]. by intros ->.
Qed.

(** The scenario reports success when the node lets the wrong account submit:
    if everything before went well and, in the domain with an empty allowlist,
    Alice's proof is refused but Bob's is accepted, [run] returns [Ok], since
    the condition tests both results but returns the first. *)
Theorem allowlist_error_masked {S} `{!Node S} keccak d t nodes name ws chain id n
    ra rb s s1 s2 s3 s4 s5 :
  nodes !! name = Some ws →
  node_query SystemChain s = (Ret chain, s1) →
  first_checks keccak d (first_verifier d) (verifiers_table d t (isVolta chain)) s1 = (Ret (inr tt), s2) →
  register_domain (JNum 4) (JNum 8) "OnlyAllowlisted" s2 = (Ret (inr id), s3) →
  prove (first_verifier d) ALICE id s3 = (Ret ra, s4) → new_proofs ra s4 = (Ret 0%nat, s4) →
  prove (first_verifier d) BOB id s4 = (Ret rb, s5) → new_proofs rb s5 = (Ret (Datatypes.S n), s5) →
  run keccak d (Ret t) nodes name s = (Ret (code Ok), s5).
Proof.
  intros Hn Hc Hf Hd Ha Ha0 Hb Hb1. unfold run, zkv_init, ask.
  rewrite (bind_Ret _ _ _ ws s) by (unfold lift, init_api; by rewrite Hn).
  rewrite (bind_Ret _ _ _ t s) by done. rewrite (bind_Ret _ _ _ _ _ Hc).
  rewrite (bind_Ret _ _ _ (inl Ok) s5); [done|]. unfold checks, and_then at 1. rewrite (bind_Ret _ _ _ _ _ Hf).
  unfold only_allowlisted, and_then at 1. rewrite (bind_Ret _ _ _ _ _ Hd).
  assert (submitShouldFail (first_verifier d) ALICE id ErrProofFromInvalidSubmitter s3 = (Ret Ok, s4)) as E1.
  { unfold submitShouldFail. by rewrite (bind_Ret _ _ _ _ _ Ha), (bind_Ret _ _ _ _ _ Ha0). }
  assert (submitShouldFail (first_verifier d) BOB id ErrProofFromInvalidSubmitter s4 =
          (Ret ErrProofFromInvalidSubmitter, s5)) as E2.
  { unfold submitShouldFail. by rewrite (bind_Ret _ _ _ _ _ Hb), (bind_Ret _ _ _ _ _ Hb1). }
  unfold and_then at 1. rewrite (bind_Ret _ _ _ _ _ (always_Ret _ _ _ _ E1)).
  unfold and_then at 1. by rewrite (bind_Ret _ _ _ _ _ (always_Ret _ _ _ _ E2)).
Qed.

(** ** A node that answers from a list *)

Module Scripted.
(** Answers to the submissions still to come, [None] for a failure, and Bob's
    balance, which grows at each reading. *)
Record node : Type := Scripted { answers : list (option (list event_record)); bob : Z }.

Definition keccak (s : string) : string := String.append "h" s.
Definition leaf (v : verifier) : string := "0x" +:+ pallet v +:+ name v.

Definition notify (answer : option (list event_record)) : list try :=
  match answer with
  | Some records =>
      [Try [Notified (ExtUpdate (IsInBlock "0xb")
              (records ++ [EventRecord "system" "ExtrinsicSuccess" [] 1]))] []]
  | None => [Try [Notified (ExtUpdate (IsInBlock "0xb") [EventRecord "system" "ExtrinsicFailed" [] 1])] []]
  end.

Definition position (x : string) (l : list string) : nat :=
  default 0%nat (fst <$> list_find (λ y, y = x) l).

Definition no_sample : sample := Sample JNull JNull JNull.
Definition no_samples : samples := {|
  FFLONK := no_sample; RISC0_V2_2 := no_sample; RISC0_V3_0 := no_sample; GROTH16 := no_sample;
  ULTRAHONK_V3_0_ZK := no_sample; ULTRAHONK_V3_0_PLAIN := no_sample;
  ULTRAHONK_V0_84_PLAIN := no_sample; ULTRAHONK_LEGACY_PLAIN := no_sample; ULTRAPLONK := no_sample;
  PLONKY2 := no_sample; SP1 := no_sample; EZKL := no_sample;
  TEE_PROOF := JNull; TEE_PUBS := JNull; TEE_ROOT_CERT_DER := JNull; TEE_CRL_PEM := JNull;
  TEE_CRL_CHAIN_PEM := JNull
|}.
Definition no_tcb : tcb_info := {| vkTcbResp := JNull; vkTcbCert := JNull |}.
Definition vs : list verifier := verifiers_table no_samples no_tcb false.
Definition leaves : list string := leaf <$> vs.

#[export] Instance scripted_node : Node node := {
  node_send _ _ s := ([], s);
  node_tries _ s :=
    match answers s with
    | [] => ([], s)
    | a :: rest => (notify a, Scripted rest (bob s))
    end;
  node_query A q s :=
    match q in query A return js A * node with
    | AccountFree a => (Ret (bob s), Scripted (answers s) (bob s + 1))
    | SystemChain => (Ret "zkVerify Local", s)
    | StatementPath _ _ _ (JStr h) => (Ret (statement_path keccak leaves (position h leaves)), s)
    | _ => (Throw TypeError, s)
    end
}.

Definition agg (method : string) (data : list string) : event_record :=
  EventRecord "aggregate" method data 1.

(** The events of a proof, with those the aggregation pallet adds. *)
Definition proof (v : verifier) (added : list event_record) : option (list event_record) :=
  Some (EventRecord (pallet v) "ProofVerified" [leaf v] 1 :: added).
Definition new_proof (v : verifier) (id : string) : event_record := agg "NewProof" [leaf v; id; "0"].
Definition changed (id state : string) : event_record := agg "DomainStateChanged" [id; state].

Definition first : verifier := first_verifier no_samples.

Definition submissions : list (option (list event_record)) :=
  (λ v, proof v [new_proof v "0"]) <$> List.removelast vs.

Definition up_to_owner : list (option (list event_record)) :=
  [Some [EventRecord "crl" "CaRegistered" [] 1]; Some [EventRecord "crl" "CrlUpdated" [] 1];
   Some [agg "NewDomain" ["0"]]]
  ++ submissions
  ++ [proof (List.last vs first) [agg "AggregationComplete" ["0"; "0"]];
      Some [agg "NewAggregationReceipt" ["0"; "0"; "0x" +:+ tree_root keccak leaves]];
      None; None; None;
      Some [changed "0" "Removable"]; Some [changed "0" "Removed"]; proof first [];
      Some [agg "NewDomain" ["1"]];
      proof first [new_proof first "1"]; Some [changed "1" "Hold"];
      Some [agg "NewAggregationReceipt" ["1"; "0"; "0xr"]; changed "1" "Removable"];
      Some [agg "NewDomain" ["2"]]; proof first []; proof first [new_proof first "2"]].

(** A node that keeps to the rules to the end, and one that lets the owner of the
    domain submit without being on the list. *)
Definition correct : list (option (list event_record)) :=
  up_to_owner
  ++ [Some [agg "NewDomain" ["3"]]; proof first []; proof first [];
      Some []; proof first []; proof first [new_proof first "3"]; Some []].

Definition lenient : list (option (list event_record)) :=
  [Some [agg "NewDomain" ["3"]]; proof first []; proof first [new_proof first "3"]].

Definition final : node := Scripted [] 102.
End Scripted.
Import (hints) Scripted.

Lemma aggregation_paths_checked_witness :
  ∃ t chain id complete hashes receipts s1 s2 s3,
    Ret Scripted.no_tcb = Ret t ∧
    submit_proofs (verifiers_table Scripted.no_samples t (isVolta chain)) id s1 =
      (Ret (false, complete, hashes), s2) ∧
    length hashes = length (verifiers_table Scripted.no_samples t (isVolta chain)) ∧
    publish complete s2 = (Ret (inr receipts), s3) ∧
    receipts ≠ [] ∧ Forall (receipt_accepted Scripted.keccak hashes) receipts.
Proof.
  apply (aggregation_paths_checked Scripted.keccak Scripted.no_samples (Ret Scripted.no_tcb)
           Toy.network "alice" (Scripted.Scripted Scripted.correct 100) Scripted.final).
  vm_compute. reflexivity.
Defined.

Lemma allowlist_error_masked_witness :
  run Scripted.keccak Scripted.no_samples (Ret Scripted.no_tcb) Toy.network "alice"
    (Scripted.Scripted (Scripted.up_to_owner ++ Scripted.lenient) 100) = (Ret 1, Scripted.final).
Proof.
  apply (allowlist_error_masked Scripted.keccak Scripted.no_samples Scripted.no_tcb Toy.network "alice"
           "ws://alice" "zkVerify Local" (Some "3") 0
           (ZSuccess (Some "0xb") [EventRecord "settlementFFlonkPallet" "ProofVerified"
                                     [Scripted.leaf Scripted.first] 1])
           (ZSuccess (Some "0xb") [EventRecord "settlementFFlonkPallet" "ProofVerified"
                                     [Scripted.leaf Scripted.first] 1;
                                   Scripted.new_proof Scripted.first "3"])
           _ (Scripted.Scripted (Scripted.up_to_owner ++ Scripted.lenient) 100)
           (Scripted.Scripted Scripted.lenient 102)
           (Scripted.Scripted (List.tl Scripted.lenient) 102)
           (Scripted.Scripted (List.tl (List.tl Scripted.lenient)) 102) Scripted.final);
    vm_compute; reflexivity.
Defined.
