(* ===== verification/F64.v ===== *)
(** * 64-bit floating point numbers

    The operations the runtime and its tools use of [f64], on [SpecFloat], the
    reference semantics of IEEE 754. *)

From Stdlib Require Import SpecFloat.
From S2P Require Import Prelude.

Open Scope Z_scope.

Definition f64 : Type := spec_float.

Definition f64_add : f64 → f64 → f64 := SFadd 53 1024.
Definition f64_sub : f64 → f64 → f64 := SFsub 53 1024.
Definition f64_mul : f64 → f64 → f64 := SFmul 53 1024.
Definition f64_div : f64 → f64 → f64 := SFdiv 53 1024.
Definition f64_gt (a b : f64) : bool := match SFcompare a b with Some Gt => true | _ => false end.
Definition f64_eq (a b : f64) : bool := SFeqb a b.

(** [n as f64] *)
Definition f64_of_Z (n : Z) : f64 := binary_normalize 53 1024 n 0 false.

(** [x as u64], [x as u128]: towards zero, at most [max]; [0] for what is no number *)
Definition f64_to_Z (max : Z) (x : f64) : Z :=
  match x with
  | S754_finite false m e => Z.min max (Z.shiftl (Zpos m) e)
  | S754_infinity false => max
  | _ => 0
  end.

(** [x.max(y)] *)
Definition f64_max (x y : f64) : f64 := if f64_gt y x then y else x.

(** [x.round()] of a number that is not negative: to the nearest integer, halves up *)
Definition f64_round (x : f64) : f64 :=
  match x with
  | S754_finite false m (Zneg e) => f64_of_Z ((2 * Zpos m + 2 ^ Zpos e) / 2 ^ (Zpos e + 1))
  | _ => x
  end.

(** The literals [10e-15] and [0.01] *)
Definition f64_1e14th : f64 := f64_div (f64_of_Z 1) (f64_of_Z (10 ^ 14)).
Definition f64_100th : f64 := f64_div (f64_of_Z 1) (f64_of_Z 100).

(** The literal [n / d], correctly rounded: enough bits of the quotient, and one
    for what is left. *)
Definition f64_literal (n d : Z) : f64 :=
  binary_normalize 53 1024 (2 * (n * 2 ^ 200 / d) + (if n * 2 ^ 200 mod d =? 0 then 0 else 1)) (-201) false.
