(* ===== verification/Bags.v ===== *)
(** * Thresholds of the voter bags ([utils/generate-bags/src/lib.rs], [runtime/zkverify/src/bag_thresholds.rs])

    The tool that generates the thresholds of the bags list, and the table it
    generated for the runtime.  The ratio comes from [ln] and [exp] of the
    platform and is taken from the generated file. *)

From Stdlib Require Import SpecFloat.
From S2P Require Import Prelude F64.

Open Scope Z_scope.

(** [VoteWeight::MAX] *)
Definition WEIGHT_MAX : Z := 2 ^ 64 - 1.
Definition WEIGHT_LIMIT : f64 := f64_of_Z WEIGHT_MAX.

Definition successor (constant_ratio : f64) (last : Z) : f64 :=
  f64_max (f64_round (f64_mul (f64_of_Z last) constant_ratio)) (f64_add (f64_of_Z last) (f64_of_Z 1)).

(** The loop; each turn adds an element, and there is room for [room] of them. *)
Fixpoint grow (constant_ratio : f64) (existential_weight : Z) (room : nat) (thresholds : list Z) : list Z :=
  match room with
  | O => thresholds
  | S room =>
      let x := successor constant_ratio (default existential_weight (list.last thresholds)) in
      if f64_gt WEIGHT_LIMIT x
      then grow constant_ratio existential_weight room (thresholds ++ [f64_to_Z WEIGHT_MAX x])
      else thresholds
  end.

Definition thresholds (existential_weight : Z) (constant_ratio : f64) (n_bags : nat) : list Z :=
  let start := if (1 <? n_bags)%nat then [existential_weight] else [] in
  grow constant_ratio existential_weight (n_bags - 1 - length start) start ++ [WEIGHT_MAX].

(** ** The runtime's table *)

Definition EXISTENTIAL_WEIGHT : Z := 191535.
Definition CONSTANT_RATIO : f64 := f64_literal 1175627418740164 (10 ^ 15).

Definition THRESHOLDS : list Z :=
  [
    191535; 225174; 264721; 311213; 365871; 430128; 505670; 594480; 698887; 821631; 965932; 1135576; 1335014;
    1569479; 1845123; 2169177; 2550144; 2998019; 3524553; 4143561; 4871284; 5726815; 6732601; 7915030;
    9305126; 10939361; 12860613; 15119289; 17774651; 20896367; 24566342; 28880865; 33953137; 39916239;
    46926625; 55168227; 64857280; 76247997; 89639236; 105382344; 123890373; 145648919; 171228863; 201301346;
    236655382; 278218556; 327081363; 384525819; 452059096; 531453068; 624790799; 734521194; 863523255;
    1015181615; 1193475342; 1403082336; 1649502065; 1939199855; 2279776520; 2680167786; 3150878736;
    3704259435; 4354828958; 5119656327; 6018808353; 7075876128; 8318593988; 9779567178; 11497127318;
    13516338112; 15890177685; 18680928575; 21961811840; 25818908164; 30353416360; 35684308525; 41951451521;
    49319276664; 57981093919; 68164163780; 80135659915; 94209679015; 110755481761; 130207181134; 153075132258;
    179959322610; 211565113918; 248721748771; 292404107492; 343758286120; 404131666582; 475108268015;
    558550306749; 656647055360; 771972282716; 907551782068; 1066942758926; 1254327161620; 1474621403271;
    1733605353946; 2038073987374; 2396015660978; 2816821706777; 3311532832190; 3893128795581; 4576868956772;
    5380692637562; 6325689796531; 7436654367247; 8742734777829; 10278198719589; 12083332230009;
    14205496679345; 16700371393060; 19633414512825; 23081580424768; 27135338815214; 31901048327970;
    37503747100917; 44090433397335; 51833922406044; 60937380401395; 71639655226079; 84221542952871;
    99013155143998; 116402580003258; 136846064663926; 160879985765601; 189134922392568; 222352200605996;
    261403343649622; 307312938144853; 361285516216689; 424737158858034; 499332649711302; 587029154072785;
    690127569127810; 811332892695151; 953825194378191; 1121343051196168; 1318281636799971; 1549808037843709;
    1821996823072958; 2141989422062041; 2518181495227533; 2960443211153592; 3480378210655340;
    4091628052032249; 4810230125255519; 5655038425700322; 6648218227282511; 7815827633761448;
    9188501266397016; 10802254025905052; 12699426017050302; 14929793427906530; 17551874509973620;
    20634464924211568; 24258442735935300; 28518890416303700; 33527589525452724; 39415953530387752;
    46338475706112008; 54476782582730264; 64044399289004312; 75292351820896544; 88515753222076896;
    104061546478311616; 122337607276407104; 143823445457210400; 169082785937177024; 198778359184719136;
    233689289309736544; 274731535978428992; 322981926488841024; 379706408537801600; 446393264948393920;
    524792161814274496; 616960054568786048; 725315156418492672; 852700385113390848; 1002457952709599488;
    1178517055339535872; 1385496963710077696; 1628828219118813440; 1914895114813788928; 2251203200986684928;
    2646576208235571200; 3111387556187115520; 3657832521380526080; 4300248205294413824; 5055489697532295168;
    5943372303577384960; 6987191439866464256; 8214333836693581824; 9656996085102063616; 11353029380312408064;
    13346932625257920512; 15691019950330851328; 18446744073709551615
  ].

(** ** Lemmas *)

Definition is_weight (x : Z) : Prop := 0 ≤ x ≤ WEIGHT_MAX.

Lemma to_weight x : is_weight (f64_to_Z WEIGHT_MAX x).
Proof.
  unfold is_weight. assert (0 ≤ WEIGHT_MAX) by done.
  destruct x as [[]|[]| |[] m e]; simpl; try lia.
  pose proof (Z.shiftl_nonneg (Zpos m) e) as Hs. lia.
Qed.

(** The loop only appends, at most as many elements as there is room for. *)
Lemma grow_appends r w room l :
  ∃ l', grow r w room l = l ++ l' ∧ (length l' ≤ room)%nat ∧ Forall is_weight l'.
Proof.
  revert l. induction room as [|room IH]; intros l; simpl; [exists []; by rewrite app_nil_r|].
  destruct (f64_gt _ _); [|exists []; rewrite app_nil_r; split_and!; [done|simpl; lia|constructor]].
  destruct (IH (l ++ [f64_to_Z WEIGHT_MAX (successor r (default w (list.last l)))])) as (l' & -> & Hl & Hf).
  eexists (_ :: l'). rewrite <- app_assoc. split_and!; [done|simpl; lia|]. constructor; [apply to_weight|done].
Qed.

(** The documentation promises [n_bags] elements, the first of which is the
    existential weight; for one bag and for none there is the maximum alone. *)
Lemma few_bags w r : thresholds w r 1 = [WEIGHT_MAX] ∧ thresholds w r 0 = [WEIGHT_MAX].
Proof. done. Qed.

Fixpoint increasing (l : list Z) : bool :=
  match l with
  | x :: (y :: _) as l' => (x <? y) && increasing l'
  | _ => true
  end.

(** ** Properties *)

(** The thresholds the tool computes, for any ratio and number of bags from two
    on, are weights of 64 bits, start with the existential weight and end with the
    maximum, and there are never more of them than bags. *)
Theorem thresholds_well_formed w r n :
  (2 ≤ n)%nat → is_weight w →
  ∃ l, thresholds w r n = [w] ++ l ++ [WEIGHT_MAX] ∧ (length (thresholds w r n) ≤ n)%nat ∧
    Forall is_weight (thresholds w r n).
Proof.
  intros Hn Hw. unfold thresholds. destruct (Nat.ltb_spec 1 n); [|lia]. cbn [length].
  destruct (grow_appends r w (n - 1 - 1) [w]) as (l & -> & Hl & Hf). exists l. rewrite <- app_assoc.
  split_and!; [done| |].
  - rewrite !length_app. simpl. lia.
  - apply Forall_app. split; [by constructor|]. apply Forall_app. split; [done|].
    constructor; [|constructor]. unfold is_weight. assert (0 ≤ WEIGHT_MAX) by done. lia.
Qed.

(** The table in the runtime is what the tool computes for 200 bags from the
    existential weight and ratio recorded with it, to the last digit, and it is
    strictly increasing, as the bags list needs it. *)
Theorem runtime_bags_generated :
  thresholds EXISTENTIAL_WEIGHT CONSTANT_RATIO 200 = THRESHOLDS ∧ length THRESHOLDS = 200%nat ∧
  increasing THRESHOLDS = true.
Proof. split_and!; vm_compute; reflexivity. Qed.

Lemma thresholds_well_formed_witness :
  ∃ l, thresholds EXISTENTIAL_WEIGHT CONSTANT_RATIO 5 = [EXISTENTIAL_WEIGHT] ++ l ++ [WEIGHT_MAX].
Proof.
  destruct (thresholds_well_formed EXISTENTIAL_WEIGHT CONSTANT_RATIO 5) as (l & Hl & _);
    [lia|split; vm_compute; discriminate|]. exists l. exact Hl.
Defined.
