(* ===== verification/Frame.v ===== *)
(** * The runtime framework the pallets are written against

    A dispatchable reads and writes storage, may return an error and may panic.
    Extrinsics are transactional: an error rolls the storage back.  The
    [Currency] class is the interface the claim pallet uses of the balances
    pallet, with the laws it relies on; [Ledger] is an instance. *)

From S2P Require Import Prelude.

Open Scope Z_scope.

(** ** SCALE *)

(** [codec::Compact(x).encoded_size()] of a [u32]. *)
Definition compact_len (x : Z) : Z :=
  if x <? 2 ^ 6 then 1 else if x <? 2 ^ 14 then 2 else if x <? 2 ^ 30 then 4 else 5.

(** ** The dispatch monad *)

Inductive res (S E A : Type) : Type :=
  | ROk (a : A) (s : S)
  | RErr (e : E)
  | RPanic.
Arguments ROk {S E A} a s.
Arguments RErr {S E A} e.
Arguments RPanic {S E A}.

Definition M (S E A : Type) : Type := S → res S E A.

#[export] Instance M_ret {S E} : MRet (M S E) := λ A a s, ROk a s.
#[export] Instance M_bind {S E} : MBind (M S E) := λ A B f m s,
  match m s with
  | ROk a s' => f a s'
  | RErr e => RErr e
  | RPanic => RPanic
  end.

(** Who sent a call; the runtime's [ManagerOrigin] is [EnsureRoot]. *)
Inductive Origin : Type :=
  | Root
  | Signed (who : string)
  | NoOrigin.

Section ops.
Context {S E : Type}.

Definition gets {A} (f : S → A) : M S E A := λ s, ROk (f s) s.
Definition modify (f : S → S) : M S E unit := λ s, ROk tt (f s).
Definition raise {A} (e : E) : M S E A := λ _, RErr e.
Definition panic {A} : M S E A := λ _, RPanic.
Definition ensure (b : bool) (e : E) : M S E unit := if b then mret tt else raise e.
Definition unwrap {A} (o : option A) : M S E A :=
  match o with Some a => mret a | None => panic end.
End ops.

Inductive dispatch_result (E : Type) : Type :=
  | Done
  | Failed (e : E)
  | Panicked.
Arguments Done {E}.
Arguments Failed {E} e.
Arguments Panicked {E}.

(** An extrinsic: committed on success, rolled back otherwise. *)
Definition dispatch {S E} (m : M S E unit) (s : S) : S * dispatch_result E :=
  match m s with
  | ROk _ s' => (s', Done)
  | RErr e => (s, Failed e)
  | RPanic => (s, Panicked)
  end.

(** Where a computation can end, from a given state. *)
Definition ends {S E A} (m : M S E A) (s : S) (Q : A → S → Prop) : Prop :=
  match m s with
  | ROk a s' => Q a s'
  | RErr _ => True
  | RPanic => False
  end.

Section ends.
Context {S E : Type}.
Implicit Types (s : S).

Lemma ends_ret {A} (a : A) s (Q : A → S → Prop) : Q a s → ends (E:=E) (mret a) s Q.
Proof. done. Qed.

Lemma ends_bind {A B} (m : M S E A) (f : A → M S E B) s (R : A → S → Prop) (Q : B → S → Prop) :
  ends m s R → (∀ a s', R a s' → ends (f a) s' Q) → ends (m ≫= f) s Q.
Proof. unfold ends, mbind, M_bind. destruct (m s); naive_solver. Qed.

Lemma ends_mono {A} (m : M S E A) s (R Q : A → S → Prop) :
  ends m s R → (∀ a s', R a s' → Q a s') → ends m s Q.
Proof. unfold ends. destruct (m s); naive_solver. Qed.

Lemma ends_gets {A} (f : S → A) s (Q : A → S → Prop) : Q (f s) s → ends (E:=E) (gets f) s Q.
Proof. done. Qed.

Lemma ends_modify (f : S → S) s (Q : unit → S → Prop) : Q tt (f s) → ends (E:=E) (modify f) s Q.
Proof. done. Qed.

Lemma ends_raise {A} (e : E) s (Q : A → S → Prop) : ends (raise e) s Q.
Proof. done. Qed.

Lemma ends_ensure b (e : E) s (Q : unit → S → Prop) : (b = true → Q tt s) → ends (ensure b e) s Q.
Proof. unfold ensure. destruct b; [by intros H; apply H|done]. Qed.

Lemma ends_unwrap {A} (o : option A) s (Q : A → S → Prop) :
  is_Some o → (∀ a, o = Some a → Q a s) → ends (E:=E) (unwrap o) s Q.
Proof. intros [a ->] H. by apply H. Qed.

Lemma bind_ROk {A B} (m : M S E A) (f : A → M S E B) s a s' :
  m s = ROk a s' → (m ≫= f) s = f a s'.
Proof. unfold mbind, M_bind. by intros ->. Qed.

Lemma bind_RPanic {A B} (m : M S E A) (f : A → M S E B) s :
  m s = RPanic → (m ≫= f) s = RPanic.
Proof. unfold mbind, M_bind. by intros ->. Qed.

Lemma bind_RErr {A B} (m : M S E A) (f : A → M S E B) s e :
  m s = RErr e → (m ≫= f) s = RErr e.
Proof. unfold mbind, M_bind. by intros ->. Qed.

Lemma ends_bind_gets {A B} (g : S → A) (f : A → M S E B) s Q :
  ends (f (g s)) s Q → ends (gets g ≫= f) s Q.
Proof. done. Qed.

Lemma ends_bind_modify {B} (g : S → S) (f : unit → M S E B) s Q :
  ends (f tt) (g s) Q → ends (modify g ≫= f) s Q.
Proof. done. Qed.

Lemma ends_bind_ret {A B} (a : A) (f : A → M S E B) s Q :
  ends (f a) s Q → ends (mret a ≫= f) s Q.
Proof. done. Qed.

Lemma ends_bind_raise {A B} (e : E) (f : A → M S E B) s Q : ends (raise e ≫= f) s Q.
Proof. done. Qed.

Lemma ends_bind_ensure {B} b e (f : unit → M S E B) s Q :
  (b = true → ends (f tt) s Q) → ends (ensure b e ≫= f) s Q.
Proof. unfold ensure. destruct b; [by intros H; apply H|done]. Qed.

Lemma ends_bind_assoc {A B C} (m : M S E A) (f : A → M S E B) (g : B → M S E C) s Q :
  ends (m ≫= λ a, f a ≫= g) s Q → ends ((m ≫= f) ≫= g) s Q.
Proof. unfold ends, mbind, M_bind. by destruct (m s). Qed.

Lemma dispatch_done (m : M S E unit) s :
  (dispatch m s).2 = Done → dispatch m s = ((dispatch m s).1, Done).
Proof. destruct (dispatch m s). simpl. by intros ->. Qed.

(** What an extrinsic leaves behind. *)
Lemma dispatch_ends (m : M S E unit) s (I : S → Prop) :
  I s → ends m s (λ _ s', I s') → I (dispatch m s).1 ∧ (dispatch m s).2 ≠ Panicked.
Proof. unfold ends, dispatch. destruct (m s); done. Qed.
End ends.

(** One step of a straight-line computation. *)
Ltac estep :=
  lazymatch goal with
  | |- ends (gets _ ≫= _) _ _ => apply ends_bind_gets
  | |- ends (modify _ ≫= _) _ _ => apply ends_bind_modify
  | |- ends (mret _ ≫= _) _ _ => apply ends_bind_ret
  | |- ends (raise _ ≫= _) _ _ => apply ends_bind_raise
  | |- ends (ensure _ _ ≫= _) _ _ => apply ends_bind_ensure; intros ?
  | |- ends ((_ ≫= _) ≫= _) _ _ => apply ends_bind_assoc
  | |- ends (gets _) _ _ => apply ends_gets
  | |- ends (modify _) _ _ => apply ends_modify
  | |- ends (mret _) _ _ => apply ends_ret
  | |- ends (raise _) _ _ => apply ends_raise
  | |- ends (ensure _ _) _ _ => apply ends_ensure; intros ?
  end.
Ltac esteps := repeat estep.

(** ** Balances *)

Definition u128_max : Z := 2 ^ 128 - 1.
Definition saturating_add (x y : Z) : Z := Z.min (x + y) u128_max.
Definition saturating_sub (x y : Z) : Z := Z.max (x - y) 0.

(** What a pallet uses of the currency: [reducible_balance(.., Preserve, Polite)],
    [transfer(.., Preserve)] ([None] is an error), [can_deposit], [mint_into], and
    whether an account exists. *)
Class Currency (Acc L : Type) := {
  minimum_balance : Z;
  reducible : L → Acc → Z;
  transfer : L → Acc → Acc → Z → option L;
  can_deposit : L → Acc → Z → bool;
  mint_into : L → Acc → Z → option L;
  account_exists : L → Acc → bool
}.

(** Documented behaviour of the balances pallet. *)
Class CurrencyLaws (Acc L : Type) `{Currency Acc L} := {
  ledger_wf : L → Prop;
  reducible_range l a : ledger_wf l → 0 ≤ reducible l a < u128_max;
  transfer_wf l a b x l' : ledger_wf l → 0 ≤ x → transfer l a b x = Some l' → ledger_wf l';
  transfer_from l a b x l' : ledger_wf l → 0 ≤ x → transfer l a b x = Some l' → a ≠ b →
    x ≤ reducible l a ∧ reducible l' a = reducible l a - x;
  transfer_other l a b x c l' : ledger_wf l → 0 ≤ x → transfer l a b x = Some l' → c ≠ a →
    reducible l c ≤ reducible l' c;
  transfer_self l a x l' : transfer l a a x = Some l' → l' = l;
  transfer_ok l a b x : ledger_wf l → 0 ≤ x ≤ reducible l a → can_deposit l b x = true →
    is_Some (transfer l a b x);
  mint_wf l a x l' : ledger_wf l → 0 ≤ x → mint_into l a x = Some l' → ledger_wf l';
  mint_mono l a x c l' : ledger_wf l → 0 ≤ x → mint_into l a x = Some l' →
    reducible l c ≤ reducible l' c
}.

(** ** An instance: accounts with a free balance and an existential deposit *)

Module Ledger.
Abbreviation ledger := (gmap string Z).
Definition existential_deposit : Z := 10 ^ 16.

Definition free (l : ledger) (a : string) : Z := default 0 (l !! a).

Definition ledger_can_deposit (l : ledger) (b : string) (x : Z) : bool :=
  (x =? 0) || ((free l b + x <=? u128_max) && (existential_deposit <=? free l b + x)).

Definition ledger_transfer (l : ledger) (a b : string) (x : Z) : option ledger :=
  if (x <=? Z.max 0 (free l a - existential_deposit)) && ledger_can_deposit l b x then
    if decide (a = b) then Some l
    else if x =? 0 then Some l
    else Some (<[b := free l b + x]> (<[a := free l a - x]> l))
  else None.

Definition ledger_mint (l : ledger) (a : string) (x : Z) : option ledger :=
  if ledger_can_deposit l a x then
    if x =? 0 then Some l else Some (<[a := free l a + x]> l)
  else None.

#[export] Instance ledger_currency : Currency string ledger := {
  minimum_balance := existential_deposit;
  reducible l a := Z.max 0 (free l a - existential_deposit);
  transfer := ledger_transfer;
  can_deposit := ledger_can_deposit;
  mint_into := ledger_mint;
  account_exists l a := bool_decide (is_Some (l !! a))
}.

Definition balances_ok (l : ledger) : Prop := map_Forall (λ _ v, 0 ≤ v ≤ u128_max) l.

Lemma free_range l a : balances_ok l → 0 ≤ free l a ≤ u128_max.
Proof.
  intros H. unfold free. destruct (l !! a) as [v|] eqn:E; [exact (H a v E)|].
  unfold u128_max. simpl. lia.
Qed.

Lemma free_insert l a v b : free (<[a := v]> l) b = if decide (a = b) then v else free l b.
Proof.
  unfold free. case_decide as Hab; [subst; by rewrite lookup_insert_eq|by rewrite lookup_insert_ne].
Qed.

Lemma ledger_transfer_inv l a b x l' :
  ledger_transfer l a b x = Some l' →
  x ≤ Z.max 0 (free l a - existential_deposit) ∧
  ((a = b ∨ x = 0) ∧ l' = l ∨
   a ≠ b ∧ x ≠ 0 ∧ free l b + x ≤ u128_max ∧
   l' = <[b := free l b + x]> (<[a := free l a - x]> l)).
Proof.
  unfold ledger_transfer, ledger_can_deposit. destruct (_ && _) eqn:E; [|done].
  apply andb_true_iff in E as [E1 E2]. intros H. split; [lia|].
  destruct (decide (a = b)); [left; simplify_eq; auto|].
  destruct (Z.eqb_spec x 0); simplify_eq/=; [left; auto|right].
  split_and!; [done|done|lia|done].
Qed.

#[export] Instance ledger_laws : CurrencyLaws string ledger.
Proof.
  refine {| ledger_wf := balances_ok |}; simpl.
  - intros l a H. pose proof (free_range l a H). unfold existential_deposit, u128_max in *. lia.
  - intros l a b x l' H Hx Ht. pose proof (free_range l a H). pose proof (free_range l b H).
    apply ledger_transfer_inv in Ht as (Hle & [[_ ->]|(Hab & Hx0 & Hb & ->)]); [done|].
    unfold existential_deposit in *. apply map_Forall_insert_2; [lia|].
    apply map_Forall_insert_2; [lia|done].
  - intros l a b x l' H Hx Ht Hab. pose proof (free_range l a H).
    apply ledger_transfer_inv in Ht as (Hle & [[Hz ->]|(_ & Hx0 & Hb & ->)]); split; [lia| |lia|].
    + destruct Hz; [done|]. lia.
    + rewrite !free_insert, decide_False, decide_True by done. unfold existential_deposit in *. lia.
  - intros l a b x c l' H Hx Ht Hca.
    apply ledger_transfer_inv in Ht as (Hle & [[_ ->]|(Hab & Hx0 & Hb & ->)]); [lia|].
    rewrite !free_insert. destruct (decide (b = c)); [subst; lia|]. rewrite decide_False by done. lia.
  - intros l a x l' Ht. apply ledger_transfer_inv in Ht as (_ & [[_ ->]|(Hab & _)]); done.
  - intros l a b x _ [_ Hx] Hb. unfold ledger_transfer. rewrite Hb, (proj2 (Z.leb_le _ _)) by done. simpl.
    case_decide; [by eexists|]. destruct (x =? 0); by eexists.
  - intros l a x l' H Hx. unfold ledger_mint, ledger_can_deposit. destruct (Z.eqb_spec x 0); simpl.
    { by intros [= <-]. }
    destruct (_ && _) eqn:E; [|done]. intros [= <-]. pose proof (free_range l a H).
    apply andb_true_iff in E as [E1 E2]. apply map_Forall_insert_2; [lia|done].
  - intros l a x c l' H Hx. unfold ledger_mint, ledger_can_deposit. destruct (Z.eqb_spec x 0); simpl.
    { intros [= <-]. lia. }
    destruct (_ && _) eqn:E; [|done]. intros [= <-]. rewrite free_insert.
    case_decide; subst; lia.
Defined.
End Ledger.
