(* ===== verification/Holds.v ===== *)
(** * Holds on balances and storage deposits

    What the pallets use of the framework's held balances ([MutateHold]) and
    storage considerations ([Consideration]): the operations as a class, their
    documented behaviour as laws, and a ledger that satisfies them. *)

From S2P Require Import Prelude Frame.

Open Scope Z_scope.

(** [x] at [k], nothing elsewhere. *)
Definition at_key {K} `{EqDecision K} (k : K) (x : Z) (k' : K) : Z := if decide (k' = k) then x else 0.

Lemma at_key_eq {K} `{EqDecision K} (k : K) x : at_key k x k = x.
Proof. unfold at_key. by rewrite decide_True. Qed.

Lemma at_key_ne {K} `{EqDecision K} (k k' : K) x : k' ≠ k → at_key k x k' = 0.
Proof. intros. unfold at_key. by rewrite decide_False. Qed.

Lemma at_key_range {K} `{EqDecision K} (k k' : K) x : 0 ≤ x → 0 ≤ at_key k x k' ≤ x.
Proof. intros. unfold at_key. case_decide; lia. Qed.

Lemma at_key_add {K} `{EqDecision K} (k k' : K) x y :
  at_key k (x + y) k' = at_key k x k' + at_key k y k'.
Proof. unfold at_key. case_decide; lia. Qed.

(** ** Holds *)

Inductive Precision : Type := Exact | BestEffort.

(** [None] is an error.  [transfer_on_hold] is called with [BestEffort],
    [Restriction::Free] and [Fortitude::Polite]; [release] and it return the
    amount actually moved.  [frozen] is what locks and freezes ask of the total
    balance: a polite transfer leaves on hold what the free balance lacks of it. *)
Class Hold (R Acc L : Type) := {
  free : L → Acc → Z;
  frozen : L → Acc → Z;
  held : L → R → Acc → Z;
  hold : L → R → Acc → Z → option L;
  release : L → R → Acc → Z → Precision → option (L * Z);
  transfer_on_hold : L → R → Acc → Acc → Z → option (L * Z)
}.

Class HoldLaws (R Acc L : Type) `{EqDecision R, EqDecision Acc, Hold R Acc L} := {
  hold_wf : L → Prop;
  held_nonneg l r a : hold_wf l → 0 ≤ held l r a;
  hold_spec l r a x l' : hold_wf l → 0 ≤ x → hold l r a x = Some l' →
    hold_wf l' ∧
    (∀ r' b, held l' r' b = held l r' b + at_key (r, a) x (r', b)) ∧
    (∀ b, free l' b = free l b - at_key a x b);
  release_spec l r a x p l' y : hold_wf l → 0 ≤ x → release l r a x p = Some (l', y) →
    hold_wf l' ∧ y = Z.min x (held l r a) ∧
    (∀ r' b, held l' r' b = held l r' b - at_key (r, a) y (r', b)) ∧
    (∀ b, free l' b = free l b + at_key a y b);
  release_ok l r a x p : hold_wf l → 0 ≤ x ≤ held l r a → is_Some (release l r a x p);
  release_frozen l r a x p l' y b : release l r a x p = Some (l', y) → frozen l' b = frozen l b;
  transfer_frozen l r a d x l' y b : transfer_on_hold l r a d x = Some (l', y) → frozen l' b = frozen l b;
  transfer_spec l r a d x l' y : hold_wf l → 0 ≤ x → transfer_on_hold l r a d x = Some (l', y) →
    hold_wf l' ∧ 0 ≤ y ≤ Z.min x (held l r a) ∧ (frozen l a ≤ free l a → y = Z.min x (held l r a)) ∧
    (∀ r' b, held l' r' b = held l r' b - at_key (r, a) y (r', b)) ∧
    (∀ b, free l' b = free l b + at_key d y b);
  hold_frame l r a x l' r' b : hold l r a x = Some l' → r' ≠ r → held l' r' b = held l r' b;
  release_frame l r a x p l' y r' b : release l r a x p = Some (l', y) → r' ≠ r → held l' r' b = held l r' b;
  transfer_frame l r a d x l' y r' b :
    transfer_on_hold l r a d x = Some (l', y) → r' ≠ r → held l' r' b = held l r' b
}.

(** ** Storage deposits *)

(** A ticket stands for the deposit of [count] items of [size] bytes in all. *)
Record Consideration (Acc L Ticket : Type) : Type := {
  ticket_new : L → Acc → Z → Z → option (L * Ticket);
  ticket_update : L → Ticket → Acc → Z → Z → option (L * Ticket);
  ticket_drop : L → Ticket → Acc → option L
}.
Arguments ticket_new {Acc L Ticket} c l a count size.
Arguments ticket_update {Acc L Ticket} c l t a count size.
Arguments ticket_drop {Acc L Ticket} c l t a.

Section consideration.
Context {R Acc L : Type} `{EqDecision R, EqDecision Acc, !Hold R Acc L, !HoldLaws R Acc L}.

(** Nothing held for the reasons [safe] is touched. *)
Definition keeps (safe : R → Prop) (l l' : L) : Prop :=
  hold_wf l' ∧ ∀ r b, safe r → held l' r b = held l r b.

Record consideration_ok {Ticket} (safe : R → Prop) (c : Consideration Acc L Ticket) : Prop := {
  new_keeps l a n sz l' t : hold_wf l → ticket_new c l a n sz = Some (l', t) → keeps safe l l';
  update_keeps l t a n sz l' t' : hold_wf l → ticket_update c l t a n sz = Some (l', t') →
    keeps safe l l';
  drop_keeps l t a l' : hold_wf l → ticket_drop c l t a = Some l' → keeps safe l l'
}.

(** The framework's [HoldConsideration]: the ticket is the amount held. *)
Definition HoldConsideration (reason : R) (price : Z → Z → Z) : Consideration Acc L Z := {|
  ticket_new l a n sz := l' ← hold l reason a (Z.max 0 (price n sz)); Some (l', Z.max 0 (price n sz));
  ticket_update l t a n sz :=
    let x := Z.max 0 (price n sz) in
    if t <? x then l' ← hold l reason a (x - t); Some (l', x)
    else if x <? t then '(l', _) ← release l reason a (t - x) BestEffort; Some (l', x)
    else Some (l, x);
  ticket_drop l t a := '(l', _) ← release l reason a (Z.max 0 t) BestEffort; Some l'
|}.

Lemma hold_keeps reason l a x l' (safe : R → Prop) :
  hold_wf l → 0 ≤ x → hold l reason a x = Some l' → ¬ safe reason → keeps safe l l'.
Proof.
  intros Hw Hx Hh Hs. destruct (hold_spec l reason a x l' Hw Hx Hh) as (? & H & _).
  split; [done|]. intros r b Hr. rewrite H, at_key_ne by naive_solver. lia.
Qed.

Lemma release_keeps reason l a x p l' y (safe : R → Prop) :
  hold_wf l → 0 ≤ x → release l reason a x p = Some (l', y) → ¬ safe reason → keeps safe l l'.
Proof.
  intros Hw Hx Hh Hs. destruct (release_spec l reason a x p l' y Hw Hx Hh) as (? & _ & H & _).
  split; [done|]. intros r b Hr. rewrite H, at_key_ne by naive_solver. lia.
Qed.

Lemma HoldConsideration_ok reason price safe :
  ¬ safe reason → consideration_ok safe (HoldConsideration reason price).
Proof.
  intros Hs. split; simpl.
  - intros l a n sz l' t Hw (l1 & Hh & [= <- <-])%bind_Some. eapply hold_keeps; eauto; lia.
  - intros l t a n sz l' t' Hw. destruct (Z.ltb_spec t (Z.max 0 (price n sz))).
    { intros (l1 & Hh & [= <- <-])%bind_Some. eapply hold_keeps; eauto; lia. }
    destruct (Z.ltb_spec (Z.max 0 (price n sz)) t).
    { intros ([l1 y] & Hh & [= <- <-])%bind_Some. eapply release_keeps; eauto; lia. }
    intros [= <- <-]. split; [done|]. done.
  - intros l t a l' Hw ([l1 y] & Hh & [= <-])%bind_Some. eapply release_keeps; eauto; lia.
Qed.
End consideration.

(** ** Deposits *)

(** What an account has deposited, from the tickets by account and key. *)
Abbreviation deposits := (list ((string * string) * Z)).

Definition owed (a : string) (l : deposits) : Z := foldr (λ p n, at_key p.1.1 p.2 a + n) 0 l.

#[export] Instance owed_proper a : Proper ((≡ₚ) ==> (=)) (owed a).
Proof. intros l l' H. unfold owed. induction H; cbn; lia. Qed.

Lemma owed_nonneg a (l : deposits) : Forall (λ p, 0 ≤ p.2) l → 0 ≤ owed a l.
Proof.
  induction 1 as [|p l Hp _ IH]; [done|]. cbn. pose proof (at_key_range p.1.1 a p.2 Hp). unfold owed in IH. lia.
Qed.

Lemma owed_cons a p (l : deposits) : owed a (p :: l) = at_key p.1.1 p.2 a + owed a l.
Proof. done. Qed.

(** ** An instance *)

Module HoldLedger.
Section ledger.
Context {R : Type} `{Countable R}.

Record hledger : Type := MkLedger {
  hl_free : gmap string Z;
  hl_held : gmap (R * string) Z;
  hl_frozen : gmap string Z
}.

(** Without locks. *)
Definition HLedger (f : gmap string Z) (h : gmap (R * string) Z) : hledger := MkLedger f h ∅.

Definition existential_deposit : Z := 10 ^ 16.
Definition hl_get_free (l : hledger) (a : string) : Z := default 0 (hl_free l !! a).
Definition hl_get_held (l : hledger) (r : R) (a : string) : Z := default 0 (hl_held l !! (r, a)).
Definition hl_get_frozen (l : hledger) (a : string) : Z := default 0 (hl_frozen l !! a).

(** All that is on hold, and what of it no lock needs. *)
Definition hl_reserved (l : hledger) (a : string) : Z :=
  msum (λ x : Z, x) (filter (λ p, p.1.2 = a) (hl_held l)).
Definition hl_liquid (l : hledger) (a : string) : Z :=
  Z.max 0 (hl_reserved l a - Z.max 0 (hl_get_frozen l a - hl_get_free l a)).

Definition hl_add_free (a : string) (x : Z) (l : hledger) : hledger :=
  MkLedger (<[a := hl_get_free l a + x]> (hl_free l)) (hl_held l) (hl_frozen l).
Definition hl_add_held (r : R) (a : string) (x : Z) (l : hledger) : hledger :=
  MkLedger (hl_free l) (<[(r, a) := hl_get_held l r a + x]> (hl_held l)) (hl_frozen l).

Definition hl_hold (l : hledger) (r : R) (a : string) (x : Z) : option hledger :=
  if (x =? 0) || (x + existential_deposit <=? hl_get_free l a)
  then Some (hl_add_held r a x (hl_add_free a (- x) l)) else None.

Definition hl_release (l : hledger) (r : R) (a : string) (x : Z) (p : Precision)
    : option (hledger * Z) :=
  let y := Z.min x (hl_get_held l r a) in
  match p with
  | Exact => if y <? x then None else Some (hl_add_free a y (hl_add_held r a (- y) l), y)
  | BestEffort => Some (hl_add_free a y (hl_add_held r a (- y) l), y)
  end.

(** Refused when the receiver would stay below the existential deposit. *)
Definition hl_transfer_on_hold (l : hledger) (r : R) (a d : string) (x : Z)
    : option (hledger * Z) :=
  let y := Z.min x (Z.min (hl_liquid l a) (hl_get_held l r a)) in
  if (y =? 0) || (existential_deposit <=? hl_get_free l d + y)
  then Some (hl_add_free d y (hl_add_held r a (- y) l), y) else None.

#[export] Instance hledger_hold : Hold R string hledger := {
  free := hl_get_free;
  frozen := hl_get_frozen;
  held := hl_get_held;
  hold := hl_hold;
  release := hl_release;
  transfer_on_hold := hl_transfer_on_hold
}.

Lemma get_add_free a x l b : hl_get_free (hl_add_free a x l) b = hl_get_free l b + at_key a x b.
Proof.
  unfold hl_get_free, hl_add_free, at_key; simpl. case_decide; subst.
  - by rewrite lookup_insert_eq.
  - rewrite lookup_insert_ne by done. lia.
Qed.

Lemma get_add_held r a x l r' b :
  hl_get_held (hl_add_held r a x l) r' b = hl_get_held l r' b + at_key (r, a) x (r', b).
Proof.
  unfold hl_get_held, hl_add_held, at_key; simpl. case_decide as E.
  - injection E as -> ->. by rewrite lookup_insert_eq.
  - rewrite lookup_insert_ne by congruence. lia.
Qed.

Definition hl_wf (l : hledger) : Prop := map_Forall (λ _ v, 0 ≤ v) (hl_held l).

Lemma hl_wf_held l r a : hl_wf l → 0 ≤ hl_get_held l r a.
Proof.
  intros Hw. unfold hl_get_held. destruct (hl_held l !! (r, a)) eqn:E; [exact (Hw _ _ E)|done].
Qed.

Lemma hl_held_reserved l r a : hl_wf l → hl_get_held l r a ≤ hl_reserved l a.
Proof.
  intros Hw. unfold hl_get_held, hl_reserved. set (m := filter _ _).
  assert (Hm : map_Forall (λ _ v, 0 ≤ v) m).
  { intros k v [Hk _]%map_lookup_filter_Some. by eapply Hw. }
  destruct (hl_held l !! (r, a)) as [v|] eqn:E; [|by apply msum_nonneg]. cbn [default].
  apply (msum_le (λ x, x) m (r, a) v); [|done]. by apply map_lookup_filter_Some.
Qed.

Lemma hl_take r a d y l : hl_wf l → 0 ≤ y ≤ hl_get_held l r a →
  let l' := hl_add_free d y (hl_add_held r a (- y) l) in
  hl_wf l' ∧
  (∀ r' b, hl_get_held l' r' b = hl_get_held l r' b - at_key (r, a) y (r', b)) ∧
  (∀ b, hl_get_free l' b = hl_get_free l b + at_key d y b).
Proof.
  intros Hw Hy l'. split_and!.
  - apply map_Forall_insert_2; [lia|done].
  - intros r' b. etransitivity; [apply (get_add_held r a (- y))|].
    unfold at_key. case_decide; lia.
  - intros b. unfold l'. by rewrite get_add_free.
Qed.

#[export] Instance hledger_laws : HoldLaws R string hledger.
Proof.
  refine {| hold_wf := hl_wf |}; simpl.
  - intros l r a. apply hl_wf_held.
  - intros l r a x l' Hw Hx. unfold hl_hold. destruct (_ || _); [|done]. intros [= <-].
    pose proof (hl_wf_held l r a Hw). split_and!.
    + apply map_Forall_insert_2; [|done]. unfold hl_get_held in *. simpl. lia.
    + intros r' b. by rewrite get_add_held.
    + intros b. etransitivity; [apply (get_add_free a (- x))|]. unfold at_key. case_decide; lia.
  - intros l r a x p l' y Hw Hx Hr. pose proof (hl_wf_held l r a Hw).
    assert (y = Z.min x (hl_get_held l r a) ∧
            l' = hl_add_free a y (hl_add_held r a (- y) l)) as [Hy ->].
    { unfold hl_release in Hr. destruct p; [destruct (_ <? _); [done|]|]; by simplify_eq. }
    destruct (hl_take r a a y l Hw) as (? & ? & ?); [lia|]. done.
  - intros l r a x p Hw Hx. unfold hl_release. destruct p; [|by eexists].
    destruct (Z.ltb_spec (Z.min x (hl_get_held l r a)) x); [lia|by eexists].
  - intros l r a x p l' y b Hr. unfold hl_release in Hr.
    destruct p; [destruct (_ <? _); [done|]|]; by simplify_eq.
  - intros l r a d x l' y b. unfold hl_transfer_on_hold. destruct (_ || _); [|done]. by intros [= <- <-].
  - intros l r a d x l' y Hw Hx. unfold hl_transfer_on_hold. pose proof (hl_wf_held l r a Hw).
    destruct (_ || _); [|done]. intros [= <- <-]. pose proof (hl_held_reserved l r a Hw) as Hle.
    set (y := Z.min x _). assert (Hy : 0 ≤ y ≤ Z.min x (hl_get_held l r a)) by (unfold y, hl_liquid; lia).
    destruct (hl_take r a d y l Hw) as (? & ? & ?); [lia|]. split_and!; try done; [lia..|].
    intros Hf. unfold y, hl_liquid. lia.
  - intros l r a x l' r' b. unfold hl_hold. destruct (_ || _); [|done]. intros [= <-] Hr.
    rewrite get_add_held, at_key_ne by congruence. apply Z.add_0_r.
  - intros l r a x p l' y r' b Hh Hr. unfold hl_release in Hh.
    destruct p; [destruct (_ <? _); [done|]|]; simplify_eq;
      (etransitivity; [apply get_add_held|]); rewrite at_key_ne by congruence; apply Z.add_0_r.
  - intros l r a d x l' y r' b. unfold hl_transfer_on_hold. destruct (_ || _); [|done]. intros [= <- <-] Hr.
    etransitivity; [apply get_add_held|]. rewrite at_key_ne by congruence. apply Z.add_0_r.
Defined.
End ledger.
Arguments hledger : clear implicits.
Arguments hledger R {_ _}.
End HoldLedger.
