(* ===== verification/Storage.v ===== *)
(** * Storage maps and their migrations

    What the migrations use of the framework: loops over [drain()] of a storage
    map, and [VersionedMigration].  An entry is removed from the storage when the
    iterator comes to it, and the body of the loop runs on the storage without it.

    The keys the iterator comes to are a parameter, a list.  The framework
    documents them for loops that leave the map alone, each key once in an order
    not specified, which is [complete]; for loops that insert into the map the
    result is documented as undefined, and nothing is assumed. *)

From S2P Require Import Prelude.

Section drain.
Context {K : Type} `{Countable K} {V A : Type}.
Implicit Types (m : gmap K V) (visits : list K).

(** The loop over [drain()] when the iterator comes to [visits], keys in the
    storage at that time. *)
Fixpoint drain_visiting (body : K → V → gmap K V → A → gmap K V * A) visits m (a : A) : gmap K V * A :=
  match visits with
  | [] => (m, a)
  | k :: visits =>
      match m !! k with
      | Some v => let '(m', a') := body k v (delete k m) a in drain_visiting body visits m' a'
      | None => drain_visiting body visits m a
      end
  end.

(** Each key once. *)
Definition complete visits m : Prop := visits ≡ₚ (map_to_list m).*1.

#[export] Instance complete_dec visits m : Decision (complete visits m).
Proof. unfold complete. apply _. Defined.

Definition key_eq (j k : K) : {j = k} + {j ≠ k} := decide (j = k).

(** How often the iterator comes to [k]. *)
Definition times (k : K) visits : nat := List.count_occ key_eq visits k.

(** ** Lemmas *)

Lemma elem_of_stored m k : k ∈ (map_to_list m).*1 ↔ is_Some (m !! k).
Proof. rewrite <- elem_of_dom, dom_alt. by rewrite elem_of_list_to_set. Qed.

Lemma stored_nodup m : NoDup (map_to_list m).*1.
Proof. apply NoDup_fst_map_to_list. Qed.

Lemma times_stored m k : times k (map_to_list m).*1 = if decide (is_Some (m !! k)) then 1%nat else 0%nat.
Proof.
  pose proof (proj1 (List.NoDup_count_occ key_eq _) (proj1 (NoDup_ListNoDup _) (stored_nodup m)) k) as Hle.
  pose proof (List.count_occ_In key_eq (map_to_list m).*1 k) as Hin. rewrite <- list_elem_of_In, elem_of_stored in Hin.
  unfold times. case_decide as Hs; [apply Hin in Hs; lia|]. rewrite Hin in Hs. lia.
Qed.

Lemma complete_iff visits m :
  Forall (λ k, is_Some (m !! k)) visits → (complete visits m ↔ ∀ k, is_Some (m !! k) → times k visits = 1%nat).
Proof.
  intros Hin. unfold complete. rewrite (Permutation_count_occ key_eq). split; intros Ht k.
  - intros Hs. unfold times. rewrite Ht. change (times k (map_to_list m).*1 = 1%nat).
    by rewrite times_stored, decide_True.
  - change (times k visits = times k (map_to_list m).*1). rewrite times_stored. case_decide as Hs; [by apply Ht|].
    apply List.count_occ_not_In. intros Hk%list_elem_of_In. apply Hs. by eapply list.Forall_forall in Hin.
Qed.

(** ** Bodies that write back to the key they were run for *)

Section local.
Context (g : V → option V) (h : K → V → A → A).

Definition put (k : K) (o : option V) m : gmap K V := match o with Some v => <[k := v]> m | None => m end.

Lemma lookup_put m k o j : put k o (delete k m) !! j = if decide (j = k) then o else m !! j.
Proof.
  unfold put. case_decide as E; [subst; destruct o|destruct o];
    by rewrite ?lookup_insert_eq, ?lookup_insert_ne, ?lookup_delete_eq, ?lookup_delete_ne by congruence.
Qed.

Context (body : K → V → gmap K V → A → gmap K V * A).
Context (Hbody : ∀ k v m a, body k v m a = (put k (g v) m, h k v a)).

(** What was at [j] goes through [g] each time the iterator comes to it. *)
Lemma drain_lookup visits m a j :
  (drain_visiting body visits m a).1 !! j = Nat.iter (times j visits) (λ o, o ≫= g) (m !! j).
Proof.
  revert m a. induction visits as [|k visits IH]; intros m a; [done|]. unfold times in *. cbn [drain_visiting List.count_occ].
  destruct (m !! k) as [v|] eqn:Hk.
  - rewrite Hbody, IH, lookup_put. destruct (key_eq k j) as [->|Hne]; [|by rewrite decide_False].
    by rewrite decide_True, Nat.iter_succ_r, Hk.
  - rewrite IH. destruct (key_eq k j) as [->|]; [|done]. by rewrite Nat.iter_succ_r, Hk.
Qed.

Lemma iter_none n : Nat.iter n (λ o : option V, o ≫= g) None = None.
Proof. induction n as [|n IH]; [done|]. by rewrite Nat.iter_succ, IH. Qed.

Definition visited visits m : list (K * V) := omap (λ k, pair k <$> m !! k) visits.

Lemma drain_acc visits m a :
  NoDup visits → (drain_visiting body visits m a).2 = foldl (λ a p, h p.1 p.2 a) a (visited visits m).
Proof.
  intros Hn. revert m a. induction Hn as [|k visits Hk Hn IH]; intros m a; [done|]. cbn [drain_visiting visited omap list_omap].
  destruct (m !! k) as [v|] eqn:E; [|by apply IH]. rewrite Hbody, IH. cbn. f_equal.
  unfold visited. apply list_omap_ext, Forall2_same_length_lookup. split; [done|].
  intros i x y Hx Hy. simplify_eq. rewrite lookup_put, decide_False; [done|].
  intros ->. by apply Hk, (list_elem_of_lookup_2 _ i).
Qed.

Lemma visited_all m : visited (map_to_list m).*1 m = map_to_list m.
Proof.
  assert (Hl : Forall (λ p, m !! p.1 = Some p.2) (map_to_list m)).
  { apply list.Forall_forall. intros [k v]. apply elem_of_map_to_list. }
  induction Hl as [|[k v] l Hk _ IH]; [done|]. simpl in Hk. unfold visited in *. cbn. rewrite Hk. cbn. by f_equal.
Qed.

(** Each entry once, in some order. *)
Lemma drain_all visits m a :
  complete visits m →
  ∃ l, l ≡ₚ map_to_list m ∧ drain_visiting body visits m a = (omap g m, foldl (λ a p, h p.1 p.2 a) a l).
Proof.
  unfold complete. intros Hc. exists (visited visits m). split; [rewrite <- visited_all; unfold visited; by rewrite Hc|].
  rewrite (surjective_pairing (drain_visiting _ _ _ _)). f_equal.
  - apply map_eq. intros j. rewrite drain_lookup, lookup_omap.
    destruct (m !! j) as [v|] eqn:Hj; [|apply iter_none].
    assert (Ht : times j visits = 1%nat); [|by rewrite Ht].
    apply (complete_iff visits m); [|done|by rewrite Hj]. rewrite Hc.
    apply list.Forall_forall. intros k. by rewrite elem_of_stored.
  - apply drain_acc. rewrite Hc. apply stored_nodup.
Qed.
End local.
End drain.

(** ** [VersionedMigration]: run once, when the version in storage is [from]. *)

Definition versioned_migration {S : Type} (from to : Z) (inner : S → S) (s : Z * S) : Z * S :=
  if (s.1 =? from)%Z then (to, inner s.2) else s.
