(* ===== verification/Crl.v ===== *)
(** * The certificate revocation list pallet ([pallets/crl/src/lib.rs])

    Certificate authorities registered by the manager, each with the revoked
    certificates of its issuers; anybody can bring a newer list of an issuer.
    The parsers of revocation lists and the hash are third-party and are
    parameters of the configuration. *)

From S2P Require Import Prelude Frame.

Open Scope Z_scope.

(** ** Data *)

Definition MAX_CRL_PEM_LENGTH : Z := 65536.
Definition MAX_CERT_CHAIN_PEM_LENGTH : Z := 16384.
Definition MAX_ROOT_CERT_LENGTH : Z := 2048.
Definition MAX_CRL_DER_LENGTH : Z := 65536.
Definition MAX_CERT_CHAIN_DER_LENGTH : Z := 16384.
Definition MAX_REVOKED_CERTS_PER_CA : Z := 10000.
Definition MAX_ISSUERS_PER_CA : Z := 10.
Definition MAX_CERT_ISSUER_LENGTH : Z := 256.
Definition MAX_CERT_SERIAL_LENGTH : Z := 32.

(** Length of a byte vector. *)
Definition len (b : string) : Z := Z.of_nat (String.length b).

Inductive CrlInput : Type :=
  | Pem (crl cert_chain : string)
  | Der (crl cert_chain : string).

Record RevokedInfo : Type := { issuer : string; serial : string }.

Record CaInfo : Type := {
  root_cert : string;
  revoked_count : Z;
  crl_versions : gmap string Z           (* issuer hash to [thisUpdate] *)
}.

Inductive Event : Type :=
  | CaRegistered (name : string)
  | CaUnregistered (name : string)
  | CrlUpdated (ca_name issuer : string) (last_update revoked_count : Z).

Inductive Error : Type :=
  | CaNameTooLong
  | CaNameEmpty
  | RootCertEmpty
  | CaAlreadyRegistered
  | CaNotFound
  | MaxCasReached
  | RootCertTooLarge
  | CrlPemTooLarge
  | CertChainPemTooLarge
  | CrlValidationError
  | TooManyRevokedCerts
  | IssuerTooLarge
  | SerialNumberTooLarge
  | CrlTooLarge
  | NotNewerCrl
  | TooManyIssuers
  | EmptyCrl
  | CrlDerTooLarge
  | CertChainDerTooLarge.

Inductive DispatchError : Type :=
  | BadOrigin
  | Pallet (e : Error).

(** [T: Config]; the parsers take the list, the certificate chain, the root
    certificate and the time, and return [thisUpdate] and the entries. *)
Record Config : Type := {
  ManagerOrigin : Origin → bool;
  MaxCaNameLength : Z;
  parse_crl_pem : string → string → string → Z → option (Z * list RevokedInfo);
  parse_crl_der : string → string → string → Z → option (Z * list RevokedInfo);
  blake2_256 : string → string
}.

Record state : Type := State {
  CertificateAuthorities : gmap string CaInfo;
  Revoked : gmap string (list RevokedInfo);
  Events : list Event;
  Now : Z                                  (* [T::UnixTime::now().as_secs()] *)
}.

Definition set_CertificateAuthorities x s := State x (Revoked s) (Events s) (Now s).
Definition set_Revoked x s := State (CertificateAuthorities s) x (Events s) (Now s).
Definition add_event e s := State (CertificateAuthorities s) (Revoked s) (Events s ++ [e]) (Now s).
Definition set_Now x s := State (CertificateAuthorities s) (Revoked s) (Events s) x.

Section pallet.
Context (T : Config).

Abbreviation P := (M state DispatchError).
Abbreviation fail e := (raise (Pallet e)).

Definition deposit_event (e : Event) : P unit := modify (add_event e).

(** ** Helpers *)

Definition clear_revoked_certs_for_ca (ca_name : string) : P unit :=
  modify (λ s, set_Revoked (delete ca_name (Revoked s)) s).

(** The loop over the new entries: [try_push] on a bounded vector. *)
Fixpoint push_entries (store : list RevokedInfo) (new_entries : list RevokedInfo)
    : P (list RevokedInfo) :=
  match new_entries with
  | [] => mret store
  | r :: rest =>
      if MAX_CERT_ISSUER_LENGTH <? len (issuer r) then fail IssuerTooLarge
      else if MAX_CERT_SERIAL_LENGTH <? len (serial r) then fail SerialNumberTooLarge
      else if MAX_REVOKED_CERTS_PER_CA <=? Z.of_nat (length store) then fail TooManyRevokedCerts
      else push_entries (store ++ [r]) rest
  end.

Definition merge_revoked_certs_for_ca (ca_name : string) (new_entries : list RevokedInfo)
    (issuer_bytes : string) : P Z :=
  revoked ← gets Revoked;
  let store := default [] (revoked !! ca_name) in
  let store := List.filter (λ r, negb (bool_decide (issuer r = issuer_bytes))) store in
  store ← push_entries store new_entries;
  let count := Z.of_nat (length store) in
  _ ← modify (λ s, set_Revoked (<[ca_name := store]> (Revoked s)) s);
  mret count.

(** [CrlProvider::get_crl]; [None] is [CaNotFoundError]. *)
Definition get_crl (s : state) (ca_name : string) : option (list RevokedInfo) :=
  if MaxCaNameLength T <? len ca_name then None else Revoked s !! ca_name.

(** ** Dispatchables *)

Definition ensure_manager (origin : Origin) : P unit := ensure (ManagerOrigin T origin) BadOrigin.

Definition register_ca (origin : Origin) (name root_cert : string) : P unit :=
  _ ← ensure_manager origin;
  if bool_decide (name = "") then fail CaNameEmpty
  else if bool_decide (root_cert = "") then fail RootCertEmpty
  else if MaxCaNameLength T <? len name then fail CaNameTooLong
  else
    cas ← gets CertificateAuthorities;
    if bool_decide (is_Some (cas !! name)) then fail CaAlreadyRegistered
    else if MAX_ROOT_CERT_LENGTH <? len root_cert then fail RootCertTooLarge
    else
      let ca_info := {| root_cert := root_cert; revoked_count := 0; crl_versions := ∅ |} in
      _ ← modify (λ s, set_CertificateAuthorities
                         (<[name := ca_info]> (CertificateAuthorities s)) s);
      _ ← modify (λ s, set_Revoked (<[name := []]> (Revoked s)) s);
      deposit_event (CaRegistered name).

Definition unregister_ca (origin : Origin) (name : string) : P unit :=
  _ ← ensure_manager origin;
  if MaxCaNameLength T <? len name then fail CaNameTooLong
  else
    _ ← clear_revoked_certs_for_ca name;
    cas ← gets CertificateAuthorities;
    _ ← modify (λ s, set_CertificateAuthorities (delete name (CertificateAuthorities s)) s);
    if bool_decide (cas !! name = None) then fail CaNotFound
    else deposit_event (CaUnregistered name).

(** Size checks and parsing of the input. *)
Definition parse_input (crl_input : CrlInput) (root_cert : string) (now : Z)
    : P (Z * list RevokedInfo) :=
  let parsed (r : option (Z * list RevokedInfo)) : P (Z * list RevokedInfo) :=
    match r with Some x => mret x | None => fail CrlValidationError end in
  match crl_input with
  | Pem crl cert_chain =>
      if MAX_CRL_PEM_LENGTH <? len crl then fail CrlPemTooLarge
      else if MAX_CERT_CHAIN_PEM_LENGTH <? len cert_chain then fail CertChainPemTooLarge
      else parsed (parse_crl_pem T crl cert_chain root_cert now)
  | Der crl cert_chain =>
      if MAX_CRL_DER_LENGTH <? len crl then fail CrlDerTooLarge
      else if MAX_CERT_CHAIN_DER_LENGTH <? len cert_chain then fail CertChainDerTooLarge
      else parsed (parse_crl_der T crl cert_chain root_cert now)
  end.

(** [BoundedBTreeMap::try_insert] *)
Definition try_insert (versions : gmap string Z) (k : string) (v : Z) : option (gmap string Z) :=
  if (Z.of_nat (size versions) <? MAX_ISSUERS_PER_CA) || bool_decide (is_Some (versions !! k))
  then Some (<[k := v]> versions) else None.

Definition update_crl (origin : Origin) (ca_name : string) (crl_input : CrlInput) : P unit :=
  _ ← (match origin with Signed _ => mret tt | _ => raise BadOrigin end);
  if MaxCaNameLength T <? len ca_name then fail CaNameTooLong
  else
    cas ← gets CertificateAuthorities;
    match cas !! ca_name with
    | None => fail CaNotFound
    | Some ca_info =>
        now ← gets Now;
        r ← parse_input crl_input (root_cert ca_info) now;
        let '(this_update, parsed_crl) := r in
        match parsed_crl with
        | [] => fail EmptyCrl
        | first :: _ =>
            let issuer_bytes := issuer first in
            let issuer_hash := blake2_256 T issuer_bytes in
            let not_newer :=
              match crl_versions ca_info !! issuer_hash with
              | Some existing_version => this_update <=? existing_version
              | None => false
              end in
            if not_newer then fail NotNewerCrl
            else
              revoked_count ← merge_revoked_certs_for_ca ca_name parsed_crl issuer_bytes;
              match try_insert (crl_versions ca_info) issuer_hash this_update with
              | None => fail TooManyIssuers
              | Some crl_versions =>
                  let ca_info := {| root_cert := root_cert ca_info; revoked_count := revoked_count;
                                    crl_versions := crl_versions |} in
                  _ ← modify (λ s, set_CertificateAuthorities
                                     (<[ca_name := ca_info]> (CertificateAuthorities s)) s);
                  deposit_event (CrlUpdated ca_name issuer_bytes this_update revoked_count)
              end
        end
    end.

Inductive Call : Type :=
  | Call_register_ca (name root_cert : string)
  | Call_unregister_ca (name : string)
  | Call_update_crl (ca_name : string) (crl_input : CrlInput).

Definition run_call (origin : Origin) (c : Call) : P unit :=
  match c with
  | Call_register_ca n r => register_ca origin n r
  | Call_unregister_ca n => unregister_ca origin n
  | Call_update_crl n i => update_crl origin n i
  end.
End pallet.

(** ** The invariant *)

Section invariant.
Context (T : Config).

(** Documented behaviour of the parsers: a list has one issuer. *)
Definition one_issuer (l : list RevokedInfo) : Prop :=
  ∀ a b, a ∈ l → b ∈ l → issuer a = issuer b.

Record config_ok : Prop := {
  pem_one_issuer c ch r n u l : parse_crl_pem T c ch r n = Some (u, l) → one_issuer l;
  der_one_issuer c ch r n u l : parse_crl_der T c ch r n = Some (u, l) → one_issuer l
}.

(** The stored list of an authority is counted and bounded, and every entry is of
    an issuer whose version is recorded. *)
Record ca_ok (s : state) (name : string) (info : CaInfo) (l : list RevokedInfo) : Prop := {
  ck_stored : Revoked s !! name = Some l;
  ck_count : revoked_count info = Z.of_nat (length l);
  ck_max : Z.of_nat (length l) ≤ MAX_REVOKED_CERTS_PER_CA;
  ck_issuers : Z.of_nat (size (crl_versions info)) ≤ MAX_ISSUERS_PER_CA;
  ck_known r : r ∈ l → is_Some (crl_versions info !! blake2_256 T (issuer r))
}.

Definition inv (s : state) : Prop :=
  (∀ name info, CertificateAuthorities s !! name = Some info → ∃ l, ca_ok s name info l) ∧
  (∀ name, CertificateAuthorities s !! name = None → Revoked s !! name = None).

Lemma push_entries_ends store new s :
  ends (push_entries store new) s (λ r s', r = store ++ new ∧ s' = s ∧
    (Z.of_nat (length store) ≤ MAX_REVOKED_CERTS_PER_CA →
     Z.of_nat (length r) ≤ MAX_REVOKED_CERTS_PER_CA)).
Proof.
  revert store. induction new as [|r new IH]; intros store; cbn [push_entries].
  { apply ends_ret. by rewrite app_nil_r. }
  repeat (case_match; [done|]). eapply ends_mono; [apply IH|].
  intros a s' (-> & -> & Hl). rewrite <- app_assoc in *. split_and!; [done..|].
  intros _. apply Hl. rewrite length_app. simpl. lia.
Qed.

Lemma parse_input_ends (HT : config_ok) i root now s :
  ends (parse_input T i root now) s (λ r s', s' = s ∧ one_issuer r.2 ∧
    parse_input T i root now s = ROk r s).
Proof.
  unfold parse_input. destruct i as [crl chain|crl chain]; repeat (case_match; [done|]).
  - unfold ends. destruct (parse_crl_pem T crl chain root now) as [[u l]|] eqn:E; [|done].
    simpl. split_and!; [done| |done]. by eapply pem_one_issuer.
  - unfold ends. destruct (parse_crl_der T crl chain root now) as [[u l]|] eqn:E; [|done].
    simpl. split_and!; [done| |done]. by eapply der_one_issuer.
Qed.

(** What an accepted update did. *)
Definition updated (s s' : state) (n : string) (i : CrlInput) : Prop :=
  ∃ info info' old new first upd,
    CertificateAuthorities s !! n = Some info ∧ Revoked s !! n = Some old ∧
    parse_input T i (root_cert info) (Now s) s = ROk (upd, new) s ∧
    head new = Some first ∧ one_issuer new ∧
    (∀ v, crl_versions info !! blake2_256 T (issuer first) = Some v → v < upd) ∧
    Revoked s' = <[n := List.filter (λ r, negb (bool_decide (issuer r = issuer first))) old ++ new]>
                   (Revoked s) ∧
    CertificateAuthorities s' = <[n := info']> (CertificateAuthorities s) ∧
    root_cert info' = root_cert info ∧ Now s' = Now s ∧
    crl_versions info' = <[blake2_256 T (issuer first) := upd]> (crl_versions info) ∧
    ca_ok s' n info' (List.filter (λ r, negb (bool_decide (issuer r = issuer first))) old ++ new).

Lemma try_insert_size m k v m' :
  try_insert m k v = Some m' → Z.of_nat (size m) ≤ MAX_ISSUERS_PER_CA →
  m' = <[k := v]> m ∧ Z.of_nat (size m') ≤ MAX_ISSUERS_PER_CA.
Proof.
  unfold try_insert. intros H Hm. destruct (_ || _) eqn:E; [|done]. simplify_eq. split; [done|].
  destruct (m !! k) as [w|] eqn:Hk; [by rewrite map_size_insert_Some by eauto|].
  rewrite map_size_insert_None by done. rewrite bool_decide_eq_false_2 in E by (by intros []). lia.
Qed.

Lemma length_filter_le (p : RevokedInfo → bool) l : (length (List.filter p l) ≤ length l)%nat.
Proof. induction l as [|r l IH]; simpl; [lia|]. destruct (p r); simpl; lia. Qed.

Lemma update_crl_ends (HT : config_ok) o n i s :
  inv s → ends (update_crl T o n i) s (λ _ s', (∃ who, o = Signed who) ∧ updated s s' n i).
Proof.
  intros [Hi _]. unfold update_crl. destruct o as [|who|]; [done| |done].
  apply ends_bind_ret. case_match; [done|]. apply ends_bind_gets.
  destruct (CertificateAuthorities s !! n) as [info|] eqn:Hca; [|done].
  destruct (Hi n info Hca) as [old [Hst Hcnt Hmax Hiss Hkn]]. apply ends_bind_gets.
  eapply ends_bind; [by apply parse_input_ends|]. intros [upd new] s1 (-> & Hone & Hparse). simpl in Hone.
  destruct new as [|first new]; [done|]. cbv zeta.
  lazymatch goal with |- ends (if ?b then _ else _) _ _ => destruct b eqn:Hnew; [done|] end.
  unfold merge_revoked_certs_for_ca. apply ends_bind_assoc, ends_bind_gets. rewrite Hst. cbn [default].
  apply ends_bind_assoc. eapply ends_bind; [apply push_entries_ends|]. intros store s1 (-> & -> & Hlen).
  esteps. destruct (try_insert _ _ _) as [vs|] eqn:Htry; [|done]. unfold deposit_event. esteps.
  destruct (try_insert_size _ _ _ _ Htry Hiss) as [-> Hsz]. split; [by exists who|].
  pose proof (length_filter_le (λ r, negb (bool_decide (issuer r = issuer first))) old).
  eexists info, _, old, (first :: new), first, upd. split_and!; try done.
  - intros v Hv. rewrite Hv in Hnew. lia.
  - split; simpl; [by rewrite lookup_insert_eq|done|apply Hlen; unfold id; lia|done|].
    intros r Hr. destruct (decide (issuer r = issuer first)) as [-> |Hne].
    { rewrite lookup_insert_eq. by eexists. }
    apply elem_of_app in Hr as [Hr|Hr]; [|destruct Hne; apply Hone; [done|by left]].
    apply list_elem_of_In, filter_In in Hr as [Hr _]. apply list_elem_of_In in Hr.
    destruct (Hkn r Hr) as [v Hv]. apply lookup_insert_is_Some'. right. by exists v.
Qed.

Lemma inv_insert s s' n info l :
  inv s → CertificateAuthorities s' = <[n := info]> (CertificateAuthorities s) →
  Revoked s' = <[n := l]> (Revoked s) → ca_ok s' n info l → inv s'.
Proof.
  intros [Hi Hn] E1 E2 Hok. split.
  - intros name info'. rewrite E1, lookup_insert_Some. intros [[<- <-]|[Hne Hca]]; [by exists l|].
    destruct (Hi name info' Hca) as [l' []]. exists l'. split; try done. by rewrite E2, lookup_insert_ne.
  - intros name. rewrite E1, E2, !lookup_insert_None. intros [? ?]. auto.
Qed.

Lemma crl_run_call_inv (HT : config_ok) o c s : inv s → ends (run_call T o c) s (λ _ s', inv s').
Proof.
  intros Hi. destruct c as [n root|n|n i]; simpl.
  - unfold register_ca, ensure_manager. apply ends_bind_ensure. intros _. repeat (case_match; [done|]).
    apply ends_bind_gets. do 2 (case_match; [done|]). unfold deposit_event. esteps.
    eapply (inv_insert s _ n _ []); [done..|]. split; simpl; [by rewrite lookup_insert_eq|done| | |].
    + unfold MAX_REVOKED_CERTS_PER_CA. lia.
    + rewrite map_size_empty. unfold MAX_ISSUERS_PER_CA. lia.
    + by intros r ?%elem_of_nil.
  - unfold unregister_ca, ensure_manager. apply ends_bind_ensure. intros _. case_match; [done|].
    unfold clear_revoked_certs_for_ca, deposit_event. esteps. case_match; [done|]. esteps.
    destruct Hi as [Hi Hn]. split; simpl.
    + intros name info [Hne Hca]%lookup_delete_Some. destruct (Hi name info Hca) as [l []].
      exists l. split; simpl; try done. by rewrite lookup_delete_ne.
    + intros name. rewrite !lookup_delete_None. intuition auto.
  - eapply ends_mono; [by apply update_crl_ends|].
    intros _ s' (_ & info & info' & old & new & first & upd & ? & ? & ? & ? & ? & ? & E2 & E1 & ? & ? & ? & Hok).
    by eapply inv_insert.
Qed.

(** Extrinsics, and the clock. *)
Inductive step : state → state → Prop :=
  | step_call o c s : step s (dispatch (run_call T o c) s).1
  | step_time now s : step s (set_Now now s).

Inductive reachable : state → Prop :=
  | reach_init now : reachable (State ∅ ∅ [] now)
  | reach_step s s' : reachable s → step s s' → reachable s'.

Lemma crl_reachable_inv (HT : config_ok) s : reachable s → inv s.
Proof.
  induction 1 as [now|s s' _ IH Hs].
  - split; intros name; [intros info|]; simpl; by rewrite lookup_empty.
  - destruct Hs as [o c s|now s]; [|destruct IH as [Hi Hn]; split; [|exact Hn]; intros name info Hca; destruct (Hi name info Hca) as [l []]; by exists l].
    by apply (dispatch_ends (run_call T o c) s inv); [|apply crl_run_call_inv].
Qed.
End invariant.

(** ** Properties *)

(** C37: in a reachable state an accepted revocation list was signed in by anybody for a
    registered authority, is newer than the stored list of the same issuer,
    replaces exactly the entries of that issuer and keeps those of all other
    issuers; the count and the bounds are kept, and the same list is refused from
    then on. *)
Theorem crl_update_replaces T o n i s s' :
  config_ok T → reachable T s →
  dispatch (run_call T o (Call_update_crl n i)) s = (s', Done) →
  (∃ who, o = Signed who) ∧ updated T s s' n i ∧
  ∀ who, dispatch (run_call T (Signed who) (Call_update_crl n i)) s' = (s', Failed (Pallet NotNewerCrl)).
Proof.
  intros HT Hr Hd. pose proof (crl_reachable_inv T HT s Hr) as Hi.
  pose proof (update_crl_ends T HT o n i s Hi) as He. unfold ends, dispatch in He, Hd. simpl in Hd.
  destruct (update_crl T o n i s) as [[] s1|e|] eqn:E; simplify_eq. destruct He as [Ho Hu].
  split_and!; [done..|]. intros who'. pose proof Hu as (info & info' & old & new & first & upd & Hca & Hre
    & Hp & Hh & _ & _ & _ & E1 & Eroot & Enow & Ev & _).
  assert (Hlen : (MaxCaNameLength T <? len n) = false).
  { destruct Ho as [who ->]. unfold update_crl in E. destruct (_ <? _); [done|done]. }
  destruct new as [|f new]; [done|]. simpl in Hh. injection Hh as ->.
  unfold dispatch. simpl. unfold update_crl.
  rewrite (bind_ROk _ _ _ tt s') by done. rewrite Hlen.
  rewrite (bind_ROk _ _ _ (CertificateAuthorities s') s') by done. rewrite E1, lookup_insert_eq.
  rewrite (bind_ROk _ _ _ (Now s') s') by done.
  assert (Hp' : parse_input T i (root_cert info') (Now s') s' = ROk (upd, first :: new) s').
  { rewrite Eroot, Enow. clear -Hp. unfold parse_input in *. destruct i; repeat case_match; simplify_eq/=;
      unfold mret, M_ret in *; by simplify_eq. }
  rewrite (bind_ROk _ _ _ _ _ Hp'). cbv zeta. rewrite Ev, lookup_insert_eq. by rewrite Z.leb_refl.
Qed.

Definition sample_crls (crl : string) : option (Z * list RevokedInfo) :=
  if bool_decide (crl = "intel-1") then
    Some (100, [{| issuer := "intel"; serial := "01" |}; {| issuer := "intel"; serial := "02" |}])
  else if bool_decide (crl = "intel-2") then Some (200, [{| issuer := "intel"; serial := "03" |}])
  else if bool_decide (crl = "other-1") then Some (150, [{| issuer := "other"; serial := "09" |}])
  else None.

Definition sample_crl_config : Config := {|
  ManagerOrigin := λ o, match o with Root => true | _ => false end;
  MaxCaNameLength := 64;
  parse_crl_pem := λ crl _ _ _, sample_crls crl;
  parse_crl_der := λ crl _ _ _, sample_crls crl;
  blake2_256 := λ s, s
|}.

Lemma sample_crl_config_ok : config_ok sample_crl_config.
Proof.
  split; intros c ch r n u l; simpl; unfold sample_crls; repeat case_bool_decide; intros; simplify_eq;
    intros a b Ha Hb; set_solver.
Qed.

(** Two issuers under one authority. *)
Definition sample_crl : state :=
  (dispatch (run_call sample_crl_config (Signed "bob") (Call_update_crl "ca" (Der "other-1" "chain")))
     (dispatch (run_call sample_crl_config (Signed "bob") (Call_update_crl "ca" (Pem "intel-1" "chain")))
        (dispatch (run_call sample_crl_config Root (Call_register_ca "ca" "root"))
           (State ∅ ∅ [] 1)).1).1).1.

Definition sample_crl' : state :=
  (dispatch (run_call sample_crl_config (Signed "eve") (Call_update_crl "ca" (Pem "intel-2" "chain")))
     sample_crl).1.

Lemma crl_update_replaces_witness :
  ((∃ who, Signed "eve" = Signed who) ∧
   updated sample_crl_config sample_crl sample_crl' "ca" (Pem "intel-2" "chain") ∧
   ∀ who, dispatch (run_call sample_crl_config (Signed who)
                      (Call_update_crl "ca" (Pem "intel-2" "chain"))) sample_crl' =
          (sample_crl', Failed (Pallet NotNewerCrl))) ∧
  (map (λ r, (issuer r, serial r)) <$> get_crl sample_crl_config sample_crl' "ca") =
    Some [("other", "09"); ("intel", "03")].
Proof.
  split; [|vm_compute; reflexivity].
  apply (crl_update_replaces sample_crl_config (Signed "eve")).
  - exact sample_crl_config_ok.
  - unfold sample_crl. do 3 (eapply reach_step; [|apply step_call]). apply reach_init.
  - vm_compute. reflexivity.
Defined.
