(* ===== verification/Verifiers.v ===== *)
(** * The verifier pallet ([pallets/verifiers/src/lib.rs], [pallets/verifiers/traits/src/lib.rs])

    One pallet, instantiated with each proof system: proofs are submitted with a
    verification key or the hash of a registered one, keys are registered against
    a deposit and counted, the root can disable the verifier.  A proof system is a
    [Verifier], the trait of the code; what it reads of the chain (time,
    revocation lists) is the runtime state [L]. *)

From S2P Require Import Prelude Frame Holds.

Open Scope Z_scope.

(** ** Weights ([primitives/hp-on-proof-verified/src/lib.rs]) *)

Definition u64_max : Z := 2 ^ 64 - 1.

Record Weight : Type := { ref_time : Z; proof_size : Z }.

Definition compose (self other : Weight) : Weight := {|
  ref_time := Z.min (ref_time self + ref_time other) u64_max;
  proof_size := Z.max (proof_size self) (proof_size other)
|}.

(** ** Data *)

Inductive VerifyError : Type :=
  | InvalidInput
  | InvalidProofData
  | VerifyFailed                          (* [VerifyError::VerifyError] *)
  | InvalidVerificationKey
  | UnsupportedVersion.

(** The trait; [None] is a panic in [verify_proof] and [Ok] in [validate_vk]. *)
Record Verifier (L Vk Proof Pubs : Type) : Type := {
  hash_context_data : string;
  verify_proof : L → Vk → Proof → Pubs → option (VerifyError + option Weight);
  validate_vk : L → Vk → option VerifyError;
  vk_hash : Vk → string;
  pubs_bytes : Pubs → string;
  verifier_version_hash : Proof → string
}.
Arguments hash_context_data {L Vk Proof Pubs} v.
Arguments verify_proof {L Vk Proof Pubs} v.
Arguments validate_vk {L Vk Proof Pubs} v.
Arguments vk_hash {L Vk Proof Pubs} v.
Arguments pubs_bytes {L Vk Proof Pubs} v.
Arguments verifier_version_hash {L Vk Proof Pubs} v.

(** SHA-256 of the empty string.  An [H256] is its hexadecimal text, as the scripts
    see it; all have one length. *)
Definition NO_VERSION_HASH : string :=
  "0xe3b0c44298fc1c149afbf4c8996fb92427ae41e4649b934ca495991b7852b855".

(** The default methods of the trait; [encode] is the SCALE codec. *)
Definition default_validate_vk {L Vk} (_ : L) (_ : Vk) : option VerifyError := None.
Definition default_vk_hash {Vk} (keccak_256 : string → string) (encode : Vk → string) (vk : Vk)
    : string := keccak_256 (encode vk).
Definition default_version_hash {Proof} (_ : Proof) : string := NO_VERSION_HASH.

(** [impl Verifier for ()] *)
Definition unit_verifier {L} (keccak_256 : string → string) (encode : unit → string)
    : Verifier L unit unit unit := {|
  hash_context_data := "()";
  verify_proof := λ _ _ _ _, Some (inl VerifyFailed);
  validate_vk := λ _ _, None;
  vk_hash := default_vk_hash keccak_256 encode;
  pubs_bytes := λ _, "";
  verifier_version_hash := default_version_hash
|}.

Inductive VkOrHash (K : Type) : Type :=
  | Hash (h : string)
  | Vk (vk : K).
Arguments Hash {K} h.
Arguments Vk {K} vk.

Record VkEntry (V : Type) : Type := { entry_vk : V; ref_count : Z }.
Arguments entry_vk {V} v.
Arguments ref_count {V} v.

(** [VkEntry::new] *)
Definition new_entry {V} (vk : V) : VkEntry V := {| entry_vk := vk; ref_count := 1 |}.

Inductive Event : Type :=
  | VkRegistered (hash : string)
  | VkUnregistered (hash : string)
  | ProofVerified (statement : string).

Inductive Error : Type :=
  | EInvalidInput
  | EInvalidProofData
  | EVerifyError
  | EInvalidVerificationKey
  | VerificationKeyNotFound
  | DisabledVerifier
  | VerificationKeyAlreadyRegistered
  | EUnsupportedVersion.

(** [From<VerifyError> for Error] *)
Definition from_verify_error (e : VerifyError) : Error :=
  match e with
  | InvalidInput => EInvalidInput
  | InvalidProofData => EInvalidProofData
  | VerifyFailed => EVerifyError
  | InvalidVerificationKey => EInvalidVerificationKey
  | UnsupportedVersion => EUnsupportedVersion
  end.

Inductive DispatchError : Type :=
  | BadOrigin
  | Pallet (e : Error)
  | ArithmeticOverflow
  | TicketError.

(** [DispatchErrorWithPostInfo]: the weight to charge, if it was corrected. *)
Record PostError : Type := { actual_weight : option Weight; error : DispatchError }.

Section pallet.
Context {L VkT Proof Pubs Tk : Type}.

(** [T: Config<I>]; [WeightInfo] and [common::WeightInfo] are the last fields.
    [OnProofVerified] is [None] when the callback panics. *)
Record Config : Type := {
  I : Verifier L VkT Proof Pubs;
  Ticket : Consideration string L Tk;
  OnProofVerified : option string → option Z → string → L → option L;
  on_proof_verified_weight : option Z → Weight;
  keccak_256 : string → string;
  vk_encoded_size : VkT → Z;
  weight_reads_1 : Weight;                      (* [T::DbWeight::get().reads(1)] *)
  weight_get_vk : Weight;
  weight_validate_vk : VkT → Weight;
  weight_verify_proof : Proof → Pubs → Weight;
  weight_statement_hash : Proof → Pubs → Weight;
  on_verify_disabled_verifier : Weight
}.

Record state : Type := State {
  Disabled : option bool;
  Vks : gmap string (VkEntry VkT);
  Tickets : gmap (string * string) Tk;
  Events : list Event;
  Runtime : L
}.

Definition set_Disabled x s := State x (Vks s) (Tickets s) (Events s) (Runtime s).
Definition set_Vks x s := State (Disabled s) x (Tickets s) (Events s) (Runtime s).
Definition set_Tickets x s := State (Disabled s) (Vks s) x (Events s) (Runtime s).
Definition add_event e s := State (Disabled s) (Vks s) (Tickets s) (Events s ++ [e]) (Runtime s).
Definition set_Runtime x s := State (Disabled s) (Vks s) (Tickets s) (Events s) x.

Context (T : Config).
Abbreviation P := (M state PostError).

Definition plain (e : DispatchError) : PostError := {| actual_weight := None; error := e |}.
Abbreviation fail e := (raise (plain (Pallet e))).

Definition deposit_event (e : Event) : P unit := modify (add_event e).

(** ** Statements *)

Definition compute_statement_hash (vk_or_hash : VkOrHash VkT) (proof : Proof) (pubs : Pubs) : string :=
  let version_hash := verifier_version_hash (I T) proof in
  let hash := match vk_or_hash with Hash h => h | Vk vk => vk_hash (I T) vk end in
  let ctx := hash_context_data (I T) in
  let pubs := pubs_bytes (I T) pubs in
  keccak_256 T (keccak_256 T ctx +:+ hash +:+ version_hash +:+ keccak_256 T pubs).

Definition submit_proof_weight (vk_or_hash : VkOrHash VkT) (proof : Proof) (pubs : Pubs)
    (domain_id : option Z) (override_verify_proof : option Weight) : Weight :=
  let base := weight_reads_1 T in
  let vk_weight := match vk_or_hash with
                   | Hash _ => weight_get_vk T
                   | Vk vk => weight_validate_vk T vk
                   end in
  let verify := default (weight_verify_proof T proof pubs) override_verify_proof in
  let statement := weight_statement_hash T proof pubs in
  compose (compose (compose (compose base vk_weight) verify) statement)
    (on_proof_verified_weight T domain_id).

(** ** Dispatchables *)

Definition on_disable_error : PostError :=
  {| actual_weight := Some (on_verify_disabled_verifier T); error := Pallet DisabledVerifier |}.

Definition ensure_enabled : P unit :=
  disabled ← gets Disabled;
  ensure (negb (default false disabled)) on_disable_error.

Definition ensure_signed_or_root (origin : Origin) : P (option string) :=
  match origin with
  | Root => mret None
  | Signed who => mret (Some who)
  | NoOrigin => raise (plain BadOrigin)
  end.

Definition ensure_signed (origin : Origin) : P string :=
  match origin with
  | Signed who => mret who
  | _ => raise (plain BadOrigin)
  end.

(** The key a submission is verified with. *)
Definition resolve_vk (vk_or_hash : VkOrHash VkT) : P VkT :=
  match vk_or_hash with
  | Hash h =>
      vks ← gets Vks;
      match vks !! h with
      | Some e => mret (entry_vk e)
      | None => fail VerificationKeyNotFound
      end
  | Vk vk =>
      l ← gets Runtime;
      match validate_vk (I T) l vk with
      | None => mret vk
      | Some e => fail (from_verify_error e)
      end
  end.

Definition submit_proof (origin : Origin) (vk_or_hash : VkOrHash VkT) (proof : Proof) (pubs : Pubs)
    (domain_id : option Z) : P (option Weight) :=
  _ ← ensure_enabled;
  vk ← resolve_vk vk_or_hash;
  account ← ensure_signed_or_root origin;
  l ← gets Runtime;
  verdict ← unwrap (verify_proof (I T) l vk proof pubs);
  match verdict with
  | inl e => fail (from_verify_error e)
  | inr verify_proof_weight =>
      let statement := compute_statement_hash vk_or_hash proof pubs in
      _ ← deposit_event (ProofVerified statement);
      l' ← unwrap (OnProofVerified T account domain_id statement l);
      _ ← modify (set_Runtime l');
      mret ((λ w, submit_proof_weight vk_or_hash proof pubs domain_id (Some w))
              <$> verify_proof_weight)
  end.

Definition register_vk (origin : Origin) (vk : VkT) : P unit :=
  _ ← ensure_enabled;
  account_id ← ensure_signed origin;
  let hash := vk_hash (I T) vk in
  tickets ← gets Tickets;
  if bool_decide (is_Some (tickets !! (account_id, hash))) then fail VerificationKeyAlreadyRegistered
  else
    l ← gets Runtime;
    match validate_vk (I T) l vk with
    | Some e => fail (from_verify_error e)
    | None =>
        match ticket_new (Ticket T) l account_id 1 (vk_encoded_size T vk) with
        | None => raise (plain TicketError)
        | Some (l', ticket) =>
            _ ← modify (set_Runtime l');
            _ ← modify (λ s, set_Tickets (<[(account_id, hash) := ticket]> (Tickets s)) s);
            vks ← gets Vks;
            _ ← (match vks !! hash with
                 | Some e =>
                     if ref_count e + 1 <=? u64_max
                     then modify (set_Vks (<[hash := {| entry_vk := entry_vk e;
                                                        ref_count := ref_count e + 1 |}]> vks))
                     else raise (plain ArithmeticOverflow)
                 | None => modify (set_Vks (<[hash := new_entry vk]> vks))
                 end);
            deposit_event (VkRegistered hash)
        end
    end.

Definition disable (origin : Origin) (disabled : bool) : P unit :=
  match origin with
  | Root => modify (set_Disabled (Some disabled))
  | _ => raise (plain BadOrigin)
  end.

Definition unregister_vk (origin : Origin) (vk_hash : string) : P unit :=
  account_id ← ensure_signed origin;
  tickets ← gets Tickets;
  vks ← gets Vks;
  _ ← (match tickets !! (account_id, vk_hash) with
       | Some ticket =>
           _ ← modify (set_Tickets (delete (account_id, vk_hash) tickets));
           l ← gets Runtime;
           match ticket_drop (Ticket T) l ticket account_id with
           | Some l' => modify (set_Runtime l')
           | None => raise (plain TicketError)
           end
       | None =>
           if bool_decide (is_Some (vks !! vk_hash)) then raise (plain BadOrigin)
           else fail VerificationKeyNotFound
       end);
  match vks !! vk_hash with
  | Some v =>
      let n := Z.max 0 (ref_count v - 1) in
      if n =? 0 then
        _ ← modify (set_Vks (delete vk_hash vks));
        deposit_event (VkUnregistered vk_hash)
      else modify (set_Vks (<[vk_hash := {| entry_vk := entry_vk v; ref_count := n |}]> vks))
  | None => panic
  end.

Inductive Call : Type :=
  | Call_submit_proof (vk_or_hash : VkOrHash VkT) (proof : Proof) (pubs : Pubs) (domain_id : option Z)
  | Call_register_vk (vk : VkT)
  | Call_disable (disabled : bool)
  | Call_unregister_vk (vk_hash : string).

Definition run_call (origin : Origin) (c : Call) : P unit :=
  match c with
  | Call_submit_proof v p u d => _ ← submit_proof origin v p u d; mret tt
  | Call_register_vk vk => register_vk origin vk
  | Call_disable b => disable origin b
  | Call_unregister_vk h => unregister_vk origin h
  end.
End pallet.
Arguments Config : clear implicits.
Arguments state : clear implicits.
Arguments Call : clear implicits.

(** ** Who has registered a key *)

Definition holders {Tk} (tickets : gmap (string * string) Tk) (h : string) : gset (string * string) :=
  filter (λ k, k.2 = h) (dom tickets).

Lemma elem_of_holders {Tk} (m : gmap (string * string) Tk) h k :
  k ∈ holders m h ↔ k.2 = h ∧ is_Some (m !! k).
Proof. unfold holders. by rewrite elem_of_filter, elem_of_dom. Qed.

Lemma holders_insert_ne {Tk} (m : gmap (string * string) Tk) a h h' t :
  h' ≠ h → holders (<[(a, h) := t]> m) h' = holders m h'.
Proof.
  intros Hne. apply set_eq. intros [b k]. rewrite !elem_of_holders. simpl.
  split; intros [-> Hk]; (split; [done|]); rewrite lookup_insert_ne in *; naive_solver.
Qed.

Lemma holders_delete_ne {Tk} (m : gmap (string * string) Tk) a h h' :
  h' ≠ h → holders (delete (a, h) m) h' = holders m h'.
Proof.
  intros Hne. apply set_eq. intros [b k]. rewrite !elem_of_holders. simpl.
  split; intros [-> Hk]; (split; [done|]); rewrite lookup_delete_ne in *; naive_solver.
Qed.

Lemma holders_insert_eq {Tk} (m : gmap (string * string) Tk) a h t :
  m !! (a, h) = None → size (holders (<[(a, h) := t]> m) h) = S (size (holders m h)).
Proof.
  intros Hm. assert (E : holders (<[(a, h) := t]> m) h = {[(a, h)]} ∪ holders m h).
  { apply set_eq. intros [b k]. rewrite elem_of_union, elem_of_singleton, !elem_of_holders. simpl.
    destruct (decide ((b, k) = (a, h))) as [[= -> ->]|Hne].
    - rewrite lookup_insert_eq. split; [by left|]. intros _. split; [done|by eexists].
    - rewrite lookup_insert_ne by naive_solver. naive_solver. }
  rewrite E, size_union, size_singleton; [done|]. apply disjoint_singleton_l.
  rewrite elem_of_holders, Hm. intros [_ []]. done.
Qed.

Lemma holders_delete_eq {Tk} (m : gmap (string * string) Tk) a h :
  is_Some (m !! (a, h)) → size (holders m h) = S (size (holders (delete (a, h) m) h)).
Proof.
  intros [t Hm]. rewrite <- (holders_insert_eq (delete (a, h) m) a h t) by apply lookup_delete_eq.
  by rewrite insert_delete_id.
Qed.

(** ** The invariant *)

Section invariant.
Context {L VkT Proof Pubs Tk : Type} (T : Config L VkT Proof Pubs Tk).
Abbreviation state := (state L VkT Tk).
Implicit Types (s : state).

(** A key is stored under its hash, and counted once for each account that
    registered it. *)
Definition vk_ok s (h : string) : Prop :=
  match Vks s !! h with
  | Some e => vk_hash (I T) (entry_vk e) = h ∧ 1 ≤ ref_count e ∧
              ref_count e = Z.of_nat (size (holders (Tickets s) h))
  | None => ∀ a, Tickets s !! (a, h) = None
  end.

Definition inv s : Prop := ∀ h, vk_ok s h.

Lemma holders_none (m : gmap (string * string) Tk) h :
  (∀ a, m !! (a, h) = None) → size (holders m h) = 0%nat.
Proof.
  intros H. apply size_empty_iff. intros [a k]. rewrite elem_of_holders. simpl.
  split; [intros [-> []]; by rewrite H in *|set_solver].
Qed.

Lemma inv_frame s s' : inv s → Vks s' = Vks s → Tickets s' = Tickets s → inv s'.
Proof. intros Hi E1 E2 h. specialize (Hi h). unfold vk_ok in *. by rewrite E1, E2. Qed.

(** What a registration did. *)
Definition registered s s' (a : string) (vk : VkT) : Prop :=
  let h := vk_hash (I T) vk in
  ∃ l' t e, Tickets s !! (a, h) = None ∧ default false (Disabled s) = false ∧
    validate_vk (I T) (Runtime s) vk = None ∧
    ticket_new (Ticket T) (Runtime s) a 1 (vk_encoded_size T vk) = Some (l', t) ∧
    e = match Vks s !! h with
        | Some e => {| entry_vk := entry_vk e; ref_count := ref_count e + 1 |}
        | None => new_entry vk
        end ∧
    ref_count e ≤ u64_max ∧
    s' = State (Disabled s) (<[h := e]> (Vks s)) (<[(a, h) := t]> (Tickets s))
           (Events s ++ [VkRegistered h]) l'.

Lemma register_vk_ends o vk s :
  ends (register_vk T o vk) s (λ _ s', ∃ a, o = Signed a ∧ registered s s' a vk).
Proof.
  unfold register_vk, ensure_enabled, ensure_signed. esteps. destruct o as [|a|]; [done| |done]. esteps.
  case_bool_decide as Ht; [done|]. esteps.
  destruct (validate_vk _ _ _) as [|] eqn:Hv; [done|].
  destruct (ticket_new _ _ _ _ _) as [[l' t]|] eqn:Hn; [|done]. esteps. simpl.
  assert (Htn : Tickets s !! (a, vk_hash (I T) vk) = None).
  { destruct (Tickets s !! _); [|done]. destruct Ht. by eexists. }
  assert (Hen : default false (Disabled s) = false) by (by destruct (default false (Disabled s))).
  destruct (Vks s !! vk_hash (I T) vk) as [e|] eqn:Hh.
  - destruct (Z.leb_spec (ref_count e + 1) u64_max); [|done]. unfold deposit_event. esteps.
    exists a. split; [done|]. eexists l', t, _. rewrite Hh. split_and!; done.
  - unfold deposit_event. esteps. exists a. split; [done|]. eexists l', t, _. rewrite Hh.
    split_and!; done.
Qed.

Lemma registered_inv s s' a vk : inv s → registered s s' a vk → inv s'.
Proof.
  intros Hi (l' & t & e & Ht & _ & _ & _ & -> & _ & ->) h. unfold vk_ok. simpl.
  destruct (decide (h = vk_hash (I T) vk)) as [-> |Hne].
  - rewrite lookup_insert_eq, holders_insert_eq by done. specialize (Hi (vk_hash (I T) vk)).
    unfold vk_ok in Hi. destruct (Vks s !! _) as [e|]; simpl; [split_and!; [apply Hi|lia|lia]|].
    rewrite holders_none by done. split_and!; [done|lia|done].
  - rewrite lookup_insert_ne, holders_insert_ne by done. specialize (Hi h). unfold vk_ok in Hi.
    destruct (Vks s !! h); [done|]. intros b. rewrite lookup_insert_ne by congruence. apply Hi.
Qed.

(** What an unregistration did. *)
Definition unregistered s s' (a h : string) : Prop :=
  ∃ l' t e, Tickets s !! (a, h) = Some t ∧ ticket_drop (Ticket T) (Runtime s) t a = Some l' ∧
    Vks s !! h = Some e ∧
    s' = State (Disabled s)
           (if ref_count e =? 1 then delete h (Vks s)
            else <[h := {| entry_vk := entry_vk e; ref_count := ref_count e - 1 |}]> (Vks s))
           (delete (a, h) (Tickets s))
           (if ref_count e =? 1 then Events s ++ [VkUnregistered h] else Events s) l'.

Lemma unregister_vk_ends o h s :
  inv s → ends (unregister_vk T o h) s (λ _ s', ∃ a, o = Signed a ∧ unregistered s s' a h).
Proof.
  intros Hi. unfold unregister_vk, ensure_signed. destruct o as [|a|]; [done| |done]. esteps.
  destruct (Tickets s !! (a, h)) as [t|] eqn:Ht; [|by case_bool_decide]. esteps. simpl.
  destruct (ticket_drop _ _ _ _) as [l'|] eqn:Hd; [|done]. esteps.
  specialize (Hi h). unfold vk_ok in Hi. destruct (Vks s !! h) as [e|] eqn:He.
  - destruct Hi as (_ & H1 & _). cbv zeta. destruct (Z.eqb_spec (Z.max 0 (ref_count e - 1)) 0).
    + unfold deposit_event. esteps. exists a. split; [done|]. exists l', t, e.
      rewrite (proj2 (Z.eqb_eq (ref_count e) 1)) by lia. by split_and!.
    + esteps. exists a. split; [done|]. exists l', t, e.
      rewrite (proj2 (Z.eqb_neq (ref_count e) 1)) by lia. split_and!; try done.
      replace (Z.max 0 (ref_count e - 1)) with (ref_count e - 1) by lia. done.
  - by rewrite Hi in Ht.
Qed.

Lemma unregistered_inv s s' a h : inv s → unregistered s s' a h → inv s'.
Proof.
  intros Hi (l' & t & e & Ht & _ & He & ->) k. unfold vk_ok. simpl.
  pose proof (Hi h) as Hh. unfold vk_ok in Hh. rewrite He in Hh. destruct Hh as (E1 & E2 & E3).
  rewrite (holders_delete_eq _ a) in E3 by (by eexists).
  destruct (decide (k = h)) as [-> |Hne].
  - destruct (Z.eqb_spec (ref_count e) 1).
    + rewrite lookup_delete_eq. intros b. assert (Hz : size (holders (delete (a, h) (Tickets s)) h) = 0%nat) by lia.
      apply size_empty_iff in Hz. destruct (delete (a, h) (Tickets s) !! (b, h)) as [t'|] eqn:Hb; [|done].
      exfalso. apply (not_elem_of_empty (C:=gset (string * string)) (b, h)), Hz. rewrite elem_of_holders, Hb.
      split; [done|by eexists].
    + rewrite lookup_insert_eq. simpl. split_and!; [done|lia|lia].
  - rewrite holders_delete_ne by done. specialize (Hi k). unfold vk_ok in Hi.
    assert (Hk : (if ref_count e =? 1 then delete h (Vks s)
       else <[h := {| entry_vk := entry_vk e; ref_count := ref_count e - 1 |}]> (Vks s)) !! k = Vks s !! k).
    { destruct (ref_count e =? 1); [by rewrite lookup_delete_ne|by rewrite lookup_insert_ne]. }
    rewrite Hk. destruct (Vks s !! k); [done|]. intros b. rewrite lookup_delete_ne by congruence. apply Hi.
Qed.

(** The key of a submission: a stored one, or one that passed the check. *)
Definition resolves s (v : VkOrHash VkT) (vk : VkT) : Prop :=
  match v with
  | Hash h => ∃ e, Vks s !! h = Some e ∧ vk = entry_vk e
  | Vk k => vk = k ∧ validate_vk (I T) (Runtime s) k = None
  end.

(** What an accepted proof did: it was verified with a key of the hash in its
    statement, and the statement was handed on. *)
Definition verified s s' (o : Origin) (v : VkOrHash VkT) (p : Proof) (u : Pubs) (d : option Z) : Prop :=
  ∃ a vk w l',
    (o = Root ∧ a = None ∨ ∃ who, o = Signed who ∧ a = Some who) ∧
    default false (Disabled s) = false ∧ resolves s v vk ∧
    verify_proof (I T) (Runtime s) vk p u = Some (inr w) ∧
    OnProofVerified T a d (compute_statement_hash T (Vk vk) p u) (Runtime s) = Some l' ∧
    s' = State (Disabled s) (Vks s) (Tickets s)
           (Events s ++ [ProofVerified (compute_statement_hash T (Vk vk) p u)]) l'.

(** The statement depends on the key only through its hash. *)
Lemma statement_hash_vk s h e p u :
  inv s → Vks s !! h = Some e →
  compute_statement_hash T (Hash h) p u = compute_statement_hash T (Vk (entry_vk e)) p u.
Proof.
  intros Hi He. specialize (Hi h). unfold vk_ok in Hi. rewrite He in Hi. destruct Hi as [Hh _].
  unfold compute_statement_hash. by rewrite Hh.
Qed.

Lemma submit_proof_run o v p u d s :
  inv s →
  match submit_proof T o v p u d s with
  | ROk _ s' => verified s s' o v p u d
  | RErr _ => True
  | RPanic => ∃ vk, resolves s v vk ∧
      (verify_proof (I T) (Runtime s) vk p u = None ∨
       ∃ a st, OnProofVerified T a d st (Runtime s) = None)
  end.
Proof.
  intros Hi. unfold submit_proof, ensure_enabled.
  unfold mbind, M_bind, gets, ensure, mret, M_ret. destruct (default false (Disabled s)) eqn:Hen; simpl; [done|].
  assert (Hv : match resolve_vk T v s with
    | ROk vk s' => s' = s ∧ compute_statement_hash T v p u = compute_statement_hash T (Vk vk) p u ∧ resolves s v vk
    | RErr _ => True | RPanic => False end).
  { unfold resolve_vk. destruct v as [h|k]; unfold mbind, M_bind, gets, mret, M_ret; simpl.
    - destruct (Vks s !! h) as [e|] eqn:He; [|done]. split_and!; [done|by apply (statement_hash_vk s)|].
      by exists e.
    - by destruct (validate_vk (I T) (Runtime s) k). }
  destruct (resolve_vk T v s) as [vk s1|e|]; [|done|done]. destruct Hv as (-> & Hst & Hv).
  assert (Ho : match ensure_signed_or_root o s with
    | ROk a s' => s' = s ∧ (o = Root ∧ a = None ∨ ∃ who, o = Signed who ∧ a = Some who)
    | RErr _ => True | RPanic => False end) by (destruct o; simpl; eauto).
  destruct (ensure_signed_or_root o s) as [a s1|e|]; [|done|done]. destruct Ho as [-> Ho].
  unfold unwrap. destruct (verify_proof (I T) (Runtime s) vk p u) as [[e|w]|] eqn:Hp; simpl;
    [done| |exists vk; by split; [|left]]. rewrite Hst.
  destruct (OnProofVerified T a d _ (Runtime s)) as [l'|] eqn:Hcb; simpl;
    [|exists vk; split; [done|right; by eexists _, _]].
  exists a, vk, w, l'. by split_and!.
Qed.

(** Extrinsics, and whatever the rest of the runtime does to its own state. *)
Inductive step : state → state → Prop :=
  | step_call o c s : step s (dispatch (run_call T o c) s).1
  | step_runtime l s : step s (set_Runtime l s).

Inductive reachable : state → Prop :=
  | reach_init l : reachable (State None ∅ ∅ [] l)
  | reach_step s s' : reachable s → step s s' → reachable s'.

Lemma vk_run_call_inv o c s :
  inv s →
  match run_call T o c s with
  | ROk _ s' => inv s'
  | RErr _ => True
  | RPanic => (∃ v vk p u, resolves s v vk ∧ verify_proof (I T) (Runtime s) vk p u = None) ∨
      ∃ a d st, OnProofVerified T a d st (Runtime s) = None
  end.
Proof.
  intros Hi. destruct c as [v p u d|vk|b|h]; simpl.
  - pose proof (submit_proof_run o v p u d s Hi) as H. unfold mbind, M_bind.
    destruct (submit_proof T o v p u d s) as [w s'|e|]; simpl;
      [|done|destruct H as (vk & Hv & [H|(a & st & H)]); [left; by exists v, vk, p, u|right; by exists a, d, st]].
    destruct H as (a & vk & w' & l' & _ & _ & _ & _ & _ & ->). by apply (inv_frame s).
  - pose proof (register_vk_ends o vk s) as H. unfold ends in H.
    destruct (register_vk T o vk s); [|done..]. destruct H as (who & _ & H). by eapply registered_inv.
  - destruct o; simpl; [|done..]. by apply (inv_frame s).
  - pose proof (unregister_vk_ends o h s Hi) as H. unfold ends in H.
    destruct (unregister_vk T o h s); [|done..]. destruct H as (who & _ & H). by eapply unregistered_inv.
Qed.

Lemma vk_reachable_inv s : reachable s → inv s.
Proof.
  induction 1 as [l|s s' _ IH Hs]; [intros h; unfold vk_ok; simpl; by rewrite lookup_empty|].
  destruct Hs as [o c s|l s]; [|by apply (inv_frame s)].
  pose proof (vk_run_call_inv o c s IH) as H. unfold dispatch. by destruct (run_call T o c s).
Qed.

(** Every stored key passed the verifier's own check when it was registered. *)
Lemma stored_keys_valid (Q : VkT → Prop) s :
  (∀ l vk, validate_vk (I T) l vk = None → Q vk) → reachable s →
  map_Forall (λ _ e, Q (entry_vk e)) (Vks s).
Proof.
  intros HQ Hr. induction Hr as [l|s s' Hr IH Hs]; [apply map_Forall_empty|].
  destruct Hs as [o c s|l s]; [|done]. unfold dispatch. pose proof (vk_reachable_inv s Hr) as Hi.
  destruct c as [v p u d|vk|b|h]; simpl.
  - pose proof (submit_proof_run o v p u d s Hi) as H. unfold mbind, M_bind.
    destruct (submit_proof T o v p u d s) as [w s'|e|]; simpl; [|done..].
    by destruct H as (a & vk & w' & l' & _ & _ & _ & _ & _ & ->).
  - pose proof (register_vk_ends o vk s) as H. unfold ends in H.
    destruct (register_vk T o vk s) as [[] s'|e|]; [|done..]. simpl.
    destruct H as (a & _ & l' & t & e & _ & _ & Hv & _ & -> & _ & ->). simpl.
    apply map_Forall_insert_2; [|done]. destruct (Vks s !! _) as [e|] eqn:He; simpl; [|by eapply HQ].
    by eapply IH.
  - by destruct o.
  - pose proof (unregister_vk_ends o h s Hi) as H. unfold ends in H.
    destruct (unregister_vk T o h s) as [[] s'|e|]; [|done..]. simpl.
    destruct H as (a & _ & l' & t & e & _ & _ & He & ->). simpl.
    destruct (ref_count e =? 1); [by apply map_Forall_delete|].
    apply map_Forall_insert_2; [|done]. simpl. by eapply IH.
Qed.

Lemma resolves_valid (Q : VkT → Prop) s v vk :
  (∀ l vk, validate_vk (I T) l vk = None → Q vk) → reachable s → resolves s v vk → Q vk.
Proof.
  intros HQ Hr Hv. destruct v as [h|k]; [|destruct Hv as [-> Hv]; by eapply HQ].
  destruct Hv as (e & He & ->). by eapply (stored_keys_valid Q s HQ Hr).
Qed.

(** The pallet with another verification routine. *)
Definition set_verify_proof (f : L → VkT → Proof → Pubs → option (VerifyError + option Weight)) : Config L VkT Proof Pubs Tk := {|
  I := {| hash_context_data := hash_context_data (I T); verify_proof := f;
          validate_vk := validate_vk (I T); vk_hash := vk_hash (I T); pubs_bytes := pubs_bytes (I T);
          verifier_version_hash := verifier_version_hash (I T) |};
  Ticket := Ticket T;
  OnProofVerified := OnProofVerified T;
  on_proof_verified_weight := on_proof_verified_weight T;
  keccak_256 := keccak_256 T;
  vk_encoded_size := vk_encoded_size T;
  weight_reads_1 := weight_reads_1 T;
  weight_get_vk := weight_get_vk T;
  weight_validate_vk := weight_validate_vk T;
  weight_verify_proof := weight_verify_proof T;
  weight_statement_hash := weight_statement_hash T;
  on_verify_disabled_verifier := on_verify_disabled_verifier T
|}.

(** Only what a verifier does with keys that pass its check matters. *)
Lemma valid_keys_suffice (Q : VkT → Prop) f s o c :
  (∀ l vk, validate_vk (I T) l vk = None → Q vk) →
  (∀ l vk p u, Q vk → f l vk p u = verify_proof (I T) l vk p u) →
  reachable s → run_call (set_verify_proof f) o c s = run_call T o c s.
Proof.
  intros HQ Hf Hr. destruct c as [v p u d|vk|b|h]; [|done..]. simpl.
  unfold submit_proof, ensure_enabled, mbind, M_bind, gets, ensure, mret, M_ret. simpl.
  destruct (default false (Disabled s)); [done|]. simpl.
  assert (Hv : match resolve_vk T v s with ROk vk s' => s' = s ∧ resolves s v vk | _ => True end).
  { unfold resolve_vk. destruct v as [h|k]; unfold mbind, M_bind, gets, mret, M_ret; simpl.
    - destruct (Vks s !! h) as [e|] eqn:He; [|done]. split; [done|by exists e].
    - by destruct (validate_vk (I T) (Runtime s) k) eqn:E. }
  change (resolve_vk (set_verify_proof f) v s) with (resolve_vk T v s).
  destruct (resolve_vk T v s) as [vk s1|e|]; [|done..]. destruct Hv as [-> Hv].
  destruct (ensure_signed_or_root o s) as [a s1|e|] eqn:Eo; [|done..].
  by rewrite Hf by (by eapply resolves_valid).
Qed.
End invariant.

(** ** Properties *)

(** C36: in every reachable state a stored key is stored under its own hash and its
    reference count is the number of accounts that have a deposit for it; a key
    that is not stored has no deposit.  So no extrinsic reaches the
    [unreachable!] of [unregister_vk], and only the callback and a verifier that
    panics on a key it validated can panic. *)
Theorem vk_references_counted {L VkT Proof Pubs Tk} (T : Config L VkT Proof Pubs Tk) s h o c :
  reachable T s →
  match Vks s !! h with
  | Some e => vk_hash (I T) (entry_vk e) = h ∧ 1 ≤ ref_count e ∧
              ref_count e = Z.of_nat (size (holders (Tickets s) h))
  | None => ∀ a, Tickets s !! (a, h) = None
  end ∧
  ((∀ a d st, OnProofVerified T a d st (Runtime s) ≠ None) →
   (∀ v vk p u, resolves T s v vk → verify_proof (I T) (Runtime s) vk p u ≠ None) →
   (dispatch (run_call T o c) s).2 ≠ Panicked).
Proof.
  intros Hr. pose proof (vk_reachable_inv T s Hr) as Hi. split; [apply Hi|]. intros Hcb Hver.
  pose proof (vk_run_call_inv T o c s Hi) as H. unfold dispatch.
  destruct (run_call T o c s); [done..|].
  destruct H as [(v & vk & p & u & Hv & H)|(a & d & st & H)]; [by destruct (Hver v vk p u Hv)|by destruct (Hcb a d st)].
Qed.

(** A proof submitted with the hash of a registered key and with the key itself
    has the same outcome: the same result, the same statement, the same state. *)
Theorem proof_by_hash_or_key {L VkT Proof Pubs Tk} (T : Config L VkT Proof Pubs Tk) s h e o p u d :
  reachable T s → Vks s !! h = Some e → validate_vk (I T) (Runtime s) (entry_vk e) = None →
  dispatch (run_call T o (Call_submit_proof (Hash h) p u d)) s =
  dispatch (run_call T o (Call_submit_proof (Vk (entry_vk e)) p u d)) s.
Proof.
  intros Hr He Hv. pose proof (vk_reachable_inv T s Hr) as Hi.
  pose proof (statement_hash_vk T s h e p u Hi He) as Hst.
  unfold dispatch. simpl. unfold submit_proof, ensure_enabled, resolve_vk.
  unfold mbind, M_bind, gets, ensure, mret, M_ret. destruct (default false (Disabled s)); simpl; [done|].
  rewrite He, Hv. destruct o as [|who|]; simpl; [| |done];
    unfold unwrap; destruct (verify_proof (I T) (Runtime s) (entry_vk e) p u) as [[|w]|]; simpl; try done;
    rewrite Hst; by destruct (OnProofVerified T _ d _ (Runtime s)).
Qed.

(** The deposit of a key comes back: after a registration the same account can
    unregister the key, and then the keys, the deposits, and the free and held
    balances of every account are what they were. *)
Theorem vk_deposit_refunded {R L VkT Proof Pubs} `{EqDecision R, !Hold R string L, !HoldLaws R string L}
    (T : Config L VkT Proof Pubs Z) reason price s s1 a vk :
  Ticket T = HoldConsideration reason price → reachable T s → hold_wf (Runtime s) →
  dispatch (run_call T (Signed a) (Call_register_vk vk)) s = (s1, Done) →
  ∃ s2, dispatch (run_call T (Signed a) (Call_unregister_vk (vk_hash (I T) vk))) s1 = (s2, Done) ∧
    Vks s2 = Vks s ∧ Tickets s2 = Tickets s ∧
    (∀ r b, held (Runtime s2) r b = held (Runtime s) r b) ∧
    (∀ b, free (Runtime s2) b = free (Runtime s) b).
Proof.
  intros HT Hr Hw Hd. pose proof (vk_reachable_inv T s Hr) as Hi.
  pose proof (register_vk_ends T (Signed a) vk s) as He. unfold ends, dispatch in He, Hd. simpl in Hd.
  destruct (register_vk T (Signed a) vk s) as [[] s'|e|]; simplify_eq.
  destruct He as (a' & [= <-] & l1 & t & e & Ht & _ & _ & Hnew & He & Hmax & ->).
  set (h := vk_hash (I T) vk) in *. rewrite HT in Hnew. simpl in Hnew.
  apply bind_Some in Hnew as (l' & Hh & [= -> <-]). set (x := Z.max 0 _) in *.
  destruct (hold_spec _ reason a x l1 Hw ltac:(lia) Hh) as (Hw1 & Hheld & Hfree).
  pose proof (held_nonneg _ reason a Hw) as Hnn.
  pose proof (Hheld reason a) as Hx. rewrite at_key_eq in Hx.
  destruct (release_ok l1 reason a x BestEffort Hw1 ltac:(lia)) as [[l2 y] Hrel].
  destruct (release_spec _ reason a x _ l2 y Hw1 ltac:(lia) Hrel) as (_ & -> & Hheld2 & Hfree2).
  rewrite Z.min_l in Hheld2, Hfree2 by lia.
  unfold dispatch. simpl. unfold unregister_vk, mbind, M_bind, gets, ensure_signed, mret, M_ret, modify.
  simpl. rewrite lookup_insert_eq. simpl. rewrite HT. simpl. rewrite Z.max_r by lia. rewrite Hrel. simpl.
  rewrite lookup_insert_eq. specialize (Hi h). unfold vk_ok in Hi.
  assert (Hbal : (∀ r b, held l2 r b = held (Runtime s) r b) ∧ ∀ b, free l2 b = free (Runtime s) b).
  { split; intros; rewrite ?Hheld2, ?Hheld, ?Hfree2, ?Hfree; lia. }
  destruct (Vks s !! h) as [e0|] eqn:Hv; subst e; simpl.
  - destruct Hi as (_ & H1 & _). rewrite (proj2 (Z.eqb_neq _ 0)) by lia.
    eexists. split; [done|]. simpl. split_and!; [| |apply Hbal..].
    + rewrite insert_insert_eq. replace (Z.max 0 (ref_count e0 + 1 - 1)) with (ref_count e0) by lia.
      destruct e0. by apply insert_id.
    + by apply delete_insert_id.
  - eexists. split; [done|]. simpl. split_and!; [| |apply Hbal..]; by apply delete_insert_id.
Qed.

(** A disabled verifier refuses proofs and keys, whoever sends them, at the cost
    of the check alone; deposits can still be taken back. *)
Lemma disabled_refuses {L VkT Proof Pubs Tk} (T : Config L VkT Proof Pubs Tk) s o v p u d vk :
  Disabled s = Some true →
  dispatch (run_call T o (Call_submit_proof v p u d)) s = (s, Failed (on_disable_error T)) ∧
  dispatch (run_call T o (Call_register_vk vk)) s = (s, Failed (on_disable_error T)).
Proof.
  intros Hd. unfold dispatch. simpl. unfold submit_proof, register_vk, ensure_enabled.
  unfold mbind, M_bind, gets, ensure. by rewrite Hd.
Qed.

(** The weight charged after the verification is at most the weight announced, if
    the verifier only corrects its own part downwards. *)
Definition weight_le (a b : Weight) : Prop := ref_time a ≤ ref_time b ∧ proof_size a ≤ proof_size b.

Lemma compose_mono a a' b b' :
  weight_le a a' → weight_le b b' → weight_le (compose a b) (compose a' b').
Proof. intros [? ?] [? ?]. split; simpl; lia. Qed.

Lemma submit_weight_refunds {L VkT Proof Pubs Tk} (T : Config L VkT Proof Pubs Tk) v p u d w :
  weight_le w (weight_verify_proof T p u) →
  weight_le (submit_proof_weight T v p u d (Some w)) (submit_proof_weight T v p u d None).
Proof.
  intros Hw. unfold submit_proof_weight. simpl. repeat apply compose_mono; try done; by split.
Qed.

(** ** A small instance *)

(** [common::HoldReason] *)
Inductive HoldReason : Type := VkRegistration.

#[export] Instance HoldReason_eq_dec : EqDecision HoldReason.
Proof. solve_decision. Defined.
#[export] Instance HoldReason_countable : Countable HoldReason.
Proof. refine (inj_countable' (λ _, tt) (λ _, VkRegistration) _). by intros []. Defined.

Import HoldLedger.

Definition sample_verifier : Verifier (hledger HoldReason) string string string := {|
  hash_context_data := "sample";
  verify_proof := λ _ vk p u, Some (if bool_decide (p = vk +:+ u) then inr None else inl VerifyFailed);
  validate_vk := λ _ vk, if bool_decide (vk = "") then Some InvalidVerificationKey else None;
  vk_hash := λ vk, "#" +:+ vk;
  pubs_bytes := λ u, u;
  verifier_version_hash := default_version_hash
|}.

Definition no_weight : Weight := {| ref_time := 0; proof_size := 0 |}.

(** A pallet without deposits, fees or callback. *)
Definition bare_config {L VkT Proof Pubs} (V : Verifier L VkT Proof Pubs) (keccak : string → string)
    : Config L VkT Proof Pubs unit := {|
  I := V;
  Ticket := {| ticket_new := λ l _ _ _, Some (l, tt); ticket_update := λ l _ _ _ _, Some (l, tt);
               ticket_drop := λ l _ _, Some l |};
  OnProofVerified := λ _ _ _ l, Some l;
  on_proof_verified_weight := λ _, no_weight;
  keccak_256 := keccak;
  vk_encoded_size := λ _, 0;
  weight_reads_1 := no_weight;
  weight_get_vk := no_weight;
  weight_validate_vk := λ _, no_weight;
  weight_verify_proof := λ _ _, no_weight;
  weight_statement_hash := λ _ _, no_weight;
  on_verify_disabled_verifier := no_weight
|}.

Definition sample_verifiers : Config (hledger HoldReason) string string string Z := {|
  I := sample_verifier;
  Ticket := HoldConsideration VkRegistration (λ count size, 10 ^ 18 + count * size * 10 ^ 15);
  OnProofVerified := λ _ _ _ l, Some l;
  on_proof_verified_weight := λ _, no_weight;
  keccak_256 := λ s, "k(" +:+ s +:+ ")";
  vk_encoded_size := λ vk, Z.of_nat (String.length vk);
  weight_reads_1 := no_weight;
  weight_get_vk := no_weight;
  weight_validate_vk := λ _, no_weight;
  weight_verify_proof := λ _ _, no_weight;
  weight_statement_hash := λ _ _, no_weight;
  on_verify_disabled_verifier := no_weight
|}.

Definition sample_vk_ledger : hledger HoldReason :=
  HLedger (list_to_map ((λ a, (a, 10 ^ 20)) <$> ["alice"; "bob"])) ∅.

(** Two accounts register the same key. *)
Definition sample_vks : state _ string Z :=
  (dispatch (run_call sample_verifiers (Signed "bob") (Call_register_vk "key"))
     (dispatch (run_call sample_verifiers (Signed "alice") (Call_register_vk "key"))
        (State None ∅ ∅ [] sample_vk_ledger)).1).1.

Lemma sample_vks_reachable : reachable sample_verifiers sample_vks.
Proof. unfold sample_vks. do 2 (eapply reach_step; [|apply step_call]). apply reach_init. Qed.

Lemma vk_references_counted_witness :
  (match Vks sample_vks !! "#key" with
   | Some e => vk_hash (I sample_verifiers) (entry_vk e) = "#key" ∧ 1 ≤ ref_count e ∧
               ref_count e = Z.of_nat (size (holders (Tickets sample_vks) "#key"))
   | None => ∀ a, Tickets sample_vks !! (a, "#key") = None
   end ∧
   ((∀ a d st, OnProofVerified sample_verifiers a d st (Runtime sample_vks) ≠ None) →
    (∀ v vk p u, resolves sample_verifiers sample_vks v vk →
       verify_proof (I sample_verifiers) (Runtime sample_vks) vk p u ≠ None) →
    (dispatch (run_call sample_verifiers (Signed "bob") (Call_unregister_vk "#key")) sample_vks).2
      ≠ Panicked)) ∧
  ref_count <$> Vks sample_vks !! "#key" = Some 2.
Proof.
  split; [|vm_compute; reflexivity].
  apply (vk_references_counted sample_verifiers). exact sample_vks_reachable.
Defined.

Lemma proof_by_hash_or_key_witness :
  dispatch (run_call sample_verifiers (Signed "bob")
              (Call_submit_proof (Hash "#key") "keypubs" "pubs" (Some 3))) sample_vks =
  dispatch (run_call sample_verifiers (Signed "bob")
              (Call_submit_proof (Vk "key") "keypubs" "pubs" (Some 3))) sample_vks ∧
  (dispatch (run_call sample_verifiers (Signed "bob")
              (Call_submit_proof (Vk "key") "keypubs" "pubs" (Some 3))) sample_vks).2 = Done.
Proof.
  split; [|vm_compute; reflexivity].
  exact (proof_by_hash_or_key sample_verifiers sample_vks "#key" {| entry_vk := "key"; ref_count := 2 |}
           (Signed "bob") "keypubs" "pubs" (Some 3) sample_vks_reachable eq_refl eq_refl).
Defined.

Definition sample_vks2 : state _ string Z :=
  (dispatch (run_call sample_verifiers (Signed "bob") (Call_register_vk "other")) sample_vks).1.

Lemma sample_vks2_done :
  dispatch (run_call sample_verifiers (Signed "bob") (Call_register_vk "other")) sample_vks =
    (sample_vks2, Done).
Proof. unfold sample_vks2. refine (dispatch_done _ _ _). vm_compute. reflexivity. Qed.

Lemma sample_vks_wf : hold_wf (R:=HoldReason) (Acc:=string) (Runtime sample_vks).
Proof. apply (bool_decide_unpack _). vm_compute. exact Logic.I. Qed.

Lemma vk_deposit_refunded_witness :
  ∃ s2, dispatch (run_call sample_verifiers (Signed "bob") (Call_unregister_vk "#other")) sample_vks2 =
      (s2, Done) ∧
    Vks s2 = Vks sample_vks ∧ Tickets s2 = Tickets sample_vks ∧
    (∀ r b, held (Runtime s2) r b = held (Runtime sample_vks) r b) ∧
    (∀ b, free (Runtime s2) b = free (Runtime sample_vks) b).
Proof.
  exact (vk_deposit_refunded sample_verifiers VkRegistration _ sample_vks sample_vks2 "bob" "other"
           eq_refl sample_vks_reachable sample_vks_wf sample_vks2_done).
Defined.
