(* ===== verification/StatementHash.v ===== *)
(** * What a statement hash commits to ([compute_statement_hash] of [pallets/verifiers/src/lib.rs])

    The statement of a verified proof is a hash of four digests: of the
    verifier's context, of the key, of the verifier's version and of the public
    inputs.  All are of the same length, so equal statements have equal digests,
    or the hash collides on strings that are known. *)

From S2P Require Import Prelude JsString Merkle Frame Holds Verifiers.

Open Scope Z_scope.

(** The digest of the key in a statement. *)
Definition key_hash {L VkT Proof Pubs Tk} (T : Config L VkT Proof Pubs Tk) (v : VkOrHash VkT) : string :=
  match v with Hash h => h | Vk vk => vk_hash (I T) vk end.

(** The string hashed last. *)
Definition preimage {L VkT Proof Pubs Tk} (T : Config L VkT Proof Pubs Tk) (v : VkOrHash VkT)
    (p : Proof) (u : Pubs) : string :=
  keccak_256 T (hash_context_data (I T)) +:+ key_hash T v +:+ verifier_version_hash (I T) p
    +:+ keccak_256 T (pubs_bytes (I T) u).

Definition collides (keccak : string → string) (a b : string) : Prop := a ≠ b ∧ keccak a = keccak b.

Lemma same_or_collides keccak a b : keccak a = keccak b → a = b ∨ collides keccak a b.
Proof. intros H. destruct (decide (a = b)); [by left|by right]. Qed.

Lemma equal_statements {L VkT Proof Pubs Tk L' VkT' Proof' Pubs' Tk'}
    (T : Config L VkT Proof Pubs Tk) (T' : Config L' VkT' Proof' Pubs' Tk') n v p u v' p' u' :
  (∀ x, keccak_256 T x = keccak_256 T' x) → (∀ x, String.length (keccak_256 T x) = n) →
  String.length (key_hash T v) = n → String.length (key_hash T' v') = n →
  String.length (verifier_version_hash (I T) p) = n →
  String.length (verifier_version_hash (I T') p') = n →
  compute_statement_hash T v p u = compute_statement_hash T' v' p' u' →
  (hash_context_data (I T) = hash_context_data (I T') ∧ key_hash T v = key_hash T' v' ∧
   verifier_version_hash (I T) p = verifier_version_hash (I T') p' ∧
   pubs_bytes (I T) u = pubs_bytes (I T') u') ∨
  collides (keccak_256 T) (preimage T v p u) (preimage T' v' p' u') ∨
  collides (keccak_256 T) (hash_context_data (I T)) (hash_context_data (I T')) ∨
  collides (keccak_256 T) (pubs_bytes (I T) u) (pubs_bytes (I T') u').
Proof.
  intros Hk Hn Hv Hv' Hp Hp' E.
  assert (E' : keccak_256 T (preimage T v p u) = keccak_256 T (preimage T' v' p' u')).
  { etransitivity; [exact E|]. symmetry. apply Hk. }
  apply same_or_collides in E' as [E'|E']; [|tauto]. unfold preimage in E'. rewrite <- !Hk in E'.
  apply append_split_l in E' as [E1 E']; [|by rewrite !Hn].
  apply append_split_l in E' as [E2 E']; [|by rewrite Hv, Hv'].
  apply append_split_l in E' as [E3 E4]; [|by rewrite Hp, Hp'].
  apply same_or_collides in E1 as [E1|E1]; [|tauto].
  apply same_or_collides in E4 as [E4|E4]; [|tauto]. left. by split_and!.
Qed.

(** A statement determines the proof system, the key's hash, the version and the
    bytes of the public inputs, also across verifiers: if two submissions have
    the same statement then these agree, or the hash collides on the last
    preimages, on the contexts or on the public inputs.  Digests have one
    length. *)
Theorem statement_binds {L VkT Proof Pubs Tk L' VkT' Proof' Pubs' Tk'}
    (T : Config L VkT Proof Pubs Tk) (T' : Config L' VkT' Proof' Pubs' Tk') n v p u v' p' u' :
  (∀ x, keccak_256 T x = keccak_256 T' x) → (∀ x, String.length (keccak_256 T x) = n) →
  String.length (key_hash T v) = n → String.length (key_hash T' v') = n →
  String.length (verifier_version_hash (I T) p) = n →
  String.length (verifier_version_hash (I T') p') = n →
  compute_statement_hash T v p u = compute_statement_hash T' v' p' u' →
  (hash_context_data (I T) = hash_context_data (I T') ∧ key_hash T v = key_hash T' v' ∧
   verifier_version_hash (I T) p = verifier_version_hash (I T') p' ∧
   pubs_bytes (I T) u = pubs_bytes (I T') u') ∨
  collides (keccak_256 T) (preimage T v p u) (preimage T' v' p' u') ∨
  collides (keccak_256 T) (hash_context_data (I T)) (hash_context_data (I T')) ∨
  collides (keccak_256 T) (pubs_bytes (I T) u) (pubs_bytes (I T') u').
Proof. apply equal_statements. Qed.

(** ** A pallet with digests of 64 digits *)

Definition digest64 (s : string) : string :=
  "0x" +:+ if decide (String.length (sample_keccak s) = 64%nat) then sample_keccak s else sample_keccak "".

Lemma digest64_length s : String.length (digest64 s) = 66%nat.
Proof. unfold digest64. rewrite length_append. case_decide as H; [by rewrite H|vm_compute; reflexivity]. Qed.

Definition sample_digests : Config unit string string string unit :=
  bare_config {| hash_context_data := "sample"; verify_proof := λ _ _ _ _, Some (inr None);
                 validate_vk := default_validate_vk; vk_hash := digest64; pubs_bytes := λ u, u;
                 verifier_version_hash := default_version_hash |} digest64.

Lemma statement_binds_witness :
  ("sample" = "sample" ∧ digest64 "key" = digest64 "key" ∧ NO_VERSION_HASH = NO_VERSION_HASH ∧ "pubs" = "pubs") ∨
  collides digest64 (preimage sample_digests (Hash (digest64 "key")) "proof" "pubs")
    (preimage sample_digests (Vk "key") "other" "pubs") ∨
  collides digest64 "sample" "sample" ∨ collides digest64 "pubs" "pubs".
Proof.
  exact (statement_binds sample_digests sample_digests 66 (Hash (digest64 "key")) "proof" "pubs"
           (Vk "key") "other" "pubs" (λ x, eq_refl) digest64_length (digest64_length "key")
           (digest64_length "key") eq_refl eq_refl eq_refl).
Defined.
