(* ===== verification/TeeVerifier.v ===== *)
(** * The TEE verifier ([verifiers/tee/src/lib.rs])

    The instance of [Verifier] for attestations of trusted execution
    environments.  It reads the time and the revocation lists of the CRL pallet.
    Parsing and checking of quotes, attestations and TCB responses are
    third-party: parameters. *)

From S2P Require Import Prelude Frame Holds Crl Verifiers.

Open Scope Z_scope.

Definition MAX_VK_LENGTH : Z := 65536.
Definition MAX_PROOF_LENGTH : Z := 65536.
Definition MAX_PUBS_LENGTH : Z := 0.

Inductive TeeVk : Type :=
  | Intel (tcb_response certificates : string)
  | Nitro.

Section tee.
(** The runtime, and where the CRL pallet's state is in it. *)
Context {L : Type} (crl_state : L → Crl.state) (C : Crl.Config).
Context (ca_name_for : TeeVk → string).
Context (intel_weight nitro_weight : Weight).

(** The [tee-verifier] package. *)
Context {Quote TcbInfo TcbResponse Attestation : Type}.
Context (intel_parse_quote : string → option Quote).
Context (intel_parse_tcb_response : string → option TcbInfo).
Context (tcb_info_verify : TcbInfo → Z → bool).
Context (quote_verify : Quote → TcbInfo → list RevokedInfo → Z → bool).
Context (json_tcb_response : string → option TcbResponse).
Context (tcb_response_verify : TcbResponse → string → list RevokedInfo → Z → bool).
Context (nitro_parse_attestation : string → option Attestation).
Context (attestation_verify : Attestation → list RevokedInfo → Z → bool).

Definition tee_verify_proof (l : L) (vk : TeeVk) (proof pubs : string)
    : VerifyError + option Weight :=
  if MAX_PROOF_LENGTH <? len proof then inl InvalidProofData
  else if MAX_PUBS_LENGTH <? len pubs then inl InvalidInput
  else
    let now := Now (crl_state l) in
    match get_crl C (crl_state l) (ca_name_for vk) with
    | None => inl VerifyFailed
    | Some crl =>
        match vk with
        | Intel tcb_response certificates =>
            if negb ((len tcb_response <=? MAX_VK_LENGTH) && (len certificates <=? MAX_VK_LENGTH)
                     && negb (bool_decide (tcb_response = "")) && negb (bool_decide (certificates = "")))
            then inl InvalidVerificationKey
            else
              match intel_parse_quote proof with
              | None => inl InvalidProofData
              | Some quote =>
                  match intel_parse_tcb_response tcb_response with
                  | None => inl InvalidInput
                  | Some tcb_info =>
                      if negb (tcb_info_verify tcb_info now) then inl VerifyFailed
                      else if quote_verify quote tcb_info crl now then inr (Some intel_weight)
                      else inl VerifyFailed
                  end
              end
        | Nitro =>
            match nitro_parse_attestation proof with
            | None => inl InvalidProofData
            | Some attestation =>
                if attestation_verify attestation crl now then inr (Some nitro_weight)
                else inl VerifyFailed
            end
        end
    end.

Definition tee_validate_vk (l : L) (vk : TeeVk) : option VerifyError :=
  match vk with
  | Intel tcb_response certificates =>
      if (MAX_VK_LENGTH <? len tcb_response) || (MAX_VK_LENGTH <? len certificates)
         || bool_decide (tcb_response = "") || bool_decide (certificates = "")
      then Some InvalidVerificationKey
      else
        match json_tcb_response tcb_response with
        | None => Some InvalidVerificationKey
        | Some response =>
            match get_crl C (crl_state l) (ca_name_for vk) with
            | None => Some VerifyFailed
            | Some crl =>
                if tcb_response_verify response certificates crl (Now (crl_state l)) then None
                else Some VerifyFailed
            end
        end
  | Nitro => Some InvalidVerificationKey
  end.

Definition Tee (keccak_256 : string → string) (encode : TeeVk → string)
    : Verifier L TeeVk string string := {|
  hash_context_data := "tee";
  verify_proof := λ l vk proof pubs, Some (tee_verify_proof l vk proof pubs);
  validate_vk := tee_validate_vk;
  vk_hash := default_vk_hash keccak_256 encode;
  pubs_bytes := λ pubs, pubs;
  verifier_version_hash := default_version_hash
|}.

(** ** Properties *)

(** No Nitro attestation can be verified through the pallet: the check of keys
    refuses the Nitro key, which is applied to inline keys and to registrations
    alike, so in every reachable state a proof is refused whichever way the key is
    given. *)
Theorem nitro_never_verified {Tk} (T : Verifiers.Config L TeeVk string string Tk) keccak encode s o p u d :
  I T = Tee keccak encode → Verifiers.reachable T s →
  (dispatch (Verifiers.run_call T o (Call_submit_proof (Vk Nitro) p u d)) s).2 =
    (if default false (Disabled s) then Failed (on_disable_error T)
     else Failed (plain (Verifiers.Pallet EInvalidVerificationKey))) ∧
  ∀ h e, Vks s !! h = Some e → entry_vk e ≠ Nitro.
Proof.
  intros HT Hr. split.
  - unfold dispatch. simpl. unfold submit_proof, ensure_enabled, resolve_vk.
    unfold mbind, M_bind, gets, ensure, mret, M_ret. destruct (default false (Disabled s)); simpl; [done|].
    by rewrite HT.
  - apply (stored_keys_valid T (λ vk, vk ≠ Nitro)); [|done]. intros l vk Hv ->. by rewrite HT in Hv.
Qed.
End tee.

(** ** A runtime with nothing but revocation lists *)

(** [TeeCaNames] of the runtime *)
Definition ca_names (vk : TeeVk) : string :=
  match vk with
  | Intel _ _ => "Intel_SGX_Processor"
  | Nitro => "AWS_Nitro"
  end.

Definition free_tickets {L} : Consideration string L Z := {|
  ticket_new := λ l _ _ _, Some (l, 0);
  ticket_update := λ l _ _ _ _, Some (l, 0);
  ticket_drop := λ l _ _, Some l
|}.

(** Every string is a quote, an attestation or a TCB response, all genuine. *)
Definition sample_tee : Verifier Crl.state TeeVk string string :=
  Tee (λ s, s) sample_crl_config ca_names no_weight no_weight
    Some Some (λ _ _, true) (λ _ _ _ _, true) Some (λ _ _ _ _, true) Some (λ _ _ _, true)
    (λ s, s) (λ vk, match vk with Intel a b => a +:+ b | Nitro => "" end).

Definition sample_tee_config : Verifiers.Config Crl.state TeeVk string string Z := {|
  I := sample_tee;
  Ticket := free_tickets;
  OnProofVerified := λ _ _ _ l, Some l;
  on_proof_verified_weight := λ _, no_weight;
  keccak_256 := λ s, s;
  vk_encoded_size := λ _, 0;
  weight_reads_1 := no_weight;
  weight_get_vk := no_weight;
  weight_validate_vk := λ _, no_weight;
  weight_verify_proof := λ _ _, no_weight;
  weight_statement_hash := λ _ _, no_weight;
  on_verify_disabled_verifier := no_weight
|}.

(** Both authorities are registered. *)
Definition sample_cas : Crl.state :=
  (dispatch (Crl.run_call sample_crl_config Root (Call_register_ca "AWS_Nitro" "root"))
     (dispatch (Crl.run_call sample_crl_config Root (Call_register_ca "Intel_SGX_Processor" "root"))
        (Crl.State ∅ ∅ [] 1)).1).1.

Definition sample_tee_state : Verifiers.state Crl.state TeeVk Z :=
  Verifiers.State None ∅ ∅ [] sample_cas.

Lemma nitro_never_verified_witness :
  ((dispatch (Verifiers.run_call sample_tee_config (Signed "bob")
               (Call_submit_proof (Vk Nitro) "doc" "" None)) sample_tee_state).2 =
     Failed (plain (Verifiers.Pallet EInvalidVerificationKey)) ∧
   ∀ h e, Vks sample_tee_state !! h = Some e → entry_vk e ≠ Nitro) ∧
  verify_proof sample_tee sample_cas Nitro "doc" "" = Some (inr (Some no_weight)) ∧
  (dispatch (Verifiers.run_call sample_tee_config (Signed "bob")
               (Call_submit_proof (Vk (Intel "tcb" "certs")) "quote" "" None)) sample_tee_state).2 = Done.
Proof.
  split; [|split; vm_compute; reflexivity].
  refine (nitro_never_verified _ _ _ _ _ _ _ _ _ _ _ _ _ sample_tee_config _ _ sample_tee_state
            (Signed "bob") "doc" "" None eq_refl _). apply Verifiers.reach_init.
Defined.
