(* ===== verification/Fflonk.v ===== *)
(** * The fflonk verifier ([verifiers/fflonk/src/lib.rs], [verifiers/fflonk/src/vk.rs])

    A key is a record of 256-bit integers, converted to field elements and points
    of [substrate_bn].  Keys given to the pallet are converted with a check that
    the points are on the curve, a verification converts without it.
    [substrate_bn] and [fflonk_verifier] are parameters. *)

From S2P Require Import Prelude Frame Holds Crl Verifiers.

Open Scope Z_scope.

Definition PUBS_SIZE : Z := 32.
Definition PROOF_SIZE : Z := 24 * 32.

(** [Fr], [Fq]: 256-bit integers. *)
Record Fq2 : Type := { real : Z; imaginary : Z }.
Record G1 : Type := { g1_x : Z; g1_y : Z; g1_z : Z }.
Record G2 : Type := { g2_x : Fq2; g2_y : Fq2; g2_z : Fq2 }.

Record FflonkVk : Type := {
  power : Z;
  k1 : Z; k2 : Z; w : Z; w3 : Z; w4 : Z; w8 : Z; wr : Z;
  x2 : G2;
  c0 : G1
}.

Inductive ConvertError : Type := NotAMemberFq | InvalidG1Point | InvalidG2Point.

Section fflonk.
Context {L : Type}.

(** ** [substrate_bn] *)

(** Any 32 bytes make a scalar; [None] is [NotMember]. *)
Context {bnFr bnFq bnFq2 bnG1 bnG2 : Type}.
Context (fr_from_slice : Z → bnFr) (fq_from_slice : Z → option bnFq).
Context (fq2_new : bnFq → bnFq → bnFq2).
Context (bn_g1 : bnFq → bnFq → bnFq → bnG1) (bn_g2 : bnFq2 → bnFq2 → bnFq2 → bnG2).
Context (g1_normalize : bnG1 → bnG1) (g2_normalize : bnG2 → bnG2).
(** [AffineG1::new(p.x(), p.y()).is_ok()] *)
Context (g1_on_curve : bnG1 → bool) (g2_on_curve : bnG2 → bool).

(** ** [fflonk_verifier] *)

Record BnKey : Type := {
  bn_power : Z;
  bn_k1 : bnFr; bn_k2 : bnFr; bn_w : bnFr; bn_w3 : bnFr; bn_w4 : bnFr; bn_w8 : bnFr; bn_wr : bnFr;
  bn_x2 : bnG2;
  bn_c0 : bnG1
}.
Context {BnProof BnPublic : Type}.
Context (proof_try_from : string → option BnProof) (public_from : string → BnPublic).
Context (bn_verify : BnKey → BnProof → BnPublic → bool).

(** ** Conversions *)

Definition try_fq (x : Z) : ConvertError + bnFq :=
  match fq_from_slice x with Some q => inr q | None => inl NotAMemberFq end.

Definition and_then {A B} (r : ConvertError + A) (f : A → ConvertError + B) : ConvertError + B :=
  match r with inl e => inl e | inr a => f a end.
Local Notation "x <- a ;; b" := (and_then a (λ x, b)) (at level 100, a at next level, right associativity).

Definition try_fq2 (x : Fq2) : ConvertError + bnFq2 :=
  r <- try_fq (real x) ;; i <- try_fq (imaginary x) ;; inr (fq2_new r i).

Definition raw_g1 (p : G1) : ConvertError + bnG1 :=
  x <- try_fq (g1_x p) ;; y <- try_fq (g1_y p) ;; z <- try_fq (g1_z p) ;; inr (bn_g1 x y z).

Definition raw_g2 (p : G2) : ConvertError + bnG2 :=
  x <- try_fq2 (g2_x p) ;; y <- try_fq2 (g2_y p) ;; z <- try_fq2 (g2_z p) ;; inr (bn_g2 x y z).

(** [TryInto<substrate_bn::G1>] *)
Definition try_g1 (p : G1) : ConvertError + bnG1 :=
  g <- raw_g1 p ;; if g1_on_curve (g1_normalize g) then inr g else inl InvalidG1Point.

Definition try_g2 (p : G2) : ConvertError + bnG2 :=
  g <- raw_g2 p ;; if g2_on_curve (g2_normalize g) then inr g else inl InvalidG2Point.

(** [try_into_substrate_bn_unchecked] *)
Definition try_g1_unchecked (p : G1) : ConvertError + bnG1 := g <- raw_g1 p ;; inr (g1_normalize g).
Definition try_g2_unchecked (p : G2) : ConvertError + bnG2 := g <- raw_g2 p ;; inr (g2_normalize g).

Definition make_key (vk : FflonkVk) (x : bnG2) (c : bnG1) : BnKey := {|
  bn_power := power vk;
  bn_k1 := fr_from_slice (k1 vk);
  bn_k2 := fr_from_slice (k2 vk);
  bn_w := fr_from_slice (w vk);
  bn_w3 := fr_from_slice (w3 vk);
  bn_w4 := fr_from_slice (w4 vk);
  bn_w8 := fr_from_slice (w8 vk);
  bn_wr := fr_from_slice (wr vk);
  bn_x2 := x;
  bn_c0 := c
|}.

(** [TryInto<fflonk_verifier::VerificationKey>] *)
Definition try_key (vk : FflonkVk) : ConvertError + BnKey :=
  x <- try_g2 (x2 vk) ;; c <- try_g1 (c0 vk) ;; inr (make_key vk x c).

Definition try_into_fflonk_vk_unchecked (vk : FflonkVk) : ConvertError + BnKey :=
  x <- try_g2_unchecked (x2 vk) ;; c <- try_g1_unchecked (c0 vk) ;; inr (make_key vk x c).

(** ** The verifier *)

Definition fflonk_verify_proof (vk : FflonkVk) (raw_proof raw_pubs : string) : VerifyError + option Weight :=
  match try_into_fflonk_vk_unchecked vk with
  | inl _ => inl InvalidVerificationKey
  | inr vk =>
      let pubs := public_from raw_pubs in
      match proof_try_from raw_proof with
      | None => inl InvalidProofData
      | Some proof => if bn_verify vk proof pubs then inr None else inl VerifyFailed
      end
  end.

Definition fflonk_validate_vk (vk : FflonkVk) : option VerifyError :=
  match try_key vk with inl _ => Some InvalidVerificationKey | inr _ => None end.

Definition Fflonk (keccak_256 : string → string) (encode : FflonkVk → string)
    : Verifier L FflonkVk string string := {|
  hash_context_data := "fflonk";
  verify_proof := λ _ vk proof pubs, Some (fflonk_verify_proof vk proof pubs);
  validate_vk := λ _ vk, fflonk_validate_vk vk;
  vk_hash := default_vk_hash keccak_256 encode;
  pubs_bytes := λ pubs, pubs;
  verifier_version_hash := default_version_hash
|}.

(** ** Properties *)

(** Both conversions of a valid key succeed, and the unchecked one has points on
    the curve. *)
Lemma valid_fflonk_key vk :
  fflonk_validate_vk vk = None →
  ∃ k, try_into_fflonk_vk_unchecked vk = inr k ∧ g1_on_curve (bn_c0 k) = true ∧ g2_on_curve (bn_x2 k) = true.
Proof.
  unfold fflonk_validate_vk, try_key, try_into_fflonk_vk_unchecked, try_g1, try_g2, try_g1_unchecked, try_g2_unchecked.
  destruct (raw_g2 (x2 vk)) as [|x]; [done|]. simpl. destruct (g2_on_curve (g2_normalize x)) eqn:Hx; [|done].
  destruct (raw_g1 (c0 vk)) as [|c]; [done|]. simpl. destruct (g1_on_curve (g1_normalize c)) eqn:Hc; [|done].
  intros _. eexists. split; [done|]. by split.
Qed.

(** No proof is verified against a point off the curve, although a verification
    does not check it: in every reachable state of the fflonk pallet the key of
    a submission converts to one whose points are on the curve, and the outcome
    is that of the verification with it. *)
Theorem fflonk_keys_on_curve {Tk} (T : Config L FflonkVk string string Tk) keccak encode s v vk p u :
  I T = Fflonk keccak encode → reachable T s → resolves T s v vk →
  ∃ k, try_into_fflonk_vk_unchecked vk = inr k ∧ g1_on_curve (bn_c0 k) = true ∧ g2_on_curve (bn_x2 k) = true ∧
    verify_proof (I T) (Runtime s) vk p u =
      Some (match proof_try_from p with
            | None => inl InvalidProofData
            | Some proof => if bn_verify k proof (public_from u) then inr None else inl VerifyFailed
            end).
Proof.
  intros HT Hr Hv.
  assert (Hval : fflonk_validate_vk vk = None).
  { apply (resolves_valid T (λ vk, fflonk_validate_vk vk = None) s v vk); [|done|done].
    intros l vk' Hl. by rewrite HT in Hl. }
  destruct (valid_fflonk_key vk Hval) as (k & Hk & Hc & Hx). exists k. split_and!; [done..|].
  rewrite HT. simpl. unfold fflonk_verify_proof. by rewrite Hk.
Qed.
End fflonk.

(** ** A toy field *)

(** Integers below 97; a point is on the curve when its first coordinate is odd. *)
Definition toy_fq (x : Z) : option Z := if x <? 97 then Some x else None.
Definition toy_bn_verify (k : BnKey (bnFr:=Z) (bnG1:=Z * Z * Z) (bnG2:=(Z * Z) * (Z * Z) * (Z * Z)))
    (p u : string) : bool := bool_decide (p = u).

Definition toy_Fflonk : Verifier unit FflonkVk string string :=
  Fflonk id toy_fq pair (λ x y z, (x, y, z)) (λ x y z, (x, y, z)) id id
    (λ p, Z.odd p.1.1) (λ p, Z.odd p.1.1.1) Some id toy_bn_verify (λ s, s) (λ _, "key").

Definition toy_fflonk_config : Config unit FflonkVk string string unit :=
  bare_config toy_Fflonk (λ s, s).

Definition toy_fflonk_vk (x : Z) : FflonkVk :=
  let q := {| real := x; imaginary := 0 |} in
  {| power := 1; k1 := 1; k2 := 2; w := 3; w3 := 4; w4 := 5; w8 := 6; wr := 7;
     x2 := {| g2_x := q; g2_y := q; g2_z := q |}; c0 := {| g1_x := x; g1_y := x; g1_z := x |} |}.

(** The key is registered, then used by its hash. *)
Definition toy_fflonk_state : state unit FflonkVk unit :=
  (dispatch (run_call toy_fflonk_config (Signed "alice") (Call_register_vk (toy_fflonk_vk 5)))
     (State None ∅ ∅ [] tt)).1.

Lemma fflonk_keys_on_curve_witness :
  (∃ k, try_into_fflonk_vk_unchecked id toy_fq pair (λ x y z, (x, y, z)) (λ x y z, (x, y, z)) id id
          (toy_fflonk_vk 5) = inr k ∧
    Z.odd (bn_c0 k).1.1 = true ∧ Z.odd (bn_x2 k).1.1.1 = true ∧
    verify_proof toy_Fflonk tt (toy_fflonk_vk 5) "proof" "proof" =
      Some (if toy_bn_verify k "proof" "proof" then inr None else inl VerifyFailed)) ∧
  fflonk_validate_vk id toy_fq pair (λ x y z, (x, y, z)) (λ x y z, (x, y, z)) id id
    (λ p, Z.odd p.1.1) (λ p, Z.odd p.1.1.1) (toy_fflonk_vk 4) = Some InvalidVerificationKey.
Proof.
  split; [|reflexivity].
  apply (fflonk_keys_on_curve id toy_fq pair (λ x y z, (x, y, z)) (λ x y z, (x, y, z)) id id
           (λ p, Z.odd p.1.1) (λ p, Z.odd p.1.1.1) Some id toy_bn_verify toy_fflonk_config (λ s, s) (λ _, "key")
           toy_fflonk_state (Hash "key") (toy_fflonk_vk 5) "proof" "proof").
  - reflexivity.
  - unfold toy_fflonk_state. eapply reach_step; [apply reach_init|apply step_call].
  - eexists. split; [vm_compute; reflexivity|reflexivity].
Defined.
