(* ===== verification/Groth16.v ===== *)
(** * The Groth16 verifier ([verifiers/groth16/src], [primitives/hp-groth16/src], [native/src/groth16.rs])

    Keys, proofs and scalars are bytes that arkworks reads as points and field
    elements of one of two curves; arkworks is a parameter.  Keys are checked
    when they are given to the pallet and read without checks when a proof is
    verified: the pallet behaves as if they were checked each time.  The public
    inputs enter the statement as one string of bytes. *)

From S2P Require Import Prelude JsString Frame Holds Crl Verifiers.

Open Scope Z_scope.

(** ** Data *)

Inductive Curve : Type := Bn254 | Bls12_381.

#[export] Instance Curve_eq_dec : EqDecision Curve.
Proof. solve_decision. Defined.

(** [hp_groth16::Proof] and [VerificationKey]: points as bytes. *)
Record Groth16Proof : Type := { point_a : string; point_b : string; point_c : string }.

Record VerificationKey : Type := {
  alpha_g1 : string;
  beta_g2 : string;
  gamma_g2 : string;
  delta_g2 : string;
  gamma_abc_g1 : list string
}.

Record VerificationKeyWithCurve : Type := { vk_curve : Curve; vk_key : VerificationKey }.
Record ProofWithCurve : Type := { proof_curve : Curve; proof : Groth16Proof }.

Inductive Groth16Error : Type :=
  | G16InvalidProof
  | G16InvalidVerificationKey
  | G16InvalidInput
  | G16VerifyError.

(** [From<Groth16Error> for VerifyError] *)
Definition into_verify_error (e : Groth16Error) : VerifyError :=
  match e with
  | G16InvalidProof => InvalidProofData
  | G16InvalidVerificationKey => InvalidVerificationKey
  | G16InvalidInput => InvalidInput
  | G16VerifyError => VerifyFailed
  end.

Definition MAX_NUM_INPUTS : Z := 64.

Section groth16.
Context {L : Type}.

(** ** Arkworks *)

(** Points and scalars of both curves; reading with and without the check that
    a point is on the curve and in the right subgroup. *)
Context {P1 P2 F : Type}.
Context (g1 g1_unchecked : Curve → string → option P1).
Context (g2 g2_unchecked : Curve → string → option P2).
Context (scalar : Curve → string → option F).

Record ArkKey : Type := { ark_alpha : P1; ark_beta : P2; ark_gamma : P2; ark_delta : P2; ark_abc : list P1 }.
Record ArkProof : Type := { ark_a : P1; ark_b : P2; ark_c : P1 }.

(** [Groth16::verify_proof] with the prepared key; [None] is an error. *)
Context (ark_verify : Curve → ArkKey → ArkProof → list F → option bool).

(** ** [primitives/hp-groth16] *)

Definition ark_proof (c : Curve) (p : Groth16Proof) : option ArkProof :=
  a ← g1 c (point_a p); b ← g2 c (point_b p); c' ← g1 c (point_c p);
  Some {| ark_a := a; ark_b := b; ark_c := c' |}.

(** [TryFrom<VerificationKey>] and [try_into_ark_unchecked] *)
Definition ark_key (c : Curve) (vk : VerificationKey) : option ArkKey :=
  alpha ← g1 c (alpha_g1 vk); beta ← g2 c (beta_g2 vk); gamma ← g2 c (gamma_g2 vk);
  delta ← g2 c (delta_g2 vk); abc ← mapM (g1 c) (gamma_abc_g1 vk);
  Some {| ark_alpha := alpha; ark_beta := beta; ark_gamma := gamma; ark_delta := delta; ark_abc := abc |}.

Definition try_into_ark_unchecked (c : Curve) (vk : VerificationKey) : option ArkKey :=
  alpha ← g1_unchecked c (alpha_g1 vk); beta ← g2_unchecked c (beta_g2 vk);
  gamma ← g2_unchecked c (gamma_g2 vk); delta ← g2_unchecked c (delta_g2 vk);
  abc ← mapM (g1_unchecked c) (gamma_abc_g1 vk);
  Some {| ark_alpha := alpha; ark_beta := beta; ark_gamma := gamma; ark_delta := delta; ark_abc := abc |}.

(** [verify_proof::<E>], with the reading of keys as an argument. *)
Definition hp_verify_proof_with (read_key : Curve → VerificationKey → option ArkKey) (c : Curve)
    (vk : VerificationKey) (p : Groth16Proof) (inputs : list string) : Groth16Error + bool :=
  match ark_proof c p with
  | None => inl G16InvalidProof
  | Some p =>
      match read_key c vk with
      | None => inl G16InvalidVerificationKey
      | Some vk =>
          match mapM (scalar c) inputs with
          | None => inl G16InvalidInput
          | Some inputs =>
              match ark_verify c vk p inputs with
              | None => inl G16VerifyError
              | Some b => inr b
              end
          end
      end
  end.

Definition hp_verify_proof := hp_verify_proof_with try_into_ark_unchecked.

Definition hp_validate_key (c : Curve) (vk : VerificationKey) : option Groth16Error :=
  match ark_key c vk with
  | Some _ => None
  | None => Some G16InvalidVerificationKey
  end.

(** ** [verifiers/groth16] *)

Definition groth16_verify_with (hp : Curve → VerificationKey → Groth16Proof → list string → Groth16Error + bool)
    (max_num_inputs : Z) (vk : VerificationKeyWithCurve) (p : ProofWithCurve) (pubs : list string)
    : VerifyError + option Weight :=
  if max_num_inputs <? Z.of_nat (length pubs) then inl InvalidInput
  else if negb (Z.of_nat (length pubs) + 1 =? Z.of_nat (length (gamma_abc_g1 (vk_key vk))))
  then inl InvalidInput
  else if negb (bool_decide (proof_curve p = vk_curve vk)) then inl InvalidProofData
  else
    match hp (vk_curve vk) (vk_key vk) (proof p) pubs with
    | inl e => inl (into_verify_error e)
    | inr true => inr None
    | inr false => inl VerifyFailed
    end.

Definition groth16_verify_proof := groth16_verify_with hp_verify_proof.

Definition groth16_validate_vk (vk : VerificationKeyWithCurve) : option VerifyError :=
  into_verify_error <$> hp_validate_key (vk_curve vk) (vk_key vk).

(** The bytes of the scalars, one after the other. *)
Definition groth16_pubs_bytes (pubs : list string) : string := foldr String.append "" pubs.

Definition Groth16 (max_num_inputs : Z) (keccak_256 : string → string)
    (encode : VerificationKeyWithCurve → string)
    : Verifier L VerificationKeyWithCurve ProofWithCurve (list string) := {|
  hash_context_data := "groth16";
  verify_proof := λ _ vk p pubs, Some (groth16_verify_proof max_num_inputs vk p pubs);
  validate_vk := λ _ vk, groth16_validate_vk vk;
  vk_hash := default_vk_hash keccak_256 encode;
  pubs_bytes := groth16_pubs_bytes;
  verifier_version_hash := default_version_hash
|}.

(** ** Keys *)

(** Skipping the check does not change a point that would pass it. *)
Definition unchecked_agree : Prop :=
  (∀ c s P, g1 c s = Some P → g1_unchecked c s = Some P) ∧
  (∀ c s P, g2 c s = Some P → g2_unchecked c s = Some P).

Lemma mapM_agree {A} (f g : string → option A) l xs :
  (∀ s x, f s = Some x → g s = Some x) → mapM f l = Some xs → mapM g l = Some xs.
Proof.
  intros H. revert xs. induction l as [|s l IH]; intros xs; [done|]. cbn.
  intros (x & Hx & (ys & Hys & [= <-])%bind_Some)%bind_Some.
  rewrite (H _ _ Hx). cbn. by rewrite (IH _ Hys).
Qed.

Lemma valid_key_unchecked c vk k :
  unchecked_agree → ark_key c vk = Some k → try_into_ark_unchecked c vk = Some k.
Proof.
  intros [H1 H2]. unfold ark_key, try_into_ark_unchecked.
  intros (a & Ha & (b & Hb & (g & Hg & (d & Hd & (abc & Habc & [= <-])%bind_Some)%bind_Some)%bind_Some)%bind_Some)%bind_Some.
  rewrite (H1 _ _ _ Ha), (H2 _ _ _ Hb), (H2 _ _ _ Hg), (H2 _ _ _ Hd). cbn.
  by rewrite (mapM_agree _ _ _ _ (H1 c) Habc).
Qed.

(** The verification that checks the key again. *)
Definition checked_verify_proof (max_num_inputs : Z) (_ : L) (vk : VerificationKeyWithCurve)
    (p : ProofWithCurve) (pubs : list string) : option (VerifyError + option Weight) :=
  Some (groth16_verify_with (hp_verify_proof_with ark_key) max_num_inputs vk p pubs).

Lemma valid_key_verify max vk p pubs :
  unchecked_agree → groth16_validate_vk vk = None →
  groth16_verify_with (hp_verify_proof_with ark_key) max vk p pubs = groth16_verify_proof max vk p pubs.
Proof.
  intros Hu Hv. unfold groth16_validate_vk, hp_validate_key in Hv.
  destruct (ark_key (vk_curve vk) (vk_key vk)) as [k|] eqn:Hk; [|done].
  unfold groth16_verify_proof, groth16_verify_with, hp_verify_proof, hp_verify_proof_with.
  by rewrite Hk, (valid_key_unchecked _ _ _ Hu Hk).
Qed.

(** What acceptance means: the library accepted the proof for the points of the
    key, which were checked, and for the scalars of the inputs. *)
Definition ark_accepts (vk : VerificationKeyWithCurve) (pubs : list string) : Prop :=
  ∃ k pi xs, ark_key (vk_curve vk) (vk_key vk) = Some k ∧ mapM (scalar (vk_curve vk)) pubs = Some xs ∧
    ark_verify (vk_curve vk) k pi xs = Some true.

Lemma groth16_accepted max vk p pubs w :
  unchecked_agree → groth16_validate_vk vk = None → groth16_verify_proof max vk p pubs = inr w →
  ark_accepts vk pubs.
Proof.
  intros Hu Hv. rewrite <- (valid_key_verify max vk p pubs Hu Hv). unfold groth16_verify_with, hp_verify_proof_with.
  destruct (_ <? _); [done|]. destruct (negb _); [done|]. destruct (negb _); [done|].
  destruct (ark_proof _ _) as [pi|]; [|done]. destruct (ark_key _ _) as [k|] eqn:Hk; [|done].
  destruct (mapM _ pubs) as [xs|] eqn:Hxs; [|done]. destruct (ark_verify _ k pi xs) as [[]|] eqn:E; [|done..].
  intros _. by exists k, pi, xs.
Qed.

(** ** Public inputs *)

Lemma pubs_bytes_length us :
  len (groth16_pubs_bytes us) = foldr (λ u n, len u + n) 0 us.
Proof.
  induction us as [|u us IH]; [done|]. cbn [groth16_pubs_bytes foldr].
  rewrite <- IH. unfold len. fold (groth16_pubs_bytes us). rewrite length_append. lia.
Qed.

(** Scalars of at least 32 bytes with nothing to spare. *)
Lemma total_length_exact us :
  Forall (λ u, 32 ≤ len u) us →
  32 * Z.of_nat (length us) ≤ foldr (λ u n, len u + n) 0 us ∧
  (foldr (λ u n, len u + n) 0 us = 32 * Z.of_nat (length us) → Forall (λ u, len u = 32) us).
Proof.
  induction 1 as [|u us Hu _ [IH1 IH2]]; [split; [simpl; lia|by constructor]|].
  cbn [foldr length]. split; [lia|]. intros H. constructor; [lia|]. apply IH2. lia.
Qed.

Lemma equal_bytes_equal_inputs us us' :
  Forall (λ u, len u = 32) us → Forall (λ u, len u = 32) us' → length us = length us' →
  groth16_pubs_bytes us = groth16_pubs_bytes us' → us = us'.
Proof.
  intros H. revert us'. induction H as [|u us Hu _ IH]; intros [|u' us'] H' Hl E; try done.
  apply list.Forall_cons in H' as [Hu' H']. injection Hl as Hl. cbn [groth16_pubs_bytes foldr] in E.
  apply append_split_l in E as [-> E]; [|unfold len in *; lia]. by rewrite (IH us' H' Hl E).
Qed.

Lemma accepted_inputs max vk p pubs w :
  (∀ c s x, scalar c s = Some x → 32 ≤ len s) →
  groth16_verify_proof max vk p pubs = inr w →
  Z.of_nat (length pubs) + 1 = Z.of_nat (length (gamma_abc_g1 (vk_key vk))) ∧
  Forall (λ u, 32 ≤ len u) pubs.
Proof.
  intros Hs. unfold groth16_verify_proof, groth16_verify_with, hp_verify_proof, hp_verify_proof_with.
  destruct (_ <? _); [done|]. destruct (Z.eqb_spec (Z.of_nat (length pubs) + 1) (Z.of_nat (length (gamma_abc_g1 (vk_key vk))))) as [E|];
    [|done]. cbn [negb]. destruct (negb _); [done|].
  destruct (ark_proof _ _); [|done]. destruct (try_into_ark_unchecked _ _); [|done].
  destruct (mapM _ pubs) as [xs|] eqn:Hm; [|done]. intros _. split; [done|].
  apply mapM_Some in Hm. clear E. induction Hm as [|u x us xs Hu _ IH]; constructor; eauto.
Qed.

(** Inputs of 32 bytes each are those of any accepted proof with their bytes. *)
Lemma canonical_inputs max vk p us us' w :
  (∀ c s x, scalar c s = Some x → 32 ≤ len s) → groth16_verify_proof max vk p us' = inr w →
  Forall (λ u, len u = 32) us → Z.of_nat (length us) + 1 = Z.of_nat (length (gamma_abc_g1 (vk_key vk))) →
  groth16_pubs_bytes us' = groth16_pubs_bytes us → us' = us.
Proof.
  intros Hs Hw Hus Hn E. destruct (accepted_inputs _ _ _ _ _ Hs Hw) as [Hn' Hf'].
  assert (Hl : length us' = length us) by lia.
  apply total_length_exact in Hf' as [_ Hf']. apply equal_bytes_equal_inputs; [apply Hf'|done..].
  rewrite <- pubs_bytes_length, E, pubs_bytes_length, Hl. clear -Hus.
  induction Hus as [|u us Hu _ IH]; [done|]. cbn [foldr length]. lia.
Qed.
End groth16.

(** ** Properties *)

(** C39: reading keys without checks is safe: in every reachable state of the Groth16
    pallet every extrinsic does what it would do if the key's points were
    checked again at each verification. *)
Theorem groth16_checks_suffice {L P1 P2 F Tk} (g1 g1' : Curve → string → option P1)
    (g2 g2' : Curve → string → option P2) (scalar : Curve → string → option F) ark_verify max keccak encode
    (T : Config L VerificationKeyWithCurve ProofWithCurve (list string) Tk) s o c :
  unchecked_agree g1 g1' g2 g2' →
  I T = Groth16 g1 g1' g2 g2' scalar ark_verify max keccak encode → reachable T s →
  run_call (set_verify_proof T (checked_verify_proof g1 g2 scalar ark_verify max)) o c s = run_call T o c s.
Proof.
  intros Hu HT Hr. apply (valid_keys_suffice T (λ vk, groth16_validate_vk g1 g2 vk = None)); [| |done].
  - intros l vk. by rewrite HT.
  - intros l vk p u Hv. rewrite HT. unfold checked_verify_proof. simpl. f_equal. by apply valid_key_verify.
Qed.

(** A statement with public inputs of 32 bytes each determines them: two proofs
    accepted with the same key whose public inputs have the same bytes, as many
    as canonical scalars take, have the same public inputs. *)
Theorem groth16_inputs_bound {P1 P2 F} (g1 g1' : Curve → string → option P1)
    (g2 g2' : Curve → string → option P2) (scalar : Curve → string → option F) ark_verify max vk p p' us us' w w' :
  (∀ c s x, scalar c s = Some x → 32 ≤ len s) →
  groth16_verify_proof g1 g1' g2 g2' scalar ark_verify max vk p us = inr w →
  groth16_verify_proof g1 g1' g2 g2' scalar ark_verify max vk p' us' = inr w' →
  groth16_pubs_bytes us = groth16_pubs_bytes us' →
  len (groth16_pubs_bytes us) = 32 * Z.of_nat (length us) → us = us'.
Proof.
  intros Hs Hw Hw' E Hl.
  destruct (accepted_inputs _ _ _ _ _ _ _ _ _ _ _ Hs Hw) as [En Hf].
  destruct (accepted_inputs _ _ _ _ _ _ _ _ _ _ _ Hs Hw') as [En' Hf'].
  assert (Hn : length us = length us') by lia.
  apply total_length_exact in Hf as [_ Hf], Hf' as [_ Hf'].
  apply equal_bytes_equal_inputs; [apply Hf|apply Hf'|done|done]; rewrite <- pubs_bytes_length.
  - done.
  - by rewrite <- E, <- Hn.
Qed.

(** Without that length they are not determined: arkworks reads the first 32 bytes
    of a scalar, so the same bytes, cut in two ways, are accepted as two
    different lists of inputs with one statement. *)
Lemma groth16_inputs_ambiguous {F} (scalar : Curve → string → option F) c A B C :
  (∀ c s t, len s = 32 → scalar c (s +:+ t) = scalar c s) → len A = 32 → len B = 32 → len C = 32 →
  groth16_pubs_bytes [A +:+ B; C] = groth16_pubs_bytes [A; B +:+ C] ∧
  mapM (scalar c) [A +:+ B; C] = mapM (scalar c) [A; C] ∧
  mapM (scalar c) [A; B +:+ C] = mapM (scalar c) [A; B].
Proof.
  intros Hs HA HB HC. unfold groth16_pubs_bytes. cbn [foldr mapM].
  rewrite !append_assoc, (Hs c A B HA), (Hs c B C HB). done.
Qed.

(** ** A toy curve *)

(** Any non-empty string is a point; one that starts with a question mark is not on
    the curve. *)
Definition toy_unchecked (_ : Curve) (s : string) : option string :=
  if bool_decide (s = "") then None else Some s.
Definition toy_point (_ : Curve) (s : string) : option string :=
  if bool_decide (s = "") || String.prefix "?" s then None else Some s.
Definition toy_scalar (_ : Curve) (s : string) : option string :=
  if 32 <=? len s then Some (String.substring 0 32 s) else None.
Definition toy_verify (_ : Curve) (k : ArkKey (P1:=string) (P2:=string)) (p : ArkProof (P1:=string) (P2:=string))
    (inputs : list string) : option bool := Some (bool_decide (ark_a p = ark_alpha k)).

Definition toy_Groth16 : Verifier unit VerificationKeyWithCurve ProofWithCurve (list string) :=
  Groth16 toy_point toy_unchecked toy_point toy_unchecked toy_scalar toy_verify 64 (λ s, s)
    (λ vk, alpha_g1 (vk_key vk)).

Definition toy_groth16_config : Config unit VerificationKeyWithCurve ProofWithCurve (list string) unit :=
  bare_config toy_Groth16 (λ s, s).

Definition toy_key (alpha : string) : VerificationKeyWithCurve := {|
  vk_curve := Bn254;
  vk_key := {| alpha_g1 := alpha; beta_g2 := "b"; gamma_g2 := "g"; delta_g2 := "d"; gamma_abc_g1 := ["x"; "y"] |}
|}.
Definition toy_proof (a : string) : ProofWithCurve :=
  {| proof_curve := Bn254; proof := {| point_a := a; point_b := "b"; point_c := "c" |} |}.
Definition toy_input : string := "0123456789abcdef0123456789abcdef".

Definition toy_groth16_state : state unit VerificationKeyWithCurve unit := State None ∅ ∅ [] tt.

Lemma toy_agree : unchecked_agree toy_point toy_unchecked toy_point toy_unchecked.
Proof.
  split; intros c s P; unfold toy_point, toy_unchecked; destruct (bool_decide (s = "")); try done;
    by destruct (String.prefix "?" s).
Qed.

Lemma groth16_checks_suffice_witness :
  run_call (set_verify_proof toy_groth16_config (checked_verify_proof toy_point toy_point toy_scalar toy_verify 64))
    (Signed "bob") (Call_submit_proof (Vk (toy_key "a")) (toy_proof "a") [toy_input] None) toy_groth16_state =
  run_call toy_groth16_config
    (Signed "bob") (Call_submit_proof (Vk (toy_key "a")) (toy_proof "a") [toy_input] None) toy_groth16_state ∧
  (dispatch (run_call toy_groth16_config
    (Signed "bob") (Call_submit_proof (Vk (toy_key "a")) (toy_proof "a") [toy_input] None)) toy_groth16_state).2 = Done ∧
  groth16_verify_proof toy_point toy_unchecked toy_point toy_unchecked toy_scalar toy_verify 64
    (toy_key "?") (toy_proof "?") [toy_input] = inl InvalidProofData.
Proof.
  split; [|split; vm_compute; reflexivity].
  exact (groth16_checks_suffice toy_point toy_unchecked toy_point toy_unchecked toy_scalar toy_verify 64
           (λ s, s) (λ vk, alpha_g1 (vk_key vk)) toy_groth16_config toy_groth16_state (Signed "bob")
           (Call_submit_proof (Vk (toy_key "a")) (toy_proof "a") [toy_input] None)
           toy_agree eq_refl (reach_init toy_groth16_config tt)).
Defined.

Lemma toy_scalar_length c s x : toy_scalar c s = Some x → 32 ≤ len s.
Proof. unfold toy_scalar. destruct (Z.leb_spec 32 (len s)); [done|discriminate]. Qed.

Lemma groth16_inputs_bound_witness : [toy_input] = [toy_input].
Proof.
  apply (groth16_inputs_bound toy_point toy_unchecked toy_point toy_unchecked toy_scalar toy_verify 64
           (toy_key "a") (toy_proof "a") (toy_proof "a") [toy_input] [toy_input] None None toy_scalar_length);
    vm_compute; reflexivity.
Defined.
