(* ===== verification/Plonky2.v ===== *)
(** * The Plonky2 verifier ([verifiers/plonky2/src])

    Keys and proofs are bytes with a configuration; [plonky2] and
    [plonky2_verifier] are parameters.  The weight of a verification depends on
    the degree of the circuit, and the code panics on a degree it has no weight
    for. *)

From S2P Require Import Prelude Frame Holds Crl Verifiers.

Open Scope Z_scope.

Inductive Plonky2Config : Type := Keccak | Poseidon.

(** [VkWithConfig] *)
Record Plonky2Vk : Type := { p2_config : Plonky2Config; p2_bytes : string }.

Definition MAX_DEGREE_BITS : Z := 19.

(** [Config]; [w_poseidon n], [w_keccak n] are
    [verify_proof_poseidon_uncompressed_n], [verify_proof_keccak_uncompressed_n]. *)
Record Plonky2Params : Type := {
  MaxProofSize : Z;
  MaxPubsSize : Z;
  MaxVkSize : Z;
  w_poseidon : Z → Weight;
  w_keccak : Z → Weight
}.

(** What [deserialize_vk] gives and the code reads. *)
Record CommonData : Type := { degree_bits : Z; standard_recursion_config : bool }.

Section plonky2.
Context {L : Type} (T : Plonky2Params).
Context (deserialize_vk : Plonky2Config → string → option CommonData).
(** [plonky2_verifier::verify] of an uncompressed proof *)
Context (p2_verify : Plonky2Vk → string → string → bool).

(** [validate_size] of keys and proofs *)
Definition vk_size_ok (vk : Plonky2Vk) : bool := len (p2_bytes vk) <=? MaxVkSize T.
Definition proof_size_ok (proof : string) : bool := len proof <=? MaxProofSize T.

(** [None] is a panic. *)
Definition compute_weight (degree_bits : Z) (config : Plonky2Config) : option Weight :=
  let weight := match config with Poseidon => w_poseidon T | Keccak => w_keccak T end in
  if degree_bits =? 1 then Some (weight 2)
  else if (2 <=? degree_bits) && (degree_bits <=? 19) then Some (weight degree_bits)
  else None.

Definition plonky2_verify_proof (vk : Plonky2Vk) (raw_proof raw_pubs : string)
    : option (VerifyError + option Weight) :=
  if negb (vk_size_ok vk) then Some (inl InvalidVerificationKey)
  else if negb (proof_size_ok raw_proof) then Some (inl InvalidProofData)
  else if MaxPubsSize T <? len raw_pubs then Some (inl InvalidInput)
  else
    match deserialize_vk (p2_config vk) (p2_bytes vk) with
    | None => Some (inl InvalidVerificationKey)
    | Some common =>
        match compute_weight (degree_bits common) (p2_config vk) with
        | None => None
        | Some w => Some (if p2_verify vk raw_proof raw_pubs then inr (Some w) else inl VerifyFailed)
        end
    end.

Definition validate_vk_inner (config : Plonky2Config) (bytes : string) : bool :=
  match deserialize_vk config bytes with
  | None => false
  | Some common => (degree_bits common <=? MAX_DEGREE_BITS) && standard_recursion_config common
  end.

Definition plonky2_validate_vk (vk : Plonky2Vk) : option VerifyError :=
  if negb (vk_size_ok vk) then Some InvalidVerificationKey
  else if validate_vk_inner (p2_config vk) (p2_bytes vk) then None
  else Some InvalidVerificationKey.

Definition Plonky2 (keccak_256 : string → string) (encode : Plonky2Vk → string)
    : Verifier L Plonky2Vk string string := {|
  hash_context_data := "plonky2";
  verify_proof := λ _ vk proof pubs, plonky2_verify_proof vk proof pubs;
  validate_vk := λ _ vk, plonky2_validate_vk vk;
  vk_hash := default_vk_hash keccak_256 encode;
  pubs_bytes := λ pubs, pubs;
  verifier_version_hash := default_version_hash
|}.

(** [Plonky2Weight::verify_proof] *)
Definition plonky2_weight (proof pubs : string) : Weight := w_poseidon T 19.

(** ** Lemmas *)

(** [degree_bits] is unsigned. *)
Definition degrees_unsigned : Prop := ∀ c b x, deserialize_vk c b = Some x → 0 ≤ degree_bits x.

Lemma compute_weight_panics d c : compute_weight d c = None ↔ d < 1 ∨ 19 < d.
Proof.
  unfold compute_weight. destruct (Z.eqb_spec d 1); [split; [done|lia]|].
  destruct (Z.leb_spec 2 d), (Z.leb_spec d 19); simpl; split; try done; lia.
Qed.

(** The degree of a valid key. *)
Lemma valid_degree vk :
  degrees_unsigned → plonky2_validate_vk vk = None →
  ∃ x, deserialize_vk (p2_config vk) (p2_bytes vk) = Some x ∧ 0 ≤ degree_bits x ≤ 19 ∧ vk_size_ok vk = true.
Proof.
  intros Hu. unfold plonky2_validate_vk, validate_vk_inner. destruct (vk_size_ok vk) eqn:Hs; [|done].
  simpl. destruct (deserialize_vk _ _) as [x|] eqn:Hx; [|done].
  destruct (Z.leb_spec (degree_bits x) MAX_DEGREE_BITS); [|done]. unfold MAX_DEGREE_BITS in *.
  intros _. exists x. pose proof (Hu _ _ _ Hx). split_and!; done || lia.
Qed.

Lemma plonky2_panics vk x p u :
  deserialize_vk (p2_config vk) (p2_bytes vk) = Some x → 0 ≤ degree_bits x ≤ 19 → vk_size_ok vk = true →
  plonky2_verify_proof vk p u = None ↔
  proof_size_ok p = true ∧ len u ≤ MaxPubsSize T ∧ degree_bits x = 0.
Proof.
  intros Hx Hd Hs. unfold plonky2_verify_proof. rewrite Hs, Hx. cbn [negb].
  destruct (proof_size_ok p); cbn [negb]; [|naive_solver].
  destruct (Z.ltb_spec (MaxPubsSize T) (len u)); [split; [done|lia]|].
  pose proof (compute_weight_panics (degree_bits x) (p2_config vk)) as Hp.
  destruct (compute_weight _ _) as [w|].
  - split; [done|]. intros (_ & _ & H0). by assert (Some w = None) as [=] by (apply Hp; lia).
  - destruct Hp as [Hp _]. specialize (Hp eq_refl). split; [|done]. intros _. split_and!; done || lia.
Qed.
End plonky2.

(** ** Properties *)

(** C40: when the Plonky2 pallet panics: in a reachable state a submission with a
    proof and public inputs of admissible size panics in the verifier exactly
    when the degree in its key is 0, which the check of keys lets through;
    otherwise the verifier returns. *)
Theorem plonky2_panics_iff {L Tk} (P : Plonky2Params) deserialize_vk p2_verify keccak encode
    (T : Config L Plonky2Vk string string Tk) s v vk p u :
  degrees_unsigned deserialize_vk → I T = Plonky2 P deserialize_vk p2_verify keccak encode →
  reachable T s → resolves T s v vk →
  ∃ x, deserialize_vk (p2_config vk) (p2_bytes vk) = Some x ∧ 0 ≤ degree_bits x ≤ MAX_DEGREE_BITS ∧
    (verify_proof (I T) (Runtime s) vk p u = None ↔
     len p ≤ MaxProofSize P ∧ len u ≤ MaxPubsSize P ∧ degree_bits x = 0).
Proof.
  intros Hu HT Hr Hv.
  assert (Hval : plonky2_validate_vk P deserialize_vk vk = None).
  { apply (resolves_valid T (λ vk, plonky2_validate_vk P deserialize_vk vk = None) s v vk); [|done|done].
    intros l vk' Hl. by rewrite HT in Hl. }
  destruct (valid_degree P deserialize_vk vk Hu Hval) as (x & Hx & Hd & Hs). exists x. split_and!; [done|lia| |].
  - unfold MAX_DEGREE_BITS. lia.
  - rewrite HT. simpl. rewrite (plonky2_panics P deserialize_vk p2_verify vk x p u Hx Hd Hs).
    unfold proof_size_ok. by rewrite Z.leb_le.
Qed.

(** ** A toy library *)

(** The degree is the number of bytes of the key. *)
Definition toy_deserialize (_ : Plonky2Config) (b : string) : option CommonData :=
  Some {| degree_bits := len b; standard_recursion_config := true |}.

Definition toy_params : Plonky2Params := {|
  MaxProofSize := 10; MaxPubsSize := 10; MaxVkSize := 30;
  w_poseidon := λ n, {| ref_time := n; proof_size := 0 |};
  w_keccak := λ n, {| ref_time := n; proof_size := 0 |}
|}.

Definition toy_plonky2_config : Config unit Plonky2Vk string string unit :=
  bare_config (Plonky2 toy_params toy_deserialize (λ _ _ _, true) (λ s, s) p2_bytes) (λ s, s).

Lemma plonky2_panics_iff_witness :
  (∃ x, toy_deserialize Poseidon "" = Some x ∧ 0 ≤ degree_bits x ≤ MAX_DEGREE_BITS ∧
     (plonky2_verify_proof toy_params toy_deserialize (λ _ _ _, true) {| p2_config := Poseidon; p2_bytes := "" |}
        "proof" "pubs" = None ↔ 5 ≤ 10 ∧ 4 ≤ 10 ∧ degree_bits x = 0)) ∧
  (dispatch (run_call toy_plonky2_config (Signed "bob")
     (Call_submit_proof (Vk {| p2_config := Poseidon; p2_bytes := "" |}) "proof" "pubs" None))
     (State None ∅ ∅ [] tt)).2 = Panicked ∧
  (dispatch (run_call toy_plonky2_config (Signed "bob")
     (Call_submit_proof (Vk {| p2_config := Poseidon; p2_bytes := "key" |}) "proof" "pubs" None))
     (State None ∅ ∅ [] tt)).2 = Done.
Proof.
  split; [|split; vm_compute; reflexivity].
  apply (plonky2_panics_iff toy_params toy_deserialize (λ _ _ _, true) (λ s, s) p2_bytes toy_plonky2_config
           (State None ∅ ∅ [] tt) (Vk {| p2_config := Poseidon; p2_bytes := "" |})
           {| p2_config := Poseidon; p2_bytes := "" |} "proof" "pubs").
  - intros c b x [= <-]. simpl. unfold len. lia.
  - reflexivity.
  - apply reach_init.
  - split; reflexivity.
Defined.
