(* ===== verification/Ultrahonk.v ===== *)
(** * The UltraHonk verifier ([verifiers/ultrahonk/src/lib.rs])

    Proofs and keys carry a protocol version; keys of the time before versions
    are [Legacy].  The [ultrahonk_no_std] packages are parameters.  The weight of
    a version 3.0 verification depends on the size of the circuit. *)

From S2P Require Import Prelude Frame Holds Crl Verifiers.

Open Scope Z_scope.

Definition MIN_BENCHMARKED_LOG_CIRCUIT_SIZE : Z := 7.
Definition MAX_BENCHMARKED_LOG_CIRCUIT_SIZE : Z := 25.

Inductive ProofType : Type := ZK | Plain.

(** [Proof::ZK] and [Proof::Plain] *)
Record HonkProof : Type := { proof_type : ProofType; raw_proof : string }.

Inductive ProtocolVersion : Type := V0_84 | V3_0 | Legacy.

#[export] Instance ProtocolVersion_eq_dec : EqDecision ProtocolVersion.
Proof. solve_decision. Defined.

(** [VersionedProof], [VersionedVk] *)
Record VersionedProof : Type := { proof_version : ProtocolVersion; inner_proof : HonkProof }.
Record VersionedVk : Type := { honk_version : ProtocolVersion; honk_bytes : string }.

(** The packages' errors. *)
Inductive HonkError : Type :=
  | VerificationError
  | PublicInputError
  | KeyError
  | InvalidProofError
  | OtherError.

Definition into_verify_error (e : HonkError) : VerifyError :=
  match e with
  | VerificationError => VerifyFailed
  | PublicInputError => InvalidInput
  | KeyError => InvalidVerificationKey
  | InvalidProofError => InvalidProofData
  | OtherError => VerifyFailed
  end.

(** [Config] *)
Record HonkParams : Type := {
  MaxPubs : Z;
  verify_zk_proof_v3_0 : Z → Weight;
  verify_plain_proof_v3_0 : Z → Weight;
  verify_zk_proof_v0_84 : Weight;
  verify_plain_proof_v0_84 : Weight
}.

Section ultrahonk.
Context {L : Type} (T : HonkParams).
(** [None] is [Ok]. *)
Context (verify_v0_84 verify_v3_0 : string → HonkProof → list string → option HonkError).
(** Proofs of version 0.84 have a fixed size. *)
Context (proof_size_v0_84 : ProofType → Z).
Context (key_v0_84 key_v3_0 : string → bool).            (* [VerificationKey::try_from(..).is_ok()] *)
Context (extract_log_circuit_size : string → option Z).
Context (keccak_256 sha2_256 : string → string) (encode : VersionedVk → string).

Definition valid_log_circuit_size (vk_bytes : string) : VerifyError + Z :=
  match extract_log_circuit_size vk_bytes with
  | None => inl InvalidVerificationKey
  | Some log_circuit_size =>
      if log_circuit_size <=? MAX_BENCHMARKED_LOG_CIRCUIT_SIZE then inr log_circuit_size
      else inl InvalidVerificationKey
  end.

(** [None] is a panic. *)
Definition honk_compute_weight (protocol_version : ProtocolVersion) (t : ProofType) (log_circuit_size : Z)
    : option Weight :=
  let log_n := Z.max log_circuit_size MIN_BENCHMARKED_LOG_CIRCUIT_SIZE in
  match protocol_version, t with
  | V3_0, ZK => Some (verify_zk_proof_v3_0 T log_n)
  | V3_0, Plain => Some (verify_plain_proof_v3_0 T log_n)
  | _, _ => None
  end.

Definition verify_0_84 (vk_bytes : string) (p : HonkProof) (pubs : list string) : VerifyError + option Weight :=
  if negb (len (raw_proof p) =? proof_size_v0_84 (proof_type p)) then inl InvalidProofData
  else
    match verify_v0_84 vk_bytes p pubs with
    | Some e => inl (into_verify_error e)
    | None => inr None
    end.

Definition verify_3_0 (version : ProtocolVersion) (vk_bytes : string) (p : HonkProof) (pubs : list string)
    : option (VerifyError + option Weight) :=
  match valid_log_circuit_size vk_bytes with
  | inl e => Some (inl e)
  | inr log_circuit_size =>
      match verify_v3_0 vk_bytes p pubs with
      | Some e => Some (inl (into_verify_error e))
      | None =>
          match honk_compute_weight version (proof_type p) log_circuit_size with
          | Some w => Some (inr (Some w))
          | None => None
          end
      end
  end.

Definition ultrahonk_verify_proof (vk : VersionedVk) (p : VersionedProof) (pubs : list string)
    : option (VerifyError + option Weight) :=
  if MaxPubs T <? Z.of_nat (length pubs) then Some (inl InvalidInput)
  else
    match proof_version p, honk_version vk with
    | V0_84, V0_84 | Legacy, Legacy => Some (verify_0_84 (honk_bytes vk) (inner_proof p) pubs)
    | V3_0, V3_0 => verify_3_0 (proof_version p) (honk_bytes vk) (inner_proof p) pubs
    | _, _ => Some (inl VerifyFailed)
    end.

Definition ultrahonk_validate_vk (vk : VersionedVk) : option VerifyError :=
  let ok := match honk_version vk with
            | V0_84 | Legacy => key_v0_84 (honk_bytes vk)
            | V3_0 => key_v3_0 (honk_bytes vk)
            end in
  if ok : bool then None else Some InvalidVerificationKey.

Definition ultrahonk_vk_bytes (vk : VersionedVk) : string :=
  match honk_version vk with Legacy => honk_bytes vk | _ => encode vk end.

Definition ultrahonk_vk_hash (vk : VersionedVk) : string :=
  match honk_version vk with
  | Legacy => sha2_256 (ultrahonk_vk_bytes vk)
  | _ => keccak_256 (ultrahonk_vk_bytes vk)
  end.

Definition ultrahonk_version_hash (p : VersionedProof) : string :=
  match proof_version p with
  | V0_84 => "0x4966cd7801ae9ef9d7afb52ec3de92f0693e720f58c5c8ecfb23d85b0934f018"
  | V3_0 => "0x55b52ad2b4153c872e27d688f567c1406f0d93b5528dd2b0bf2a9a40df97f1f9"
  | Legacy => NO_VERSION_HASH
  end.

(** The public inputs are arrays of 32 bytes. *)
Definition Ultrahonk : Verifier L VersionedVk VersionedProof (list string) := {|
  hash_context_data := "ultrahonk";
  verify_proof := λ _ vk p pubs, ultrahonk_verify_proof vk p pubs;
  validate_vk := λ _ vk, ultrahonk_validate_vk vk;
  vk_hash := ultrahonk_vk_hash;
  pubs_bytes := λ pubs, foldr String.append "" pubs;
  verifier_version_hash := ultrahonk_version_hash
|}.

(** [UltrahonkWeight::verify_proof] *)
Definition ultrahonk_weight (p : VersionedProof) (pubs : list string) : Weight :=
  match proof_version p, proof_type (inner_proof p) with
  | V3_0, ZK => verify_zk_proof_v3_0 T MAX_BENCHMARKED_LOG_CIRCUIT_SIZE
  | V3_0, Plain => verify_plain_proof_v3_0 T MAX_BENCHMARKED_LOG_CIRCUIT_SIZE
  | _, ZK => verify_zk_proof_v0_84 T
  | _, Plain => verify_plain_proof_v0_84 T
  end.

(** ** Lemmas *)

(** Larger circuits weigh more. *)
Definition weights_monotone : Prop :=
  ∀ n m, n ≤ m → weight_le (verify_zk_proof_v3_0 T n) (verify_zk_proof_v3_0 T m) ∧
    weight_le (verify_plain_proof_v3_0 T n) (verify_plain_proof_v3_0 T m).

(** The verifier never panics, and corrects the announced weight downwards. *)
Lemma ultrahonk_weight_bounded vk p pubs :
  weights_monotone →
  match ultrahonk_verify_proof vk p pubs with
  | None => False
  | Some (inr (Some w)) => weight_le w (ultrahonk_weight p pubs)
  | Some _ => True
  end.
Proof.
  intros Hm. unfold ultrahonk_verify_proof, ultrahonk_weight. destruct (_ <? _); [done|].
  destruct (proof_version p) eqn:Hp, (honk_version vk); try done;
    try by (unfold verify_0_84; destruct (negb _); [done|]; destruct (verify_v0_84 _ _ _)).
  unfold verify_3_0, valid_log_circuit_size. destruct (extract_log_circuit_size _) as [n|]; [|done].
  destruct (Z.leb_spec n MAX_BENCHMARKED_LOG_CIRCUIT_SIZE); [|done]. destruct (verify_v3_0 _ _ _); [done|].
  unfold honk_compute_weight, MIN_BENCHMARKED_LOG_CIRCUIT_SIZE, MAX_BENCHMARKED_LOG_CIRCUIT_SIZE in *.
  destruct (proof_type _); apply (Hm (Z.max n 7) 25); lia.
Qed.
End ultrahonk.
