(* ===== verification/Risc0.v ===== *)
(** * The RISC Zero verifier ([verifiers/risc0/src/lib.rs], [verifiers/risc0/risc0-derive/src/lib.rs])

    Proofs carry the version of the prover; the oldest are no longer verified.  A
    proof is succinct or a list of segments, and its weight is the sum of the
    weights of its segments, computed before it is verified and rejected beyond a
    maximum.  [risc0_verifier] and [ciborium] are parameters.  Sums and products
    of weights wrap around at 64 bits, as in the code. *)

From S2P Require Import Prelude Frame Holds Crl Verifiers.

Open Scope Z_scope.

Definition u32_mul (a b : Z) : Z := a * b mod 2 ^ 32.
Definition u64_add (a b : Z) : Z := (a + b) mod 2 ^ 64.
Definition u64_mul (a b : Z) : Z := a * b mod 2 ^ 64.

Inductive ProofVersion : Type := V1_0 | V1_1 | V1_2 | V2_0 | V2_1 | V2_2 | V2_3 | V3_0.

Record R0 : Type := { r0_version : ProofVersion; r0_bytes : string }.

(** The variants without [#[unsupported]], which [R0Proof] has. *)
Definition supported (v : ProofVersion) : bool :=
  match v with V1_0 | V1_1 | V1_2 | V2_0 => false | _ => true end.

Record SegmentInfo : Type := { seg_hash : string; po2 : Z }.

Inductive ProofStructure : Type :=
  | Succinct
  | Composite (segments : list SegmentInfo).

(** [Config] *)
Record Risc0Params : Type := {
  MaxNSegment : Z;
  Segment20MaxSize : Z;
  MaxPubsSize : Z;
  verify_proof_succinct : Weight;
  poseidon2_16 : Weight;
  poseidon2_17 : Weight;
  poseidon2_18 : Weight;
  poseidon2_19 : Weight;
  poseidon2_20 : Weight;
  poseidon2_21 : Weight
}.

Section risc0.
Context {L P : Type} (T : Risc0Params).
Context (from_reader : string → option P).                 (* [ciborium::from_reader] *)
(** [inner.composite()] with the segments the verifier of a version extracts:
    [None] when the proof is not composite, [Some None] an error *)
Context (segments_info : ProofVersion → P → option (option (list SegmentInfo))).
Context (r0_verify : ProofVersion → string → P → string → bool).

Definition max_proof_size : Z := u32_mul (MaxNSegment T) (Segment20MaxSize T).

(** [Weight * u64] *)
Definition max_verify_proof_weight : Weight := {|
  ref_time := u64_mul (ref_time (poseidon2_20 T)) (MaxNSegment T);
  proof_size := u64_mul (proof_size (poseidon2_20 T)) (MaxNSegment T)
|}.

(** [R0Proof::try_from] *)
Definition r0_try_from (p : R0) : VerifyError + P :=
  match from_reader (r0_bytes p) with
  | None => inl InvalidProofData
  | Some proof => if supported (r0_version p) then inr proof else inl UnsupportedVersion
  end.

Definition proof_structure (v : ProofVersion) (p : P) : option ProofStructure :=
  match segments_info v p with
  | Some (Some segments) => Some (Composite segments)
  | Some None => None
  | None => Some Succinct
  end.

Definition segment_weight (info : SegmentInfo) : option Weight :=
  if negb (bool_decide (seg_hash info = "poseidon2")) then None
  else if po2 info <=? 16 then Some (poseidon2_16 T)
  else if po2 info =? 17 then Some (poseidon2_17 T)
  else if po2 info =? 18 then Some (poseidon2_18 T)
  else if po2 info =? 19 then Some (poseidon2_19 T)
  else if po2 info =? 20 then Some (poseidon2_20 T)
  else if po2 info =? 21 then Some (poseidon2_21 T)
  else None.

Definition add_ref_time (acc : Weight) (w : Weight) : Weight :=
  {| ref_time := u64_add (ref_time acc) (ref_time w); proof_size := proof_size acc |}.

Definition verify_weight (structure : ProofStructure) : option Weight :=
  match structure with
  | Succinct => Some (verify_proof_succinct T)
  | Composite powers =>
      ws ← mapM segment_weight powers;
      Some (foldl add_ref_time {| ref_time := 0; proof_size := 0 |} ws)
  end.

Definition risc0_verify_proof (vk : string) (proof : R0) (pubs : string) : VerifyError + option Weight :=
  if max_proof_size <? len (r0_bytes proof) then inl InvalidProofData
  else if MaxPubsSize T <? len pubs then inl InvalidInput
  else
    match r0_try_from proof with
    | inl e => inl e
    | inr p =>
        match proof_structure (r0_version proof) p ≫= verify_weight with
        | None => inl InvalidProofData
        | Some w =>
            if ref_time max_verify_proof_weight <? ref_time w then inl InvalidProofData
            else if r0_verify (r0_version proof) vk p pubs then inr (Some w)
            else inl VerifyFailed
        end
    end.

Definition risc0_version_hash (proof : R0) : string :=
  match r0_version proof with
  | V1_0 => "0xdf801e3397d2a8fbb77c2fa30c7f7806ee8a60de44cb536108e7ef272618e2da"
  | V1_1 => "0x2a06d398245e645477a795d1b707344669459840d154e17fde4df2b40eea5558"
  | V1_2 => "0x5f39e7751602fc8dbc1055078b61e2704565e3271312744119505ab26605a942"
  | V2_0 => "0x4b591002da5e767a89a636535a1758bd5f5e2677c42811f11b0a6429d2429a1b"
  | V2_1 => "0x545aa3fbe4f28bf5be6831341c3d5ba87b16f10089f8efbcc140060e06fb508b"
  | V2_2 => "0xb3321f8b04ee9a754860a415c691f00756990e2054e5023f1a68c260a7042efe"
  | V2_3 => "0x09c82225a1a8d085090e5169383d874fcca7a340517654659c4eb6fd105e79ec"
  | V3_0 => "0xaa24368f9ce9025f58596d966209fc3f322c8cac37dae753bb9b0367d273700d"
  end.

(** A key is the digest of the program already. *)
Definition Risc0 : Verifier L string R0 string := {|
  hash_context_data := "risc0";
  verify_proof := λ _ vk proof pubs, Some (risc0_verify_proof vk proof pubs);
  validate_vk := default_validate_vk;
  vk_hash := λ vk, vk;
  pubs_bytes := λ pubs, pubs;
  verifier_version_hash := risc0_version_hash
|}.

(** [Risc0Weight::verify_proof] *)
Definition risc0_weight (proof : R0) (pubs : string) : Weight := max_verify_proof_weight.
End risc0.

(** ** The runtime's parameters ([runtime/zkverify/src]) *)

Definition w (t : Z) : Weight := {| ref_time := t; proof_size := 0 |}.

Definition risc0_runtime : Risc0Params := {|
  MaxNSegment := 4;
  Segment20MaxSize := 350000;
  MaxPubsSize := 4 + 32 * 64;
  verify_proof_succinct := w 28824883000;
  poseidon2_16 := w 27709367000;
  poseidon2_17 := w 29923877000;
  poseidon2_18 := w 31805829000;
  poseidon2_19 := w 33704091000;
  poseidon2_20 := w 35908693000;
  poseidon2_21 := w 38416219000
|}.

(** ** Lemmas *)

Section lemmas.
Context {P : Type} (T : Risc0Params).
Context (from_reader : string → option P) (segments_info : ProofVersion → P → option (option (list SegmentInfo))).
Context (r0_verify : ProofVersion → string → P → string → bool).

Definition total (ws : list Weight) : Z := foldr (λ w z, ref_time w + z) 0 ws.

(** A sum that stays below [2 ^ 64] did not wrap. *)
Lemma fold_exact ws acc b :
  0 ≤ ref_time acc → Forall (λ w, 0 ≤ ref_time w ≤ b) ws →
  ref_time acc + Z.of_nat (length ws) * b < 2 ^ 64 →
  ref_time (foldl add_ref_time acc ws) = ref_time acc + total ws ∧
  proof_size (foldl add_ref_time acc ws) = proof_size acc.
Proof.
  revert acc. induction ws as [|x ws IH]; intros acc Ha Hw Hb; simpl; [lia|].
  apply list.Forall_cons in Hw as [Hx Hw]. rewrite length_cons in Hb.
  assert (Hs : u64_add (ref_time acc) (ref_time x) = ref_time acc + ref_time x)
    by (apply Z.mod_small; nia).
  destruct (IH (add_ref_time acc x)) as [-> ->]; simpl; rewrite ?Hs; [lia|done|nia|]. lia.
Qed.

Lemma total_bounds ws a b :
  Forall (λ w, a ≤ ref_time w ≤ b) ws →
  Z.of_nat (length ws) * a ≤ total ws ≤ Z.of_nat (length ws) * b.
Proof. induction 1; [simpl; lia|]. rewrite length_cons. simpl. lia. Qed.

(** An accepted proof passed each check. *)
Lemma risc0_accepted vk p pubs r :
  risc0_verify_proof T from_reader segments_info r0_verify vk p pubs = inr r →
  ∃ q st x, len (r0_bytes p) ≤ max_proof_size T ∧ from_reader (r0_bytes p) = Some q ∧
    supported (r0_version p) = true ∧ proof_structure segments_info (r0_version p) q = Some st ∧
    verify_weight T st = Some x ∧ r = Some x ∧ ref_time x ≤ ref_time (max_verify_proof_weight T) ∧
    r0_verify (r0_version p) vk q pubs = true.
Proof.
  unfold risc0_verify_proof, r0_try_from. destruct (Z.ltb_spec (max_proof_size T) (len (r0_bytes p))); [done|].
  destruct (_ <? _); [done|]. destruct (from_reader _) as [q|]; [|done].
  destruct (supported _) eqn:Hs; [|done]. destruct (proof_structure _ _ _) as [st|] eqn:Hp; [|done].
  change (Some st ≫= verify_weight T) with (verify_weight T st). destruct (verify_weight T st) as [x|] eqn:Hx; [|done].
  destruct (Z.ltb_spec (ref_time (max_verify_proof_weight T)) (ref_time x)); [done|].
  destruct (r0_verify _ _ _ _) eqn:Hv; [|done]. intros [= <-]. by exists q, st, x.
Qed.
End lemmas.

Lemma segment_weight_bounds i x :
  segment_weight risc0_runtime i = Some x → 27709367000 ≤ ref_time x ≤ 38416219000 ∧ proof_size x = 0.
Proof. unfold segment_weight. repeat case_match; try done; intros [= <-]; simpl; lia. Qed.

Lemma segment_weights_bounds infos ws :
  mapM (segment_weight risc0_runtime) infos = Some ws →
  length ws = length infos ∧ Forall (λ x, 27709367000 ≤ ref_time x ≤ 38416219000) ws.
Proof.
  intros H%mapM_Some. split; [symmetry; by eapply Forall2_length|].
  induction H; constructor; [by eapply segment_weight_bounds|done].
Qed.

(** ** Properties *)

(** C24: the weight of an accepted RISC Zero proof is the exact sum of the weights
    of its segments, never one that wrapped around at 64 bits; it stays below the
    weight announced before the call ran, so that an accepted proof has at most
    five segments.  The proof's version is one of those still verified.  CBOR
    takes at least a byte for each element of a list. *)
Theorem risc0_weight_exact {P} (from_reader : string → option P) segments_info r0_verify vk p pubs r :
  (∀ b q v infos, from_reader b = Some q → segments_info v q = Some (Some infos) →
     Z.of_nat (length infos) ≤ len b) →
  risc0_verify_proof risc0_runtime from_reader segments_info r0_verify vk p pubs = inr r →
  supported (r0_version p) = true ∧
  ∃ q x, from_reader (r0_bytes p) = Some q ∧ r = Some x ∧
    r0_verify (r0_version p) vk q pubs = true ∧ weight_le x (risc0_weight risc0_runtime p pubs) ∧
    match proof_structure segments_info (r0_version p) q with
    | Some Succinct => x = verify_proof_succinct risc0_runtime
    | Some (Composite infos) =>
        (length infos ≤ 5)%nat ∧
        ∃ ws, mapM (segment_weight risc0_runtime) infos = Some ws ∧ ref_time x = total ws
    | None => False
    end.
Proof.
  intros Hcbor (q & st & x & Hl & Hq & Hs & Hst & Hx & -> & Hle & Hv)%risc0_accepted.
  split; [done|]. exists q, x. rewrite Hst. change (max_proof_size risc0_runtime) with 1400000 in Hl.
  unfold weight_le, risc0_weight. change (ref_time (max_verify_proof_weight risc0_runtime)) with 143634772000 in *.
  change (proof_size (max_verify_proof_weight risc0_runtime)) with 0. destruct st as [|infos].
  - simpl in Hx. injection Hx as <-. simpl. split_and!; done || lia.
  - assert (Hn : Z.of_nat (length infos) ≤ 1400000).
    { unfold proof_structure in Hst. destruct (segments_info _ _) as [[i|]|] eqn:Hi; simplify_eq.
      by etrans; [by eapply Hcbor|]. }
    simpl in Hx. destruct (mapM _ infos) as [ws|] eqn:Hws; [|done]. injection Hx as <-.
    destruct (segment_weights_bounds _ _ Hws) as [Hlen Hb].
    destruct (fold_exact ws (w 0) 38416219000) as [E1 E2]; simpl.
    + lia.
    + eapply List.Forall_impl; [|exact Hb]. simpl. lia.
    + rewrite Hlen. lia.
    + pose proof (total_bounds _ _ _ Hb). simpl in E1, E2. unfold w in *. rewrite E1, E2 in *. rewrite Hlen in *.
      split_and!; try done; try lia. exists ws. split; [done|lia].
Qed.

(** ** A toy prover *)

Definition toy_bytes (l : list Z) : string :=
  String.string_of_list_ascii (map (λ z, Ascii.ascii_of_N (Z.to_N z)) l).

(** One segment for each byte. *)
Definition toy_segments (_ : ProofVersion) (b : string) : option (option (list SegmentInfo)) :=
  Some (Some (map (λ c, {| seg_hash := "poseidon2"; po2 := Z.of_N (Ascii.N_of_ascii c) |}) (String.list_ascii_of_string b))).

Lemma toy_segments_length b : length (String.list_ascii_of_string b) = String.length b.
Proof. induction b; simpl; congruence. Qed.

Definition toy_risc0 := risc0_verify_proof risc0_runtime Some toy_segments (λ _ _ _ _, true).

Lemma risc0_weight_exact_witness :
  let p := {| r0_version := V2_2; r0_bytes := toy_bytes [20; 17] |} in
  toy_risc0 "vk" p "" = inr (Some (w 65832570000)) ∧ supported V2_2 = true.
Proof.
  split; [vm_compute; reflexivity|].
  refine (proj1 (risc0_weight_exact Some toy_segments (λ _ _ _ _, true) "vk"
    {| r0_version := V2_2; r0_bytes := toy_bytes [20; 17] |} "" (Some (w 65832570000)) _ _)).
  - intros b q v infos [= <-] [= <-]. rewrite length_map. unfold len. rewrite toy_segments_length. lia.
  - vm_compute. reflexivity.
Defined.
