(* ===== verification/ByteVerifiers.v ===== *)
(** * The verifiers of SP1, EZKL and UltraPlonk proofs
    ([verifiers/sp1], [verifiers/ezkl], [verifiers/ultraplonk])

    Three thin verifiers: sizes are checked, the bytes are handed to the library
    of the proof system and its errors are translated.  The libraries are
    parameters. *)

From S2P Require Import Prelude Frame Holds Crl Verifiers.

Open Scope Z_scope.

(** The errors of [ezkl_no_std] and [ultraplonk_no_std]. *)
Inductive LibError : Type :=
  | VerificationError
  | PublicInputError
  | KeyError
  | InvalidProofError
  | OtherError.

Definition from_lib_error (e : LibError) : VerifyError :=
  match e with
  | VerificationError => VerifyFailed
  | PublicInputError => InvalidInput
  | KeyError => InvalidVerificationKey
  | InvalidProofError => InvalidProofData
  | OtherError => VerifyFailed
  end.

(** [pubs.iter().flat_map(..)]: arrays of 32 bytes, one after the other. *)
Definition concat_pubs (pubs : list string) : string := foldr String.append "" pubs.

Module Sp1.
Section sp1.
Context {L P : Type} (MaxPubsSize : Z).
Context (decode_from_slice : string → option P).           (* [bincode] *)
Context (verify : string → P → string → bool).             (* [sp1_zkv_verifier::verify] *)

Definition MAX_PROOF_SIZE : Z := 786432.

Definition sp1_verify_proof (vk proof pubs : string) : VerifyError + option Weight :=
  if MAX_PROOF_SIZE <? len proof then inl InvalidProofData
  else if MaxPubsSize <? len pubs then inl InvalidInput
  else
    match decode_from_slice proof with
    | None => inl InvalidProofData
    | Some proof => if verify vk proof pubs then inr None else inl VerifyFailed
    end.

(** A key is a hash already. *)
Definition Sp1 : Verifier L string string string := {|
  hash_context_data := "sp1";
  verify_proof := λ _ vk proof pubs, Some (sp1_verify_proof vk proof pubs);
  validate_vk := default_validate_vk;
  vk_hash := λ vk, vk;
  pubs_bytes := λ pubs, pubs;
  verifier_version_hash := default_version_hash
|}.
End sp1.
End Sp1.

Module Ezkl.
Section ezkl.
Context {L : Type} (MaxPubs : Z).
Context (verify : string → string → list string → option LibError).    (* [None] is [Ok] *)

Definition MAX_VK_LENGTH : Z := 9216.
Definition MAX_PROOF_LENGTH : Z := 6304.

Definition ezkl_verify_proof (vk proof : string) (pubs : list string) : VerifyError + option Weight :=
  if MaxPubs <? Z.of_nat (length pubs) then inl InvalidInput
  else if MAX_PROOF_LENGTH <? len proof then inl InvalidProofData
  else
    match verify vk proof pubs with
    | Some e => inl (from_lib_error e)
    | None => inr None
    end.

(** The length is not zero, a multiple of 32 and not too large. *)
Definition ezkl_length_wrong (vk_bytes : string) : bool :=
  (len vk_bytes =? 0) || negb (Z.land (len vk_bytes) 31 =? 0) || (MAX_VK_LENGTH <? len vk_bytes).

Definition ezkl_validate_vk (vk : string) : option VerifyError :=
  if ezkl_length_wrong vk then Some InvalidVerificationKey else None.

(** [EzklVk] is a structure of one field, its bytes. *)
Definition Ezkl (keccak_256 : string → string) : Verifier L string string (list string) := {|
  hash_context_data := "ezkl";
  verify_proof := λ _ vk proof pubs, Some (ezkl_verify_proof vk proof pubs);
  validate_vk := λ _ vk, ezkl_validate_vk vk;
  vk_hash := λ vk, keccak_256 vk;
  pubs_bytes := concat_pubs;
  verifier_version_hash := default_version_hash
|}.
End ezkl.

Lemma ezkl_valid vk :
  ezkl_validate_vk vk = None ↔ 0 < len vk ≤ MAX_VK_LENGTH ∧ (32 | len vk).
Proof.
  unfold ezkl_validate_vk, ezkl_length_wrong, MAX_VK_LENGTH.
  change 31 with (Z.ones 5). rewrite Z.land_ones by done. change (2 ^ 5) with 32.
  rewrite <- Z.mod_divide by done. assert (0 ≤ len vk) by (unfold len; lia).
  destruct (Z.eqb_spec (len vk) 0), (Z.eqb_spec (len vk mod 32) 0), (Z.ltb_spec 9216 (len vk));
    simpl; split; try done; lia.
Qed.
End Ezkl.

Module Ultraplonk.
Section ultraplonk.
Context {L : Type} (MaxPubs PROOF_SIZE VK_SIZE : Z).
Context (verify : string → string → list string → option LibError).
Context (try_from_solidity_bytes : string → bool).                       (* [.is_ok()] *)

Definition ultraplonk_verify_proof (vk proof : string) (pubs : list string) : VerifyError + option Weight :=
  if negb (len proof =? PROOF_SIZE) then inl InvalidInput
  else if MaxPubs <? Z.of_nat (length pubs) then inl InvalidInput
  else
    match verify vk proof pubs with
    | Some e => inl (from_lib_error e)
    | None => inr None
    end.

Definition ultraplonk_validate_vk (vk : string) : option VerifyError :=
  if try_from_solidity_bytes vk then None else Some InvalidVerificationKey.

(** [buffer.resize(n, 0u8)] *)
Definition zeros (n : nat) : string := String.string_of_list_ascii (replicate n Ascii.zero).

Definition resize (n : Z) (s : string) : string :=
  String.substring 0 (Z.to_nat n) s +:+ zeros (Z.to_nat (n - len s)).

(** The padding to the layout of the C++ library. *)
Definition encode_vk (vk : string) : string := resize (VK_SIZE + 15 * 32) vk.

Definition Ultraplonk (sha2_256 : string → string) : Verifier L string string (list string) := {|
  hash_context_data := "ultraplonk";
  verify_proof := λ _ vk proof pubs, Some (ultraplonk_verify_proof vk proof pubs);
  validate_vk := λ _ vk, ultraplonk_validate_vk vk;
  vk_hash := λ vk, sha2_256 (encode_vk vk);
  pubs_bytes := concat_pubs;
  verifier_version_hash := default_version_hash
|}.
End ultraplonk.
End Ultraplonk.
