(* ===== verification/EncodedLen.v ===== *)
(** * The declared sizes of verification keys

    [MaxEncodedLen] of the key types against what the pallets let into storage:
    the sizes of keys in the SCALE codec, and for each verifier with keys of
    variable size how the check of keys bounds them. *)

From S2P Require Import Prelude Frame Holds Crl Verifiers TeeVerifier Groth16 Plonky2 ByteVerifiers.

Open Scope Z_scope.

(** ** SCALE *)

(** A [Vec<u8>] *)
Definition bytes_size (b : string) : Z := compact_len (len b) + len b.

Lemma compact_len_mono n m : n ≤ m → compact_len n ≤ compact_len m.
Proof.
  intros H. unfold compact_len.
  destruct (Z.ltb_spec n (2 ^ 6)), (Z.ltb_spec m (2 ^ 6)), (Z.ltb_spec n (2 ^ 14)), (Z.ltb_spec m (2 ^ 14)),
    (Z.ltb_spec n (2 ^ 30)), (Z.ltb_spec m (2 ^ 30)); lia.
Qed.

Lemma bytes_size_mono b n : len b ≤ n → bytes_size b ≤ compact_len n + n.
Proof. intros H. unfold bytes_size. pose proof (compact_len_mono _ _ H). lia. Qed.

(** ** Sizes of keys, and what their types declare *)

(** EZKL *)
Definition ezkl_vk_size (vk : string) : Z := bytes_size vk.
Definition ezkl_max_encoded_len : Z := compact_len Ezkl.MAX_VK_LENGTH + Ezkl.MAX_VK_LENGTH.

(** Plonky2; the configuration takes a byte. *)
Definition plonky2_vk_size (vk : Plonky2Vk) : Z := 1 + bytes_size (p2_bytes vk).
Definition plonky2_max_encoded_len (P : Plonky2Params) : Z :=
  1 + compact_len (Plonky2.MaxVkSize P) + Plonky2.MaxVkSize P.

(** TEE; the variant takes a byte. *)
Definition tee_vk_size (vk : TeeVk) : Z :=
  match vk with
  | Intel tcb_response certificates => 1 + bytes_size tcb_response + bytes_size certificates
  | Nitro => 1
  end.
Definition tee_max_encoded_len : Z :=
  compact_len (2 * TeeVerifier.MAX_VK_LENGTH) + 2 * TeeVerifier.MAX_VK_LENGTH.

(** Groth16; the curve takes a byte. *)
Definition G1_MAX_SIZE : Z := 96.
Definition G2_MAX_SIZE : Z := G1_MAX_SIZE * 2.

Definition vec_max_encoded_len (element_size n : Z) : Z := compact_len n + element_size * n.
Definition g1_max_encoded_len : Z := vec_max_encoded_len 1 G1_MAX_SIZE.
Definition g2_max_encoded_len : Z := vec_max_encoded_len 1 G2_MAX_SIZE.

Definition groth16_vk_size (vk : VerificationKeyWithCurve) : Z :=
  let k := vk_key vk in
  1 + bytes_size (alpha_g1 k) + bytes_size (beta_g2 k) + bytes_size (gamma_g2 k) + bytes_size (delta_g2 k)
  + compact_len (Z.of_nat (length (gamma_abc_g1 k)))
  + foldr (λ g n, bytes_size g + n) 0 (gamma_abc_g1 k).
Definition groth16_max_encoded_len : Z :=
  1 + g1_max_encoded_len + 3 * g2_max_encoded_len
  + vec_max_encoded_len g1_max_encoded_len (Groth16.MAX_NUM_INPUTS + 1).

(** ** The interface *)

(** Keys that pass the check have a bounded size. *)
Class KeyBound {L VkT Proof Pubs} (V : Verifier L VkT Proof Pubs) (size : VkT → Z) (max : Z) : Prop :=
  valid_within : ∀ l vk, validate_vk V l vk = None → size vk ≤ max.

(** What the pallet makes of it. *)
Lemma stored_within {L VkT Proof Pubs Tk} (T : Verifiers.Config L VkT Proof Pubs Tk) size max s h e :
  KeyBound (I T) size max → Verifiers.reachable T s → Vks s !! h = Some e → size (entry_vk e) ≤ max.
Proof. intros HK Hr. apply (stored_keys_valid T (λ vk, size vk ≤ max)); [exact HK|done]. Qed.

#[export] Instance ezkl_bound {L} n verify keccak :
  KeyBound (L:=L) (Ezkl.Ezkl n verify keccak) ezkl_vk_size ezkl_max_encoded_len.
Proof. intros l vk [[_ H] _]%Ezkl.ezkl_valid. by apply bytes_size_mono. Qed.

#[export] Instance plonky2_bound {L} P deserialize verify keccak encode :
  KeyBound (L:=L) (Plonky2 P deserialize verify keccak encode) plonky2_vk_size (plonky2_max_encoded_len P).
Proof.
  intros l vk. simpl. unfold plonky2_validate_vk, vk_size_ok, plonky2_vk_size, plonky2_max_encoded_len.
  destruct (Z.leb_spec (len (p2_bytes vk)) (Plonky2.MaxVkSize P)) as [H|]; [|done].
  intros _. apply bytes_size_mono in H. lia.
Qed.

(** ** TEE keys *)

Section tee.
Context {L : Type} (crl_state : L → Crl.state) (C : Crl.Config) (ca_name_for : TeeVk → string).
Context {TcbResponse : Type} (json : string → option TcbResponse).
Context (verify : TcbResponse → string → list RevokedInfo → Z → bool).
Abbreviation valid := (tee_validate_vk crl_state C ca_name_for json verify).

Lemma tee_valid_lengths l vk :
  valid l vk = None →
  ∃ a b, vk = Intel a b ∧ len a ≤ TeeVerifier.MAX_VK_LENGTH ∧ len b ≤ TeeVerifier.MAX_VK_LENGTH.
Proof.
  destruct vk as [a b|]; [|done]. simpl.
  destruct (Z.ltb_spec TeeVerifier.MAX_VK_LENGTH (len a)), (Z.ltb_spec TeeVerifier.MAX_VK_LENGTH (len b));
    simpl; try done. by exists a, b.
Qed.
End tee.

#[export] Instance tee_bound {L} crl_state C ca iw nw {Q TI TR A} pq ptcb tiv qv (json : string → option TR) trv pn av keccak encode :
  KeyBound (Tee (L:=L) (Quote:=Q) (TcbInfo:=TI) (Attestation:=A) crl_state C ca iw nw pq ptcb tiv qv json trv pn av keccak encode)
    tee_vk_size (tee_max_encoded_len + 5).
Proof.
  intros l vk (a & b & -> & Ha & Hb)%tee_valid_lengths. simpl.
  apply bytes_size_mono in Ha, Hb. unfold tee_max_encoded_len, TeeVerifier.MAX_VK_LENGTH in *.
  change (compact_len (2 * 65536)) with 4. change (compact_len 65536) with 4 in *. lia.
Qed.

(** ** Groth16 keys *)

(** A key with the first of its points [n] times. *)
Definition repeated (vk : VerificationKeyWithCurve) (n : nat) : VerificationKeyWithCurve :=
  let k := vk_key vk in
  {| vk_curve := vk_curve vk;
     vk_key := {| alpha_g1 := alpha_g1 k; beta_g2 := beta_g2 k; gamma_g2 := gamma_g2 k; delta_g2 := delta_g2 k;
                  gamma_abc_g1 := replicate n (alpha_g1 k) |} |}.

Lemma mapM_replicate {A B} (f : A → option B) x y n :
  f x = Some y → mapM f (replicate n x) = Some (replicate n y).
Proof. intros H. induction n as [|n IH]; [done|]. cbn. rewrite H. cbn. by rewrite IH. Qed.

Lemma repeated_valid {P1 P2} g1 g2 vk n :
  groth16_validate_vk (P1:=P1) (P2:=P2) g1 g2 vk = None → groth16_validate_vk g1 g2 (repeated vk n) = None.
Proof.
  unfold groth16_validate_vk, hp_validate_key, ark_key. simpl.
  destruct (g1 _ _) as [a|] eqn:Ha; [|done]. cbn. destruct (g2 _ (beta_g2 _)); [|done]. cbn.
  destruct (g2 _ (gamma_g2 _)); [|done]. cbn. destruct (g2 _ (delta_g2 _)); [|done]. cbn.
  by rewrite (mapM_replicate _ _ a).
Qed.

Lemma bytes_size_pos b : 1 ≤ bytes_size b.
Proof. unfold bytes_size, compact_len, len. repeat case_match; lia. Qed.

Lemma repeated_size vk n : Z.of_nat n < groth16_vk_size (repeated vk n).
Proof.
  unfold groth16_vk_size. simpl. rewrite length_replicate.
  assert (Z.of_nat n ≤ foldr (λ g m, bytes_size g + m) 0 (replicate n (alpha_g1 (vk_key vk)))).
  { induction n as [|n IH]; [done|]. cbn. pose proof (bytes_size_pos (alpha_g1 (vk_key vk))). lia. }
  assert (0 ≤ compact_len (Z.of_nat n)) by (unfold compact_len; repeat case_match; lia).
  pose proof (bytes_size_pos (alpha_g1 (vk_key vk))). pose proof (bytes_size_pos (beta_g2 (vk_key vk))).
  pose proof (bytes_size_pos (gamma_g2 (vk_key vk))). pose proof (bytes_size_pos (delta_g2 (vk_key vk))). lia.
Qed.

(** ** Properties *)

(** C38: no verifier pallet ever stores a key larger than it accounts for: in every
    reachable state a key in the storage of the EZKL and Plonky2 pallets is within
    the [MaxEncodedLen] of its type, and one of the TEE pallet within five bytes
    of it. *)
Theorem stored_keys_fit {L Tk} n ezkl_verify P deserialize p2_verify crl_state C ca iw nw {Q TI TR A}
    pq ptcb tiv qv (json : string → option TR) trv pn av keccak encode encode'
    (T1 : Verifiers.Config L string string (list string) Tk) (T2 : Verifiers.Config L Plonky2Vk string string Tk)
    (T3 : Verifiers.Config L TeeVk string string Tk) s1 s2 s3 h :
  I T1 = Ezkl.Ezkl n ezkl_verify keccak →
  I T2 = Plonky2 P deserialize p2_verify keccak encode →
  I T3 = Tee (Quote:=Q) (TcbInfo:=TI) (Attestation:=A) crl_state C ca iw nw pq ptcb tiv qv json trv pn av keccak encode' →
  Verifiers.reachable T1 s1 → Verifiers.reachable T2 s2 → Verifiers.reachable T3 s3 →
  (∀ e, Vks s1 !! h = Some e → ezkl_vk_size (entry_vk e) ≤ ezkl_max_encoded_len) ∧
  (∀ e, Vks s2 !! h = Some e → plonky2_vk_size (entry_vk e) ≤ plonky2_max_encoded_len P) ∧
  (∀ e, Vks s3 !! h = Some e → tee_vk_size (entry_vk e) ≤ tee_max_encoded_len + 5).
Proof.
  intros H1 H2 H3 R1 R2 R3. split_and!; intros e; eapply stored_within; try done;
    rewrite ?H1, ?H2, ?H3; apply _.
Qed.

(** The size [MaxEncodedLen] declares for TEE keys is too small: the encoding
    of a key that passes the check exceeds it exactly when its two payloads have
    more than 131,067 bytes together. *)
Theorem tee_max_encoded_len_short {L} crl_state C ca_name_for {TR} (json : string → option TR) verify (l : L) a b :
  tee_validate_vk crl_state C ca_name_for json verify l (Intel a b) = None →
  tee_max_encoded_len < tee_vk_size (Intel a b) ↔ 131067 < len a + len b.
Proof.
  intros (a' & b' & [= <- <-] & Ha & Hb)%tee_valid_lengths.
  unfold tee_max_encoded_len, tee_vk_size, bytes_size, TeeVerifier.MAX_VK_LENGTH in *.
  change (compact_len (2 * 65536)) with 4. unfold compact_len.
  destruct (Z.ltb_spec (len a) (2 ^ 6)), (Z.ltb_spec (len b) (2 ^ 6)), (Z.ltb_spec (len a) (2 ^ 14)),
    (Z.ltb_spec (len b) (2 ^ 14)), (Z.ltb_spec (len a) (2 ^ 30)), (Z.ltb_spec (len b) (2 ^ 30)); lia.
Qed.

(** The check of Groth16 keys bounds neither the number of points nor their
    bytes: from any key that passes it, keys of any size that pass it are made by
    repeating a point.  They exceed the declared [MaxEncodedLen], and no proof
    verifies with them, for lack of admissible public inputs. *)
Theorem groth16_keys_unbounded {P1 P2 F} g1 g1' g2 g2' scalar ark_verify vk n :
  groth16_validate_vk (P1:=P1) (P2:=P2) g1 g2 vk = None →
  ∃ vk', groth16_validate_vk g1 g2 vk' = None ∧ vk_curve vk' = vk_curve vk ∧ n < groth16_vk_size vk' ∧
    ∀ p pubs, groth16_verify_proof (F:=F) g1 g1' g2 g2' scalar ark_verify Groth16.MAX_NUM_INPUTS vk' p pubs = inl InvalidInput.
Proof.
  intros Hv. exists (repeated vk (Z.to_nat (Z.max n 65 + 1))). split_and!.
  - by apply repeated_valid.
  - done.
  - pose proof (repeated_size vk (Z.to_nat (Z.max n 65 + 1))). lia.
  - intros p pubs. unfold groth16_verify_proof, groth16_verify_with, Groth16.MAX_NUM_INPUTS. simpl.
    rewrite length_replicate. destruct (Z.ltb_spec 64 (Z.of_nat (length pubs))); [done|].
    rewrite (proj2 (Z.eqb_neq _ _)); [done|lia].
Qed.

(** ** Samples *)

(** After one registration of a key of 32 bytes, or of two payloads. *)
Definition fit_ezkl := bare_config (Ezkl.Ezkl (L:=Crl.state) 32 (λ _ _ _, None) (λ s, s)) (λ s, s).
Definition fit_plonky2 :=
  bare_config (Plonky2 (L:=Crl.state) toy_params toy_deserialize (λ _ _ _, true) (λ s, s) p2_bytes) (λ s, s).
Definition fit_tee := bare_config sample_tee (λ s, s).

Definition fit_key : string := "0123456789abcdef0123456789abcdef".

Definition fit_s1 := (dispatch (Verifiers.run_call fit_ezkl (Signed "bob") (Call_register_vk fit_key))
  (Verifiers.State None ∅ ∅ [] sample_cas)).1.
Definition fit_s2 := (dispatch (Verifiers.run_call fit_plonky2 (Signed "bob")
  (Call_register_vk {| p2_config := Poseidon; p2_bytes := "abc" |})) (Verifiers.State None ∅ ∅ [] sample_cas)).1.
Definition fit_s3 := (dispatch (Verifiers.run_call fit_tee (Signed "bob")
  (Call_register_vk (Intel "a" "bc"))) (Verifiers.State None ∅ ∅ [] sample_cas)).1.

Lemma stored_keys_fit_witness :
  ezkl_vk_size fit_key ≤ ezkl_max_encoded_len ∧
  plonky2_vk_size {| p2_config := Poseidon; p2_bytes := "abc" |} ≤ plonky2_max_encoded_len toy_params ∧
  tee_vk_size (Intel "a" "bc") ≤ tee_max_encoded_len + 5.
Proof.
  assert (H := λ h, stored_keys_fit 32 (λ _ _ _, None) toy_params toy_deserialize (λ _ _ _, true) (λ s, s) sample_crl_config
    ca_names no_weight no_weight Some Some (λ _ _, true) (λ _ _ _ _, true) Some (λ _ _ _ _, true) Some (λ _ _ _, true)
    (λ s, s) p2_bytes (λ vk, match vk with Intel a b => a +:+ b | Nitro => "" end)
    fit_ezkl fit_plonky2 fit_tee fit_s1 fit_s2 fit_s3 h eq_refl eq_refl eq_refl
    (reach_step _ _ _ (reach_init _ _) (Verifiers.step_call _ _ _ _))
    (reach_step _ _ _ (reach_init _ _) (Verifiers.step_call _ _ _ _))
    (reach_step _ _ _ (reach_init _ _) (Verifiers.step_call _ _ _ _))).
  split_and!.
  - apply (proj1 (H fit_key) (new_entry fit_key)). vm_compute. reflexivity.
  - apply (proj1 (proj2 (H "abc")) (new_entry _)). vm_compute. reflexivity.
  - apply (proj2 (proj2 (H "abc")) (new_entry _)). vm_compute. reflexivity.
Defined.

(** Payloads of 65,536 bytes. *)
Definition full_payload : string := Ultraplonk.zeros (Pos.to_nat 65536).

Lemma tee_max_encoded_len_short_witness :
  tee_max_encoded_len < tee_vk_size (Intel full_payload full_payload).
Proof.
  apply (tee_max_encoded_len_short (λ s, s) sample_crl_config ca_names Some (λ _ _ _ _, true) sample_cas);
    vm_compute; reflexivity.
Defined.

Lemma groth16_keys_unbounded_witness :
  ∃ vk, groth16_validate_vk toy_point toy_point vk = None ∧ groth16_max_encoded_len < groth16_vk_size vk.
Proof.
  destruct (groth16_keys_unbounded toy_point toy_unchecked toy_point toy_unchecked toy_scalar toy_verify
    (toy_key "a") groth16_max_encoded_len) as (vk & H1 & _ & H2 & _); [vm_compute; reflexivity|].
  exists vk. split; [exact H1|exact H2].
Defined.
