(* ===== verification/UltrahonkMigration.v ===== *)
(** * The migration of UltraHonk keys ([verifiers/ultrahonk/src/migrations.rs])

    Version 1 of the pallet's storage has keys without a protocol version, version
    2 [VersionedVk]s.  The migration drains the map of keys and writes each entry
    back into the same storage, with the key wrapped in [Legacy].  The storage is
    modelled as the bytes it holds: an entry the iterator comes to again, which is
    in the new format by then, is misread.

    Which keys the iterator comes to is left open, since the framework does not
    define it for loops that insert into the map they drain.  The theorem says
    for which of its runs, among those that end, the migration is right. *)

From S2P Require Import Prelude JsString Storage Frame Holds Crl Verifiers Ultrahonk.

Open Scope Z_scope.

(** ** Bytes *)

(** A number in [n] bytes, least significant first. *)
Fixpoint le_bytes (n : nat) (z : Z) : string :=
  match n with
  | O => EmptyString
  | S n => String (Ascii.ascii_of_N (Z.to_N (z mod 256))) (le_bytes n (z / 256))
  end.

Fixpoint of_le_bytes (s : string) : Z :=
  match s with
  | EmptyString => 0
  | String c s => Z.of_N (Ascii.N_of_ascii c) + 256 * of_le_bytes s
  end.

Lemma le_bytes_length n z : String.length (le_bytes n z) = n.
Proof. revert z. induction n; intros z; simpl; auto. Qed.

Lemma of_le_bytes_le n z : 0 ≤ z < 256 ^ Z.of_nat n → of_le_bytes (le_bytes n z) = z.
Proof.
  revert z. induction n as [|n IH]; intros z Hz; [simpl in *; lia|].
  cbn [le_bytes of_le_bytes]. pose proof (Z.mod_pos_bound z 256 ltac:(lia)).
  rewrite Ascii.N_ascii_embedding by lia. rewrite Z2N.id by lia. rewrite IH.
  - pose proof (Z.div_mod z 256 ltac:(lia)). lia.
  - rewrite Nat2Z.inj_succ, Z.pow_succ_r in Hz by lia. split; [apply Z.div_pos; lia|].
    apply Z.div_lt_upper_bound; lia.
Qed.

(** The first [n] bytes and the others; [None] when there are not as many. *)
Fixpoint take_bytes (n : nat) (s : string) : option (string * string) :=
  match n, s with
  | O, _ => Some ("", s)
  | S n, String c s => '(a, b) ← take_bytes n s; Some (String c a, b)
  | S _, EmptyString => None
  end.

Lemma take_bytes_app n a b : String.length a = n → take_bytes n (a +:+ b) = Some (a, b).
Proof. intros <-. induction a as [|c a IH]; [done|]. simpl. by rewrite IH. Qed.

Lemma take_le_bytes n z : take_bytes n (le_bytes n z) = Some (le_bytes n z, "").
Proof. rewrite <- (append_empty_r (le_bytes n z)) at 1. apply take_bytes_app, le_bytes_length. Qed.

(** ** Entries *)

Section migration.
Context (VK_SIZE VK_SIZE_V3_0 : nat).

(** [v1::OldVkEntry] *)
Record OldVkEntry : Type := { old_vk : string; old_ref_count : Z }.

(** SCALE: the fields one after the other; [u64] in 8 bytes, arrays as they are. *)
Definition decode_old (raw : string) : option OldVkEntry :=
  '(vk, raw) ← take_bytes VK_SIZE raw;
  '(n, _) ← take_bytes 8 raw;
  Some {| old_vk := vk; old_ref_count := of_le_bytes n |}.

Definition encode_old (e : OldVkEntry) : string := old_vk e +:+ le_bytes 8 (old_ref_count e).

(** [v2::NewVkEntry], the pallet's [VkEntry<VersionedVk>] *)
Definition vk_index (v : ProtocolVersion) : Z := match v with V0_84 => 0 | V3_0 => 1 | Legacy => 2 end.

Definition encode_new (e : VkEntry VersionedVk) : string :=
  le_bytes 1 (vk_index (honk_version (entry_vk e))) +:+ honk_bytes (entry_vk e) +:+ le_bytes 8 (ref_count e).

Definition vk_layout (index : Z) : option (ProtocolVersion * nat) :=
  if index =? 0 then Some (V0_84, VK_SIZE)
  else if index =? 1 then Some (V3_0, VK_SIZE_V3_0)
  else if index =? 2 then Some (Legacy, VK_SIZE)
  else None.

Definition decode_new (raw : string) : option (VkEntry VersionedVk) :=
  '(i, raw) ← take_bytes 1 raw;
  '(v, n) ← vk_layout (of_le_bytes i);
  '(vk, raw) ← take_bytes n raw;
  '(n, _) ← take_bytes 8 raw;
  Some {| entry_vk := {| honk_version := v; honk_bytes := vk |}; ref_count := of_le_bytes n |}.

(** ** The migration *)

Definition wrap (e : OldVkEntry) : VkEntry VersionedVk :=
  {| entry_vk := {| honk_version := Legacy; honk_bytes := old_vk e |}; ref_count := old_ref_count e |}.

(** The body of the loop.  An entry that does not decode is removed and skipped. *)
Definition migrate_entry (hash raw : string) (vks : gmap string string) (count : Z) : gmap string string * Z :=
  match decode_old raw with
  | Some old_entry => (<[hash := encode_new (wrap old_entry)]> vks, count + 1)
  | None => (vks, count)
  end.

(** [InnerMigrateV1ToV2::on_runtime_upgrade] when the iterator comes to [visits]:
    the storage of the keys, and the reads and writes the weight is made of *)
Definition on_runtime_upgrade (visits : list string) (vks : gmap string string) : gmap string string * (Z * Z) :=
  let '(vks, count) := drain_visiting migrate_entry visits vks 0 in
  (vks, (count, Z.min (count * 2) u64_max)).

Definition MigrateV1ToV2 (visits : list string) : Z * gmap string string → Z * gmap string string :=
  versioned_migration 1 2 (λ vks, (on_runtime_upgrade visits vks).1).

(** ** Lemmas *)

Definition old_ok (e : OldVkEntry) : Prop :=
  String.length (old_vk e) = VK_SIZE ∧ 0 ≤ old_ref_count e ≤ u64_max.

Lemma decode_encode_old e : old_ok e → decode_old (encode_old e) = Some e.
Proof.
  destruct e as [vk n]. intros [Hl Hn]. cbn [old_vk old_ref_count] in *. unfold decode_old, encode_old, u64_max in *.
  rewrite take_bytes_app by done. cbn [mbind option_bind old_ref_count]. rewrite take_le_bytes. cbn [mbind option_bind].
  rewrite of_le_bytes_le by lia. done.
Qed.

Lemma decode_encode_new e : old_ok e → decode_new (encode_new (wrap e)) = Some (wrap e).
Proof.
  destruct e as [vk n]. intros [Hl Hn]. cbn [old_vk old_ref_count] in *. unfold decode_new, encode_new, wrap, u64_max in *.
  cbn [entry_vk ref_count honk_version honk_bytes vk_index old_vk old_ref_count].
  rewrite take_bytes_app by apply le_bytes_length. cbn [mbind option_bind]. rewrite of_le_bytes_le by lia.
  change (vk_layout 2) with (Some (Legacy, VK_SIZE)). cbn [mbind option_bind].
  rewrite take_bytes_app by done. cbn [mbind option_bind]. rewrite take_le_bytes. cbn [mbind option_bind].
  rewrite of_le_bytes_le by lia. done.
Qed.

Lemma foldl_count {A B} (l : list A) (n : Z) (f : A → option B) :
  Forall (λ x, is_Some (f x)) l →
  foldl (λ n x, match f x with Some _ => n + 1 | None => n end) n l = n + Z.of_nat (length l).
Proof.
  intros Hl. revert n. induction Hl as [|x l [y Hy] _ IH]; intros n; cbn [foldl length]; [lia|].
  rewrite Hy, IH. lia.
Qed.

(** What becomes of the bytes of an entry at each visit. *)
Definition revisit (raw : string) : option string := encode_new ∘ wrap <$> decode_old raw.

Lemma migrate_entry_local k raw m n :
  migrate_entry k raw m n = (put k (revisit raw) m, match decode_old raw with Some _ => n + 1 | None => n end).
Proof. unfold migrate_entry, revisit. by destruct (decode_old raw). Qed.

(** When the iterator comes to each key once, every entry is read in the old
    format and written in the new one. *)
Lemma migrated visits (old : gmap string OldVkEntry) :
  map_Forall (λ _ e, old_ok e) old → complete visits old →
  on_runtime_upgrade visits (encode_old <$> old) =
  ((encode_new ∘ wrap) <$> old, (Z.of_nat (size old), Z.min (Z.of_nat (size old) * 2) u64_max)).
Proof.
  intros Hok Hc. unfold on_runtime_upgrade.
  destruct (drain_all revisit (λ _ raw n, match decode_old raw with Some _ => n + 1 | None => n end) migrate_entry
    migrate_entry_local visits (encode_old <$> old) 0) as (l & Hl & E).
  { unfold complete in *. rewrite map_to_list_fmap, <- list_fmap_compose. exact Hc. }
  assert (Hs : size (encode_old <$> old) = size old) by apply map_size_fmap. rewrite E.
  rewrite (foldl_count l 0 (λ p, decode_old p.2)).
  - rewrite Hl, length_map_to_list, Hs, Z.add_0_l. f_equal.
    apply map_eq. intros h. rewrite lookup_omap, !lookup_fmap. destruct (old !! h) as [e|] eqn:He; [|done].
    simpl. unfold revisit. by rewrite decode_encode_old by (by eapply Hok).
  - rewrite Hl. apply list.Forall_forall. intros [h raw] Hin%elem_of_map_to_list. simpl.
    rewrite lookup_fmap in Hin. destruct (old !! h) as [e|] eqn:He; [|done]. injection Hin as <-.
    rewrite decode_encode_old by (by eapply Hok). done.
Qed.

(** *** An entry visited again *)

Lemma take_bytes_Some n s a b : take_bytes n s = Some (a, b) → s = a +:+ b ∧ String.length a = n.
Proof.
  revert s a. induction n as [|n IH]; intros s a; [by intros [= <- <-]|]. destruct s as [|c s]; [done|].
  cbn [take_bytes]. intros ([a' b'] & Ht & [= <- <-])%bind_Some. destruct (IH _ _ Ht) as [-> <-]. done.
Qed.

Lemma take_bytes_is_Some n s : (n ≤ String.length s)%nat → is_Some (take_bytes n s).
Proof.
  revert s. induction n as [|n IH]; intros s Hl; [by eexists|]. destruct s as [|c s]; [simpl in Hl; lia|].
  cbn [take_bytes]. destruct (IH s) as [[a b] ->]; [simpl in Hl; lia|]. by eexists.
Qed.

Lemma le_bytes_of s : le_bytes (String.length s) (of_le_bytes s) = s.
Proof.
  induction s as [|c s IH]; [done|]. cbn [String.length le_bytes of_le_bytes].
  assert (Hc : 0 ≤ Z.of_N (Ascii.N_of_ascii c) < 256) by (pose proof (Ascii.N_ascii_bounded c); lia).
  rewrite (Z.mul_comm 256), Z.mod_add, Z.div_add, Z.mod_small, Z.div_small by lia.
  by rewrite Z.add_0_l, IH, N2Z.id, Ascii.ascii_N_embedding.
Qed.

Lemma of_le_bytes_range s : 0 ≤ of_le_bytes s < 256 ^ Z.of_nat (String.length s).
Proof.
  induction s as [|c s IH]; [done|]. cbn [String.length of_le_bytes]. pose proof (Ascii.N_ascii_bounded c).
  rewrite Nat2Z.inj_succ, Z.pow_succ_r by lia. lia.
Qed.

Lemma encode_old_length e : old_ok e → String.length (encode_old e) = (VK_SIZE + 8)%nat.
Proof. intros [Hl _]. unfold encode_old. by rewrite length_append, le_bytes_length, Hl. Qed.

(** As many bytes as it takes make an old entry. *)
Lemma decode_old_prefix raw :
  (VK_SIZE + 8 ≤ String.length raw)%nat →
  ∃ e rest, decode_old raw = Some e ∧ old_ok e ∧ raw = encode_old e +:+ rest.
Proof.
  intros Hl. unfold decode_old. destruct (take_bytes_is_Some VK_SIZE raw) as [[vk raw1] E1]; [lia|].
  destruct (take_bytes_Some _ _ _ _ E1) as [-> Hvk]. rewrite length_append in Hl.
  destruct (take_bytes_is_Some 8 raw1) as [[n rest] E2]; [lia|]. destruct (take_bytes_Some _ _ _ _ E2) as [-> Hn].
  rewrite E1. cbn [mbind option_bind]. rewrite E2. cbn [mbind option_bind]. eexists _, rest. split; [done|].
  pose proof (of_le_bytes_range n) as Hr. rewrite Hn in Hr. split.
  - split; [done|]. cbn [old_ref_count]. unfold u64_max. lia.
  - unfold encode_old. cbn [old_vk old_ref_count]. rewrite <- Hn, le_bytes_of. by rewrite append_assoc.
Qed.

(** The tag of a [Legacy] key, and how many bytes of it come first. *)
Definition legacy_byte : Ascii.ascii := Ascii.ascii_of_N 2.

Fixpoint lead (s : string) : nat :=
  match s with String c s => if decide (c = legacy_byte) then S (lead s) else 0 | EmptyString => 0 end.

Lemma lead_prefix a b : lead a = Nat.min (String.length a) (lead (a +:+ b)).
Proof.
  induction a as [|c a IH]; [done|]. change (String c a +:+ b) with (String c (a +:+ b)).
  cbn [lead String.length]. case_decide; lia.
Qed.

Lemma lead_suffix a b : lead (a +:+ b) = String.length (a +:+ b) → lead b = String.length b.
Proof.
  induction a as [|c a IH]; [done|]. change (String c a +:+ b) with (String c (a +:+ b)).
  cbn [lead String.length]. case_decide; [|done]. intros [= Hl]. by apply IH.
Qed.

Lemma lead_full s : lead s = String.length s → s = Nat.iter (String.length s) (String legacy_byte) "".
Proof.
  induction s as [|c s IH]; [done|]. cbn [lead String.length]. case_decide; [|done]. subst.
  intros [= Hs]. rewrite (IH Hs) at 1. done.
Qed.

(** The count whose bytes are tags. *)
Definition legacy_count : Z := 0x0202020202020202.

Lemma lead_old e : old_ok e → old_ref_count e ≠ legacy_count → (lead (encode_old e) < VK_SIZE + 8)%nat.
Proof.
  intros He Hn. rewrite <- (encode_old_length e He). pose proof (lead_prefix (encode_old e) "") as Hle.
  assert (Hne : lead (encode_old e) ≠ String.length (encode_old e)); [|lia].
  intros Hf%lead_suffix. apply lead_full in Hf. rewrite le_bytes_length in Hf. apply Hn.
  destruct He as [_ Hr]. rewrite <- (of_le_bytes_le 8 (old_ref_count e)) by (unfold u64_max in Hr; lia).
  rewrite Hf. done.
Qed.

Lemma encode_new_legacy e : encode_new (wrap e) = String legacy_byte (encode_old e).
Proof. done. Qed.

(** At a second visit the tag of the first is taken for the first byte of the key. *)
Lemma revisit_legacy e :
  old_ok e → ∃ e', revisit (encode_new (wrap e)) = Some (encode_new (wrap e')) ∧ old_ok e' ∧
    lead (encode_old e') = Nat.min (VK_SIZE + 8) (S (lead (encode_old e))).
Proof.
  intros He. rewrite encode_new_legacy. destruct (decode_old_prefix (String legacy_byte (encode_old e)))
    as (e' & rest & E & He' & Hp); [cbn [String.length]; rewrite encode_old_length by done; lia|].
  exists e'. unfold revisit. rewrite E. split_and!; [done..|].
  rewrite (lead_prefix _ rest), <- Hp, encode_old_length by done. cbn [lead]. by rewrite decide_True.
Qed.

(** After the first visit and [n] more. *)
Lemma revisit_iter n e :
  old_ok e → ∃ e', Nat.iter n (λ o, o ≫= revisit) (Some (encode_new (wrap e))) = Some (encode_new (wrap e')) ∧
    old_ok e' ∧ lead (encode_old e') = Nat.min (VK_SIZE + 8) (n + lead (encode_old e)).
Proof.
  intros He. induction n as [|n IH].
  - exists e. split_and!; [done|done..|]. rewrite <- (encode_old_length e He), (lead_prefix _ "") at 1.
    rewrite append_empty_r. lia.
  - destruct IH as (e1 & E1 & H1 & L1). destruct (revisit_legacy e1 H1) as (e2 & E2 & H2 & L2).
    exists e2. rewrite Nat.iter_succ, E1. split_and!; [exact E2|done..|]. lia.
Qed.

(** An entry the iterator never came to is too short for a [Legacy] key. *)
Lemma old_not_read e : old_ok e → decode_new (encode_old e) ≠ Some (wrap e).
Proof.
  intros He. unfold decode_new. intros ([i r1] & (E1 & L1)%take_bytes_Some & H)%bind_Some.
  apply bind_Some in H as ([v n] & Hv & H). apply bind_Some in H as ([vk r2] & (E2 & L2)%take_bytes_Some & H).
  apply bind_Some in H as ([c r3] & (E3 & L3)%take_bytes_Some & [= -> _ _]).
  assert (Hn : n = VK_SIZE) by (unfold vk_layout in Hv; by repeat case_match; simplify_eq).
  pose proof (encode_old_length e He) as Hl. rewrite E1, E2, E3, !length_append in Hl. lia.
Qed.

(** The entry is found in the new format after one visit, and only then. *)
Lemma read_visited n e :
  old_ok e → old_ref_count e ≠ legacy_count →
  (Nat.iter n (λ o, o ≫= revisit) (Some (encode_old e)) ≫= decode_new = Some (wrap e) ↔ n = 1%nat).
Proof.
  intros He Hc. destruct n as [|n]; [split; [|done]; intros H; by apply old_not_read in H|].
  assert (E0 : (Some (encode_old e) ≫= revisit) = Some (encode_new (wrap e))).
  { simpl. unfold revisit. by rewrite decode_encode_old. }
  rewrite Nat.iter_succ_r, E0. destruct (revisit_iter n e He) as (e' & E & He' & Hl). rewrite E.
  cbn [mbind option_bind]. rewrite decode_encode_new by done. pose proof (lead_old e He Hc). split.
  - intros [= H1 H2]. assert (e' = e) as -> by (destruct e, e'; simpl in *; congruence). lia.
  - intros [= ->]. change (Some (encode_new (wrap e)) = Some (encode_new (wrap e'))) in E.
    apply (f_equal (mbind decode_new)) in E. cbn [mbind option_bind] in E.
    by rewrite !decode_encode_new in E by done.
Qed.

(** The keys the pallet of version 2 finds in the storage. *)
Definition read_vks (raw : gmap string string) : gmap string (VkEntry VersionedVk) := omap decode_new raw.

Lemma read_migrated (old : gmap string OldVkEntry) :
  map_Forall (λ _ e, old_ok e) old → read_vks ((encode_new ∘ wrap) <$> old) = wrap <$> old.
Proof.
  intros Hok. apply map_eq. intros h. unfold read_vks. rewrite lookup_omap, !lookup_fmap.
  destruct (old !! h) as [e|] eqn:He; [|done]. simpl. by apply decode_encode_new, (Hok _ _ He).
Qed.

Definition distinct (old : gmap string OldVkEntry) : Prop :=
  map_Forall (λ _ e, old_ok e ∧ old_ref_count e ≠ legacy_count) old.

Lemma read_each visits (old : gmap string OldVkEntry) h e :
  distinct old → old !! h = Some e →
  (read_vks (on_runtime_upgrade visits (encode_old <$> old)).1 !! h = Some (wrap e) ↔ times h visits = 1%nat).
Proof.
  intros Hd He. destruct (Hd h e He) as [Hok Hn]. rewrite <- (read_visited (times h visits) e Hok Hn).
  unfold on_runtime_upgrade, read_vks.
  pose proof (drain_lookup revisit _ migrate_entry migrate_entry_local visits (encode_old <$> old) 0 h) as El.
  destruct (drain_visiting _ _ _ _) as [m n]. cbn [fst] in *. rewrite lookup_omap, El, lookup_fmap, He. done.
Qed.

(** Nothing comes into the storage under other hashes. *)
Lemma read_none visits (old : gmap string OldVkEntry) h :
  old !! h = None → read_vks (on_runtime_upgrade visits (encode_old <$> old)).1 !! h = None.
Proof.
  intros He. unfold on_runtime_upgrade, read_vks.
  pose proof (drain_lookup revisit _ migrate_entry migrate_entry_local visits (encode_old <$> old) 0 h) as El.
  destruct (drain_visiting _ _ _ _) as [m n]. cbn [fst] in *. rewrite lookup_omap, El, lookup_fmap, He. cbn [fmap option_fmap option_map].
  by rewrite iter_none.
Qed.

Lemma read_all visits (old : gmap string OldVkEntry) :
  distinct old → Forall (λ h, is_Some (old !! h)) visits →
  (read_vks (on_runtime_upgrade visits (encode_old <$> old)).1 = wrap <$> old ↔ complete visits old).
Proof.
  intros Hd Hin. rewrite complete_iff by done. split.
  - intros E h [e He]. apply (read_each visits old h e Hd He). by rewrite E, lookup_fmap, He.
  - intros Ht. apply map_eq. intros h. rewrite lookup_fmap. destruct (old !! h) as [e|] eqn:He.
    + apply (read_each visits old h e Hd He). apply Ht. by rewrite He.
    + by apply read_none.
Qed.

(** What version 1 of the pallet kept: keys under the SHA-256 of their bytes,
    counted once for each account with a deposit. *)
Definition v1_inv {Tk} (sha2_256 : string → string) (old : gmap string OldVkEntry)
    (tickets : gmap (string * string) Tk) : Prop :=
  ∀ h, match old !! h with
       | Some e => sha2_256 (old_vk e) = h ∧ 1 ≤ old_ref_count e ∧
                   old_ref_count e = Z.of_nat (size (holders tickets h))
       | None => ∀ a, tickets !! (a, h) = None
       end.
End migration.

(** The wrapped keys are under their hashes, with the deposits as they were. *)
Lemma wrapped_inv {L Tk} (T : Config L VersionedVk VersionedProof (list string) Tk)
    P v084 v30 psz k084 k30 ext keccak sha2 encode old tickets d ev l :
  I T = Ultrahonk P v084 v30 psz k084 k30 ext keccak sha2 encode → v1_inv sha2 old tickets →
  inv T (State d (wrap <$> old) tickets ev l).
Proof.
  intros HT Hinv h. unfold vk_ok. simpl. rewrite lookup_fmap, HT. specialize (Hinv h). by destruct (old !! h) as [e|].
Qed.

(** ** Properties *)

(** C25: which runs of the drain make the migration of UltraHonk keys right.  It
    inserts into the map it drains, and which keys the iterator then comes to is
    not defined; here it is any list of stored keys.  The pallet of version 2
    finds a key of version 1, as a [Legacy] key under the same hash with the same
    count, if and only if the iterator came to it exactly once, and all of them
    if and only if it came to each exactly once; the state then has the pallet's
    invariant with the deposits as they were.  A second run changes nothing.
    Counts of [0x0202020202020202], whose bytes all are the tag of [Legacy], are
    left out. *)
Theorem ultrahonk_migration_safe {L Tk} VK_SIZE VK_SIZE_V3_0
    (T : Config L VersionedVk VersionedProof (list string) Tk)
    P v084 v30 psz k084 k30 ext keccak sha2 encode old tickets d ev l visits :
  I T = Ultrahonk P v084 v30 psz k084 k30 ext keccak sha2 encode →
  map_Forall (λ _ e, old_ok VK_SIZE e ∧ old_ref_count e ≠ legacy_count) old → v1_inv sha2 old tickets →
  Forall (λ h, is_Some (old !! h)) visits →
  ∃ raw, MigrateV1ToV2 VK_SIZE visits (1, encode_old <$> old) = (2, raw) ∧
    (∀ h e, old !! h = Some e →
       (read_vks VK_SIZE VK_SIZE_V3_0 raw !! h = Some (wrap e) ↔ times h visits = 1%nat)) ∧
    (read_vks VK_SIZE VK_SIZE_V3_0 raw = wrap <$> old ↔ complete visits old) ∧
    (complete visits old → inv T (State d (read_vks VK_SIZE VK_SIZE_V3_0 raw) tickets ev l)) ∧
    ∀ again, MigrateV1ToV2 VK_SIZE again (2, raw) = (2, raw).
Proof.
  intros HT Hok Hinv Hin. exists (on_runtime_upgrade VK_SIZE visits (encode_old <$> old)).1. split; [done|].
  pose proof (λ h e, read_each VK_SIZE VK_SIZE_V3_0 visits old h e Hok) as Hr.
  pose proof (read_all VK_SIZE VK_SIZE_V3_0 visits old Hok Hin) as Hall. split_and!; [exact Hr|exact Hall| |done].
  intros Hc%Hall. rewrite Hc. by eapply wrapped_inv.
Qed.

(** ** A small chain *)

Definition toy_honk : Verifier unit VersionedVk VersionedProof (list string) :=
  Ultrahonk {| MaxPubs := 32; verify_zk_proof_v3_0 := λ _, no_weight; verify_plain_proof_v3_0 := λ _, no_weight;
               verify_zk_proof_v0_84 := no_weight; verify_plain_proof_v0_84 := no_weight |}
    (λ _ _ _, None) (λ _ _ _, None) (λ _, 0) (λ _, true) (λ _, true) (λ _, Some 10) (λ s, s) (λ s, "#" +:+ s)
    (λ vk, honk_bytes vk).

Definition toy_old : gmap string OldVkEntry :=
  {[ "#abc" := {| old_vk := "abc"; old_ref_count := 1 |}; "#xyz" := {| old_vk := "xyz"; old_ref_count := 1 |} ]}.

Definition toy_tickets : gmap (string * string) unit := {[ ("bob", "#abc") := tt; ("eve", "#xyz") := tt ]}.

Lemma toy_v1_inv : v1_inv (λ s, "#" +:+ s) toy_old toy_tickets.
Proof.
  intros h. destruct (decide (h = "#abc")) as [->|H1]; [done|]. destruct (decide (h = "#xyz")) as [->|H2]; [done|].
  unfold toy_old. rewrite lookup_insert_ne, lookup_singleton_ne by done. intros a. unfold toy_tickets.
  by rewrite lookup_insert_ne, lookup_singleton_ne by congruence.
Qed.

(** A key the iterator came to twice lost its last byte, which is in its count. *)
Lemma visited_twice :
  read_vks 3 4 (on_runtime_upgrade 3 ["#abc"; "#abc"; "#xyz"] (encode_old <$> toy_old)).1 !! "#abc" =
    Some {| entry_vk := {| honk_version := Legacy; honk_bytes := String legacy_byte "ab" |}; ref_count := 256 + 99 |}.
Proof. vm_compute. reflexivity. Qed.

(** The keys once each, and one of them twice. *)
Lemma ultrahonk_migration_safe_witness :
  (∃ raw, MigrateV1ToV2 3 ["#xyz"; "#abc"] (1, encode_old <$> toy_old) = (2, raw) ∧
     read_vks 3 4 raw = wrap <$> toy_old) ∧
  (∃ raw, MigrateV1ToV2 3 ["#abc"; "#abc"; "#xyz"] (1, encode_old <$> toy_old) = (2, raw) ∧
     read_vks 3 4 raw ≠ wrap <$> toy_old).
Proof.
  assert (Hok : map_Forall (λ _ e, old_ok 3 e ∧ old_ref_count e ≠ legacy_count) toy_old).
  { apply map_Forall_insert_2; [done|]. by apply map_Forall_singleton. }
  pose proof (λ visits, ultrahonk_migration_safe 3 4 (bare_config toy_honk (λ s, s)) _ _ _ _ _ _ _ _ _ _
    toy_old toy_tickets None [] tt visits eq_refl Hok toy_v1_inv) as H. split.
  - destruct (H ["#xyz"; "#abc"]) as (raw & H1 & _ & H2 & _); [repeat constructor; by eexists|].
    exists raw. split; [exact H1|]. apply H2. apply (bool_decide_unpack _). vm_compute. exact Logic.I.
  - destruct (H ["#abc"; "#abc"; "#xyz"]) as (raw & H1 & _ & H2 & _); [repeat constructor; by eexists|].
    exists raw. split; [exact H1|]. intros Hc%H2%Permutation_length. by vm_compute in Hc.
Defined.
