(* ===== verification/TeeMigration.v ===== *)
(** * The migration of TEE keys ([verifiers/tee/src/migrations/v2.rs])

    Keys of version 1 have no meaning in version 2: the migration removes them all,
    and with them the deposits of the accounts that registered them, which it
    gives back. *)

From S2P Require Import Prelude Storage Frame Holds Crl Verifiers TeeVerifier.

Open Scope Z_scope.

(** [v1::OldVkEntry] *)
Record OldTeeVk : Type := { old_tcb_response : string; old_certificates : string }.
Record OldTeeEntry : Type := { old_tee_vk : OldTeeVk; old_tee_count : Z }.

Section migration.
Context {L Tk : Type} (Ticket : Consideration string L Tk).
(** The keys the iterators come to. *)
Context (vk_visits : list string) (ticket_visits : list (string * string)).

(** The pallet's storage of version 1, with the rest of the runtime. *)
Record v1_state : Type := V1State {
  v1_Disabled : option bool;
  v1_Vks : gmap string OldTeeEntry;
  v1_Tickets : gmap (string * string) Tk;
  v1_Events : list Event;
  v1_Runtime : L
}.

(** An error is logged and the ticket is gone. *)
Definition drop_tee_ticket (key : string * string) (ticket : Tk) (tickets : gmap (string * string) Tk) (a : L * Z)
    : gmap (string * string) Tk * (L * Z) :=
  (tickets, (default a.1 (ticket_drop Ticket a.1 ticket key.1), a.2 + 1)).

(** [on_runtime_upgrade], with the reads and writes of its weight *)
Definition tee_on_runtime_upgrade (s : v1_state) : state L TeeVk Tk * (Z * Z) :=
  let '(_, vks) := drain_visiting (λ _ _ m n, (m, n + 1)) vk_visits (v1_Vks s) 0 in
  let '(tickets_left, (l, tickets)) := drain_visiting drop_tee_ticket ticket_visits (v1_Tickets s) (v1_Runtime s, 0) in
  (State (v1_Disabled s) ∅ tickets_left (v1_Events s) l, (vks + tickets, vks + tickets)).

Lemma drop_all (ts : list ((string * string) * Tk)) l n :
  foldl (λ a p, (default a.1 (ticket_drop Ticket a.1 p.2 p.1.1), a.2 + 1)) (l, n) ts =
  (foldl (λ l p, default l (ticket_drop Ticket l p.2 p.1.1)) l ts, n + Z.of_nat (length ts)).
Proof.
  revert l n. induction ts as [|p ts IH]; intros l n; cbn [foldl length]; [by rewrite Z.add_0_r|].
  rewrite IH. f_equal. simpl. lia.
Qed.

Lemma count_all {A} (l : list A) n : foldl (λ n _, n + 1) n l = n + Z.of_nat (length l).
Proof. revert n. induction l as [|x l IH]; intros n; cbn [foldl length]; [lia|]. rewrite IH. lia. Qed.

Lemma omap_none {K V W} `{Countable K} (m : gmap K V) : omap (λ _, None) m =@{gmap K W} ∅.
Proof. apply map_empty. intros k. rewrite lookup_omap. by destruct (m !! k). Qed.

(** The tickets are dropped one after the other, in some order. *)
Lemma tee_upgraded s :
  complete vk_visits (v1_Vks s) → complete ticket_visits (v1_Tickets s) →
  ∃ tickets, tickets ≡ₚ map_to_list (v1_Tickets s) ∧
    let n := Z.of_nat (size (v1_Vks s)) + Z.of_nat (size (v1_Tickets s)) in
    tee_on_runtime_upgrade s =
    (State (v1_Disabled s) ∅ ∅ (v1_Events s)
       (foldl (λ l p, default l (ticket_drop Ticket l p.2 p.1.1)) (v1_Runtime s) tickets), (n, n)).
Proof.
  intros Hv Ht. unfold tee_on_runtime_upgrade.
  destruct (drain_all (λ _, None) (λ _ _ n, n + 1) (λ _ _ m n, (m, n + 1)) (λ _ _ _ _, eq_refl) vk_visits (v1_Vks s) 0 Hv)
    as (l1 & Hl1 & ->).
  destruct (drain_all (λ _, None) (λ k t a, (default a.1 (ticket_drop Ticket a.1 t k.1), a.2 + 1))
    drop_tee_ticket (λ _ _ _ _, eq_refl) ticket_visits (v1_Tickets s) (v1_Runtime s, 0) Ht) as (l2 & Hl2 & ->).
  exists l2. split; [done|]. rewrite drop_all, count_all, (Permutation_length Hl1), (Permutation_length Hl2), !length_map_to_list, omap_none. done.
Qed.
End migration.

(** ** Refunds *)

Section refunds.
Context {R L : Type} `{EqDecision R, !Hold R string L, !HoldLaws R string L} (reason : R) (price : Z → Z → Z).

(** Dropping tickets whose deposits are held gives back exactly the deposits. *)
Lemma drop_refunds (ts : deposits) l :
  hold_wf l → Forall (λ p, 0 ≤ p.2) ts → (∀ a, owed a ts ≤ held l reason a) →
  let l' := foldl (λ l p, default l (ticket_drop (HoldConsideration reason price) l p.2 p.1.1)) l ts in
  hold_wf l' ∧
  (∀ a, held l' reason a = held l reason a - owed a ts) ∧
  (∀ r a, r ≠ reason → held l' r a = held l r a) ∧
  (∀ a, free l' a = free l a + owed a ts).
Proof.
  intros Hw Hts. revert l Hw. induction Hts as [|[[b h] t] ts Ht Hts IH]; intros l Hw Hheld.
  { split_and!; try done; intros; cbn; lia. }
  cbn in Ht. cbn zeta. cbn [foldl fst snd]. pose proof (Hheld b) as Hb. rewrite owed_cons in Hb. cbn in Hb. rewrite at_key_eq in Hb.
  pose proof (owed_nonneg b ts Hts).
  destruct (release_ok l reason b t BestEffort Hw ltac:(lia)) as [[l1 y] Hr].
  destruct (release_spec l reason b t _ l1 y Hw Ht Hr) as (Hw1 & -> & Hh & Hf). rewrite Z.min_l in Hh, Hf by lia.
  assert (E : ticket_drop (HoldConsideration reason price) l t b = Some l1).
  { simpl. rewrite Z.max_r by lia. by rewrite Hr. }
  rewrite E. cbn [default]. destruct (IH l1 Hw1) as (H1 & H2 & H3 & H4).
  { intros a. specialize (Hheld a). rewrite owed_cons in Hheld. cbn in Hheld. rewrite Hh.
    unfold at_key in *. repeat case_decide; simplify_eq; lia. }
  split_and!; [done| | |]; intros.
  - rewrite H2, Hh, owed_cons. cbn. unfold at_key. repeat case_decide; simplify_eq; lia.
  - rewrite H3, Hh by done. rewrite at_key_ne by congruence. lia.
  - rewrite H4, Hf, owed_cons. cbn. lia.
Qed.

Lemma tee_refunds vk_visits ticket_visits (s : v1_state (L:=L)) :
  complete vk_visits (v1_Vks s) → complete ticket_visits (v1_Tickets s) →
  let deposits := map_to_list (v1_Tickets s) in
  hold_wf (v1_Runtime s) → map_Forall (λ _ t, 0 ≤ t) (v1_Tickets s) →
  (∀ a, owed a deposits ≤ held (v1_Runtime s) reason a) →
  ∃ l' n, tee_on_runtime_upgrade (HoldConsideration reason price) vk_visits ticket_visits s =
      (State (v1_Disabled s) ∅ ∅ (v1_Events s) l', (n, n)) ∧
    hold_wf l' ∧
    (∀ a, held l' reason a = held (v1_Runtime s) reason a - owed a deposits) ∧
    (∀ r a, r ≠ reason → held l' r a = held (v1_Runtime s) r a) ∧
    (∀ a, free l' a = free (v1_Runtime s) a + owed a deposits).
Proof.
  intros Hc1 Hc2 deposits Hw Hts Hheld.
  destruct (tee_upgraded (HoldConsideration reason price) vk_visits ticket_visits s Hc1 Hc2) as (ts & Hp & E).
  destruct (drop_refunds ts (v1_Runtime s) Hw) as (H1 & H2 & H3 & H4).
  { rewrite Hp. apply map_Forall_to_list in Hts. eapply List.Forall_impl; [|exact Hts]. by intros [k t]. }
  { intros a. rewrite (owed_proper a _ _ Hp). apply Hheld. }
  eexists _, _. split; [exact E|]. split_and!; [exact H1| |exact H3|]; intros a.
  - rewrite H2. by rewrite (owed_proper a _ _ Hp).
  - rewrite H4. by rewrite (owed_proper a _ _ Hp).
Qed.

Lemma empty_inv {Vk Proof Pubs Tk} (T : Config L Vk Proof Pubs Tk) d ev l : inv T (State d ∅ ∅ ev l).
Proof. intros h. unfold vk_ok. simpl. rewrite lookup_empty. intros a. apply lookup_empty. Qed.
End refunds.

(** ** Properties *)

(** The migration of TEE keys leaves an empty pallet, which has the pallet's
    invariant, and gives back to each account exactly the deposits of its tickets:
    they move from its held to its free balance, and no other hold changes. *)
Theorem tee_migration_refunds {R L} `{EqDecision R, !Hold R string L, !HoldLaws R string L} (reason : R) price
    vk_visits ticket_visits (T : Config L TeeVk string string Z) (s : v1_state) :
  complete vk_visits (v1_Vks s) → complete ticket_visits (v1_Tickets s) →
  let deposits := map_to_list (v1_Tickets s) in
  hold_wf (v1_Runtime s) → map_Forall (λ _ t, 0 ≤ t) (v1_Tickets s) →
  (∀ a, owed a deposits ≤ held (v1_Runtime s) reason a) →
  ∃ s' n, tee_on_runtime_upgrade (HoldConsideration reason price) vk_visits ticket_visits s = (s', (n, n)) ∧
    Vks s' = ∅ ∧ Tickets s' = ∅ ∧ inv T s' ∧
    (∀ a, held (Runtime s') reason a = held (v1_Runtime s) reason a - owed a deposits) ∧
    (∀ r a, r ≠ reason → held (Runtime s') r a = held (v1_Runtime s) r a) ∧
    (∀ a, free (Runtime s') a = free (v1_Runtime s) a + owed a deposits).
Proof.
  intros Hc1 Hc2 deposits Hw Hts Hheld.
  destruct (tee_refunds reason price vk_visits ticket_visits s Hc1 Hc2 Hw Hts Hheld) as (l' & n & E & _ & H2 & H3 & H4).
  eexists _, _. split; [exact E|]. split_and!; try done. apply empty_inv.
Qed.

(** ** A small chain *)

Import (hints) HoldLedger.

Definition toy_v1 : v1_state (L:=HoldLedger.hledger HoldReason) (Tk:=Z) := {|
  v1_Disabled := None;
  v1_Vks := {[ "h" := {| old_tee_vk := {| old_tcb_response := "a"; old_certificates := "b" |}; old_tee_count := 2 |} ]};
  v1_Tickets := {[ ("bob", "h") := 5; ("eve", "h") := 7 ]};
  v1_Events := [];
  v1_Runtime := HoldLedger.HLedger {[ "bob" := 1 ]} {[ (VkRegistration, "bob") := 5; (VkRegistration, "eve") := 9 ]}
|}.

Definition toy_tee_config : Config (HoldLedger.hledger HoldReason) TeeVk string string Z := {|
  I := {| hash_context_data := "tee"; verify_proof := λ _ _ _ _, Some (inl VerifyFailed);
          validate_vk := λ _ _, None; vk_hash := λ _, ""; pubs_bytes := λ s, s;
          verifier_version_hash := default_version_hash |};
  Ticket := HoldConsideration VkRegistration (λ _ _, 5);
  OnProofVerified := λ _ _ _ l, Some l;
  on_proof_verified_weight := λ _, no_weight;
  keccak_256 := λ s, s;
  vk_encoded_size := λ _, 0;
  weight_reads_1 := no_weight;
  weight_get_vk := no_weight;
  weight_validate_vk := λ _, no_weight;
  weight_verify_proof := λ _ _, no_weight;
  weight_statement_hash := λ _ _, no_weight;
  on_verify_disabled_verifier := no_weight
|}.

Lemma tee_migration_refunds_witness :
  ∃ s' n, tee_on_runtime_upgrade (HoldConsideration VkRegistration (λ _ _, 5)) ["h"] [("bob", "h"); ("eve", "h")] toy_v1 =
      (s', (n, n)) ∧
    held (Runtime s') VkRegistration "eve" = 2 ∧ free (Runtime s') "bob" = 6.
Proof.
  destruct (tee_migration_refunds VkRegistration (λ _ _, 5) ["h"] [("bob", "h"); ("eve", "h")] toy_tee_config toy_v1)
    as (s' & n & H1 & _ & _ & _ & H2 & _ & H3).
  - apply (bool_decide_unpack _). vm_compute. exact Logic.I.
  - apply (bool_decide_unpack _). vm_compute. exact Logic.I.
  - apply map_Forall_insert_2; [done|]. by apply map_Forall_singleton.
  - apply map_Forall_insert_2; [done|]. by apply map_Forall_singleton.
  - intros a. change (map_to_list (v1_Tickets toy_v1)) with [(("eve", "h"), 7); (("bob", "h"), 5)].
    destruct (decide (a = "eve")) as [->|He]; [vm_compute; discriminate|].
    destruct (decide (a = "bob")) as [->|Hb]; [vm_compute; discriminate|].
    rewrite !owed_cons. cbn [fst snd]. rewrite !at_key_ne by done. apply HoldLedger.hl_wf_held.
    apply map_Forall_insert_2; [done|]. by apply map_Forall_singleton.
  - exists s', n. split; [exact H1|]. rewrite H2, H3. split; reflexivity.
Defined.
