(* ===== verification/Payout.v ===== *)
(** * Inflation and fees ([runtime/zkverify/src/payout.rs], [payout_conf.rs])

    The reward of an era, computed in 64-bit floating point numbers and fixed-point
    fractions, and the distribution of transaction fees.  The fractions of
    [sp_arithmetic] and the imbalances of [frame_support] are interfaces with the
    behaviour they document. *)

From Stdlib Require Import SpecFloat.
From S2P Require Import Prelude F64 Frame Holds.

Open Scope Z_scope.

Definition abs (v : f64) : f64 := if f64_gt v (S754_zero false) then v else SFopp v.

(** ** Fractions *)

(** A fraction is its number of parts out of [acc]: [100] for [Percent], [10^9] for
    [Perbill], [10^18] for [Perquintill]. *)
Class PerThings := {
  from_rational : Z → Z → Z → Z;                   (* [acc], numerator, denominator *)
  parts_mul : Z → Z → Z → Z;                       (* [acc], fraction times fraction *)
  parts_add : Z → Z → Z → Z;
  mul_nat : Z → Z → Z → Z;                         (* [acc], fraction times number *)
  saturating_reciprocal_mul : Z → Z → Z → Z        (* [acc], number over fraction *)
}.

(** Fractions are rounded down and never more than one; a product with a number is
    rounded to the nearest, and down when in doubt. *)
Class PerThingsLaws `{PerThings} := {
  from_rational_spec acc p q : 0 < acc → 0 ≤ p → 0 < q →
    0 ≤ from_rational acc p q ≤ acc ∧ from_rational acc p q * q ≤ p * acc;
  parts_mul_spec acc a b : 0 < acc → 0 ≤ a ≤ acc → 0 ≤ b ≤ acc →
    0 ≤ parts_mul acc a b ∧ parts_mul acc a b * acc ≤ a * b;
  parts_add_spec acc a b : 0 < acc → 0 ≤ a → 0 ≤ b → parts_add acc a b = Z.min (a + b) acc;
  mul_nat_spec acc a x : 0 < acc → 0 ≤ a ≤ acc → 0 ≤ x →
    - acc < 2 * (a * x - acc * mul_nat acc a x) ≤ acc
}.

(** ** Inflation *)

(** [InflationModel] *)
Record InflationModel : Type := {
  ExpPrecision : f64;
  InflationBase : Z;                               (* [Perquintill] *)
  StakingTarget : Z;                               (* [Percent] *)
  K : f64;
  C : f64
}.

Definition u64_max : Z := 2 ^ 64 - 1.
Definition u128_max : Z := 2 ^ 128 - 1.
Definition QUINTILL : Z := 10 ^ 18.
Definition MILLISECS_PER_YEAR : Z := 1000 * 60 * 60 * 24 * 36525 / 100.

Section inflation.
Context `{PerThings} (M : InflationModel).

(** The loop of [exp]; [None] when the fuel runs out.  Also counts its turns. *)
Fixpoint exp_loop (fuel : nat) (p res next i : f64) (n : nat) : option (f64 * nat) :=
  if f64_gt (abs next) (ExpPrecision M) then
    match fuel with
    | O => None
    | S fuel => exp_loop fuel p (f64_add res next) (f64_div (f64_mul next p) i) (f64_add i (f64_of_Z 1)) (S n)
    end
  else Some (res, n).

Definition exp (fuel : nat) (p : f64) : option f64 :=
  fst <$> exp_loop fuel p (S754_zero false) (f64_of_Z 1) (f64_of_Z 1) 0.

Definition f64_to_inflation (p : f64) : Z :=
  from_rational QUINTILL
    (f64_to_Z u64_max (f64_mul p (f64_div f64_100th (ExpPrecision M))))
    (f64_to_Z u64_max (f64_div (f64_of_Z 1) (ExpPrecision M))).

Definition compute_inflation (fuel : nat) (total_staked total_issuance era_duration_millis : Z) : option Z :=
  if total_issuance =? 0 then Some 0
  else
    let scale := f64_div (f64_of_Z 1) (ExpPrecision M) in
    let time_portion := from_rational QUINTILL era_duration_millis MILLISECS_PER_YEAR in
    let staking_current := from_rational (10 ^ 9) total_staked total_issuance in
    let s := saturating_reciprocal_mul 100 (StakingTarget M)
               (mul_nat (10 ^ 9) staking_current (f64_to_Z u128_max scale)) in
    inflation_arg ←
      (if negb (f64_eq (C M) (S754_zero false)) then
         let exp_arg := f64_div (f64_mul (f64_sub scale (f64_of_Z s)) (K M)) scale in
         e ← exp fuel exp_arg; Some (f64_mul (C M) e)
       else Some (S754_zero false));
    let inflation_var := f64_to_inflation inflation_arg in
    Some (mul_nat QUINTILL (parts_mul QUINTILL time_portion (parts_add QUINTILL (InflationBase M) inflation_var))
            total_issuance).

(** [ZKVPayout::era_payout] *)
Definition era_payout (fuel : nat) (splitter : Z) (total_staked total_issuance era_duration_millis : Z)
    : option (Z * Z) :=
  inflation_tot ← compute_inflation fuel total_staked total_issuance era_duration_millis;
  Some (mul_nat 100 splitter inflation_tot, mul_nat 100 (100 - splitter) inflation_tot).
End inflation.

(** The runtime's parameters. *)
Definition runtime_inflation `{PerThings} : InflationModel := {|
  ExpPrecision := f64_1e14th;
  InflationBase := from_rational QUINTILL 25 1000;
  StakingTarget := 50;
  K := f64_of_Z 1;
  C := f64_of_Z 0
|}.

Definition EraPayoutValidatorsSplit : Z := 100.

(** ** Fees *)

(** What is left of the framework: [ration] splits an imbalance in two parts, in
    approximately the given ratio; [resolve] adds one to an account, or gives it
    back when the account cannot receive it.  Imbalances dropped are burned. *)
Class Imbalances (L : Type) := {
  ration : Z → Z → Z → Z * Z;
  balance : L → string → Z;
  resolve : L → string → Z → option L
}.

Class ImbalancesLaws (L : Type) `{Imbalances L} := {
  ration_spec x first second : 0 ≤ x → 0 ≤ first → 0 ≤ second → 0 < first + second →
    let '(a, b) := ration x first second in
    0 ≤ a ∧ 0 ≤ b ∧ a + b = x ∧
    Z.abs (a * (first + second) - x * first) < first + second;
  resolve_spec l a x l' : resolve l a x = Some l' → ∀ b, balance l' b = balance l b + at_key a x b
}.

Section fees.
Context {L : Type} `{Imbalances L, PerThings} (FeesBurnSplit FeesAuthorSplit : Z).

(** The ledger afterwards, and what was burned.  Nothing happens for an amount of
    zero. *)
Definition resolve_to (account : option string) (l : L) (amount : Z) : L * Z :=
  if amount =? 0 then (l, 0)
  else
    match account with
    | Some a => match resolve l a amount with Some l' => (l', 0) | None => (l, amount) end
    | None => (l, amount)
    end.

Definition dropped (l : list Z) : Z := foldr Z.add 0 l.

(** [DealWithFees::on_unbalanceds]; what the iterator still holds is dropped. *)
Definition on_unbalanceds (author : option string) (treasury_account : string) (l : L) (fees_then_tips : list Z)
    : L * Z :=
  match fees_then_tips with
  | [] => (l, 0)
  | fees :: tips =>
      let burn_split := mul_nat 100 FeesBurnSplit 100 in
      let fees_split := 100 - burn_split in
      let '(burned, fees) := ration fees burn_split fees_split in
      let val_split := mul_nat 100 FeesAuthorSplit 100 in
      let treasury_split := 100 - val_split in
      let '(treasury, author_part) := ration fees treasury_split val_split in
      let '(author_part, rest) :=
        match tips with [] => (author_part, []) | t :: rest => (author_part + t, rest) end in
      let '(l, lost1) := resolve_to (Some treasury_account) l treasury in
      let '(l, lost2) := resolve_to author l author_part in
      (l, burned + lost1 + lost2 + dropped rest)
  end.
End fees.

(** The runtime's parameters. *)
Definition BurnFees : Z := 70.
Definition AllFeesToAuthor : Z := 100.

(** ** Lemmas *)

Section laws.
Context `{PerThingsLaws}.


(** Without the variable part, inflation is the base rate. *)
Lemma runtime_compute_inflation fuel staked issuance era :
  issuance ≠ 0 →
  compute_inflation runtime_inflation fuel staked issuance era =
  Some (mul_nat QUINTILL (parts_mul QUINTILL (from_rational QUINTILL era MILLISECS_PER_YEAR)
          (from_rational QUINTILL 25 1000)) issuance).
Proof.
  intros Hi. unfold compute_inflation. rewrite (proj2 (Z.eqb_neq _ _)) by done.
  change (negb (f64_eq (C runtime_inflation) (S754_zero false))) with false. cbn [mbind option_bind].
  unfold f64_to_inflation.
  change (f64_to_Z u64_max (f64_mul (S754_zero false) (f64_div f64_100th (ExpPrecision runtime_inflation)))) with 0.
  change (f64_to_Z u64_max (f64_div (f64_of_Z 1) (ExpPrecision runtime_inflation))) with (10 ^ 14).
  cbn [InflationBase runtime_inflation].
  destruct (from_rational_spec QUINTILL 0 (10 ^ 14)) as [Hz Hz']; [done..|].
  destruct (from_rational_spec QUINTILL 25 1000) as [Hb _]; [done..|].
  replace (from_rational QUINTILL 0 (10 ^ 14)) with 0 by lia.
  rewrite parts_add_spec by (done || lia). by rewrite Z.add_0_r, Z.min_l by lia.
Qed.

(** The reward of an era without rounding: 2.5% of the issuance for a year. *)
Lemma runtime_inflation_bound era issuance :
  0 ≤ era → 0 ≤ issuance →
  let x := mul_nat QUINTILL (parts_mul QUINTILL (from_rational QUINTILL era MILLISECS_PER_YEAR)
             (from_rational QUINTILL 25 1000)) issuance in
  0 ≤ x ∧ 80 * MILLISECS_PER_YEAR * x ≤ 2 * era * issuance + 40 * MILLISECS_PER_YEAR ∧
  80 * x ≤ 2 * issuance + 40.
Proof.
  intros He Hi x. assert (HQ : 0 < QUINTILL) by done. assert (HY : 0 < MILLISECS_PER_YEAR) by done.
  destruct (from_rational_spec QUINTILL era MILLISECS_PER_YEAR HQ He HY) as [Ht Ht'].
  destruct (from_rational_spec QUINTILL 25 1000 HQ) as [Hb Hb']; [done..|].
  destruct (parts_mul_spec QUINTILL _ _ HQ Ht Hb) as [Hp Hp'].
  set (t := from_rational QUINTILL era MILLISECS_PER_YEAR) in *. set (b := from_rational QUINTILL 25 1000) in *.
  set (p := parts_mul QUINTILL t b) in *.
  assert (Hb40 : 40 * b ≤ QUINTILL) by lia. assert (Hp40 : 40 * p ≤ t) by nia.
  assert (HpQ : 40 * p ≤ QUINTILL) by lia.
  pose proof (mul_nat_spec QUINTILL p issuance HQ ltac:(lia) Hi) as Hx. fold x in Hx.
  split_and!; [nia| |nia].
  assert (H1 : 40 * p * issuance ≤ t * issuance) by nia.
  assert (H2 : t * MILLISECS_PER_YEAR * issuance ≤ era * QUINTILL * issuance) by nia.
  assert (H3 : 80 * (QUINTILL * x) ≤ 80 * (p * issuance) + 40 * QUINTILL) by lia.
  apply (Zmult_le_reg_r _ _ QUINTILL); [lia|]. nia.
Qed.
End laws.

Section fee_laws.
Context {L : Type} `{ImbalancesLaws L, PerThingsLaws}.



End fee_laws.

(** ** Properties *)

(** C27: the reward of an era in the runtime: the computation always ends, gives all
    of it to the validators, and mints at most 2.5% of the issuance a year in
    proportion to the length of the era, up to half a unit for rounding, and at
    most 2.5% of the issuance however long the era lasted. *)
Theorem era_payout_bounded `{PerThingsLaws} fuel staked issuance era :
  0 ≤ issuance → 0 ≤ era →
  ∃ x, era_payout runtime_inflation fuel EraPayoutValidatorsSplit staked issuance era = Some (x, 0) ∧ 0 ≤ x ∧
    80 * MILLISECS_PER_YEAR * x ≤ 2 * era * issuance + 40 * MILLISECS_PER_YEAR ∧
    80 * x ≤ 2 * issuance + 40.
Proof.
  intros Hi He. unfold era_payout, EraPayoutValidatorsSplit.
  assert (Hsplit : ∀ x, 0 ≤ x → mul_nat 100 100 x = x ∧ mul_nat 100 (100 - 100) x = 0).
  { intros x Hx. pose proof (mul_nat_spec 100 100 x ltac:(lia) ltac:(lia) Hx).
    pose proof (mul_nat_spec 100 (100 - 100) x ltac:(lia) ltac:(lia) Hx). lia. }
  destruct (decide (issuance = 0)) as [->|Hne].
  - exists 0. change (compute_inflation _ fuel staked 0 era) with (Some 0). cbn [mbind option_bind].
    destruct (Hsplit 0) as [-> ->]; [done|]. split_and!; [done..| |lia].
    assert (0 < MILLISECS_PER_YEAR) by done. lia.
  - rewrite runtime_compute_inflation by done. cbn [mbind option_bind].
    destruct (runtime_inflation_bound era issuance He Hi) as (H1 & H2 & H3).
    destruct (Hsplit _ H1) as [-> ->]. eexists. split; [reflexivity|]. done.
Qed.


(** ** Instances *)

#[export] Instance exact_perthings : PerThings := {
  from_rational acc p q := if q =? 0 then acc else Z.min acc (p * acc / q);
  parts_mul acc a b := a * b / acc;
  parts_add acc a b := Z.min (a + b) acc;
  mul_nat acc a x := (2 * a * x + acc - 1) / (2 * acc);
  saturating_reciprocal_mul acc a x := if a =? 0 then u128_max else Z.min u128_max ((2 * x * acc + a - 1) / (2 * a))
}.

#[export] Instance exact_perthings_laws : PerThingsLaws.
Proof.
  split; cbn.
  - intros acc p q Ha Hp Hq. rewrite (proj2 (Z.eqb_neq q 0)) by lia.
    pose proof (Z.div_pos (p * acc) q ltac:(nia) Hq). pose proof (Z.mul_div_le (p * acc) q Hq). split; nia.
  - intros acc a b Ha [] []. pose proof (Z.mul_div_le (a * b) acc Ha).
    pose proof (Z.div_pos (a * b) acc ltac:(nia) Ha). lia.
  - done.
  - intros acc a x Ha [] Hx. pose proof (Z.div_mod (2 * a * x + acc - 1) (2 * acc) ltac:(lia)).
    pose proof (Z.mod_pos_bound (2 * a * x + acc - 1) (2 * acc) ltac:(lia)). nia.
Qed.

(** A ledger of two accounts. *)
Record two_accounts : Type := Two { author_balance : Z; treasury_balance : Z }.

#[export] Instance toy_imbalances : Imbalances two_accounts := {
  ration x a b := if a + b =? 0 then (0, 0) else (x * a / (a + b), x - x * a / (a + b));
  balance l a := if decide (a = "author") then author_balance l
                 else if decide (a = "treasury") then treasury_balance l else 0;
  resolve l a x := if decide (a = "author") then Some (Two (author_balance l + x) (treasury_balance l))
                   else if decide (a = "treasury") then Some (Two (author_balance l) (treasury_balance l + x))
                   else None
}.

#[export] Instance toy_imbalances_laws : ImbalancesLaws two_accounts.
Proof.
  split.
  - intros x a b Hx Ha Hb Hab. cbn [ration toy_imbalances]. rewrite (proj2 (Z.eqb_neq (a + b) 0)) by lia.
    pose proof (Z.div_mod (x * a) (a + b) ltac:(lia)). pose proof (Z.mod_pos_bound (x * a) (a + b) Hab). nia.
  - intros l a x l'. cbn [resolve balance toy_imbalances]. unfold at_key.
    repeat case_decide; intros [= <-] b; repeat case_decide; simplify_eq; cbn; lia.
Qed.

(** The values the unit tests of the module expect. *)
Definition test_model (c : f64) : InflationModel := {|
  ExpPrecision := f64_1e14th; InflationBase := from_rational QUINTILL 25 1000; StakingTarget := 50;
  K := f64_of_Z 1; C := c
|}.

Definition f64_10th : f64 := f64_div (f64_of_Z 1) (f64_of_Z 10).

Lemma expected_no_staking :
  compute_inflation (test_model (f64_of_Z 0)) 0 0 (10 ^ 18) MILLISECS_PER_YEAR = Some 25000000000000000 ∧
  compute_inflation (test_model (f64_of_Z 0)) 0 0 (10 ^ 9) (MILLISECS_PER_YEAR / 2) = Some 12500000 ∧
  compute_inflation (test_model (f64_of_Z 0)) 0 0 (10 ^ 24) (MILLISECS_PER_YEAR * 100 / 36525) = Some 68446269678302000000 ∧
  compute_inflation (test_model (f64_of_Z 0)) 0 0 (10 ^ 24) (1000 * 60 * 60 * 6) = Some 17111567419575000000.
Proof. by vm_compute. Qed.

Lemma expected_staking_aware :
  let staked p n := mul_nat 100 p n in
  compute_inflation (test_model f64_10th) 30 (staked 50 (10 ^ 18)) (10 ^ 18) MILLISECS_PER_YEAR = Some 26000000000000000 ∧
  compute_inflation (test_model f64_10th) 30 (staked 30 (10 ^ 18)) (10 ^ 18) MILLISECS_PER_YEAR = Some 26491824697640000 ∧
  compute_inflation (test_model f64_10th) 30 (staked 70 (10 ^ 18)) (10 ^ 18) MILLISECS_PER_YEAR = Some 25670320046030000 ∧
  compute_inflation (test_model f64_10th) 30 (staked 50 (10 ^ 24)) (10 ^ 24) (1000 * 60 * 60 * 6) = Some 17796030116358000000 ∧
  compute_inflation (test_model f64_10th) 30 (staked 20 (10 ^ 24)) (10 ^ 24) (1000 * 60 * 60 * 6) = Some 18358739767549000000 ∧
  compute_inflation (test_model f64_10th) 30 (staked 80 (10 ^ 24)) (10 ^ 24) (1000 * 60 * 60 * 6) = Some 17487208512039000000.
Proof. by vm_compute. Qed.

(** Fees of 1000 and a tip of 500: the example of the documentation. *)
Lemma expected_fees :
  on_unbalanceds 10 70 (Some "author") "treasury" (Two 0 0) [1000; 500] = (Two 1130 270, 100).
Proof. by vm_compute. Qed.

(** The number of terms [exp] sums up for 1, at the precision of the runtime. *)
Lemma exp_terms : snd <$> exp_loop runtime_inflation 30 (f64_of_Z 1) (S754_zero false) (f64_of_Z 1) (f64_of_Z 1) 0 = Some 17%nat.
Proof. by vm_compute. Qed.

Lemma era_payout_bounded_witness :
  ∃ x, era_payout runtime_inflation 0 EraPayoutValidatorsSplit 0 (10 ^ 18) MILLISECS_PER_YEAR = Some (x, 0) ∧
    80 * x ≤ 2 * 10 ^ 18 + 40.
Proof.
  destruct (era_payout_bounded 0 0 (10 ^ 18) MILLISECS_PER_YEAR) as (x & H1 & _ & _ & H2); [done..|].
  exists x. split; [exact H1|exact H2].
Defined.

(** Of 1000 units of fees the runtime burns 700. *)
Lemma runtime_burns :
  on_unbalanceds BurnFees AllFeesToAuthor (Some "author") "treasury" (Two 0 0) [1000; 500] = (Two 800 0, 700).
Proof. vm_compute. reflexivity. Qed.

