(* ===== verification/Proxy.v ===== *)
(** * Proxies ([runtime/zkverify/src/proxy.rs])

    The kinds of proxies of the runtime, which calls each may make for the account
    it stands for, and which kinds contain which: the proxy pallet asks
    [is_superset] before a proxy may add or remove proxies. *)

From S2P Require Import Prelude.

(** ** Calls *)

Inductive VerifierPallet : Type :=
  | SettlementGroth16Pallet
  | SettlementRisc0Pallet
  | SettlementUltraplonkPallet
  | SettlementPlonky2Pallet
  | SettlementFFlonkPallet
  | SettlementSp1Pallet
  | SettlementUltrahonkPallet
  | SettlementEzklPallet
  | SettlementTeePallet.

(** What the filter reads of a call of the verifier, vesting and proxy pallets. *)
Inductive VerifierCall : Type := submit_proof | register_vk | disable | unregister_vk.
Inductive VestingCall : Type :=
  | vest | vest_other | vested_transfer | force_vested_transfer | merge_schedules | force_remove_vesting_schedule.
Inductive ProxyCall : Type := reject_announcement | OtherProxyCall.

(** The calls of the runtime, by pallet. *)
Inductive RuntimeCall : Type :=
  | System | Scheduler | Preimage | Timestamp | Balances | Staking | Babe | Session | Grandpa | Treasury
  | ConvictionVoting | Referenda | VoterList | Bounties | ChildBounties | Utility | Multisig | Identity | Sudo
  | Aggregate | TokenClaim | Crl | Parachains | XcmPallet | MessageQueue
  | Proxy (c : ProxyCall)
  | Vesting (c : VestingCall)
  | Verifier (p : VerifierPallet) (c : VerifierCall).

Inductive ProxyType : Type := Any | NonTransfer | Governance | StakingProxy | CancelProxy.

#[export] Instance ProxyType_eq_dec : EqDecision ProxyType.
Proof. solve_decision. Defined.

(** ** The filter *)

Definition is_a_submit_proof_extrinsic (c : RuntimeCall) : bool :=
  match c with
  | Verifier (SettlementEzklPallet | SettlementFFlonkPallet | SettlementGroth16Pallet | SettlementRisc0Pallet
              | SettlementUltrahonkPallet | SettlementUltraplonkPallet | SettlementPlonky2Pallet
              | SettlementSp1Pallet | SettlementTeePallet) submit_proof => true
  | _ => false
  end.

Definition filter (self : ProxyType) (c : RuntimeCall) : bool :=
  match self with
  | Any => true
  | NonTransfer =>
      match c with
      | System | Scheduler | Babe | Timestamp | Staking | Session | Grandpa | Treasury | Bounties
      | ChildBounties | ConvictionVoting | Referenda | Vesting vest | Vesting vest_other | Utility
      | Proxy _ | Multisig | VoterList | Aggregate
      | Verifier (SettlementEzklPallet | SettlementFFlonkPallet | SettlementGroth16Pallet | SettlementRisc0Pallet
                  | SettlementUltrahonkPallet | SettlementUltraplonkPallet | SettlementPlonky2Pallet
                  | SettlementSp1Pallet | SettlementTeePallet) _ => true
      | _ => false
      end && negb (is_a_submit_proof_extrinsic c)
  | Governance =>
      match c with
      | Treasury | Bounties | Utility | ChildBounties | ConvictionVoting | Referenda => true
      | _ => false
      end
  | StakingProxy => match c with Staking | Session | Utility | VoterList => true | _ => false end
  | CancelProxy => match c with Proxy reject_announcement => true | _ => false end
  end.

Definition is_superset (self o : ProxyType) : bool :=
  if decide (self = o) then true
  else
    match self, o with
    | Any, _ => true
    | _, Any => false
    | NonTransfer, _ => true
    | _, _ => false
    end.

(** ** Properties *)

(** The calls that move funds or pay for proofs are out of reach of a
    [NonTransfer] proxy. *)
Lemma nontransfer_denies c :
  filter NonTransfer c = true →
  c ≠ Balances ∧ c ≠ Sudo ∧ c ≠ XcmPallet ∧ c ≠ TokenClaim ∧
  (∀ v, c = Vesting v → v = vest ∨ v = vest_other) ∧ (∀ p v, c = Verifier p v → v ≠ submit_proof).
Proof.
  intros H. split_and!.
  1-4: by intros ->.
  - intros v ->. destruct v; auto; done.
  - intros p v -> ->. by destruct p.
Qed.

(** [is_superset] says what it means: a kind of proxy contains another exactly
    when it may make every call the other may make, so that nobody gains a call by
    adding proxies through a proxy. *)
Theorem superset_exact a b :
  is_superset a b = true ↔ ∀ c, filter b c = true → filter a c = true.
Proof.
  split.
  - intros H c. destruct a, b; try done; destruct c as [| | | | | | | | | | | | | | | | | | | | | | | | |[]|[]|[] []]; done.
  - intros H. destruct a, b; try done; exfalso;
      first [ by specialize (H Balances eq_refl) | by specialize (H System eq_refl) | by specialize (H Treasury eq_refl)
            | by specialize (H Staking eq_refl) | by specialize (H (Proxy reject_announcement) eq_refl) ].
Qed.
