(* ===== verification/RuntimeVerifiers.v ===== *)
(** * The verifiers in the runtime ([runtime/zkverify/src/lib.rs], [runtime/zkverify/src/weights])

    The parameters and weights the runtime gives to the verifiers, and the contract
    between a verifier and the pallet on weights: a verifier may correct the weight
    announced for a proof once it has seen the proof, downwards only. *)

From S2P Require Import Prelude Frame Holds Crl Verifiers TeeVerifier Groth16 Fflonk Plonky2 Ultrahonk Risc0 ByteVerifiers.

Open Scope Z_scope.

(** ** The contract *)

Class Refunds {L VkT Proof Pubs} (V : Verifier L VkT Proof Pubs) (announced : Proof → Pubs → Weight) : Prop :=
  refunds : ∀ l vk p u w, verify_proof V l vk p u = Some (inr (Some w)) → weight_le w (announced p u).

(** What a submission is charged in the end. *)
Definition never_overcharged {L VkT Proof Pubs Tk} (T : Verifiers.Config L VkT Proof Pubs Tk) : Prop :=
  ∀ o v p u d s w s', submit_proof T o v p u d s = ROk (Some w) s' →
    weight_le w (submit_proof_weight T v p u d None).

Lemma refunds_never_overcharged {L VkT Proof Pubs Tk} (T : Verifiers.Config L VkT Proof Pubs Tk) :
  Refunds (I T) (weight_verify_proof T) → never_overcharged T.
Proof.
  intros HR o v p u d s w s'. unfold submit_proof, mbind, M_bind.
  destruct (ensure_enabled T s) as [[] s1|e|]; [|done..]. destruct (resolve_vk T v s1) as [vk s2|e|]; [|done..].
  destruct (ensure_signed_or_root o s2) as [a s3|e|]; [|done..]. cbn [gets].
  destruct (verify_proof (I T) (Runtime s3) vk p u) as [[e|w']|] eqn:Hv; [done| |done]. cbn.
  destruct (OnProofVerified T _ _ _ _); [|done]. cbn. destruct w' as [w'|]; [|done]. intros [= <- <-].
  by apply submit_weight_refunds, (HR (Runtime s3) vk).
Qed.

(** ** Ultrahonk *)

(** [Weight::from_parts(a, 0).saturating_add(Weight::from_parts(b, 0).saturating_mul(n))] *)
Definition linear_weight (a b n : Z) : Weight :=
  {| ref_time := Z.min (a + Z.min (b * n) u64_max) u64_max; proof_size := 0 |}.

Definition honk_runtime : HonkParams := {|
  Ultrahonk.MaxPubs := 32;
  verify_zk_proof_v3_0 := linear_weight 2697286924 37187085;
  verify_plain_proof_v3_0 := linear_weight 2485554847 33699744;
  verify_zk_proof_v0_84 := Risc0.w 4013918000;
  verify_plain_proof_v0_84 := Risc0.w 3731581000
|}.

Lemma honk_runtime_monotone : weights_monotone honk_runtime.
Proof. intros n m H. unfold weight_le. simpl. lia. Qed.

(** ** Plonky2 *)

(** The weights for the degrees from 2 on. *)
Definition poseidon_weights : list Z :=
  [10824905000; 11865619000; 12940367000; 14005748000; 17185018000; 18480268000; 19798882000; 21138124000;
   24620600000; 26115633000; 27685626000; 29329818000; 32961904000; 34781855000; 36742207000; 38558470000;
   42429514000; 44572006000].
Definition keccak_weights : list Z :=
  [1410716000; 1504481000; 1609798000; 1718050000; 2728648000; 2851378000; 2972884000; 3101053000; 4123033000;
   4267132000; 4401764000; 4556112000; 5592528000; 5757236000; 5924429000; 6202398000; 7215581000; 7355953000].

Definition weight_at (l : list Z) (n : Z) : Weight := Risc0.w (default 0 (l !! Z.to_nat (n - 2))).

Definition plonky2_runtime : Plonky2Params := {|
  Plonky2.MaxProofSize := 262144;
  Plonky2.MaxPubsSize := 512;
  Plonky2.MaxVkSize := 50000;
  w_poseidon := weight_at poseidon_weights;
  w_keccak := weight_at keccak_weights
|}.

(** ** TEE *)

(** [TeeWeight::verify_proof], with [Weight::max] *)
Definition tee_weight (intel nitro : Weight) (proof pubs : string) : Weight :=
  {| ref_time := Z.max (ref_time intel) (ref_time nitro);
     proof_size := Z.max (proof_size intel) (proof_size nitro) |}.

(** ** The verifiers keep the contract *)

#[export] Instance honk_refunds {L} v084 v30 psz k084 k30 ext keccak sha2 encode :
  Refunds (L:=L) (Ultrahonk honk_runtime v084 v30 psz k084 k30 ext keccak sha2 encode) (ultrahonk_weight honk_runtime).
Proof.
  intros l vk p u w Hv. simpl in Hv.
  pose proof (ultrahonk_weight_bounded honk_runtime v084 v30 psz ext vk p u honk_runtime_monotone) as H.
  by rewrite Hv in H.
Qed.

Lemma plonky2_weight_max d c w :
  compute_weight plonky2_runtime d c = Some w → weight_le w (w_poseidon plonky2_runtime 19).
Proof.
  intros H. assert (Hd : 1 ≤ d ≤ 19).
  { destruct (decide (1 ≤ d ≤ 19)) as [|Hd]; [done|].
    rewrite (proj2 (compute_weight_panics plonky2_runtime d c)) in H by lia. done. }
  assert (Hall : d = 1 ∨ d = 2 ∨ d = 3 ∨ d = 4 ∨ d = 5 ∨ d = 6 ∨ d = 7 ∨ d = 8 ∨ d = 9 ∨ d = 10 ∨ d = 11 ∨ d = 12
    ∨ d = 13 ∨ d = 14 ∨ d = 15 ∨ d = 16 ∨ d = 17 ∨ d = 18 ∨ d = 19) by lia.
  destruct_or! Hall; subst d; destruct c; injection H as <-; split; by vm_compute.
Qed.

#[export] Instance plonky2_refunds {L} deserialize verify keccak encode :
  Refunds (L:=L) (Plonky2 plonky2_runtime deserialize verify keccak encode) (plonky2_weight plonky2_runtime).
Proof.
  intros l vk p u w. simpl. unfold plonky2_verify_proof. destruct (negb _); [done|]. destruct (negb _); [done|].
  destruct (_ <? _); [done|]. destruct (deserialize _ _) as [x|]; [|done].
  destruct (compute_weight _ _ _) as [w'|] eqn:Hw; [|done]. destruct (verify _ _ _); [|done].
  intros [= <-]. by eapply plonky2_weight_max.
Qed.

#[export] Instance risc0_refunds {L P} (from_reader : string → option P) segments_info verify :
  Refunds (L:=L) (Risc0 risc0_runtime from_reader segments_info verify) (risc0_weight risc0_runtime).
Proof.
  intros l vk p u w. simpl. intros [= H]. destruct (risc0_accepted _ _ _ _ _ _ _ _ H)
    as (q & st & x & _ & _ & _ & _ & Hx & [= ->] & Hle & _). split; [done|].
  change (proof_size (risc0_weight risc0_runtime p u)) with 0. destruct st as [|infos]; simpl in Hx.
  - by injection Hx as <-.
  - destruct (mapM _ infos) as [ws|]; [|done]. injection Hx as <-.
    assert (E : ∀ ws acc, proof_size (foldl add_ref_time acc ws) = proof_size acc).
    { intros ws'. induction ws' as [|y ws' IH]; intros acc; [done|]. cbn [foldl]. by rewrite IH. }
    by rewrite E.
Qed.

#[export] Instance tee_refunds {L} crl_state C ca intel nitro {Q TI TR A} pq ptcb tiv qv json trv pn av keccak encode :
  Refunds (Tee (L:=L) (Quote:=Q) (TcbInfo:=TI) (TcbResponse:=TR) (Attestation:=A) crl_state C ca intel nitro
             pq ptcb tiv qv json trv pn av keccak encode) (tee_weight intel nitro).
Proof.
  intros l vk p u w. simpl. intros [= H]. assert (Hw : w = intel ∨ w = nitro).
  { unfold tee_verify_proof in H. repeat (case_match; try done); simplify_eq; auto. }
  unfold weight_le. simpl. destruct Hw as [-> | ->]; lia.
Qed.

(** ** Properties *)

(** C23: no submission is charged more than it was announced: with the parameters
    and weights of the runtime, the weight that the UltraHonk, Plonky2, RISC Zero and
    TEE pallets return after a verification is at most the one fixed before the
    call, in both components, whatever key and proof were sent; so a block never
    gets heavier than it was when its calls were admitted. *)
Theorem announced_weight_suffices {L Tk} v084 v30 psz k084 k30 ext deserialize p2_verify
    {P} (from_reader : string → option P) segments_info r0_verify
    crl_state C ca intel nitro {Q TI TR A} pq ptcb tiv qv json trv pn av keccak sha2 encode1 encode2 encode3 :
  (∀ T : Verifiers.Config L VersionedVk VersionedProof (list string) Tk,
     I T = Ultrahonk honk_runtime v084 v30 psz k084 k30 ext keccak sha2 encode1 →
     weight_verify_proof T = ultrahonk_weight honk_runtime → never_overcharged T) ∧
  (∀ T : Verifiers.Config L Plonky2Vk string string Tk,
     I T = Plonky2 plonky2_runtime deserialize p2_verify keccak encode2 →
     weight_verify_proof T = plonky2_weight plonky2_runtime → never_overcharged T) ∧
  (∀ T : Verifiers.Config L string R0 string Tk,
     I T = Risc0 risc0_runtime from_reader segments_info r0_verify →
     weight_verify_proof T = risc0_weight risc0_runtime → never_overcharged T) ∧
  (∀ T : Verifiers.Config L TeeVk string string Tk,
     I T = Tee (Quote:=Q) (TcbInfo:=TI) (TcbResponse:=TR) (Attestation:=A) crl_state C ca intel nitro
             pq ptcb tiv qv json trv pn av keccak encode3 →
     weight_verify_proof T = tee_weight intel nitro → never_overcharged T).
Proof.
  split_and!; intros T HV HW; apply refunds_never_overcharged; rewrite HV, HW; apply _.
Qed.

(** ** Samples *)

(** The RISC Zero pallet, with receipts that have one segment for each byte. *)
Definition risc0_pallet : Verifiers.Config Crl.state string R0 string unit :=
  let C := bare_config (Risc0 risc0_runtime Some toy_segments (λ _ _ _ _, true)) (λ s, s) in {|
  I := I C; Ticket := Ticket C; OnProofVerified := OnProofVerified C;
  on_proof_verified_weight := on_proof_verified_weight C; keccak_256 := keccak_256 C;
  vk_encoded_size := vk_encoded_size C; weight_reads_1 := weight_reads_1 C; weight_get_vk := weight_get_vk C;
  weight_validate_vk := weight_validate_vk C; weight_verify_proof := risc0_weight risc0_runtime;
  weight_statement_hash := weight_statement_hash C; on_verify_disabled_verifier := on_verify_disabled_verifier C
|}.

(** A proof of two segments costs less than announced. *)
Definition two_segments : R0 := {| r0_version := V2_2; r0_bytes := toy_bytes [20; 17] |}.

Lemma announced_weight_suffices_witness :
  ∃ s', submit_proof risc0_pallet (Signed "bob") (Vk "key") two_segments "" None (State None ∅ ∅ [] sample_cas)
          = ROk (Some (w 65832570000)) s' ∧
    weight_le (w 65832570000) (submit_proof_weight risc0_pallet (Vk "key") two_segments "" None None).
Proof.
  eexists. assert (E : ∃ s', submit_proof risc0_pallet (Signed "bob") (Vk "key") two_segments "" None
    (State None ∅ ∅ [] sample_cas) = ROk (Some (w 65832570000)) s') by (eexists; vm_compute; reflexivity).
  split; [vm_compute; reflexivity|]. destruct E as [s' E].
  exact (proj1 (proj2 (proj2 (announced_weight_suffices (λ _ _ _, None) (λ _ _ _, None) (λ _, 0) (λ _, true) (λ _, true)
    (λ _, None) (λ _ _, None) (λ _ _ _, true) Some toy_segments (λ _ _ _ _, true)
    (λ s, s) sample_crl_config ca_names no_weight no_weight
    Some Some (λ _ _, true) (λ _ _ _ _, true) Some (λ _ _ _ _, true) Some (λ _ _ _, true)
    (λ s, s) (λ s, s) honk_bytes p2_bytes (λ _, ""))))
    risc0_pallet eq_refl eq_refl _ _ _ _ _ _ _ _ E).
Defined.
