(* ===== verification/VkHashRpc.v ===== *)
(** * The RPC on verification keys ([rpc/vk_hash/src/lib.rs])

    A node tells the hash of a key, so that a user knows under which hash it is
    found once registered.  Keys come in the form of the JSON interface and are
    converted to those of the pallets. *)

From S2P Require Import Prelude Frame Holds Crl Verifiers Groth16 Fflonk Plonky2 Ultrahonk Risc0 ByteVerifiers.

Open Scope Z_scope.

(** [ErrorObject] *)
Record RpcError : Type := { code : Z; message : string }.

(** [FflonkVk] of the interface: the points are arrays. *)
Record RpcFflonkVk : Type := {
  r_power : Z;
  r_k1 : Z; r_k2 : Z; r_w : Z; r_w3 : Z; r_w4 : Z; r_w8 : Z; r_wr : Z;
  r_x2 : (Z * Z) * (Z * Z) * (Z * Z);
  r_c0 : Z * Z * Z
}.

Definition fflonk_from (vk : RpcFflonkVk) : FflonkVk :=
  let '((a0, a1), (b0, b1), (d0, d1)) := r_x2 vk in
  let '(x, y, z) := r_c0 vk in
  {| power := r_power vk;
     k1 := r_k1 vk; k2 := r_k2 vk; Fflonk.w := r_w vk; w3 := r_w3 vk; w4 := r_w4 vk; w8 := r_w8 vk; wr := r_wr vk;
     x2 := {| g2_x := {| real := a0; imaginary := a1 |}; g2_y := {| real := b0; imaginary := b1 |};
              g2_z := {| real := d0; imaginary := d1 |} |};
     c0 := {| g1_x := x; g1_y := y; g1_z := z |} |}.

(** [Groth16Vk] of the interface *)
Record RpcGroth16Vk : Type := {
  r_curve : Curve;
  r_alpha_g1 : string;
  r_beta_g2 : string;
  r_gamma_g2 : string;
  r_delta_g2 : string;
  r_gamma_abc_g1 : list string
}.

Definition groth16_from (vk : RpcGroth16Vk) : VerificationKeyWithCurve := {|
  vk_curve := r_curve vk;
  vk_key := {| alpha_g1 := r_alpha_g1 vk; beta_g2 := r_beta_g2 vk; gamma_g2 := r_gamma_g2 vk;
               delta_g2 := r_delta_g2 vk; gamma_abc_g1 := r_gamma_abc_g1 vk |}
|}.

Section rpc.
Context (VK_SIZE_V0_84 VK_SIZE_V3_0 VK_SIZE : Z).

Definition slice_error : RpcError := {| code := 1; message := "Incorrect Slice Length" |}.

(** [TryFrom<UltrahonkVk>]: the pallet's keys are arrays. *)
Definition ultrahonk_try_from (vk : VersionedVk) : RpcError + VersionedVk :=
  let '(size, e) :=
    match honk_version vk with
    | V0_84 => (VK_SIZE_V0_84, "Incorrect length for V0_84 VK")
    | Ultrahonk.V3_0 => (VK_SIZE_V3_0, "Incorrect length for V3_0 VK")
    | Legacy => (VK_SIZE_V0_84, "Incorrect length for Legacy VK")
    end in
  if len (honk_bytes vk) =? size then inr vk else inl {| code := 1; message := e |}.

Context (hash_ezkl hash_ultraplonk : string → string).
Context (hash_fflonk : FflonkVk → string) (hash_groth16 : VerificationKeyWithCurve → string).
Context (hash_plonky2 : Plonky2Vk → string) (hash_ultrahonk : VersionedVk → string).

(** The methods, over the [vk_hash] of the verifiers. *)
Definition rpc_ezkl (vk_bytes : string) : RpcError + string :=
  if Ezkl.ezkl_length_wrong vk_bytes then inl slice_error else inr (hash_ezkl vk_bytes).

Definition rpc_fflonk (vk : RpcFflonkVk) : RpcError + string := inr (hash_fflonk (fflonk_from vk)).

Definition rpc_groth16 (vk : RpcGroth16Vk) : RpcError + string := inr (hash_groth16 (groth16_from vk)).

Definition rpc_plonky2 (config : Plonky2Config) (bytes : string) : RpcError + string :=
  inr (hash_plonky2 {| p2_config := config; p2_bytes := bytes |}).

Definition rpc_risc0 (vk : string) : RpcError + string := inr vk.

Definition rpc_ultrahonk (vk : VersionedVk) : RpcError + string :=
  match ultrahonk_try_from vk with inl e => inl e | inr vk => inr (hash_ultrahonk vk) end.

Definition rpc_ultraplonk (vk : string) : RpcError + string :=
  if negb (len vk =? VK_SIZE) then inl slice_error else inr (hash_ultraplonk vk).

Definition rpc_sp1 (vk : string) : RpcError + string := inr vk.
End rpc.

(** ** Properties *)

(** The answer is the hash a registration of the key stores and announces. *)
Definition announces {L VkT Proof Pubs Tk} (T : Config L VkT Proof Pubs Tk) (vk : VkT) (answer : RpcError + string) : Prop :=
  ∀ h s a s', answer = inr h → dispatch (run_call T (Signed a) (Call_register_vk vk)) s = (s', Done) →
    Events s' = Events s ++ [VkRegistered h] ∧ is_Some (Vks s' !! h) ∧ is_Some (Tickets s' !! (a, h)).

Lemma hash_announces {L VkT Proof Pubs Tk} (T : Config L VkT Proof Pubs Tk) vk :
  announces T vk (inr (vk_hash (I T) vk)).
Proof.
  intros h s a s' [= <-]. unfold dispatch. simpl.
  pose proof (register_vk_ends T (Signed a) vk s) as H. unfold ends in H.
  destruct (register_vk T (Signed a) vk s) as [[] s1|e|]; [|done..]. intros [= <-].
  destruct H as (a' & [= <-] & l' & t & e & _ & _ & _ & _ & _ & _ & ->). simpl.
  split_and!; [done|rewrite lookup_insert_eq; by eexists..].
Qed.

Lemma error_announces {L VkT Proof Pubs Tk} (T : Config L VkT Proof Pubs Tk) vk e : announces T vk (inl e).
Proof. by intros h s a s'. Qed.

(** The RPC tells the truth about keys: for each of the eight verifiers, when
    the key it answered for is registered, it is stored, counted and announced
    under the hash of the answer; and it refuses an EZKL key exactly when the
    pallet would. *)
Theorem rpc_hash_is_registered {L Tk} (T1 : Config L string string (list string) Tk)
    (T2 : Config L FflonkVk string string Tk) (T3 : Config L VerificationKeyWithCurve ProofWithCurve (list string) Tk)
    (T4 : Config L Plonky2Vk string string Tk) (T5 : Config L string R0 string Tk)
    (T6 : Config L VersionedVk VersionedProof (list string) Tk) (T7 : Config L string string (list string) Tk)
    (T8 : Config L string string string Tk) size084 size30 up_size
    RP {P} (from_reader : string → option P) segments_info r0_verify
    {SP} sp1_max (decode : string → option SP) sp1_verify :
  I T5 = Risc0 RP from_reader segments_info r0_verify →
  I T8 = Sp1.Sp1 sp1_max decode sp1_verify →
  (∀ vk, announces T1 vk (rpc_ezkl (vk_hash (I T1)) vk) ∧
         ((∃ e, rpc_ezkl (vk_hash (I T1)) vk = inl e) ↔ Ezkl.ezkl_validate_vk vk ≠ None)) ∧
  (∀ vk, announces T2 (fflonk_from vk) (rpc_fflonk (vk_hash (I T2)) vk)) ∧
  (∀ vk, announces T3 (groth16_from vk) (rpc_groth16 (vk_hash (I T3)) vk)) ∧
  (∀ c b, announces T4 {| p2_config := c; p2_bytes := b |} (rpc_plonky2 (vk_hash (I T4)) c b)) ∧
  (∀ vk, announces T5 vk (rpc_risc0 vk)) ∧
  (∀ vk, announces T6 vk (rpc_ultrahonk size084 size30 (vk_hash (I T6)) vk)) ∧
  (∀ vk, announces T7 vk (rpc_ultraplonk up_size (vk_hash (I T7)) vk)) ∧
  (∀ vk, announces T8 vk (rpc_sp1 vk)).
Proof.
  intros H5 H8. split_and!; intros; [split| | | | | | |].
  - unfold rpc_ezkl. destruct (Ezkl.ezkl_length_wrong vk); [apply error_announces|apply hash_announces].
  - unfold rpc_ezkl, Ezkl.ezkl_validate_vk. destruct (Ezkl.ezkl_length_wrong vk); naive_solver.
  - apply hash_announces.
  - apply hash_announces.
  - apply hash_announces.
  - pose proof (hash_announces T5 vk) as H. by rewrite H5 in H.
  - unfold rpc_ultrahonk, ultrahonk_try_from.
    destruct (honk_version vk); (destruct (_ =? _); [apply hash_announces|apply error_announces]).
  - unfold rpc_ultraplonk. destruct (negb _); [apply error_announces|apply hash_announces].
  - pose proof (hash_announces T8 vk) as H. by rewrite H8 in H.
Qed.

(** ** Samples *)

Definition toy_sp1 : Verifier unit string string string := Sp1.Sp1 2048 Some (λ _ _ _, true).

Definition toy_any {K P U} : Config unit K P U unit :=
  bare_config {| hash_context_data := "any"; verify_proof := λ _ _ _ _, Some (inl VerifyFailed);
                 validate_vk := default_validate_vk; vk_hash := λ _, "#"; pubs_bytes := λ _, "";
                 verifier_version_hash := default_version_hash |} (λ s, s).

Lemma rpc_hash_is_registered_witness :
  announces (bare_config toy_sp1 (λ s, s)) "key" (rpc_sp1 "key") ∧
  (dispatch (run_call (bare_config toy_sp1 (λ s, s)) (Signed "bob") (Call_register_vk "key")) (State None ∅ ∅ [] tt)).2 = Done.
Proof.
  split; [|vm_compute; reflexivity].
  apply (rpc_hash_is_registered toy_any toy_any toy_any toy_any
    (bare_config (Risc0 risc0_runtime Some toy_segments (λ _ _ _ _, true)) (λ s, s)) toy_any toy_any
    (bare_config toy_sp1 (λ s, s)) 0 0 0 risc0_runtime Some toy_segments (λ _ _ _ _, true) 2048 Some (λ _ _ _, true)
    eq_refl eq_refl).
Defined.
