(* ===== verification/TokenClaim.v ===== *)
(** * The token claim pallet ([pallets/token-claim/src])

    The pallet [claim_init.js] drives: the manager begins a claim and adds
    beneficiaries, beneficiaries claim with a signature, the manager ends the
    claim, leftover beneficiaries are removed.  Every dispatchable, the
    transaction validity check, genesis and the block hook are modelled; the
    currency is an instance of [Currency] and the cryptography is a parameter. *)

From stdpp Require Import pretty.
From S2P Require Import Prelude JsString Frame.

Open Scope Z_scope.

(** ** Data *)

Inductive Beneficiary : Type :=
  | Substrate (account : string)
  | Ethereum (address : string).

#[export] Instance Beneficiary_eq_dec : EqDecision Beneficiary.
Proof. solve_decision. Defined.
#[export] Instance Beneficiary_countable : Countable Beneficiary.
Proof.
  refine (inj_countable'
    (λ b, match b with Substrate a => inl a | Ethereum a => inr a end)
    (λ s, match s with inl a => Substrate a | inr a => Ethereum a end) _).
  by intros [].
Defined.

Inductive Event : Type :=
  | ClaimStarted (claim_id : Z) (claim_message : string)
  | Claimed (beneficiary : Beneficiary) (amount : Z)
  | ClaimEnded (claim_id : Z) (claim_message : string)
  | BeneficiariesRemoved (remaining : Z)
  | NoMoreBeneficiaries.

Inductive Error : Type :=
  | AlreadyStarted
  | NotEligible
  | NothingToClaim
  | MaxNumBeneficiariesReached
  | TooManyBeneficiaries
  | AlreadyPresent
  | AlreadyEnded
  | NonEmptyBeneficiaries
  | BadSignature
  | InvalidClaimMessage.

Inductive DispatchError : Type :=
  | BadOrigin
  | Pallet (e : Error)
  | FundsUnavailable
  | CurrencyError.

(** A [BTreeMap] argument, in key order. *)
Definition batch : Type := list (Beneficiary * Z).

(** [T: Config]; the last four are third-party cryptography. *)
Record Config : Type := {
  PalletId : string;                     (* [PalletId::get().into_account_truncating()] *)
  UnclaimedDestination : string;
  MaxBeneficiaries : Z;
  MaxOpBeneficiaries : Z;
  EthMsgSeparator : string;
  AccountIdBytesToSign : string → string;
  sig_verify : string → string → string → bool;      (* signature, message, account *)
  keccak_256 : string → string;
  secp256k1_recover : string → string → option string; (* hash, signature: address *)
  into_account : string → string                      (* account of a signer *)
}.

Inductive ClaimSignature : Type :=
  | SubstrateSig (sig : string)
  | EthereumSig (sig : string) (dest : string).

Section pallet.
Context {L : Type} `{!Currency string L} (T : Config).

Record state : Type := State {
  Beneficiaries : gmap Beneficiary Z;
  TotalClaimable : Z;
  ClaimActive : bool;
  ClaimId : option (Z * string);
  PalletAccountId : option string;
  Events : list Event;
  Balances : L
}.

Definition set_Beneficiaries b s := State b (TotalClaimable s) (ClaimActive s) (ClaimId s)
  (PalletAccountId s) (Events s) (Balances s).
Definition set_TotalClaimable x s := State (Beneficiaries s) x (ClaimActive s) (ClaimId s)
  (PalletAccountId s) (Events s) (Balances s).
Definition set_ClaimActive x s := State (Beneficiaries s) (TotalClaimable s) x (ClaimId s)
  (PalletAccountId s) (Events s) (Balances s).
Definition set_ClaimId x s := State (Beneficiaries s) (TotalClaimable s) (ClaimActive s) x
  (PalletAccountId s) (Events s) (Balances s).
Definition set_PalletAccountId x s := State (Beneficiaries s) (TotalClaimable s) (ClaimActive s)
  (ClaimId s) x (Events s) (Balances s).
Definition set_Balances x s := State (Beneficiaries s) (TotalClaimable s) (ClaimActive s)
  (ClaimId s) (PalletAccountId s) (Events s) x.
Definition add_event e s := State (Beneficiaries s) (TotalClaimable s) (ClaimActive s)
  (ClaimId s) (PalletAccountId s) (Events s ++ [e]) (Balances s).

Abbreviation P := (M state DispatchError).

Definition deposit_event (e : Event) : P unit := modify (add_event e).
Abbreviation fail e := (raise (Pallet e)).

(** ** Helpers *)

Definition account_id : P string :=
  id ← gets PalletAccountId;
  match id with
  | Some id => mret id
  | None => _ ← modify (set_PalletAccountId (Some (PalletId T))); mret (PalletId T)
  end.

Definition pot : P Z :=
  id ← account_id;
  gets (λ s, reducible (Balances s) id).

(** [T::Currency::transfer(from, to, amount, Preserve)?] *)
Definition currency_transfer (from to : string) (amount : Z) : P unit :=
  l ← gets Balances;
  match transfer l from to amount with
  | Some l' => modify (set_Balances l')
  | None => raise CurrencyError
  end.

Definition do_claim (dest : string) (amount : Z) : P unit :=
  id ← account_id;
  _ ← currency_transfer id dest amount;
  modify (λ s, set_TotalClaimable (saturating_sub (TotalClaimable s) amount) s).

Definition process_claim (beneficiary : Beneficiary) : P Z :=
  bs ← gets Beneficiaries;
  match bs !! beneficiary with
  | Some amount =>
      available ← pot;
      if available <? amount then raise FundsUnavailable
      else
        _ ← deposit_event (Claimed beneficiary amount);
        _ ← modify (λ s, set_Beneficiaries (delete beneficiary (Beneficiaries s)) s);
        mret amount
  | None => fail NotEligible
  end.

(** The [try_for_each] of [do_add_beneficiaries]. *)
Fixpoint add_each (available required : Z) (beneficiaries : batch) : P Z :=
  match beneficiaries with
  | [] => mret required
  | (beneficiary, amount) :: rest =>
      bs ← gets Beneficiaries;
      if bool_decide (is_Some (bs !! beneficiary)) then fail AlreadyPresent
      else if amount =? 0 then fail NothingToClaim
      else
        let required := saturating_add required amount in
        if available <? required then raise FundsUnavailable
        else
          _ ← modify (λ s, set_Beneficiaries (<[beneficiary := amount]> (Beneficiaries s)) s);
          add_each available required rest
  end.

Definition do_add_beneficiaries (beneficiaries : batch) : P unit :=
  available ← pot;
  required ← gets TotalClaimable;
  required ← add_each available required beneficiaries;
  modify (set_TotalClaimable required).

Definition check_claim_status (should_be_active : bool) : P unit :=
  active ← gets ClaimActive;
  match active, should_be_active with
  | false, true => fail AlreadyEnded
  | true, false => fail AlreadyStarted
  | _, _ => mret tt
  end.

Definition check_max_op_beneficiaries (len : Z) : P unit :=
  ensure (len <=? MaxOpBeneficiaries T) (Pallet TooManyBeneficiaries).

(** The sum is on [u32]. *)
Definition check_max_beneficiaries (len : Z) : P unit :=
  bs ← gets Beneficiaries;
  ensure ((Z.of_nat (size bs) + len mod 2 ^ 32) mod 2 ^ 32 <=? MaxBeneficiaries T)
    (Pallet MaxNumBeneficiariesReached).

Definition check_beneficiaries_len (len : Z) : P unit :=
  _ ← check_max_op_beneficiaries len;
  check_max_beneficiaries len.

(** [Beneficiaries::clear(limit, None)]: the first [limit] keys go; a cursor is
    returned when some are left. *)
Definition clear (limit : Z) (m : gmap Beneficiary Z) : gmap Beneficiary Z * Z * bool :=
  let removed := take (Z.to_nat limit) (map_to_list m).*1 in
  let m' := foldr delete m removed in
  (m', Z.of_nat (length removed), negb (bool_decide (m' = ∅))).

Definition do_remove_beneficiaries (limit : Z) : P unit :=
  bs ← gets Beneficiaries;
  let num_beneficiaries := Z.of_nat (size bs) in
  if 0 <? num_beneficiaries then
    let '(bs', unique, cursor) := clear limit bs in
    _ ← modify (set_Beneficiaries bs');
    if (cursor : bool) then deposit_event (BeneficiariesRemoved (num_beneficiaries - unique))
    else deposit_event NoMoreBeneficiaries
  else mret tt.

(** ** Signatures ([beneficiary.rs]) *)

Definition MSG_PREFIX : string := "<Bytes>".
Definition MSG_SUFFIX : string := "</Bytes>".

Definition eip191_hash_message (message : string) : string :=
  keccak_256 T (String (Ascii.ascii_of_nat 25) "Ethereum Signed Message:" +:+
                String (Ascii.ascii_of_nat 10) (pretty (String.length message) +:+ message)).

Definition verify (signature : ClaimSignature) (claim_message : string)
    (beneficiary : Beneficiary) : bool :=
  match beneficiary, signature with
  | Substrate sub_addr, SubstrateSig sub_sig =>
      sig_verify T sub_sig (MSG_PREFIX +:+ claim_message +:+ MSG_SUFFIX) sub_addr
      || sig_verify T sub_sig claim_message sub_addr
  | Ethereum eth_addr, EthereumSig eth_sig dest =>
      let msg_with_dest :=
        claim_message +:+ EthMsgSeparator T +:+ AccountIdBytesToSign T dest in
      match secp256k1_recover T (eip191_hash_message msg_with_dest) eth_sig with
      | Some derived_address => bool_decide (derived_address = eth_addr)
      | None => false
      end
  | _, _ => false
  end.

Definition check_claimant (beneficiary : Beneficiary) (signature : ClaimSignature) : P unit :=
  _ ← check_claim_status true;
  bs ← gets Beneficiaries;
  _ ← ensure (bool_decide (is_Some (bs !! beneficiary))) (Pallet NotEligible);
  id ← gets ClaimId;
  id ← unwrap id;
  ensure (verify signature id.2 beneficiary) (Pallet BadSignature).

(** ** Dispatchables *)

Definition ensure_manager (origin : Origin) : P unit :=
  match origin with Root => mret tt | _ => raise BadOrigin end.
Definition ensure_none (origin : Origin) : P unit :=
  match origin with NoOrigin => mret tt | _ => raise BadOrigin end.
Definition ensure_signed (origin : Origin) : P unit :=
  match origin with Signed _ => mret tt | _ => raise BadOrigin end.

Definition begin_claim (origin : Origin) (beneficiaries : batch) (claim_message : string) : P unit :=
  _ ← ensure_manager origin;
  bs ← gets Beneficiaries;
  if (0 <? size bs)%nat then fail NonEmptyBeneficiaries
  else if bool_decide (claim_message = "") then fail InvalidClaimMessage
  else
    _ ← check_claim_status false;
    _ ← modify (set_ClaimActive true);
    let num_beneficiaries := Z.of_nat (length beneficiaries) in
    _ ← (if 0 <? num_beneficiaries then
           _ ← check_max_op_beneficiaries num_beneficiaries;
           do_add_beneficiaries beneficiaries
         else mret tt);
    t ← gets ClaimId;
    let new_id := match t with Some v => (v.1 + 1) mod 2 ^ 64 | None => 0 end in
    _ ← modify (set_ClaimId (Some (new_id, claim_message)));
    deposit_event (ClaimStarted new_id claim_message).

Definition claim (origin : Origin) (beneficiary signature : string) : P unit :=
  _ ← ensure_none origin;
  let beneficiary_account := into_account T beneficiary in
  let beneficiary := Substrate beneficiary_account in
  _ ← check_claimant beneficiary (SubstrateSig signature);
  amount ← process_claim beneficiary;
  do_claim beneficiary_account amount.

Definition claim_for (origin : Origin) (dest : string) : P unit :=
  _ ← ensure_manager origin;
  _ ← check_claim_status true;
  amount ← process_claim (Substrate dest);
  do_claim dest amount.

Definition add_beneficiaries (origin : Origin) (beneficiaries : batch) : P unit :=
  _ ← check_claim_status true;
  _ ← ensure_manager origin;
  let num_beneficiaries := Z.of_nat (length beneficiaries) in
  if 0 <? num_beneficiaries then
    _ ← check_beneficiaries_len num_beneficiaries;
    do_add_beneficiaries beneficiaries
  else mret tt.

Definition end_claim (origin : Origin) : P unit :=
  _ ← ensure_manager origin;
  _ ← check_claim_status true;
  _ ← modify (set_ClaimActive false);
  id ← account_id;
  _ ← (if decide (UnclaimedDestination T ≠ id) then
         remaining_funds ← pot;
         currency_transfer id (UnclaimedDestination T) remaining_funds
       else mret tt);
  _ ← modify (set_TotalClaimable 0);
  cid ← gets ClaimId;
  cid ← unwrap cid;
  deposit_event (ClaimEnded cid.1 cid.2).

Definition remove_beneficiaries (origin : Origin) (limit : option Z) : P unit :=
  _ ← ensure_signed origin;
  _ ← check_claim_status false;
  do_remove_beneficiaries (default (MaxOpBeneficiaries T) limit).

Definition claim_ethereum (origin : Origin) (beneficiary signature dest : string) : P unit :=
  _ ← ensure_none origin;
  let beneficiary := Ethereum beneficiary in
  _ ← check_claimant beneficiary (EthereumSig signature dest);
  amount ← process_claim beneficiary;
  do_claim dest amount.

Definition claim_ethereum_for (origin : Origin) (beneficiary dest : string) : P unit :=
  _ ← ensure_manager origin;
  _ ← check_claim_status true;
  amount ← process_claim (Ethereum beneficiary);
  do_claim dest amount.

Inductive Call : Type :=
  | Call_begin_claim (beneficiaries : batch) (claim_message : string)
  | Call_claim (beneficiary signature : string)
  | Call_claim_for (dest : string)
  | Call_add_beneficiaries (beneficiaries : batch)
  | Call_end_claim
  | Call_remove_beneficiaries (limit : option Z)
  | Call_claim_ethereum (beneficiary signature dest : string)
  | Call_claim_ethereum_for (beneficiary dest : string).

Definition run_call (origin : Origin) (c : Call) : P unit :=
  match c with
  | Call_begin_claim bs m => begin_claim origin bs m
  | Call_claim b s => claim origin b s
  | Call_claim_for d => claim_for origin d
  | Call_add_beneficiaries bs => add_beneficiaries origin bs
  | Call_end_claim => end_claim origin
  | Call_remove_beneficiaries l => remove_beneficiaries origin l
  | Call_claim_ethereum b s d => claim_ethereum origin b s d
  | Call_claim_ethereum_for b d => claim_ethereum_for origin b d
  end.

(** ** Unsigned transactions *)

(** [TransactionValidityError::Invalid] *)
Inductive InvalidTransaction : Type :=
  | Stale
  | BadSigner
  | BadProof
  | Custom0
  | InvalidCall.

Definition to_invalid (e : DispatchError) : InvalidTransaction :=
  match e with
  | Pallet AlreadyEnded => Stale
  | Pallet NotEligible => BadSigner
  | Pallet BadSignature => BadProof
  | _ => Custom0
  end.

(** The [provides] tag of a valid transaction. *)
Definition tag : Type := string * (Z * string) * Beneficiary.

(** The check reads storage only; [None] stands for a panic. *)
Definition validate_unsigned (c : Call) (s : state) : option (InvalidTransaction + tag) :=
  let valid (name : string) (b : Beneficiary) (sg : ClaimSignature) :=
    match check_claimant b sg s with
    | ROk _ _ => id ← ClaimId s; Some (inr (name, id, b))
    | RErr e => Some (inl (to_invalid e))
    | RPanic => None
    end in
  match c with
  | Call_claim b sg => valid "claim" (Substrate (into_account T b)) (SubstrateSig sg)
  | Call_claim_ethereum b sg dest => valid "claim_ethereum" (Ethereum b) (EthereumSig sg dest)
  | _ => Some (inl InvalidCall)
  end.

(** ** Genesis and the block hook *)

(** [into_iter().collect()] from a vector: the last entry of a key stays. *)
Definition collect (v : list (Beneficiary * Z)) : batch :=
  map_to_list (list_to_map (reverse v) : gmap Beneficiary Z).

(** A failed [assert] stops the node: [None]. *)
Definition genesis_build (l : L) (beneficiaries : list (Beneficiary * Z)) (claim_message : string)
    : option state :=
  let s := State ∅ 0 false None None [] l in
  if negb (MaxOpBeneficiaries T <=? MaxBeneficiaries T) then None
  else if (length beneficiaries =? 0)%nat then Some s
  else if bool_decide (claim_message = "") then None
  else
    match (_ ← check_max_beneficiaries (Z.of_nat (length beneficiaries));
           do_add_beneficiaries (collect beneficiaries)) s with
    | ROk _ s' => Some (set_ClaimId (Some (0, claim_message)) (set_ClaimActive true s'))
    | _ => None
    end.

Definition on_initialize : P unit :=
  account ← account_id;
  l ← gets Balances;
  if account_exists l account then mret tt
  else
    match mint_into l account minimum_balance with
    | Some l' => modify (set_Balances l')
    | None => mret tt
    end.
End pallet.

Arguments State {L} _ _ _ _ _ _ _.
Arguments Beneficiaries {L} _.
Arguments TotalClaimable {L} _.
Arguments ClaimActive {L} _.
Arguments ClaimId {L} _.
Arguments PalletAccountId {L} _.
Arguments Events {L} _.
Arguments Balances {L} _.

(** ** The invariant *)

Definition sum (m : gmap Beneficiary Z) : Z := msum (λ v, v) m.

Lemma sum_empty : sum ∅ = 0.
Proof. apply msum_empty. Qed.

Lemma sum_insert m b v : m !! b = None → sum (<[b := v]> m) = v + sum m.
Proof. apply (msum_insert (λ v, v)). Qed.

Lemma sum_delete m b v : m !! b = Some v → sum m = v + sum (delete b m).
Proof. apply (msum_delete (λ v, v)). Qed.

Lemma sum_nonneg m : map_Forall (λ _ v, 0 < v) m → 0 ≤ sum m.
Proof.
  intros H. apply msum_nonneg. eapply map_Forall_impl; [exact H|]. simpl. intros. lia.
Qed.

(** Arguments as the runtime decodes them: distinct keys, [u128] amounts. *)
Definition batch_ok (b : batch) : Prop :=
  NoDup b.*1 ∧ Forall (λ p, 0 ≤ p.2 ≤ u128_max) b.

Section invariant.
Context {L : Type} `{!Currency string L, !CurrencyLaws string L} (T : Config).

Record config_ok : Prop := {
  max_op_pos : 0 ≤ MaxOpBeneficiaries T;
  max_op_le : MaxOpBeneficiaries T ≤ MaxBeneficiaries T;
  max_u32 : MaxBeneficiaries T + MaxOpBeneficiaries T < 2 ^ 32
}.

(** The funds promised are exactly [TotalClaimable] and are in the pot while a
    claim is active; no promise is empty; an active claim has an id. *)
Record inv (s : state (L:=L)) : Prop := {
  inv_ledger : ledger_wf (Balances s);
  inv_account : PalletAccountId s = None ∨ PalletAccountId s = Some (PalletId T);
  inv_pos : map_Forall (λ _ v, 0 < v) (Beneficiaries s);
  inv_size : Z.of_nat (size (Beneficiaries s)) ≤ MaxBeneficiaries T;
  inv_total : TotalClaimable s = if ClaimActive s then sum (Beneficiaries s) else 0;
  inv_funded : ClaimActive s = true → sum (Beneficiaries s) ≤ reducible (Balances s) (PalletId T);
  inv_id : ClaimActive s = true → is_Some (ClaimId s)
}.

(** Two states that differ in the cached account id and the events only. *)
Definition same_store (s s' : state (L:=L)) : Prop :=
  Beneficiaries s' = Beneficiaries s ∧ TotalClaimable s' = TotalClaimable s ∧
  ClaimActive s' = ClaimActive s ∧ ClaimId s' = ClaimId s ∧ Balances s' = Balances s ∧
  Events s' = Events s ∧ (PalletAccountId s' = None ∨ PalletAccountId s' = Some (PalletId T)).

Lemma inv_same_store s s' : inv s → same_store s s' → inv s'.
Proof.
  intros [] (H1 & H2 & H3 & H4 & H5 & H6 & H7). split; rewrite ?H1, ?H2, ?H3, ?H4, ?H5; done.
Qed.

Lemma account_id_ok s :
  (PalletAccountId s = None ∨ PalletAccountId s = Some (PalletId T)) →
  ends (account_id T) s (λ id s', id = PalletId T ∧ same_store s s').
Proof.
  intros Ha. unfold account_id. estep. destruct (PalletAccountId s) eqn:E.
  - estep. destruct Ha as [?|Ha]; [done|]. injection Ha as ->. split; [done|].
    unfold same_store. rewrite E. split_and!; auto.
  - esteps. split; [done|]. unfold same_store. simpl. split_and!; auto.
Qed.

Lemma pot_ok s :
  (PalletAccountId s = None ∨ PalletAccountId s = Some (PalletId T)) →
  ends (pot T) s (λ p s', p = reducible (Balances s) (PalletId T) ∧ same_store s s').
Proof.
  intros Ha. unfold pot. eapply ends_bind; [by apply account_id_ok|].
  intros id s' [-> Hs]. estep. split; [|done]. by destruct Hs as (_ & _ & _ & _ & -> & _).
Qed.

(** ** Adding beneficiaries *)

(** The accounting of an active claim. *)
Record core (s : state (L:=L)) : Prop := {
  core_ledger : ledger_wf (Balances s);
  core_account : PalletAccountId s = None ∨ PalletAccountId s = Some (PalletId T);
  core_pos : map_Forall (λ _ v, 0 < v) (Beneficiaries s);
  core_total : TotalClaimable s = sum (Beneficiaries s);
  core_funded : sum (Beneficiaries s) ≤ reducible (Balances s) (PalletId T)
}.

Lemma add_each_ok available b (s : state (L:=L)) :
  available < u128_max → map_Forall (λ _ v, 0 < v) (Beneficiaries s) → batch_ok b →
  sum (Beneficiaries s) ≤ available →
  ends (add_each available (sum (Beneficiaries s)) b) s (λ r s',
    s' = set_Beneficiaries (Beneficiaries s') s ∧ r = sum (Beneficiaries s') ∧ r ≤ available ∧
    map_Forall (λ _ v, 0 < v) (Beneficiaries s') ∧
    size (Beneficiaries s') = (size (Beneficiaries s) + length b)%nat).
Proof.
  intros Hav Hpos [Hnd Hr] Hle. revert s Hpos Hle.
  induction b as [|[k v] b IH]; intros s Hpos Hle.
  { apply ends_ret. destruct s. split_and!; simpl in *; auto with lia. }
  rewrite fmap_cons in Hnd. apply list.NoDup_cons in Hnd as [Hk Hnd].
  apply list.Forall_cons in Hr as [Hv Hr]. simpl in Hv. cbn [add_each]. estep.
  case_bool_decide as Hin; [estep|]. apply eq_None_not_Some in Hin.
  destruct (Z.eqb_spec v 0) as [|Hv0]; [estep|].
  destruct (Z.ltb_spec available (saturating_add (sum (Beneficiaries s)) v)) as [|Hav']; [estep|].
  assert (Hsum : saturating_add (sum (Beneficiaries s)) v = sum (<[k := v]> (Beneficiaries s))).
  { rewrite sum_insert by done. unfold saturating_add in *. lia. }
  rewrite Hsum in *. estep.
  set (s1 := set_Beneficiaries (<[k := v]> (Beneficiaries s)) s).
  eapply ends_mono; [apply (IH Hnd Hr s1)|].
  - simpl. apply map_Forall_insert_2; [lia|done].
  - done.
  - intros r s' (Hs' & -> & Hle' & Hpos' & Hsz). split_and!; [|done..|].
    + rewrite Hs'. done.
    + rewrite Hsz. simpl. rewrite map_size_insert_None by done. lia.
Qed.

Lemma do_add_ok b s :
  core s → batch_ok b →
  ends (do_add_beneficiaries T b) s (λ _ s', core s' ∧
    size (Beneficiaries s') = (size (Beneficiaries s) + length b)%nat ∧
    ClaimActive s' = ClaimActive s ∧ ClaimId s' = ClaimId s ∧ Balances s' = Balances s).
Proof.
  intros Hc Hb. pose proof Hc as [H1 H2 H3 H4 H5]. unfold do_add_beneficiaries.
  eapply ends_bind; [by apply pot_ok|]. intros p s1 [-> (E1 & E2 & E3 & E4 & E5 & _ & E7)].
  estep. rewrite E2, H4, <- E1. eapply ends_bind.
  { apply add_each_ok; [apply (reducible_range _ (PalletId T) H1)|by rewrite E1|done|by rewrite E1]. }
  intros r s2 (Hs2 & -> & Hle & Hpos & Hsz). estep. rewrite Hs2. simpl.
  rewrite E5, E1 in *. split_and!; [|done..]. split; simpl; by rewrite ?E5.
Qed.

(** ** The invariant is preserved by every dispatchable *)

Lemma inv_core s : inv s → ClaimActive s = true → core s.
Proof. intros [H1 H2 H3 H4 H5 H6 H7] Ha. rewrite Ha in H5. split; auto. Qed.

Lemma core_inv s :
  core s → Z.of_nat (size (Beneficiaries s)) ≤ MaxBeneficiaries T → ClaimActive s = true →
  is_Some (ClaimId s) → inv s.
Proof. intros [H1 H2 H3 H4 H5] Hs Ha Hi. split; try done. by rewrite Ha. Qed.

Lemma ends_check_claim_status b {A} (f : unit → M (state (L:=L)) DispatchError A) s Q :
  (ClaimActive s = b → ends (f tt) s Q) → ends (check_claim_status b ≫= f) s Q.
Proof.
  intros H. unfold check_claim_status. esteps.
  destruct (ClaimActive s), b; (apply H; done) || apply ends_bind_raise.
Qed.

Lemma ends_ensure_manager o {A} (f : unit → M (state (L:=L)) DispatchError A) s Q :
  (o = Root → ends (f tt) s Q) → ends (ensure_manager o ≫= f) s Q.
Proof. intros H. destruct o; (by apply H) || apply ends_bind_raise. Qed.

Lemma ends_ensure_none o {A} (f : unit → M (state (L:=L)) DispatchError A) s Q :
  (o = NoOrigin → ends (f tt) s Q) → ends (ensure_none o ≫= f) s Q.
Proof. intros H. destruct o; (by apply H) || apply ends_bind_raise. Qed.

Hypothesis HT : config_ok.

Lemma begin_claim_inv o b m s :
  inv s → batch_ok b → ends (begin_claim T o b m) s (λ _ s', inv s').
Proof.
  intros Hi Hb. pose proof Hi as [H1 H2 H3 H4 H5 H6 H7]. pose proof HT as [Hm1 Hm2 Hm3].
  unfold begin_claim. apply ends_ensure_manager. intros ->. estep.
  destruct (Nat.ltb_spec 0 (size (Beneficiaries s))) as [|Hsz]; [estep|].
  case_bool_decide; [estep|]. apply ends_check_claim_status. intros Hact. estep.
  assert (Hemp : Beneficiaries s = ∅) by (apply map_size_empty_inv; lia).
  set (s1 := set_ClaimActive true s). rewrite Hact in H5.
  assert (Hc : core s1).
  { pose proof (reducible_range (Balances s) (PalletId T) H1).
    split; simpl; rewrite ?Hemp, ?sum_empty; first [done | lia | apply map_Forall_empty]. }
  eapply ends_bind with (R := λ _ s', core s' ∧ Z.of_nat (size (Beneficiaries s')) ≤ MaxBeneficiaries T
                                      ∧ ClaimActive s' = true).
  - destruct (0 <? Z.of_nat (length b)).
    + unfold check_max_op_beneficiaries. estep. eapply ends_mono; [by apply do_add_ok|].
      intros _ s' (Hc' & Hsz' & Ha' & _). split_and!; [done| |by rewrite Ha'].
      rewrite Hsz'. simpl. lia.
    + estep. split_and!; [done| |done]. simpl. lia.
  - intros _ s' (Hc' & Hsz' & Ha'). esteps. unfold deposit_event. estep.
    destruct Hc' as [C1 C2 C3 C4 C5]. split; simpl; try done. by rewrite Ha'.
Qed.

Lemma add_beneficiaries_inv o b s :
  inv s → batch_ok b → ends (add_beneficiaries T o b) s (λ _ s', inv s').
Proof.
  intros Hi Hb. pose proof Hi as [H1 H2 H3 H4 H5 H6 H7]. pose proof HT as [Hm1 Hm2 Hm3].
  unfold add_beneficiaries. apply ends_check_claim_status. intros Hact.
  apply ends_ensure_manager. intros ->. destruct (0 <? Z.of_nat (length b)); [|by estep].
  unfold check_beneficiaries_len, check_max_op_beneficiaries, check_max_beneficiaries. esteps.
  eapply ends_mono; [apply do_add_ok; [by apply inv_core|done]|].
  intros _ s' (Hc' & Hsz & Ha & Hid & Hbal). apply core_inv; [done| |by rewrite Ha|rewrite Hid; auto].
  rewrite Hsz. rewrite (Z.mod_small (Z.of_nat (length b))) in * by lia.
  rewrite Z.mod_small in * by lia. lia.
Qed.

(** ** Claims *)

(** One payment: the beneficiary's amount leaves the pot for [dest], the promise
    and its share of the total are gone. *)
Definition pays (s s' : state (L:=L)) (b : Beneficiary) (dest : string) : Prop :=
  ∃ a, Beneficiaries s !! b = Some a ∧
    transfer (Balances s) (PalletId T) dest a = Some (Balances s') ∧
    Beneficiaries s' = delete b (Beneficiaries s) ∧
    TotalClaimable s' = TotalClaimable s - a ∧
    ClaimActive s' = ClaimActive s ∧ ClaimId s' = ClaimId s ∧
    Events s' = Events s ++ [Claimed b a] ∧
    (PalletAccountId s' = None ∨ PalletAccountId s' = Some (PalletId T)).

Lemma pays_inv s s' b dest : inv s → ClaimActive s = true → pays s s' b dest → inv s'.
Proof.
  intros Hi Hact (a & Hb & Ht & E1 & E2 & E3 & E4 & _ & E6).
  pose proof Hi as [H1 H2 H3 H4 H5 H6 H7]. rewrite Hact in *.
  specialize (H6 eq_refl). pose proof (H3 b a Hb) as Ha. simpl in Ha.
  rewrite (sum_delete _ _ _ Hb) in H5, H6.
  assert (Hwf : ledger_wf (Balances s')) by (eapply transfer_wf; [exact H1| |exact Ht]; lia).
  split; rewrite ?E1, ?E2, ?E3, ?E4; try done.
  - by apply map_Forall_delete.
  - rewrite map_size_delete, Hb. lia.
  - lia.
  - intros _. destruct (decide (PalletId T = dest)) as [Heq|Hne].
    + rewrite <- Heq in Ht. apply transfer_self in Ht. rewrite Ht. lia.
    + destruct (transfer_from _ _ _ _ _ H1 (Z.lt_le_incl _ _ Ha) Ht Hne) as [_ ->]. lia.
Qed.

Lemma pay_ok s b dest :
  inv s → ClaimActive s = true →
  ends (process_claim T b ≫= do_claim T dest) s (λ _ s', pays s s' b dest).
Proof.
  intros Hi Hact. pose proof Hi as [H1 H2 H3 H4 H5 H6 H7]. unfold process_claim. esteps.
  destruct (Beneficiaries s !! b) as [a|] eqn:Hb; [|by estep]. estep.
  eapply ends_bind; [by apply pot_ok|]. intros p s1 [-> (E1 & E2 & E3 & E4 & E5 & E6 & E7)].
  destruct (_ <? _); [by estep|]. unfold deposit_event. esteps. unfold do_claim.
  eapply ends_bind; [by apply account_id_ok|]. intros id s2 [-> (F1 & F2 & F3 & F4 & F5 & F6 & F7)].
  unfold currency_transfer. esteps. simpl in *. rewrite F5, E5.
  destruct (transfer _ _ _ _) as [l|] eqn:Ht; [|by estep]. esteps. exists a. simpl.
  rewrite F1, F2, F3, F4, F6, E1, E2, E3, E4, E6.
  split_and!; try done. rewrite H5, Hact. unfold saturating_sub.
  pose proof (sum_nonneg _ (map_Forall_delete _ _ b H3)). rewrite (sum_delete _ _ _ Hb). lia.
Qed.

(** The same, with the invariant. *)
Lemma pay_inv s b dest :
  inv s → ClaimActive s = true →
  ends (process_claim T b ≫= do_claim T dest) s (λ _ s', inv s').
Proof.
  intros Hi Ha. eapply ends_mono; [by apply pay_ok|]. intros [] s' Hp. by eapply pays_inv.
Qed.

(** [check_claimant] leaves the state alone; the claim id is there to be read. *)
Lemma check_claimant_ok s b sg {A} (f : unit → M (state (L:=L)) DispatchError A) Q :
  inv s →
  (∀ id, ClaimActive s = true → ClaimId s = Some id → verify T sg id.2 b = true →
     is_Some (Beneficiaries s !! b) → ends (f tt) s Q) →
  ends (check_claimant T b sg ≫= f) s Q.
Proof.
  intros Hi H. unfold check_claimant. apply ends_bind_assoc, ends_check_claim_status. intros Hact.
  esteps. destruct (inv_id s Hi Hact) as [id Hid]. rewrite Hid. cbn [unwrap]. esteps.
  apply (H id); [done..|]. by eapply bool_decide_eq_true_1.
Qed.

Lemma claims_inv o s c :
  match c with
  | Call_claim _ _ | Call_claim_for _ | Call_claim_ethereum _ _ _ | Call_claim_ethereum_for _ _ => True
  | _ => False
  end → inv s → ends (run_call T o c) s (λ _ s', inv s').
Proof.
  intros Hc Hi. destruct c; try done; simpl.
  - unfold claim. apply ends_ensure_none. intros _. apply check_claimant_ok; [done|].
    intros id Ha _ _ _. by apply pay_inv.
  - unfold claim_for. apply ends_ensure_manager. intros _. apply ends_check_claim_status.
    intros Ha. by apply pay_inv.
  - unfold claim_ethereum. apply ends_ensure_none. intros _. apply check_claimant_ok; [done|].
    intros id Ha _ _ _. by apply pay_inv.
  - unfold claim_ethereum_for. apply ends_ensure_manager. intros _. apply ends_check_claim_status.
    intros Ha. by apply pay_inv.
Qed.

(** ** Ending a claim *)

Lemma end_claim_inv o s : inv s → ends (end_claim T o) s (λ _ s', inv s').
Proof.
  intros Hi. pose proof Hi as [H1 H2 H3 H4 H5 H6 H7]. unfold end_claim.
  apply ends_ensure_manager. intros _. apply ends_check_claim_status. intros Hact. estep.
  destruct (H7 Hact) as [cid Hid].
  eapply ends_bind; [by apply account_id_ok|]. intros id s1 [-> (E1 & E2 & E3 & E4 & E5 & E6 & E7)].
  eapply ends_bind with (R := λ _ s', ledger_wf (Balances s') ∧ Beneficiaries s' = Beneficiaries s ∧
    ClaimActive s' = false ∧ ClaimId s' = ClaimId s ∧
    (PalletAccountId s' = None ∨ PalletAccountId s' = Some (PalletId T))).
  - destruct (decide (UnclaimedDestination T ≠ PalletId T)); [|estep; by rewrite E1, E3, E4, E5].
    eapply ends_bind; [by apply pot_ok|]. intros p s2 [-> (F1 & F2 & F3 & F4 & F5 & F6 & F7)].
    unfold currency_transfer. esteps. destruct (transfer _ _ _ _) as [l|] eqn:Ht; [|by estep].
    estep. simpl. rewrite F1, F3, F4, E1, E3, E4. split_and!; try done.
    rewrite F5, E5 in Ht. simpl in Ht. eapply transfer_wf; [exact H1| |exact Ht].
    apply (reducible_range _ _ H1).
  - intros _ s2 (G1 & G2 & G3 & G4 & G5). esteps. simpl. rewrite G4, Hid. cbn [unwrap]. esteps.
    unfold deposit_event. estep. split; simpl; rewrite ?G2, ?G3; done.
Qed.

(** ** Removing beneficiaries *)

Lemma foldr_delete_subseteq (ks : list Beneficiary) (m : gmap Beneficiary Z) :
  foldr delete m ks ⊆ m.
Proof.
  induction ks as [|k ks IH]; simpl; [done|]. etransitivity; [apply delete_subseteq|done].
Qed.

Lemma remove_beneficiaries_inv o limit s :
  inv s → ends (remove_beneficiaries T o limit) s (λ _ s', inv s').
Proof.
  intros Hi. pose proof Hi as [H1 H2 H3 H4 H5 H6 H7]. unfold remove_beneficiaries.
  destruct o; try done. cbn [ensure_signed]. estep. apply ends_check_claim_status. intros Hact.
  unfold do_remove_beneficiaries. estep. destruct (0 <? _); [|by estep].
  destruct (clear _ _) as [[m u] c] eqn:Ec. unfold clear in Ec. injection Ec as <- _ _. estep.
  assert (Hsub := foldr_delete_subseteq
    (take (Z.to_nat (default (MaxOpBeneficiaries T) limit)) (map_to_list (Beneficiaries s)).*1)
    (Beneficiaries s)).
  assert (Hinv : inv (set_Beneficiaries (foldr delete (Beneficiaries s)
    (take (Z.to_nat (default (MaxOpBeneficiaries T) limit)) (map_to_list (Beneficiaries s)).*1)) s)).
  { split; simpl; rewrite ?Hact in *; try done.
    - intros k v Hk. apply (H3 k v). by eapply lookup_weaken.
    - apply map_subseteq_size in Hsub. lia. }
  destruct c; unfold deposit_event; estep; destruct Hinv; by split.
Qed.

(** ** Reachable states *)

Definition call_ok (c : Call) : Prop :=
  match c with
  | Call_begin_claim b _ | Call_add_beneficiaries b => batch_ok b
  | _ => True
  end.

Lemma run_call_inv o c s : inv s → call_ok c → ends (run_call T o c) s (λ _ s', inv s').
Proof.
  intros Hi Hc. destruct c; simpl in Hc; try by (apply claims_inv; [exact I|done]).
  - by apply begin_claim_inv.
  - by apply add_beneficiaries_inv.
  - by apply end_claim_inv.
  - by apply remove_beneficiaries_inv.
Qed.

Lemma size_list_to_map_le (l : list (Beneficiary * Z)) :
  (size (list_to_map l : gmap Beneficiary Z) ≤ length l)%nat.
Proof.
  induction l as [|[k v] l IH]; [done|]. simpl.
  rewrite map_size_insert. case_match; unfold id; lia.
Qed.

Lemma collect_ok v :
  Forall (λ p, 0 ≤ p.2 ≤ u128_max) v →
  batch_ok (collect v) ∧ (length (collect v) ≤ length v)%nat.
Proof.
  intros Hv. unfold collect. split; [split|].
  - apply NoDup_fst_map_to_list.
  - apply list.Forall_forall. intros [k a] Hin. apply elem_of_map_to_list in Hin.
    apply elem_of_list_to_map_2, elem_of_reverse in Hin. rewrite reverse_involutive in Hin.
    rewrite list.Forall_forall in Hv. exact (Hv (k, a) Hin).
  - rewrite length_map_to_list. etransitivity; [apply size_list_to_map_le|].
    by rewrite length_reverse.
Qed.

Lemma genesis_inv l v m s :
  ledger_wf l → Forall (λ p, 0 ≤ p.2 ≤ u128_max) v → Z.of_nat (length v) < 2 ^ 32 →
  genesis_build T l v m = Some s → inv s.
Proof.
  intros Hl Hv Hlen. unfold genesis_build. pose proof HT as [Hm1 Hm2 Hm3].
  pose proof (reducible_range l (PalletId T) Hl).
  destruct (negb _); [done|]. destruct (_ =? _)%nat.
  { intros [= <-]. split; simpl; rewrite ?map_size_empty; auto with lia. apply map_Forall_empty. }
  case_bool_decide; [done|]. destruct (collect_ok v Hv) as [Hb Hle].
  set (s0 := State ∅ 0 false None None [] l).
  assert (Hc : core s0).
  { split; simpl; rewrite ?sum_empty; auto with lia. apply map_Forall_empty. }
  assert (Hend : ends (_ ← check_max_beneficiaries T (Z.of_nat (length v));
    do_add_beneficiaries T (collect v)) s0 (λ _ s', core s' ∧
      Z.of_nat (size (Beneficiaries s')) ≤ MaxBeneficiaries T)).
  { unfold check_max_beneficiaries. estep. estep. simpl Beneficiaries.
    rewrite map_size_empty. apply ends_bind_ensure. intros Hmax.
    rewrite Z.add_0_l, Z.mod_mod, Z.mod_small in Hmax by lia.
    eapply ends_mono; [by apply do_add_ok|]. intros [] s' (Hc' & Hsz & _). split; [done|].
    rewrite Hsz. simpl. rewrite map_size_empty. lia. }
  unfold ends in Hend. case_match; [|done..]. intros [= <-].
  destruct Hend as [[C1 C2 C3 C4 C5] Hsz]. split; simpl; auto.
Qed.

Lemma on_initialize_inv s : 0 ≤ minimum_balance → inv s → ends (on_initialize T) s (λ _ s', inv s').
Proof.
  intros Hmin Hi. unfold on_initialize.
  eapply ends_bind; [apply account_id_ok, Hi|]. intros id s1 [-> Hs].
  assert (Hi1 : inv s1) by (by eapply inv_same_store). esteps.
  destruct (account_exists _ _); [by estep|]. destruct (mint_into _ _ _) as [l'|] eqn:Em; [|by estep].
  estep. pose proof (mint_mono _ _ _ (PalletId T) _ (inv_ledger _ Hi1) Hmin Em).
  pose proof (mint_wf _ _ _ _ (inv_ledger _ Hi1) Hmin Em).
  destruct Hi1 as [H1 H2 H3 H4 H5 H6 H7]. split; simpl; auto.
  intros Ha. specialize (H6 Ha). lia.
Qed.

(** Nobody else spends from the pallet's account: between the pallet's own
    actions the ledger may only change so that the pot does not shrink. *)
Inductive step : state (L:=L) → state (L:=L) → Prop :=
  | step_call o c s : call_ok c → step s (dispatch (run_call T o c) s).1
  | step_block s : step s (dispatch (on_initialize T) s).1
  | step_external l s :
      ledger_wf l → reducible (Balances s) (PalletId T) ≤ reducible l (PalletId T) →
      step s (set_Balances l s).

Inductive reachable : state (L:=L) → Prop :=
  | reach_genesis l v m s :
      ledger_wf l → Forall (λ p, 0 ≤ p.2 ≤ u128_max) v → Z.of_nat (length v) < 2 ^ 32 →
      genesis_build T l v m = Some s → reachable s
  | reach_step s s' : reachable s → step s s' → reachable s'.

Hypothesis Hmin : 0 ≤ minimum_balance (Acc:=string) (L:=L).

Lemma reachable_inv s : reachable s → inv s.
Proof.
  induction 1 as [l v m s Hl Hv Hlen Hg|s s' _ IH Hs]; [by eapply genesis_inv|].
  destruct Hs as [o c s Hc|s|l s Hl Hr].
  - by apply (dispatch_ends _ _ inv), run_call_inv.
  - by apply (dispatch_ends _ _ inv), on_initialize_inv.
  - destruct IH as [H1 H2 H3 H4 H5 H6 H7]. split; simpl; auto. intros Ha. specialize (H6 Ha). lia.
Qed.

(** ** Runs that succeed *)

Lemma sum_lookup_le (m : gmap Beneficiary Z) b a :
  map_Forall (λ _ v, 0 < v) m → m !! b = Some a → a ≤ sum m.
Proof.
  intros Hp Hb. rewrite (sum_delete _ _ _ Hb).
  pose proof (sum_nonneg _ (map_Forall_delete _ _ b Hp)). lia.
Qed.

(** With an active claim the only obstacle to a payment is the currency. *)
Lemma pay_run s b dest a :
  inv s → ClaimActive s = true → Beneficiaries s !! b = Some a →
  (∃ s', (process_claim T b ≫= do_claim T dest) s = ROk tt s' ∧ pays s s' b dest) ∨
  (transfer (Balances s) (PalletId T) dest a = None ∧
   (process_claim T b ≫= do_claim T dest) s = RErr CurrencyError).
Proof.
  intros Hi Hact Hb. pose proof (pay_ok s b dest Hi Hact) as Hp.
  pose proof Hi as [H1 H2 H3 H4 H5 H6 H7]. specialize (H6 Hact).
  pose proof (sum_lookup_le _ _ _ H3 Hb) as Hle.
  unfold ends in Hp. destruct ((process_claim T b ≫= do_claim T dest) s) as [[] s'|e|] eqn:E.
  - left. eauto.
  - right. revert E. unfold process_claim, do_claim, pot, account_id, currency_transfer, deposit_event,
      gets, modify, raise, mbind, M_bind, mret, M_ret.
    rewrite Hb. destruct H2 as [E2|E2]; rewrite E2; simpl; rewrite ?E2;
      (destruct (Z.ltb_spec (reducible (Balances s) (PalletId T)) a); [lia|]); simpl; rewrite ?E2;
      (destruct (transfer _ _ _ _); [done|]); by intros [= <-].
  - done.
Qed.

(** The pot covers what is recorded, so the transfer goes through. *)
Lemma pay_covered s b dest a :
  inv s → ClaimActive s = true → Beneficiaries s !! b = Some a → can_deposit (Balances s) dest a = true →
  is_Some (transfer (Balances s) (PalletId T) dest a).
Proof.
  intros Hi Hact Hb Hdest. pose proof Hi as [H1 H2 H3 H4 H5 H6 H7]. specialize (H6 Hact).
  pose proof (sum_lookup_le _ _ _ H3 Hb) as Hle. apply transfer_ok; [done| |done].
  specialize (H3 b a Hb). simpl in H3. lia.
Qed.

Definition batch_total (b : batch) : Z := foldr Z.add 0 b.*2.

(** A batch that can be added: new, distinct beneficiaries with something to
    claim. *)
Definition addable (bs : gmap Beneficiary Z) (b : batch) : Prop :=
  NoDup b.*1 ∧ Forall (λ p, 0 < p.2) b ∧ Forall (λ p, bs !! p.1 = None) b.

Lemma batch_total_nonneg b : Forall (λ p, 0 < p.2) b → 0 ≤ batch_total b.
Proof.
  unfold batch_total. induction 1 as [|p b Hp _ IH]; [done|]. rewrite fmap_cons. cbn [foldr]. lia.
Qed.

Lemma batch_total_perm b b' : b ≡ₚ b' → batch_total b = batch_total b'.
Proof. unfold batch_total. induction 1; rewrite ?fmap_cons; cbn [foldr]; lia. Qed.

Lemma addable_batch_ok bs b x : addable bs b → batch_total b ≤ x → x < u128_max → batch_ok b.
Proof.
  intros (Hnd & Hp & _) Hle Hx. split; [done|]. clear Hnd.
  revert x Hle Hx. induction Hp as [|p b Hp Hps IH]; intros x Hle Hx; constructor.
  - pose proof (batch_total_nonneg b Hps). unfold batch_total in *. rewrite fmap_cons in Hle.
    cbn [foldr] in Hle. lia.
  - apply (IH x); [|done]. unfold batch_total in *. rewrite fmap_cons in Hle. cbn [foldr] in Hle. lia.
Qed.

Lemma add_each_run available required b (s : state (L:=L)) :
  available < u128_max → addable (Beneficiaries s) b → required + batch_total b ≤ available →
  add_each available required b s =
  ROk (required + batch_total b)
    (set_Beneficiaries (list_to_map b ∪ Beneficiaries s) s).
Proof.
  intros Hav. revert required s. induction b as [|[k v] b IH]; intros required s (Hnd & Hp & Hf) Hle.
  { destruct s. unfold batch_total. cbn. rewrite Z.add_0_r, (left_id_L ∅ (∪)). done. }
  rewrite fmap_cons in Hnd. apply list.NoDup_cons in Hnd as [Hk Hnd].
  apply list.Forall_cons in Hp as [Hv Hp], Hf as [Hkn Hf]. simpl in Hv, Hkn.
  pose proof (batch_total_nonneg b Hp) as Hbt.
  assert (Htot : batch_total ((k, v) :: b) = v + batch_total b) by done. rewrite Htot in Hle |- *.
  cbn [add_each]. unfold gets, mbind, M_bind at 1. simpl.
  rewrite bool_decide_eq_false_2 by (rewrite Hkn; by intros []).
  rewrite (proj2 (Z.eqb_neq v 0)) by lia.
  assert (Hsat : saturating_add required v = required + v) by (unfold saturating_add; lia).
  rewrite Hsat, (proj2 (Z.ltb_ge _ _)) by lia. unfold modify, mbind, M_bind. simpl.
  fold (set_Beneficiaries (L:=L)). rewrite IH.
  - f_equal; [lia|]. unfold set_Beneficiaries. simpl. f_equal.
    rewrite <- insert_union_l, insert_union_r; [done|]. by apply not_elem_of_list_to_map_1.
  - split_and!; [done..|]. simpl. rewrite list.Forall_forall in *. intros p Hin.
    rewrite lookup_insert_ne; [by apply Hf|]. intros ->. apply Hk, list_elem_of_fmap. by exists p.
  - lia.
Qed.

Lemma sum_union b (bs : gmap Beneficiary Z) :
  addable bs b → sum (list_to_map b ∪ bs) = batch_total b + sum bs.
Proof.
  intros (Hnd & _ & Hf). induction b as [|[k v] b IH]; simpl.
  { by rewrite (left_id_L ∅ (∪)). }
  rewrite fmap_cons in Hnd. apply list.NoDup_cons in Hnd as [Hk Hnd].
  apply list.Forall_cons in Hf as [Hkn Hf]. simpl in Hkn.
  rewrite <- insert_union_l, sum_insert, IH; [|done..|].
  2:{ apply lookup_union_None. split; [by apply not_elem_of_list_to_map_1|done]. }
  unfold batch_total. rewrite fmap_cons. cbn [foldr snd]. lia.
Qed.

(** Nothing but the beneficiaries and their total changes. *)
Definition adds (s s' : state (L:=L)) (b : batch) : Prop :=
  Beneficiaries s' = list_to_map b ∪ Beneficiaries s ∧
  TotalClaimable s' = TotalClaimable s + batch_total b ∧
  Balances s' = Balances s ∧ ClaimActive s' = true ∧
  (PalletAccountId s' = None ∨ PalletAccountId s' = Some (PalletId T)).

Lemma do_add_run b s :
  core s → addable (Beneficiaries s) b →
  sum (Beneficiaries s) + batch_total b ≤ reducible (Balances s) (PalletId T) →
  ∃ s', do_add_beneficiaries T b s = ROk tt s' ∧ ClaimId s' = ClaimId s ∧
    (ClaimActive s = true → adds s s' b).
Proof.
  intros [H1 H2 H3 H4 H5] Hb Hle. pose proof (pot_ok s H2) as Hp.
  unfold do_add_beneficiaries. unfold mbind at 1, M_bind at 1. unfold ends in Hp.
  assert (Hpe : ∃ p s1, pot T s = ROk p s1).
  { unfold pot, account_id, gets, modify, mbind, M_bind, mret, M_ret. destruct (PalletAccountId s); by eexists _, _. }
  destruct Hpe as (p & s1 & Hpe). rewrite Hpe in *.
  destruct Hp as (-> & E1 & E2 & E3 & E4 & E5 & _ & E7).
  unfold gets, mbind, M_bind. rewrite E2, H4.
  rewrite add_each_run; [|apply (reducible_range _ _ H1)|by rewrite E1|done].
  eexists. split; [done|]. simpl. split; [done|]. intros Ha. unfold adds. simpl.
  rewrite E1, E3, E5, H4. by split_and!.
Qed.

Lemma batch_length_pos (b : batch) : (0 <? Z.of_nat (length b)) = negb (bool_decide (b = [])).
Proof. by destruct b. Qed.

(** A first batch that fits is accepted. *)
Lemma begin_claim_run b m s :
  inv s → ClaimActive s = false → Beneficiaries s = ∅ → m ≠ "" →
  Z.of_nat (length b) ≤ MaxOpBeneficiaries T → addable ∅ b →
  batch_total b ≤ reducible (Balances s) (PalletId T) →
  ∃ s', begin_claim T Root b m s = ROk tt s' ∧ adds s s' b ∧ is_Some (ClaimId s').
Proof.
  intros Hi Hact Hemp Hm Hlen Hb Hle. pose proof Hi as [H1 H2 H3 H4 H5 H6 H7].
  rewrite Hact in H5. unfold begin_claim, ensure_manager, check_claim_status,
    check_max_op_beneficiaries, deposit_event, gets, modify, ensure, mbind, M_bind, mret, M_ret. simpl.
  rewrite Hemp, map_size_empty. simpl. rewrite bool_decide_eq_false_2, Hact by done. simpl.
  set (s1 := set_ClaimActive true s).
  assert (Hc : core s1).
  { pose proof (reducible_range (Balances s) (PalletId T) H1).
    split; simpl; rewrite ?Hemp, ?sum_empty; first [done | lia | apply map_Forall_empty]. }
  rewrite batch_length_pos. case_bool_decide as Hnil.
  - subst b. simpl. eexists. split; [done|]. split; [|simpl; eauto].
    unfold adds, batch_total. simpl. rewrite (left_id_L ∅ (∪)), Z.add_0_r. by split_and!.
  - rewrite (proj2 (Z.leb_le _ _)) by done. simpl.
    destruct (do_add_run b s1 Hc) as (s2 & Hrun & _ & Hadds).
    { simpl. by rewrite Hemp. }
    { simpl. by rewrite Hemp, sum_empty. }
    rewrite Hrun. eexists. split; [done|]. split; [|simpl; eauto].
    destruct (Hadds eq_refl) as (A1 & A2 & A3 & A4 & A5). by split_and!.
Qed.

(** A later batch that fits is accepted. *)
Lemma add_beneficiaries_run b s :
  inv s → ClaimActive s = true → Z.of_nat (length b) ≤ MaxOpBeneficiaries T →
  Z.of_nat (size (Beneficiaries s) + length b) ≤ MaxBeneficiaries T →
  addable (Beneficiaries s) b →
  sum (Beneficiaries s) + batch_total b ≤ reducible (Balances s) (PalletId T) →
  ∃ s', add_beneficiaries T Root b s = ROk tt s' ∧ adds s s' b ∧ ClaimId s' = ClaimId s.
Proof.
  intros Hi Hact Hlen Hmax Hb Hle. pose proof HT as [Hm1 Hm2 Hm3].
  unfold add_beneficiaries, ensure_manager, check_claim_status, check_beneficiaries_len,
    check_max_op_beneficiaries, check_max_beneficiaries, gets, modify, ensure, mbind, M_bind,
    mret, M_ret. rewrite Hact. rewrite batch_length_pos. case_bool_decide as Hnil; simpl.
  - subst b. eexists. split; [done|]. split; [|done]. destruct Hi.
    unfold adds, batch_total. simpl. rewrite (left_id_L ∅ (∪)), Z.add_0_r. by split_and!.
  - rewrite (proj2 (Z.leb_le _ _)) by done. simpl.
    rewrite (Z.mod_small (Z.of_nat (length b))) by lia. rewrite Z.mod_small by lia.
    rewrite (proj2 (Z.leb_le _ _)) by lia. simpl.
    destruct (do_add_run b s (inv_core s Hi Hact) Hb Hle) as (s' & Hrun & Hid & Hadds).
    rewrite Hrun. exists s'. split_and!; [done|by apply Hadds|done].
Qed.
End invariant.

(** ** Properties *)

Import Ledger.

(** Concrete data for the examples: a pot with funds, one beneficiary of each
    kind, genesis with an active claim. *)
Definition sample_config : Config := {|
  PalletId := "pot";
  UnclaimedDestination := "treasury";
  MaxBeneficiaries := 100;
  MaxOpBeneficiaries := 10;
  EthMsgSeparator := "@";
  AccountIdBytesToSign := λ a, a;
  sig_verify := λ sig msg acc, bool_decide (sig = acc +:+ ":" +:+ msg);
  keccak_256 := λ m, m;
  secp256k1_recover := λ h sig, if decide (sig = "eth:" +:+ h) then Some "0xe" else None;
  into_account := λ s, s
|}.

Definition sample_ledger : gmap string Z := {["pot" := 10 ^ 18]}.
Definition sample_beneficiaries : list (Beneficiary * Z) :=
  [(Substrate "alice", 5 * 10 ^ 16); (Ethereum "0xe", 7 * 10 ^ 16)].

Definition sample_state : state (L:=gmap string Z) :=
  State (list_to_map sample_beneficiaries) (12 * 10 ^ 16) true (Some (0, "msg")) (Some "pot") []
    sample_ledger.

Lemma sample_config_ok : config_ok sample_config.
Proof. split; vm_compute; done. Qed.

Lemma sample_ledger_wf : ledger_wf (Acc:=string) sample_ledger.
Proof. apply map_Forall_singleton. vm_compute. split; discriminate. Qed.

Lemma sample_reachable : reachable sample_config sample_state.
Proof.
  apply (reach_genesis _ sample_ledger sample_beneficiaries "msg").
  - apply sample_ledger_wf.
  - repeat constructor; vm_compute; discriminate.
  - vm_compute. reflexivity.
  - vm_compute. reflexivity.
Qed.

Lemma sample_minimum : 0 ≤ minimum_balance (Acc:=string) (L:=gmap string Z).
Proof. vm_compute. discriminate. Qed.

(** C5: in every reachable state of the pallet, while a claim is active the total
    recorded is the sum of what the beneficiaries can claim, and the pot covers
    it; without an active claim the total is zero. *)
Theorem claims_are_funded {L} `{!Currency string L, !CurrencyLaws string L} T (s : state (L:=L)) :
  config_ok T → 0 ≤ minimum_balance (Acc:=string) (L:=L) → reachable T s →
  (ClaimActive s = true →
     TotalClaimable s = sum (Beneficiaries s) ∧
     sum (Beneficiaries s) ≤ reducible (Balances s) (PalletId T)) ∧
  (ClaimActive s = false → TotalClaimable s = 0) ∧
  Z.of_nat (size (Beneficiaries s)) ≤ MaxBeneficiaries T.
Proof.
  intros HT Hmin Hr. destruct (reachable_inv T HT Hmin s Hr) as [H1 H2 H3 H4 H5 H6 H7].
  split_and!; [|intros Ha; by rewrite Ha in H5|done].
  intros Ha. rewrite Ha in H5. auto.
Qed.

Lemma claims_are_funded_witness :
  (ClaimActive sample_state = true →
     TotalClaimable sample_state = sum (Beneficiaries sample_state) ∧
     sum (Beneficiaries sample_state) ≤ reducible (Balances sample_state) (PalletId sample_config)) ∧
  (ClaimActive sample_state = false → TotalClaimable sample_state = 0) ∧
  Z.of_nat (size (Beneficiaries sample_state)) ≤ MaxBeneficiaries sample_config.
Proof.
  apply claims_are_funded; [apply sample_config_ok|apply sample_minimum|apply sample_reachable].
Defined.

(** No extrinsic and no transaction validity check panics in a reachable
    state: the claim id the pallet unwraps is there whenever it is read. *)
Theorem claim_pallet_no_panic {L} `{!Currency string L, !CurrencyLaws string L} T (s : state (L:=L)) o c :
  config_ok T → 0 ≤ minimum_balance (Acc:=string) (L:=L) → reachable T s → call_ok c →
  (dispatch (run_call T o c) s).2 ≠ Panicked ∧ validate_unsigned T c s ≠ None.
Proof.
  intros HT Hmin Hr Hc. pose proof (reachable_inv T HT Hmin s Hr) as Hi. split.
  { by apply (dispatch_ends _ _ (inv T)), run_call_inv. }
  assert (Hck : ∀ b sg n, match check_claimant T b sg s with
    | ROk _ _ => id ← ClaimId s; Some (inr (n, id, b))
    | RErr e => Some (inl (to_invalid e)) | RPanic => None end ≠ (None : option (InvalidTransaction + tag))).
  { intros b sg n. pose proof (check_claimant_ok T s b sg (λ _, mret tt)
      (λ _ s', ClaimActive s' = true ∧ s' = s) Hi) as H.
    unfold ends, mbind, M_bind in H. destruct (check_claimant T b sg s) as [[] s'|e|]; [|done|].
    - destruct H as [Ha ->]; [by intros id Ha _ _ _|]. by destruct (inv_id T s Hi Ha) as [id ->].
    - by destruct H. }
  destruct c; simpl; try done; apply Hck.
Qed.

Lemma claim_pallet_no_panic_witness :
  (dispatch (run_call sample_config Root Call_end_claim) sample_state).2 ≠ Panicked ∧
  validate_unsigned sample_config Call_end_claim sample_state ≠ None.
Proof.
  apply claim_pallet_no_panic;
    [apply sample_config_ok|apply sample_minimum|apply sample_reachable|exact I].
Defined.

(** C9: an unsigned claim that succeeds carried a valid signature on the claim
    message, for an Ethereum beneficiary on the message and the destination; it
    pays the recorded amount out of the pot to that account, once: the
    beneficiary is removed, and the same claim again is refused. *)
Theorem claim_pays_signer {L} `{!Currency string L, !CurrencyLaws string L} T (s s' : state (L:=L))
    c b sg dest :
  config_ok T → 0 ≤ minimum_balance (Acc:=string) (L:=L) → reachable T s →
  (c = Call_claim b sg ∧ dest = into_account T b ∨ c = Call_claim_ethereum b sg dest) →
  dispatch (run_call T NoOrigin c) s = (s', Done) →
  let who := match c with Call_claim _ _ => Substrate (into_account T b) | _ => Ethereum b end in
  let csig := match c with Call_claim _ _ => SubstrateSig sg | _ => EthereumSig sg dest end in
  (∃ id, ClaimId s = Some id ∧ verify T csig id.2 who = true) ∧ pays T s s' who dest ∧
  dispatch (run_call T NoOrigin c) s' = (s', Failed (Pallet NotEligible)).
Proof.
  intros HT Hmin Hr Hc Hd who csig. pose proof (reachable_inv T HT Hmin s Hr) as Hi.
  assert (Hrun : ends (run_call T NoOrigin c) s (λ _ s', ClaimActive s = true ∧
    (∃ id, ClaimId s = Some id ∧ verify T csig id.2 who = true) ∧ pays T s s' who dest)).
  { destruct Hc as [[-> ->]| ->]; simpl; [unfold claim|unfold claim_ethereum];
      (apply ends_ensure_none; intros _; apply check_claimant_ok; [done|];
       intros id Ha Hid Hv _; eapply ends_mono; [by apply pay_ok|];
       intros [] s1 Hp; split_and!; [done|by exists id|done]). }
  unfold ends, dispatch in *. destruct (run_call T NoOrigin c s) as [[] s1|e|]; simplify_eq.
  destruct Hrun as (Ha & Hv & Hp). split_and!; [done|done|].
  destruct Hp as (a & Hb & _ & Hdel & _ & Ha' & _).
  destruct Hc as [[-> ->]| ->]; simpl; [unfold claim|unfold claim_ethereum];
    unfold ensure_none, check_claimant, check_claim_status, gets, ensure, raise, mbind, M_bind,
      mret, M_ret; rewrite Ha', Ha, Hdel, lookup_delete_eq; reflexivity.
Qed.

Lemma claim_pays_signer_witness :
  let c := Call_claim_ethereum "0xe" ("eth:" +:+ eip191_hash_message sample_config "msg@bob") "bob" in
  let s' := (dispatch (run_call sample_config NoOrigin c) sample_state).1 in
  (∃ id, ClaimId sample_state = Some id ∧
     verify sample_config (EthereumSig ("eth:" +:+ eip191_hash_message sample_config "msg@bob") "bob")
       id.2 (Ethereum "0xe") = true) ∧
  pays sample_config sample_state s' (Ethereum "0xe") "bob" ∧
  dispatch (run_call sample_config NoOrigin c) s' = (s', Failed (Pallet NotEligible)).
Proof.
  intros c s'.
  apply (claim_pays_signer sample_config sample_state s' c "0xe");
    [apply sample_config_ok|apply sample_minimum|apply sample_reachable|right; reflexivity|].
  apply dispatch_done. vm_compute. reflexivity.
Defined.

(** The calls that claim for a beneficiary: the manager's, and the unsigned ones
    with a signature of the beneficiary. *)
Inductive claims {L} (T : Config) (s : state (L:=L)) : Beneficiary → string → Origin → Call → Prop :=
  | claims_for d : claims T s (Substrate d) d Root (Call_claim_for d)
  | claims_ethereum_for e d : claims T s (Ethereum e) d Root (Call_claim_ethereum_for e d)
  | claims_signed b sg id : ClaimId s = Some id →
      verify T (SubstrateSig sg) id.2 (Substrate (into_account T b)) = true →
      claims T s (Substrate (into_account T b)) (into_account T b) NoOrigin (Call_claim b sg)
  | claims_ethereum_signed e sg d id : ClaimId s = Some id →
      verify T (EthereumSig sg d) id.2 (Ethereum e) = true →
      claims T s (Ethereum e) d NoOrigin (Call_claim_ethereum e sg d).

(** Such a call gets to the payment. *)
Lemma claims_run {L} `{!Currency string L} T (s : state (L:=L)) b dest o c :
  ClaimActive s = true → is_Some (Beneficiaries s !! b) → claims T s b dest o c →
  run_call T o c s = (process_claim T b ≫= do_claim T dest) s.
Proof.
  intros Ha Hb Hc. destruct Hc as [d|e d|b sg id Hid Hv|e sg d id Hid Hv]; simpl;
    unfold claim_for, claim_ethereum_for, claim, claim_ethereum, ensure_manager, ensure_none, check_claimant,
      check_claim_status, gets, unwrap, ensure, mbind, M_bind, mret, M_ret; rewrite Ha; [done..| |];
    rewrite bool_decide_eq_true_2, Hid by done; cbv beta iota; by rewrite Hv.
Qed.

(** C11: promises are kept: in a reachable state with an active claim every recorded
    beneficiary, of either kind, is paid the recorded amount by the manager's call
    and by an unsigned call with a valid signature, as soon as the destination can
    receive the amount; the pot is never the obstacle. *)
Theorem claim_promise_kept {L} `{!Currency string L, !CurrencyLaws string L} T (s : state (L:=L)) b dest a o c :
  config_ok T → 0 ≤ minimum_balance (Acc:=string) (L:=L) → reachable T s →
  ClaimActive s = true → Beneficiaries s !! b = Some a → can_deposit (Balances s) dest a = true →
  claims T s b dest o c →
  ∃ s', dispatch (run_call T o c) s = (s', Done) ∧ pays T s s' b dest.
Proof.
  intros HT Hmin Hr Ha Hb Hdest Hc. pose proof (reachable_inv T HT Hmin s Hr) as Hi.
  unfold dispatch. rewrite (claims_run T s b dest o c) by done.
  destruct (pay_run T s b dest a Hi Ha Hb) as [(s' & -> & Hp)|[Ht _]]; [by exists s'|].
  destruct (pay_covered T s b dest a Hi Ha Hb Hdest) as [l' Hl]. by rewrite Ht in Hl.
Qed.

(** Alice's account is paid by the manager, the Ethereum account by its signature. *)
Lemma claim_promise_kept_witness :
  (∃ s', dispatch (run_call sample_config Root (Call_claim_for "alice")) sample_state = (s', Done) ∧
         pays sample_config sample_state s' (Substrate "alice") "alice") ∧
  (let c := Call_claim_ethereum "0xe" ("eth:" +:+ eip191_hash_message sample_config "msg@bob") "bob" in
   ∃ s', dispatch (run_call sample_config NoOrigin c) sample_state = (s', Done) ∧
         pays sample_config sample_state s' (Ethereum "0xe") "bob").
Proof.
  split; (eapply (claim_promise_kept sample_config);
    [apply sample_config_ok|apply sample_minimum|apply sample_reachable|reflexivity|vm_compute; reflexivity|
     vm_compute; reflexivity|]).
  - apply claims_for.
  - eapply claims_ethereum_signed; vm_compute; reflexivity.
Defined.

(** A claim that passes the transaction validity check is executed: in the
    same state its dispatch succeeds unless the currency refuses the transfer.
    The tag that makes two transactions exclude each other names the claim and
    the beneficiary, not the destination. *)
Theorem validated_claim_executes {L} `{!Currency string L, !CurrencyLaws string L} T
    (s : state (L:=L)) c name id who :
  config_ok T → 0 ≤ minimum_balance (Acc:=string) (L:=L) → reachable T s →
  validate_unsigned T c s = Some (inr (name, id, who)) →
  ClaimId s = Some id ∧ is_Some (Beneficiaries s !! who) ∧
  ((dispatch (run_call T NoOrigin c) s).2 = Done ∨
   (dispatch (run_call T NoOrigin c) s).2 = Failed CurrencyError).
Proof.
  intros HT Hmin Hr Hv. pose proof (reachable_inv T HT Hmin s Hr) as Hi.
  assert (Hck : ∀ b sg n dest,
    match check_claimant T b sg s with
    | ROk _ _ => id ← ClaimId s; Some (inr (n, id, b))
    | RErr e => Some (inl (to_invalid e)) | RPanic => None end =
      (Some (inr (name, id, who)) : option (InvalidTransaction + tag)) →
    ClaimId s = Some id ∧ is_Some (Beneficiaries s !! who) ∧ who = b ∧
    ((dispatch (_ ← check_claimant T b sg; process_claim T b ≫= do_claim T dest) s).2 = Done ∨
     (dispatch (_ ← check_claimant T b sg; process_claim T b ≫= do_claim T dest) s).2
       = Failed CurrencyError)).
  { intros b sg n dest H. pose proof (check_claimant_ok T s b sg (λ _, mret tt)
      (λ _ s', s' = s ∧ ClaimActive s = true ∧ is_Some (Beneficiaries s !! b)) Hi) as Hc.
    unfold ends, mbind at 1, M_bind at 1 in Hc.
    destruct (check_claimant T b sg s) as [[] s'|e|] eqn:E; [|done|done].
    destruct Hc as (-> & Ha & [a Hb]); [by intros|].
    destruct (ClaimId s) as [i|] eqn:Hid; simpl in H; [|done]. simplify_eq.
    split_and!; [done|by rewrite Hb|done|].
    unfold dispatch. rewrite !(bind_ROk _ _ _ _ _ E).
    destruct (pay_run T s who dest a Hi Ha Hb) as [(s1 & Hp & _)|[_ Hp]]; rewrite !Hp; auto. }
  destruct c; simpl in Hv; try done.
  - apply (Hck _ _ _ (into_account T beneficiary)) in Hv as (? & ? & _ & ?). split_and!; done.
  - apply (Hck _ _ _ dest) in Hv as (? & ? & _ & ?). split_and!; done.
Qed.

Lemma validated_claim_executes_witness :
  ClaimId sample_state = Some (0, "msg") ∧ is_Some (Beneficiaries sample_state !! Substrate "alice") ∧
  ((dispatch (run_call sample_config NoOrigin (Call_claim "alice" "alice:msg")) sample_state).2 = Done ∨
   (dispatch (run_call sample_config NoOrigin (Call_claim "alice" "alice:msg")) sample_state).2
     = Failed CurrencyError).
Proof.
  apply (validated_claim_executes sample_config sample_state _ "claim");
    [apply sample_config_ok|apply sample_minimum|apply sample_reachable|vm_compute; reflexivity].
Defined.

(** Ending a claim removes no beneficiary from storage, although the
    documentation of the call says that it removes as many as possible; and as
    long as one is left, no new claim can begin. *)
Theorem end_claim_keeps_beneficiaries {L} `{!Currency string L, !CurrencyLaws string L} T
    (s s' : state (L:=L)) b m :
  config_ok T → 0 ≤ minimum_balance (Acc:=string) (L:=L) → reachable T s →
  dispatch (run_call T Root Call_end_claim) s = (s', Done) →
  Beneficiaries s' = Beneficiaries s ∧ ClaimActive s' = false ∧
  (Beneficiaries s ≠ ∅ →
   dispatch (run_call T Root (Call_begin_claim b m)) s' = (s', Failed (Pallet NonEmptyBeneficiaries))).
Proof.
  intros HT Hmin Hr Hd. pose proof (reachable_inv T HT Hmin s Hr) as Hi.
  assert (Hrun : ends (end_claim T Root) s (λ _ s', Beneficiaries s' = Beneficiaries s ∧
                                                     ClaimActive s' = false)).
  { unfold end_claim. apply ends_ensure_manager. intros _. apply ends_check_claim_status. intros Hact.
    destruct (inv_id T s Hi Hact) as [cid Hid]. estep.
    eapply ends_bind; [apply account_id_ok, Hi|]. intros id s1 [-> (E1 & _ & E3 & E4 & _ & _ & E7)].
    eapply ends_bind with (R := λ _ s', Beneficiaries s' = Beneficiaries s ∧ ClaimActive s' = false ∧
                                        ClaimId s' = ClaimId s).
    - case_decide; [|estep; by rewrite E1, E3, E4].
      eapply ends_bind; [by apply pot_ok|]. intros p s2 [-> (F1 & _ & F3 & F4 & _)].
      unfold currency_transfer. esteps. destruct (transfer _ _ _ _); [|by estep]. estep. simpl.
      rewrite F1, F3, F4, E1, E3, E4. done.
    - intros _ s2 (G1 & G2 & G3). esteps. simpl. rewrite G3, Hid. cbn [unwrap]. esteps. done. }
  unfold ends, dispatch in *. simpl in Hd. destruct (end_claim T Root s) as [[] s1|e|]; simplify_eq.
  destruct Hrun as [Hb Ha]. split_and!; [done..|]. intros Hne. simpl.
  unfold begin_claim, ensure_manager, gets, mbind, M_bind, mret, M_ret. rewrite Hb.
  assert (0 < size (Beneficiaries s))%nat as Hsz.
  { destruct (decide (size (Beneficiaries s) = 0%nat)) as [H0|]; [|lia].
    by apply map_size_empty_inv in H0. }
  by rewrite (proj2 (Nat.ltb_lt _ _) Hsz).
Qed.

Lemma end_claim_keeps_beneficiaries_witness :
  let s' := (dispatch (run_call sample_config Root Call_end_claim) sample_state).1 in
  Beneficiaries s' = Beneficiaries sample_state ∧ ClaimActive s' = false ∧
  (Beneficiaries sample_state ≠ ∅ →
   dispatch (run_call sample_config Root (Call_begin_claim [] "again")) s' =
     (s', Failed (Pallet NonEmptyBeneficiaries))).
Proof.
  intros s'. apply (end_claim_keeps_beneficiaries sample_config);
    [apply sample_config_ok|apply sample_minimum|apply sample_reachable|].
  apply dispatch_done. vm_compute. reflexivity.
Defined.
