(* ===== verification/ClaimCampaign.v ===== *)
(** * A claim campaign, from the CSV file to the pallet's storage

    Joins the script ([ClaimMain]) and the pallet ([TokenClaim]): the sudo calls
    the script sends are executed by the pallet in the order they are sent.
    Address decoding and the encoding of a JavaScript [Map] as a [BTreeMap] are
    third-party and are parameters. *)

From S2P Require Import Prelude JsString JsNumber ClaimCsv TxLifecycle ClaimArgs ClaimFiles ClaimMain.
From S2P Require Import Frame TokenClaim.

Open Scope Z_scope.

Section campaign.
Context {L : Type} `{!Currency string L, !CurrencyLaws string L} (T : Config).
(** The account or Ethereum address an address string stands for; the order in
    which the map reaches the pallet. *)
Context (decode_ss58 decode_eth : string → string).
Context (encode_map : list (Beneficiary * Z) → batch).

Definition decode_address (a : address) : Beneficiary :=
  match a with
  | ClaimCsv.Substrate s => TokenClaim.Substrate (decode_ss58 s)
  | ClaimCsv.Ethereum s => TokenClaim.Ethereum (decode_eth s)
  end.

(** An entry of the file, as the pallet sees it. *)
Definition decode_entry (p : address * string) : Beneficiary * Z :=
  (decode_address p.1, amount_of p.2).

Definition decode_batch (m : jsmap) : batch := encode_map (decode_entry <$> entries m).

(** A sudo call is dispatched with the root origin. *)
Definition execute (c : call) (s : state (L:=L)) : state (L:=L) * dispatch_result DispatchError :=
  match c with
  | Sudo (BeginClaim b msg) =>
      dispatch (run_call T Root (Call_begin_claim (decode_batch b) (template msg))) s
  | Sudo (AddBeneficiaries b) =>
      dispatch (run_call T Root (Call_add_beneficiaries (decode_batch b))) s
  | _ => (s, Failed BadOrigin)
  end.

Fixpoint execute_all (cs : list call) (s : state (L:=L))
    : state (L:=L) * list (dispatch_result DispatchError) :=
  match cs with
  | [] => (s, [])
  | c :: cs =>
      let '(s1, r) := execute c s in
      let '(s2, rs) := execute_all cs s1 in
      (s2, r :: rs)
  end.

(** ** Lemmas *)

Hypothesis encode_perm : ∀ l, NoDup l.*1 → encode_map l ≡ₚ l.
Hypothesis HT : config_ok T.

Lemma addable_perm bs b b' : b ≡ₚ b' → addable bs b → addable bs b'.
Proof. intros Hp (H1 & H2 & H3). unfold addable. by rewrite <- Hp. Qed.

(** The decoded items of a list of batches. *)
Definition items (bs : list jsmap) : batch := decode_entry <$> concat (entries <$> bs).

Lemma items_cons m bs : items (m :: bs) = (decode_entry <$> entries m) ++ items bs.
Proof. unfold items. rewrite fmap_cons. cbn [concat]. by rewrite fmap_app. Qed.

Lemma addable_app bs b b' :
  addable bs (b ++ b') → addable bs b ∧ addable (list_to_map b ∪ bs) b'.
Proof.
  intros (Hnd & Hp & Hf). rewrite fmap_app in Hnd.
  apply list.NoDup_app in Hnd as (Hnd1 & Hdis & Hnd2).
  apply Forall_app in Hp as [Hp1 Hp2], Hf as [Hf1 Hf2]. split; [by split_and!|].
  split_and!; [done..|]. rewrite list.Forall_forall in *. intros p Hin.
  apply lookup_union_None. split; [|by apply Hf2].
  apply not_elem_of_list_to_map_1. intros Hin1. apply (Hdis p.1 Hin1), list_elem_of_fmap. eauto.
Qed.

Lemma batch_total_app b b' : batch_total (b ++ b') = batch_total b + batch_total b'.
Proof.
  unfold batch_total. induction b as [|p b IH]; [done|].
  rewrite <- app_comm_cons, !fmap_cons. cbn [foldr]. lia.
Qed.

Lemma size_addable bs b :
  addable bs b → size (list_to_map b ∪ bs) = (length b + size bs)%nat.
Proof.
  intros (Hnd & _ & Hf). induction b as [|[k v] b IH]; simpl; [by rewrite (left_id_L ∅ (∪))|].
  rewrite fmap_cons in Hnd. apply list.NoDup_cons in Hnd as [Hk Hnd].
  apply list.Forall_cons in Hf as [Hkn Hf]. simpl in Hkn.
  rewrite <- insert_union_l, map_size_insert_None, IH; [done..|].
  apply lookup_union_None. split; [by apply not_elem_of_list_to_map_1|done].
Qed.

Lemma union_app (bs : gmap Beneficiary Z) b b' :
  addable (list_to_map b ∪ bs) b' →
  list_to_map b' ∪ (list_to_map b ∪ bs) = list_to_map (b ++ b') ∪ bs.
Proof.
  intros (_ & _ & Hf). rewrite list_to_map_app, <- (assoc_L (∪)), (assoc_L (∪)).
  rewrite (map_union_comm (list_to_map b')); [by rewrite (assoc_L (∪))|].
  apply map_disjoint_list_to_map_l. eapply List.Forall_impl; [|exact Hf].
  intros p Hp. simpl in Hp. by apply lookup_union_None in Hp as [? _].
Qed.

(** The later batches, one add-beneficiaries call each. *)
Lemma execute_adds (ms : list jsmap) (s : state (L:=L)) :
  inv T s → ClaimActive s = true →
  Forall (λ m, Z.of_nat (length m) ≤ MaxOpBeneficiaries T) ms →
  Z.of_nat (size (Beneficiaries s) + length (items ms)) ≤ MaxBeneficiaries T →
  addable (Beneficiaries s) (items ms) →
  sum (Beneficiaries s) + batch_total (items ms) ≤ reducible (Balances s) (PalletId T) →
  ∃ s', execute_all ((λ m, Sudo (AddBeneficiaries m)) <$> ms) s = (s', replicate (length ms) Done) ∧
    Beneficiaries s' = list_to_map (items ms) ∪ Beneficiaries s ∧ ClaimActive s' = true ∧
    inv T s' ∧ Balances s' = Balances s.
Proof.
  revert s. induction ms as [|m ms IH]; intros s Hi Ha Hlen Hmax Had Hle.
  { exists s. split_and!; try done. cbn. by rewrite (left_id_L ∅ (∪)). }
  apply list.Forall_cons in Hlen as [Hm Hlen]. rewrite items_cons in *.
  rewrite length_app in Hmax. rewrite batch_total_app in Hle.
  apply addable_app in Had as [Had1 Had2].
  set (b := decode_entry <$> entries m) in *.
  assert (Hperm : decode_batch m ≡ₚ b) by apply encode_perm, Had1.
  assert (Hmap : (list_to_map (decode_batch m) : gmap Beneficiary Z) = list_to_map b).
  { apply list_to_map_proper; [|done]. rewrite Hperm. apply Had1. }
  assert (Hbl : length (decode_batch m) = length m).
  { rewrite Hperm. unfold b, entries. by rewrite !length_fmap. }
  pose proof (inv_ledger _ _ Hi) as Hwf. pose proof (reducible_range _ (PalletId T) Hwf) as Hrr.
  pose proof (sum_nonneg _ (inv_pos _ _ Hi)).
  assert (Hbt2 : 0 ≤ batch_total (items ms)) by apply batch_total_nonneg, Had2.
  assert (Hlenb : length b = length m) by (unfold b, entries; by rewrite !length_fmap).
  destruct (add_beneficiaries_run T HT (decode_batch m) s) as (s1 & Hrun & Hadds & _); try done.
  { by rewrite Hbl. }
  { rewrite Hbl. lia. }
  { by eapply addable_perm. }
  { rewrite (batch_total_perm _ _ Hperm). lia. }
  destruct Hadds as (A1 & A2 & A3 & A4 & A5). rewrite Hmap in A1.
  assert (Hi1 : inv T s1).
  { assert (Hbok : batch_ok (decode_batch m)).
    { eapply (addable_batch_ok (Beneficiaries s) _ (reducible (Balances s) (PalletId T)));
        [by eapply addable_perm|rewrite (batch_total_perm _ _ Hperm); lia|lia]. }
    pose proof (run_call_inv T HT Root (Call_add_beneficiaries (decode_batch m)) s Hi Hbok) as He.
    unfold ends in He. simpl in He. by rewrite Hrun in He. }
  destruct (IH s1) as (s2 & Hex & B1 & B2 & B3 & B4); try done.
  { rewrite A1, size_addable by done. lia. }
  { by rewrite A1. }
  { rewrite A1, A3, sum_union by done. lia. }
  exists s2. split_and!; [|by rewrite B1, A1, union_app|done|done|by rewrite B4].
  rewrite fmap_cons. cbn [execute_all execute]. unfold dispatch. simpl. by rewrite Hrun, Hex.
Qed.

(** The whole campaign, as the reference list of calls. *)
Lemma execute_campaign o (bs : list jsmap) (s : state (L:=L)) :
  bs ≠ [] → inv T s → ClaimActive s = false → Beneficiaries s = ∅ → template (claim_msg o) ≠ "" →
  Forall (λ m, Z.of_nat (length m) ≤ MaxOpBeneficiaries T) bs →
  Z.of_nat (length (items bs)) ≤ MaxBeneficiaries T →
  addable ∅ (items bs) →
  batch_total (items bs) ≤ reducible (Balances s) (PalletId T) →
  ∃ s', execute_all ((λ c, Sudo c) <$> imap (campaign_call o) bs) s =
          (s', replicate (length bs) Done) ∧
    Beneficiaries s' = list_to_map (items bs) ∧ ClaimActive s' = true ∧ inv T s'.
Proof.
  intros Hne Hi Ha Hemp Hmsg Hlen Hmax Had Hle. destruct bs as [|m ms]; [done|].
  apply list.Forall_cons in Hlen as [Hm Hlen]. rewrite items_cons in *. rewrite length_app in Hmax. rewrite batch_total_app in Hle.
  apply addable_app in Had as [Had1 Had2]. set (b := decode_entry <$> entries m) in *.
  assert (Hperm : decode_batch m ≡ₚ b) by apply encode_perm, Had1.
  assert (Hmap : (list_to_map (decode_batch m) : gmap Beneficiary Z) = list_to_map b).
  { apply list_to_map_proper; [|done]. rewrite Hperm. apply Had1. }
  assert (Hbl : length (decode_batch m) = length m).
  { rewrite Hperm. unfold b, entries. by rewrite !length_fmap. }
  pose proof (reducible_range _ (PalletId T) (inv_ledger _ _ Hi)) as Hrr.
  assert (Hbt2 : 0 ≤ batch_total (items ms)) by apply batch_total_nonneg, Had2.
  destruct (begin_claim_run T (decode_batch m) (template (claim_msg o)) s)
    as (s1 & Hrun & (A1 & A2 & A3 & A4 & A5) & _); try done.
  { by rewrite Hbl. }
  { by eapply addable_perm. }
  { rewrite (batch_total_perm _ _ Hperm). lia. }
  rewrite Hmap, Hemp in A1.
  assert (Hi1 : inv T s1).
  { assert (Hbok : batch_ok (decode_batch m)).
    { eapply (addable_batch_ok ∅ _ (reducible (Balances s) (PalletId T)));
        [by eapply addable_perm|rewrite (batch_total_perm _ _ Hperm); lia|lia]. }
    pose proof (run_call_inv T HT Root (Call_begin_claim (decode_batch m) (template (claim_msg o))) s
      Hi Hbok) as He.
    unfold ends in He. simpl in He. by rewrite Hrun in He. }
  destruct (execute_adds ms s1) as (s2 & Hex & B1 & B2 & B3 & _); try done.
  { rewrite A1, size_addable, map_size_empty by done. lia. }
  { by rewrite A1. }
  { rewrite A1, A3, sum_union, sum_empty by done. lia. }
  exists s2. split_and!; [|by rewrite B1, A1, union_app, (right_id_L ∅ (∪)) by done|done|done].
  rewrite imap_cons, fmap_cons. cbn [execute_all execute campaign_call].
  assert (Hcs : (λ c, Sudo c) <$> imap (campaign_call o ∘ S) ms =
                (λ m, Sudo (AddBeneficiaries m)) <$> ms).
  { rewrite fmap_imap. clear. rewrite <- (imap_const (λ m, Sudo (AddBeneficiaries m))). done. }
  rewrite Hcs. unfold dispatch. simpl. by rewrite Hrun, Hex.
Qed.
End campaign.

(** ** Lemmas on the script's side *)

Lemma concat_entries (bs : list jsmap) : concat (entries <$> bs) = entry_of <$> concat bs.
Proof.
  induction bs as [|m bs IH]; [done|]. rewrite fmap_cons. cbn [concat]. rewrite IH.
  unfold entries. by rewrite fmap_app.
Qed.

Lemma total_of_items d1 d2 bs : total_of bs = batch_total (items d1 d2 bs).
Proof.
  unfold total_of, batch_total, items. rewrite concat_entries, <- !list_fmap_compose. done.
Qed.

Lemma chunks_not_nil {A} n (l : list A) : chunks n l ≠ [].
Proof. unfold chunks. destruct (length l); simpl; [done|]. by destruct (_ <? _)%nat. Qed.

(** What a file that can be read gives. *)
Lemma read_airdrop_csv_items ac mc bsz b rows bs l :
  (0 < b)%nat → is_int (to_num bsz) (Z.of_nat b) → Z.of_nat (length rows) < 2 ^ 53 →
  classify_all ac mc rows = Ret l → read_airdrop_csv true rows ac mc bsz = Ret bs →
  concat (entries <$> bs) = l ∧ Forall (λ m, (length m ≤ b)%nat) bs ∧ bs ≠ [].
Proof.
  intros Hb Hbs Hn Hl Hr. pose proof (read_airdrop_csv_spec ac mc bsz b Hb Hbs rows Hn) as H.
  rewrite Hl, Hr in H. simpl in H. injection H as H. rewrite H. split_and!.
  - by rewrite chunks_concat.
  - pose proof (chunks_bound b l Hb) as Hc. rewrite <- H in Hc. apply Forall_fmap in Hc.
    eapply List.Forall_impl; [|exact Hc]. intros m. simpl. unfold entries. by rewrite length_fmap.
  - intros ->. by apply (chunks_not_nil b l).
Qed.

Lemma check_preconditions_inv ci bs bsz rows ac mc :
  read_airdrop_csv true rows ac mc bsz = Ret bs → check_preconditions ci bs bsz = Ret true →
  claim_active ci = false ∧ 10 ^ 16 + total_of bs ≤ free_balance ci ∧
  num_ltb (of_Z (max_batch_size ci)) (to_num bsz) = false.
Proof.
  intros Hr%read_airdrop_csv_amounts. unfold check_preconditions, INIT_CAMPAIGN.
  destruct (claim_active ci); [done|]. cbn [Bool.eqb].
  replace (BigInt EXISTENTIAL_DEPOSIT) with (Ret (A:=Z) (10 ^ 16)) by (vm_compute; reflexivity).
  cbn [mbind js_bind]. rewrite (sum_batches_ok _ _ Hr). cbn [mbind js_bind].
  destruct (Z.ltb_spec (free_balance ci) (10 ^ 16 + total_of bs)); [done|].
  by destruct (num_ltb _ _).
Qed.

(** ** Properties *)

(** C1: end to end.  For a readable file with distinct addresses and positive
    amounts, if the script's preconditions hold on the chain's state (no claim
    active, balance covering existential deposit and total, batch size within
    the pallet's limit), no beneficiary is left in storage and the pallet can
    hold them all, then every extrinsic the script sends without a multisig is
    executed successfully by the pallet, and afterwards the beneficiaries in
    storage are exactly the non-zero rows of the file and the total is their
    sum. *)
Theorem campaign_reaches_chain {L} `{!Currency string L, !CurrencyLaws string L} T decode_ss58
    decode_eth encode_map methodToHex toHex paymentWeight account submit info o fs rows ci bs l b (s : state (L:=L)) :
  (∀ l, NoDup l.*1 → encode_map l ≡ₚ l) → config_ok T → inv T s →
  is_multisig (threshold o) = false → multisig_addresses o = [] → template (claim_msg o) ≠ "" →
  (0 < b)%nat → is_int (to_num (batch_size o)) (Z.of_nat b) → Z.of_nat (length rows) < 2 ^ 53 →
  classify_all (template (address_col_label o)) (template (amount_col_label o)) rows = Ret l →
  NoDup (decode_address decode_ss58 decode_eth <$> l.*1) → Forall (λ p, 0 < amount_of p.2) l →
  Z.of_nat (length l) ≤ MaxBeneficiaries T → Beneficiaries s = ∅ →
  claim_active ci = ClaimActive s → max_batch_size ci = MaxOpBeneficiaries T →
  free_balance ci ≤ reducible (Balances s) (PalletId T) + 10 ^ 16 →
  read_airdrop_csv USE_PALLET_TOKEN_CLAIM rows (template (address_col_label o))
    (template (amount_col_label o)) (batch_size o) = Ret bs →
  check_preconditions ci bs (batch_size o) = Ret true →
  (∀ m, (m < length bs)%nat → handleTransactionLifecycle (submit m) = Returned (TxSuccess (info m))) →
  ∃ sent s',
    run_init methodToHex toHex paymentWeight account submit o "Y" fs rows ci = (sent, Ret fs) ∧
    execute_all T decode_ss58 decode_eth encode_map sent s = (s', replicate (length bs) Done) ∧
    Beneficiaries s' = list_to_map (decode_entry decode_ss58 decode_eth <$> l) ∧
    ClaimActive s' = true ∧ TotalClaimable s' = sum (Beneficiaries s').
Proof.
  intros Henc HT Hi Hms Haddr Hmsg Hb Hbs Hn Hl Hnd Hpos Hmax Hemp Hca Hmb Hfree Hr Hc Hsub.
  destruct (check_preconditions_inv _ _ _ _ _ _ Hr Hc) as (Hinact & Htot & Hbl).
  destruct (read_airdrop_csv_items _ _ _ b rows bs l Hb Hbs Hn Hl Hr) as (Hcat & Hlens & Hne).
  pose proof HT as [Hm1 Hm2 Hm3].
  assert (Hbop : Z.of_nat b ≤ MaxOpBeneficiaries T).
  { rewrite Hmb in Hbl. rewrite (num_ltb_int _ _ (MaxOpBeneficiaries T) (Z.of_nat b)) in Hbl;
      [lia|apply of_Z_exact; lia|done]. }
  assert (Hitems : items decode_ss58 decode_eth bs = decode_entry decode_ss58 decode_eth <$> l)
    by (unfold items; by rewrite Hcat).
  destruct (execute_campaign T decode_ss58 decode_eth encode_map Henc HT o bs s)
    as (s' & Hex & Hben & Hact & Hinv); try done.
  - by rewrite <- Hca.
  - eapply List.Forall_impl; [|exact Hlens]. intros x Hx. simpl in Hx. lia.
  - by rewrite Hitems, length_fmap.
  - rewrite Hitems. split_and!.
    + rewrite <- list_fmap_compose. rewrite <- list_fmap_compose in Hnd. exact Hnd.
    + by apply Forall_fmap.
    + apply list.Forall_forall. intros p _. apply lookup_empty.
  - rewrite <- (total_of_items decode_ss58 decode_eth). lia.
  - exists (campaign methodToHex account o 0 bs), s'. split_and!.
    + unfold run_init. rewrite Haddr. cbn [fmap list_fmap check_no_prev_calls].
      rewrite Hr, Hc. simpl. rewrite (send_loop_all _ _ _ _ _ _ _ _ info), Hms; [done|].
      intros i Hi'. left. by apply Hsub.
    + rewrite <- Hex. f_equal. unfold campaign, extrinsic. rewrite Hms, fmap_imap. done.
    + by rewrite Hben, Hitems.
    + done.
    + pose proof (inv_total _ _ Hinv) as Ht. by rewrite Hact in Ht.
Qed.

Import Ledger.

Definition sample_eth2 : string := "0x00a329c0648769A73afAc7F9381E08FB43dBEA72".
Definition campaign_rows : list (gmap string string) :=
  [sample_row sample_eth "1"; sample_row sample_eth2 "0"; sample_row sample_eth2 "2.5"].
Definition campaign_state : state (L:=gmap string Z) :=
  State ∅ 0 false None None [] {["pot" := 10 ^ 20]}.
Definition campaign_chain : chain_info := ChainInfo false 10 (10 ^ 20).
Definition campaign_read : list jsmap :=
  match read_airdrop_csv true campaign_rows "address" "total" (VStr "1") with
  | Ret bs => bs
  | _ => []
  end.

Definition campaign_items : list (address * string) :=
  [(ClaimCsv.Ethereum sample_eth, "1000000000000000000");
   (ClaimCsv.Ethereum sample_eth2, "2500000000000000000")].

Lemma campaign_state_inv : inv sample_config campaign_state.
Proof.
  constructor.
  - apply map_Forall_singleton. vm_compute. split; discriminate.
  - left. reflexivity.
  - apply map_Forall_empty.
  - vm_compute. discriminate.
  - reflexivity.
  - intros [=].
  - intros [=].
Qed.

Lemma campaign_reaches_chain_witness :
  ∃ sent s',
    run_init sample_hex sample_tx_hex sample_weight "alice" (λ _, [sample_included]) sample_single "Y" (FS ∅ ∅)
      campaign_rows campaign_chain = (sent, Ret (FS ∅ ∅)) ∧
    execute_all sample_config id id id sent campaign_state =
      (s', replicate (length campaign_read) Done) ∧
    Beneficiaries s' = list_to_map (decode_entry id id <$> campaign_items) ∧
    ClaimActive s' = true ∧ TotalClaimable s' = sum (Beneficiaries s').
Proof.
  apply (campaign_reaches_chain sample_config id id id sample_hex sample_tx_hex sample_weight "alice"
    (λ _, [sample_included]) (λ _, sample_info) sample_single (FS ∅ ∅) campaign_rows campaign_chain
    campaign_read campaign_items 1 campaign_state).
  - done.
  - apply sample_config_ok.
  - apply campaign_state_inv.
  - vm_compute. reflexivity.
  - reflexivity.
  - done.
  - lia.
  - eexists _, _; split; vm_compute; reflexivity.
  - vm_compute. reflexivity.
  - vm_compute. reflexivity.
  - apply (bool_decide_unpack _). vm_compute. exact I.
  - repeat constructor; vm_compute; reflexivity.
  - vm_compute. discriminate.
  - reflexivity.
  - reflexivity.
  - reflexivity.
  - vm_compute. discriminate.
  - vm_compute. reflexivity.
  - vm_compute. reflexivity.
  - intros m _. vm_compute. reflexivity.
Defined.
