(* ===== verification/ScenarioClaim.v ===== *)
(** * The token claim scenario ([zombienet-tests/js_scripts/0015-claim_no_fee.js])

    The scenario funds the claim pallet, begins a claim with five beneficiaries,
    and has each of them claim and checks their balance.  [runs_pallet] is the
    interface between a node and the pallet of [TokenClaim]: which calls the
    node executes for which extrinsics, and what it answers to the scenario's
    queries.  On such a node the scenario passes.

    Key pairs, address and map encodings are third-party and are parameters. *)

From stdpp Require Import pretty.
From S2P Require Import Prelude JsString JsNumber JsObject TxLifecycle ZkvLib Merkle Node ScenarioTx.
From S2P Require Import Frame Holds TokenClaim.

Open Scope Z_scope.

Module ClaimScenario.
Inductive ReturnCode : Type :=
  | Ok
  | ErrInitClaim
  | ErrClaim
  | ErrClaimedAmount
  | ErrUnsupportedNetwork.

Definition code (r : ReturnCode) : Z :=
  match r with
  | Ok => 1
  | ErrInitClaim => 2
  | ErrClaim => 3
  | ErrClaimedAmount => 4
  | ErrUnsupportedNetwork => 5
  end.

Definition MNEMONIC : string :=
  "poverty popular note inform state innocent grant crumble manage tornado primary list".
Definition CLAIM_AMOUNT : string := "1000000000000000000".
Definition INITIAL_BALANCE : string := "10000000000000000000".
Definition eth_signature : string :=
  "0x3485f6726eb2efee5356f3b5bdd4df6287c70a73e2b3b9b82e54d8df5395421543456d948bff2109db8fc2342bf4cdc424f70c0161091ff83cb68227a32713e81c".
Definition polkadot_js_signature : string :=
  "0xc89703e8763b08dfedd8e78959d1c1b28138628e58c7e4bc2c0eefd87d796c10e3fdb7bd35ef713d02c49959d3bfb2c559673a70e54156bc71bff5e7541f1e86".
Definition beneficiary_eth : string := "0xCFb405552868d9906DeDCAbe2F387a37E35e9610".
Definition message : string := "I'm claiming my funds !".

(** A pair of a keyring. *)
Record pair : Type := Pair { address : string; publicKey : jsv; sign : string → jsv }.

Section script.
Context {S : Type} `{!Node S}.
(** Type of the keyring and URI; the addresses have the scenario's prefix. *)
Context (keyring : string → string → pair).

Definition beneficiary_sr : pair := keyring "sr25519" "//BeneficiarySR".
Definition beneficiary_polkadot_js : pair := keyring "sr25519" MNEMONIC.
Definition beneficiary_ed : pair := keyring "ed25519" "//BeneficiaryED".
Definition beneficiary_ecdsa : pair := keyring "ecdsa" "//BeneficiaryEC".

Definition beneficiaries_map : jsv :=
  JMap ((JObj [("Ethereum", JStr beneficiary_eth)], JStr CLAIM_AMOUNT) ::
        ((λ p, (JObj [("Substrate", JStr (address p))], JStr CLAIM_AMOUNT)) <$>
           [beneficiary_sr; beneficiary_polkadot_js; beneficiary_ed; beneficiary_ecdsa])).

(** [claim({Scheme: publicKey}, {Scheme: signature})] *)
Definition claim_with (scheme : string) (p : pair) (signature : jsv) : request :=
  ZkvLib.claim (JObj [(scheme, publicKey p)]) (JObj [(scheme, signature)]).

(** A claim and the check of the balance; [balance != expected] compares the
    decimal string of the balance.  [None] when the script goes on. *)
Definition claim_and_check (q : request) (who expected : string) : io S (option ReturnCode) :=
  events ← submit q;
  ok ← received (AData events);
  if negb ok then mret (Some ErrClaim)
  else
    balance_beneficiary ← ask (AccountFree who);
    if negb (bool_decide (pretty balance_beneficiary = expected)) then mret (Some ErrClaimedAmount)
    else mret None.

(** The claims of the scenario, in order: the request, the account looked at and
    the balance expected. *)
Definition claims : list (request * string * string) :=
  [(claim_with "Sr25519" beneficiary_sr (sign beneficiary_sr message),
    address beneficiary_sr, CLAIM_AMOUNT);
   (claim_with "Sr25519" beneficiary_polkadot_js (JStr polkadot_js_signature),
    address beneficiary_polkadot_js, CLAIM_AMOUNT);
   (claim_with "Ed25519" beneficiary_ed (sign beneficiary_ed message),
    address beneficiary_ed, CLAIM_AMOUNT);
   (claim_with "Ecdsa" beneficiary_ecdsa (sign beneficiary_ecdsa message),
    address beneficiary_ecdsa, CLAIM_AMOUNT);
   (claimEthereum (JStr beneficiary_eth) (JStr eth_signature) (JStr (address beneficiary_sr)),
    address beneficiary_sr, "2000000000000000000")].

Fixpoint check_claims (l : list (request * string * string)) : io S ReturnCode :=
  match l with
  | [] => mret Ok
  | (q, who, expected) :: l =>
      r ← claim_and_check q who expected;
      match r with
      | Some c => mret c
      | None => check_claims l
      end
  end.

Definition run (nodesByName : gmap string string) (nodeName : string) : io S Z :=
  _ ← zkv_init nodesByName nodeName;
  palletAddressOption ← ask PalletAccountIdQ;
  palletAddress ← unwrap_option palletAddressOption;
  account_balance ← ask (AccountFree palletAddress);
  if num_leb (bn_number account_balance) (of_Z 0) then mret (code ErrInitClaim)
  else
    events ← sudoInitClaim ALICE beneficiaries_map (JStr INITIAL_BALANCE) (JStr message);
    ok ← received (AData events);
    if negb ok then mret (code ErrInitClaim)
    else
      _ ← ask BeneficiaryKeys;
      c ← check_claims claims;
      mret (code c).
End script.
End ClaimScenario.

(** ** Lemmas on the pallet *)

Section begin.
Context {L : Type} `{!Currency string L, !CurrencyLaws string L} (T : Config).

Lemma add_each_frame available b : ∀ required (s : state (L:=L)) r s',
  add_each available required b s = ROk r s' → Events s' = Events s ∧ ClaimId s' = ClaimId s.
Proof.
  induction b as [|[k v] b IH]; intros required s r s' Hr; [by injection Hr as _ <-|].
  revert Hr. cbn [add_each]. unfold gets, mbind at 1, M_bind at 1.
  case_bool_decide; [done|]. destruct (v =? 0); [done|]. destruct (_ <? _); [done|].
  unfold modify, mbind, M_bind. intros Hr. apply IH in Hr. exact Hr.
Qed.

Lemma pot_frame (s : state (L:=L)) p s' :
  pot T s = ROk p s' → Events s' = Events s ∧ ClaimId s' = ClaimId s.
Proof.
  unfold pot, account_id, gets, modify, mbind, M_bind, mret, M_ret.
  destruct (PalletAccountId s); intros Hr; by injection Hr as _ <-.
Qed.

(** A claim that begins is announced and has the message given. *)
Lemma begin_claim_announced b m (s s' : state (L:=L)) :
  begin_claim T Root b m s = ROk tt s' →
  ∃ id, ClaimId s' = Some (id, m) ∧ Events s' = Events s ++ [ClaimStarted id m].
Proof.
  unfold begin_claim, ensure_manager, check_claim_status, gets, mbind at 1, M_bind at 1, mret at 1, M_ret at 1.
  unfold mbind at 1, M_bind at 1. destruct (0 <? size _)%nat; [done|]. case_bool_decide; [done|].
  unfold mbind at 1, M_bind at 1. unfold mbind at 1, M_bind at 1.
  destruct (ClaimActive s); [done|]. unfold mret at 1, M_ret at 1, modify at 1.
  unfold mbind at 1, M_bind at 1. unfold mbind at 1, M_bind at 1.
  set (add := if 0 <? _ then _ else _). set (s1 := set_ClaimActive true s).
  assert (Hadd : ∀ s2, add s1 = ROk tt s2 → Events s2 = Events s ∧ ClaimId s2 = ClaimId s).
  { intros s2. unfold add. destruct (0 <? _); [|by intros [= <-]].
    unfold check_max_op_beneficiaries, do_add_beneficiaries, ensure. unfold mbind at 1, M_bind at 1.
    destruct (_ <=? _); [|done]. unfold mret, M_ret. unfold mbind at 1, M_bind at 1.
    destruct (pot T s1) as [p s3| |] eqn:Ep; [|done..]. apply pot_frame in Ep as [E1 E2].
    unfold gets, modify, mbind, M_bind. destruct (add_each _ _ _ s3) as [r s4| |] eqn:Ea; [|done..].
    apply add_each_frame in Ea as [F1 F2]. intros [= <-]. simpl. by rewrite F1, F2, E1, E2. }
  unfold modify. fold s1. destruct (add s1) as [[] s2| |] eqn:Ea; [|done..]. destruct (Hadd s2 eq_refl) as [H1 H2].
  unfold deposit_event, modify, mbind, M_bind. intros [= <-]. simpl. rewrite H1. by eexists.
Qed.
End begin.

(** ** The interface between the node and the pallet *)

Import ClaimScenario.

Section pallet.
Context {S : Type} `{!Node S} {L : Type} `{!Currency string L, !CurrencyLaws string L} (T : Config).
(** The account of an address and back, and the API's encodings of arguments. *)
Context (account_of encode : string → string) (decode_map : jsv → option batch)
        (decode_signer decode_signature : jsv → string) (decode_eth : string → string).
Context (store : S → state (L:=L)) (free : L → string → Z).

(** Only the payer's balance differs. *)
Definition charged (payer : string) (s s' : state (L:=L)) : Prop :=
  ∃ l, s' = set_Balances l s ∧ (ledger_wf (Balances s) → ledger_wf l) ∧
    ∀ a, a ≠ payer → free l a = free (Balances s) a ∧ reducible l a = reducible (Balances s) a.

(** The records of a block tell of a success, and of the pallet if it deposited an
    event. *)
Definition reports (s s' : state (L:=L)) (records : list event_record) : Prop :=
  existsb is_extrinsic_success records = true ∧
  (Events s' ≠ Events s → existsb (in_section "tokenClaim") records = true).

(** An unsigned call is included when it is valid and its dispatch succeeds. *)
Definition executes_unsigned (q : request) (c : Call) : Prop :=
  ∀ s s1 tag, validate_unsigned T c (store s) = Some (inr tag) →
    dispatch (run_call T NoOrigin c) (store s) = (s1, Done) →
    ∃ block records s', included_in q s block records s' ∧ store s' = s1 ∧
      reports (store s) s1 records.

Record runs_pallet : Prop := {
  answers_account s : node_query PalletAccountIdQ s = (Ret (encode <$> PalletAccountId (store s)), s);
  answers_free a s : node_query (AccountFree a) s = (Ret (free (Balances (store s)) (account_of a)), s);
  answers_keys s : ∃ keys, node_query BeneficiaryKeys s = (Ret keys, s);
  account_encode a : account_of (encode a) = a;
  executes_begin b batch msg s s1 : decode_map b = Some batch →
    dispatch (run_call T Root (Call_begin_claim batch msg)) (store s) = (s1, Done) →
    ∃ block records s', included_in (begin_claim_request ALICE b (JStr msg)) s block records s' ∧
      charged (account_of ALICE) s1 (store s') ∧ reports (store s) s1 records;
  executes_claim k sg :
    executes_unsigned (ZkvLib.claim k sg) (Call_claim (decode_signer k) (decode_signature sg));
  executes_claim_ethereum a sg d :
    executes_unsigned (ZkvLib.claimEthereum (JStr a) (JStr sg) (JStr d))
      (Call_claim_ethereum (decode_eth a) (decode_signature (JStr sg)) (account_of d));
  transfer_moves l a b x l' : transfer l a b x = Some l' → a ≠ b →
    ∀ c, c ≠ a → free l' c = free l c + at_key b x c;
  transfer_accepts l a b x : ledger_wf l → x ≤ reducible l a → minimum_balance ≤ x →
    free l b + x ≤ 2 ^ 100 → is_Some (transfer l a b x)
}.

Hypothesis HT : config_ok T.
Hypothesis HN : runs_pallet.
Abbreviation amount := (10 ^ 18).
Hypothesis Hmin : minimum_balance ≤ amount.

(** During the claims: what is left to claim and the accounts' balances. *)
Record claiming (accounts : list string) (bs : gmap Beneficiary Z) (f : string → Z) (s : S) : Prop := {
  cl_inv : inv T (store s);
  cl_active : ClaimActive (store s) = true;
  cl_id : ∃ id, ClaimId (store s) = Some (id, message);
  cl_left : Beneficiaries (store s) = bs;
  cl_free a : a ∈ accounts → free (Balances (store s)) a = f a
}.

(** A request that claims for [b] to the account [dest]. *)
Definition claims_for (q : request) (b : Beneficiary) (dest : string) : Prop :=
  r_until q = UntilInBlock ∧ r_filter q = Some (in_section "tokenClaim") ∧
  ∃ c sg, executes_unsigned q c ∧ verify T sg message b = true ∧
    (∀ (s : state (L:=L)) id, check_claimant T b sg s = ROk tt s → ClaimId s = Some id →
       ∃ tag, validate_unsigned T c s = Some (inr tag)) ∧
    (∀ s : state (L:=L), run_call T NoOrigin c s =
       (_ ← check_claimant T b sg; process_claim T b ≫= do_claim T dest) s).

Lemma check_claimant_run b sg (s : state (L:=L)) (a : Z) id :
  ClaimActive s = true → Beneficiaries s !! b = Some a → ClaimId s = Some id → verify T sg id.2 b = true →
  check_claimant T b sg s = ROk tt s.
Proof.
  intros Ha Hb Hid Hv. unfold check_claimant, check_claim_status, gets, mbind, M_bind, ensure, mret, M_ret.
  rewrite Ha, bool_decide_eq_true_2 by (rewrite Hb; eauto). rewrite Hid. cbn [unwrap].
  unfold mret, M_ret. by rewrite Hv.
Qed.

(** One claim and its check. *)
Lemma claim_and_check_run accounts bs f q b dest who expected s :
  claims_for q b dest → account_of who = dest → claiming accounts bs f s →
  bs !! b = Some amount → dest ∈ accounts → PalletId T ∉ accounts →
  0 ≤ f dest ≤ 10 ^ 20 → pretty (f dest + amount) = expected →
  ∃ s', claim_and_check q who expected s = (Ret None, s') ∧
    claiming accounts (delete b bs) (λ a, f a + at_key dest amount a) s'.
Proof.
  intros (Hu & Hflt & c & sg & Hex & Hv & Hval & Hrun) Hwho [Hi Ha [id Hid] Hl Hf] Hb Hd Hp Hr He.
  assert (Hb' : Beneficiaries (store s) !! b = Some amount) by by rewrite Hl.
  pose proof (check_claimant_run b sg (store s) amount (id, message) Ha Hb' Hid Hv) as Hck.
  destruct (Hval _ _ Hck Hid) as [tag Htag].
  destruct (pay_run T (store s) b dest amount Hi Ha Hb') as [(s1 & Hpay & Hpays)|[Hnone _]].
  2:{ exfalso. destruct (transfer_accepts HN (Balances (store s)) (PalletId T) dest amount) as [l Hl'].
      - apply (inv_ledger _ _ Hi).
      - etransitivity; [|by apply (inv_funded _ _ Hi)]. by apply (sum_lookup_le _ _ _ (inv_pos _ _ Hi) Hb').
      - done.
      - rewrite Hf by done. lia.
      - by rewrite Hnone in Hl'. }
  destruct (Hex s s1 tag Htag) as (block & records & s' & Hinc & Hs' & Hrep1 & Hrep2).
  { unfold dispatch. rewrite Hrun, (bind_ROk _ _ _ _ _ Hck). by rewrite Hpay. }
  destruct Hpays as (a & Ha' & Htr & E1 & E2 & E3 & E4 & E5 & E6). rewrite Hb' in Ha'. injection Ha' as <-.
  assert (Hne : PalletId T ≠ dest) by (intros <-; done).
  pose proof (transfer_moves HN _ _ _ _ _ Htr Hne) as Hmv.
  assert (Hin : existsb (in_section "tokenClaim") records = true).
  { apply Hrep2. rewrite E5. intros E. apply (f_equal length) in E. rewrite length_app in E. simpl in E. lia. }
  assert (Hfree : ∀ a, a ∈ accounts → free (Balances s1) a = f a + at_key dest amount a).
  { intros a Ha'. rewrite Hmv, Hf; [done..|]. intros ->. done. }
  exists s'. split.
  - destruct (submit_received q _ s _ _ _ Hu Hflt Hinc Hrep1 Hin) as (es & Hsub & Hes).
    unfold claim_and_check. rewrite (bind_Ret _ _ _ _ _ Hsub), (bind_Ret _ _ _ true s') by by apply received_some.
    cbn [negb]. unfold ask. rewrite (bind_Ret _ _ _ _ _ (answers_free HN who s')), Hs', Hwho.
    rewrite Hfree, at_key_eq, He by done. by rewrite bool_decide_eq_true_2.
  - assert (Hpays : pays T (store s) s1 b dest) by (exists amount; by split_and!).
    split; rewrite ?Hs'; [by eapply pays_inv|by rewrite E3|exists id; by rewrite E4|by rewrite E1, Hl|done].
Qed.

(** A list of claims; the balances expected follow from those before. *)
Fixpoint expects (f : string → Z) (l : list (request * string * string * Beneficiary)) : Prop :=
  match l with
  | [] => True
  | (q, who, expected, b) :: l =>
      claims_for q b (account_of who) ∧
      0 ≤ f (account_of who) ≤ 10 ^ 20 ∧ pretty (f (account_of who) + amount) = expected ∧
      expects (λ a, f a + at_key (account_of who) amount a) l
  end.

Lemma check_claims_run accounts l : ∀ f s,
  PalletId T ∉ accounts → NoDup l.*2 → Forall (λ x, account_of x.1.1.2 ∈ accounts) l → expects f l →
  claiming accounts (list_to_map ((λ b, (b, amount)) <$> l.*2)) f s →
  ∃ s' f', check_claims l.*1 s = (Ret Ok, s') ∧ claiming accounts ∅ f' s'.
Proof.
  induction l as [|[[[q who] expected] b] l IH]; intros f s Hp Hnd Hacc Hex Hc; [by eauto|].
  destruct Hex as (Hq & Hr & He & Hex). apply list.Forall_cons in Hacc as [Hw Hacc]. cbn in Hw.
  rewrite fmap_cons in Hnd. apply list.NoDup_cons in Hnd as [Hb Hnd]. cbn in Hb.
  rewrite !fmap_cons in Hc. cbn [list_to_map snd foldr fst uncurry] in Hc.
  assert (Hnone : (list_to_map ((λ b, (b, amount)) <$> l.*2) : gmap Beneficiary Z) !! b = None).
  { apply not_elem_of_list_to_map_1. by rewrite fst_pair_fmap. }
  destruct (claim_and_check_run _ _ _ _ _ _ who expected s Hq eq_refl Hc) as (s1 & H1 & Hc1); try done.
  { by rewrite lookup_insert_eq. }
  rewrite delete_insert_id in Hc1 by done.
  destruct (IH _ s1 Hp Hnd Hacc Hex Hc1) as (s2 & f' & H2 & Hc2).
  exists s2, f'. split; [|done]. rewrite fmap_cons. cbn [check_claims fst]. by rewrite (bind_Ret _ _ _ _ _ H1).
Qed.
(** The requests of the scenario claim for its beneficiaries. *)
Lemma claim_with_claims scheme p sg :
  into_account T (decode_signer (JObj [(scheme, publicKey p)])) = account_of (address p) →
  verify T (SubstrateSig (decode_signature (JObj [(scheme, sg)]))) message
    (Substrate (account_of (address p))) = true →
  claims_for (claim_with scheme p sg) (Substrate (account_of (address p))) (account_of (address p)).
Proof.
  intros Hacc Hv. split_and!; [done..|].
  eexists _, _. split; [apply (executes_claim HN)|]. split; [exact Hv|]. rewrite <- Hacc. split; [|done].
  intros s id Hc Hid. simpl. rewrite Hc, Hid. by eexists.
Qed.

Lemma claimEthereum_claims a sg d :
  verify T (EthereumSig (decode_signature (JStr sg)) (account_of d)) message (Ethereum (decode_eth a)) = true →
  claims_for (claimEthereum (JStr a) (JStr sg) (JStr d)) (Ethereum (decode_eth a)) (account_of d).
Proof.
  intros Hv. split_and!; [done..|].
  eexists _, _. split; [apply (executes_claim_ethereum HN)|]. split; [exact Hv|]. split; [|done].
  intros s id Hc Hid. simpl. rewrite Hc, Hid. by eexists.
Qed.

(** The claim has begun. *)
Lemma begin_run accounts b batch f s :
  decode_map b = Some batch → inv T (store s) → ClaimActive (store s) = false →
  Beneficiaries (store s) = ∅ → Z.of_nat (length batch) ≤ MaxOpBeneficiaries T →
  NoDup batch.*1 → Forall (λ p, 0 < p.2) batch → batch_total batch ≤ reducible (Balances (store s)) (PalletId T) →
  batch_total batch < u128_max →
  account_of ALICE ≠ PalletId T → account_of ALICE ∉ accounts →
  (∀ a, a ∈ accounts → free (Balances (store s)) a = f a) →
  ∃ block es s', submit (begin_claim_request ALICE b (JStr message)) s = (Ret (ZSuccess block es), s') ∧
    es ≠ [] ∧ claiming accounts (list_to_map batch) f s'.
Proof.
  intros Hdec Hi Ha Hemp Hlen Hnd Hpos Hle Hmax Hal Hal' Hf.
  assert (Had : addable ∅ batch).
  { split_and!; [done..|]. apply list.Forall_forall. intros. apply lookup_empty. }
  destruct (begin_claim_run T batch message (store s) Hi Ha Hemp ltac:(done) Hlen Had Hle)
    as (s1 & Hrun & (A1 & A2 & A3 & A4 & A5) & _).
  destruct (begin_claim_announced T _ _ _ _ Hrun) as (id & Hid & Hev).
  assert (Hi1 : inv T s1).
  { assert (Hok : batch_ok batch).
    { by apply (addable_batch_ok ∅ _ (batch_total batch)). }
    pose proof (run_call_inv T HT Root (Call_begin_claim batch message) (store s) Hi Hok) as He.
    unfold ends in He. simpl in He. by rewrite Hrun in He. }
  destruct (executes_begin HN b batch message s s1 Hdec) as (block & records & s' & Hinc & Hch & Hr1 & Hr2).
  { unfold dispatch. simpl. by rewrite Hrun. }
  destruct Hch as (l & Hs' & Hwf & Hl).
  assert (Hin : existsb (in_section "tokenClaim") records = true).
  { apply Hr2. rewrite Hev. intros E. apply (f_equal length) in E. rewrite length_app in E. simpl in E. lia. }
  destruct (submit_received (begin_claim_request ALICE b (JStr message)) _ s _ _ _ eq_refl eq_refl Hinc Hr1 Hin)
    as (es & Hsub & Hes).
  exists (Some block), es, s'. split_and!; [done..|].
  destruct Hi1. split; rewrite ?Hs'; try done.
  - split; try done; simpl; [by apply Hwf|]. intros HA. rewrite (proj2 (Hl (PalletId T) ltac:(done))). by apply inv_funded.
  - by exists id.
  - simpl. by rewrite A1, Hemp, (right_id_L ∅ (∪)).
  - intros a Hin'. simpl. rewrite (proj1 (Hl a ltac:(by intros ->))), A3. by apply Hf.
Qed.
(** The script, from its connection to the last claim. *)
Lemma run_to_end keyring nodes name ws s s0 s1 s2 block es keys r :
  nodes !! name = Some ws → PalletAccountId (store s) = Some (PalletId T) →
  0 < free (Balances (store s)) (PalletId T) →
  submit (fund_claim ALICE (encode (PalletId T)) (JStr INITIAL_BALANCE)) s = (Ret r, s0) →
  submit (begin_claim_request ALICE (beneficiaries_map keyring) (JStr message)) s0 =
    (Ret (ZSuccess block es), s1) → es ≠ [] →
  node_query BeneficiaryKeys s1 = (Ret keys, s1) → check_claims (claims keyring) s1 = (Ret Ok, s2) →
  run keyring nodes name s = (Ret 1, s2).
Proof.
  intros Hn Hpid Hpot Hfund Hsub Hes Hkq Hck. unfold run, zkv_init, ask.
  rewrite (bind_Ret _ _ _ ws s) by (unfold lift, init_api; by rewrite Hn).
  rewrite (bind_Ret _ _ _ _ _ (answers_account HN s)), Hpid.
  rewrite (bind_Ret _ _ _ (encode (PalletId T)) s) by done.
  rewrite (bind_Ret _ _ _ _ _ (answers_free HN _ s)), (account_encode HN). unfold bn_number.
  rewrite ToNumber_pretty, num_leb_small, (proj2 (Z.leb_gt _ _)) by lia.
  rewrite (bind_Ret _ _ _ (ZSuccess block es) s1).
  - rewrite (bind_Ret _ _ _ true s1) by by apply received_some. cbn [negb].
    rewrite (bind_Ret _ _ _ _ _ Hkq). by rewrite (bind_Ret _ _ _ _ _ Hck).
  - unfold sudoInitClaim, ask. rewrite (bind_Ret _ _ _ _ _ (answers_account HN s)), Hpid.
    rewrite (bind_Ret _ _ _ (encode (PalletId T)) s) by done. by rewrite (bind_Ret _ _ _ _ _ Hfund).
Qed.
End pallet.

(** ** Properties *)

(** What the scenario relies on: the keys belong to the accounts of the addresses
    and the signatures are valid. *)
Record keys_ok (T : Config) (account_of : string → string) (decode_signer decode_signature : jsv → string)
    (decode_eth : string → string) (keyring : string → string → pair) : Prop := {
  signer_of scheme p : (scheme, p) ∈ [("Sr25519", beneficiary_sr keyring);
      ("Sr25519", beneficiary_polkadot_js keyring); ("Ed25519", beneficiary_ed keyring);
      ("Ecdsa", beneficiary_ecdsa keyring)] →
    into_account T (decode_signer (JObj [(scheme, publicKey p)])) = account_of (address p);
  signed_by scheme p sg : (scheme, p, sg) ∈ [
      ("Sr25519", beneficiary_sr keyring, sign (beneficiary_sr keyring) message);
      ("Sr25519", beneficiary_polkadot_js keyring, JStr polkadot_js_signature);
      ("Ed25519", beneficiary_ed keyring, sign (beneficiary_ed keyring) message);
      ("Ecdsa", beneficiary_ecdsa keyring, sign (beneficiary_ecdsa keyring) message)] →
    verify T (SubstrateSig (decode_signature (JObj [(scheme, sg)]))) message
      (Substrate (account_of (address p))) = true;
  signed_eth : verify T (EthereumSig (decode_signature (JStr eth_signature))
      (account_of (address (beneficiary_sr keyring)))) message (Ethereum (decode_eth beneficiary_eth)) = true
}.

Definition beneficiary_accounts (account_of : string → string) (keyring : string → string → pair) : list string :=
  (λ p, account_of (address p)) <$>
    [beneficiary_sr keyring; beneficiary_polkadot_js keyring; beneficiary_ed keyring; beneficiary_ecdsa keyring].

(** The scenario's claims with the beneficiary of each. *)
Definition claim_items (account_of decode_eth : string → string) (keyring : string → string → pair)
    : list (request * string * string * Beneficiary) :=
  zip (claims keyring)
    ((Substrate <$> beneficiary_accounts account_of keyring) ++ [Ethereum (decode_eth beneficiary_eth)]).

Lemma distinct4 (a b c d : string) :
  NoDup [a; b; c; d] → a ≠ b ∧ a ≠ c ∧ a ≠ d ∧ b ≠ c ∧ b ≠ d ∧ c ≠ d.
Proof. rewrite !list.NoDup_cons, !elem_of_cons. tauto. Qed.

Lemma claim_items_expected {S} `{!Node S} {L} `{!Currency string L, !CurrencyLaws string L} T
    account_of encode decode_map decode_signer decode_signature decode_eth (store : S → state (L:=L)) free keyring :
  runs_pallet T account_of encode decode_map decode_signer decode_signature decode_eth store free →
  keys_ok T account_of decode_signer decode_signature decode_eth keyring →
  NoDup (beneficiary_accounts account_of keyring) →
  expects T account_of store (λ _, 0) (claim_items account_of decode_eth keyring).
Proof.
  intros HN [Hsig Hver Heth] (N1 & N2 & N3 & N4 & N5 & N6)%distinct4.
  cbn [claim_items expects claims beneficiary_accounts zip zip_with app fmap list_fmap].
  split_and!; try (rewrite ?at_key_eq, ?at_key_ne by done; vm_compute; (reflexivity || discriminate)).
  1-4: eapply claim_with_claims; [exact HN|apply Hsig|apply Hver]; rewrite !elem_of_cons; tauto.
  by eapply claimEthereum_claims.
Qed.

(** C34: the token claim scenario passes on a node that runs the pallet: when the pot
    exists, no claim is active and none is left over, the transfer to the pot
    goes through and gives it enough for the five claims, and the four accounts
    are distinct and empty, [run] returns [Ok] and nothing is left to claim. *)
Theorem claim_scenario_passes {S} `{!Node S} {L} `{!Currency string L, !CurrencyLaws string L} T
    account_of encode decode_map decode_signer decode_signature decode_eth store free keyring
    nodes name ws batch block records (l : L) s s0 :
  let accounts := beneficiary_accounts account_of keyring in
  runs_pallet T account_of encode decode_map decode_signer decode_signature decode_eth store free →
  keys_ok T account_of decode_signer decode_signature decode_eth keyring →
  config_ok T → minimum_balance (Acc:=string) (L:=L) ≤ 10 ^ 18 → 5 ≤ MaxOpBeneficiaries T →
  nodes !! name = Some ws → inv T (store s) → ClaimActive (store s) = false → Beneficiaries (store s) = ∅ →
  PalletAccountId (store s) = Some (PalletId T) → 0 < free (Balances (store s)) (PalletId T) →
  included_in (fund_claim ALICE (encode (PalletId T)) (JStr INITIAL_BALANCE)) s block records s0 →
  existsb is_extrinsic_success records = true →
  store s0 = set_Balances l (store s) → ledger_wf l → 5 * 10 ^ 18 ≤ reducible l (PalletId T) →
  (∀ a, a ∈ accounts → free l a = 0) → NoDup (account_of ALICE :: PalletId T :: accounts) →
  decode_map (beneficiaries_map keyring) = Some batch →
  batch ≡ₚ (λ b, (b, 10 ^ 18)) <$> (Ethereum (decode_eth beneficiary_eth) :: (Substrate <$> accounts)) →
  ∃ s', run keyring nodes name s = (Ret 1, s') ∧ Beneficiaries (store s') = ∅ ∧ TotalClaimable (store s') = 0.
Proof.
  intros accounts HN HK HT Hmin Hop Hn Hi Ha Hemp Hpid Hpot Hinc Hrec Hs0 Hwf Hred Hzero Hnd Hdec Hperm.
  rewrite !list.NoDup_cons in Hnd. destruct Hnd as (Hal & Hp & Hnd). rewrite elem_of_cons in Hal.
  set (items := claim_items account_of decode_eth keyring).
  assert (Hitems : items.*2 = (Substrate <$> accounts) ++ [Ethereum (decode_eth beneficiary_eth)]) by done.
  assert (Hbs : batch ≡ₚ (λ b, (b, 10 ^ 18)) <$> items.*2).
  { rewrite Hperm. apply fmap_Permutation. rewrite Hitems. apply Permutation_cons_append. }
  assert (Hnd2 : NoDup items.*2).
  { rewrite Hitems. apply list.NoDup_app. split_and!; [by apply NoDup_fmap_2; [intros ?? [=]|]|intros x (a & -> & _)%list_elem_of_fmap; by rewrite list_elem_of_singleton
      |apply NoDup_singleton]. }
  assert (Hkeys : NoDup batch.*1) by by rewrite Hbs, fst_pair_fmap.
  assert (Htot : batch_total batch = 5 * 10 ^ 18) by by rewrite (batch_total_perm _ _ Hbs).
  assert (Hi0 : inv T (store s0)).
  { rewrite Hs0. destruct Hi. split; simpl; try done. by rewrite Ha. }
  destruct (begin_run T account_of encode decode_map decode_signer decode_signature decode_eth store free
              HT HN accounts (beneficiaries_map keyring) batch (λ _, 0) s0)
    as (block' & es & s1 & Hsub & Hes & Hcl); rewrite ?Hs0; simpl; try done.
  { by rewrite <- Hs0. }
  { by rewrite Hbs. }
  { rewrite Hbs. apply Forall_fmap, list.Forall_forall. intros. vm_compute. done. }
  { by rewrite Htot. }
  { rewrite Htot. vm_compute. done. }
  { tauto. }
  { tauto. }
  assert (Hmap : (list_to_map batch : gmap Beneficiary Z) = list_to_map ((λ b, (b, 10 ^ 18)) <$> items.*2))
    by by apply list_to_map_proper.
  rewrite Hmap in Hcl. destruct (answers_keys _ _ _ _ _ _ _ _ _ HN s1) as [keys Hkq].
  destruct (check_claims_run T account_of encode decode_map decode_signer decode_signature decode_eth store free
              HN Hmin accounts items (λ _, 0) s1) as (s2 & f' & Hck & Hcl2); try done.
  { repeat constructor; rewrite !elem_of_cons; tauto. }
  { by eapply claim_items_expected. }
  exists s2. split.
  - eapply (run_to_end T account_of encode decode_map decode_signer decode_signature decode_eth store free
             HN keyring nodes name ws s s0 s1 s2 block' es keys); try done.
    exact (submit_included (fund_claim ALICE (encode (PalletId T)) (JStr INITIAL_BALANCE)) s _ _ _ eq_refl Hinc Hrec).
  - destruct Hcl2 as [Hi2 Ha2 _ Hl2 _]. split; [done|].
    pose proof (inv_total _ _ Hi2) as Ht. by rewrite Ha2, Hl2, sum_empty in Ht.
Qed.

(** ** A node that runs the pallet on the ledger of [Frame] *)

Module ClaimToy.
Import Ledger.
Abbreviation chain := (state (L:=gmap string Z)).

Definition keyring (type uri : string) : pair :=
  Pair (type +:+ uri) (JStr (type +:+ uri)) (λ m, JStr (type +:+ uri +:+ ":" +:+ m)).

Definition config : Config := {|
  PalletId := "pot"; UnclaimedDestination := "treasury"; MaxBeneficiaries := 100; MaxOpBeneficiaries := 10;
  EthMsgSeparator := "@"; AccountIdBytesToSign := λ a, a;
  sig_verify := λ sg msg acc, bool_decide (sg = acc +:+ ":" +:+ msg) || bool_decide (sg = polkadot_js_signature);
  keccak_256 := λ m, m;
  secp256k1_recover := λ _ sg, if decide (sg = eth_signature) then Some beneficiary_eth else None;
  into_account := λ k, k
|}.

Definition decode_entry (e : jsv * jsv) : option (Beneficiary * Z) :=
  match e with
  | (JObj [("Ethereum", JStr a)], JStr x) => Some (Ethereum a, dval x)
  | (JObj [("Substrate", JStr a)], JStr x) => Some (Substrate a, dval x)
  | _ => None
  end.
Definition decode_map (v : jsv) : option batch :=
  match v with JMap entries => mapM decode_entry entries | _ => None end.
Definition decode_str (v : jsv) : string :=
  match v with JObj [(_, JStr x)] => x | JStr x => x | _ => "" end.

(** The answer to a dispatched call. *)
Definition settle (r : chain * dispatch_result DispatchError) : list try * chain :=
  let records := match r.2 with
                 | Done => [EventRecord "tokenClaim" "Event" [] 1; EventRecord "system" "ExtrinsicSuccess" [] 1]
                 | _ => [EventRecord "system" "ExtrinsicFailed" [] 1]
                 end in
  ([Try [Notified (ExtUpdate IsReady []); Notified (ExtUpdate (IsInBlock "0xb") records)] []], r.1).

Definition execute (e : ext) (s : chain) : list try * chain :=
  match e with
  | ZkvLib.Call "balances" "transferAllowDeath" [JStr d; JStr x] =>
      settle (set_Balances (<[d := free (Balances s) d + dval x]> (Balances s)) s, Done)
  | SudoCall (ZkvLib.Call "tokenClaim" "beginClaim" [b; JStr m]) =>
      match decode_map b with
      | Some b => settle (dispatch (run_call config Root (Call_begin_claim b m)) s)
      | None => ([], s)
      end
  | ZkvLib.Call "tokenClaim" "claim" [k; sg] =>
      settle (dispatch (run_call config NoOrigin (Call_claim (decode_str k) (decode_str sg))) s)
  | ZkvLib.Call "tokenClaim" "claimEthereum" [JStr a; JStr sg; JStr d] =>
      settle (dispatch (run_call config NoOrigin (Call_claim_ethereum a sg d)) s)
  | _ => ([], s)
  end.

#[export] Instance claim_node : Node chain := {
  node_send _ _ s := ([], s);
  node_tries r s := execute (r_ext r) s;
  node_query A q s :=
    match q in query A return js A * chain with
    | PalletAccountIdQ => (Ret (PalletAccountId s), s)
    | AccountFree a => (Ret (free (Balances s) a), s)
    | BeneficiaryKeys => (Ret [], s)
    | _ => (Throw TypeError, s)
    end
}.

Lemma settle_included q (s : chain) r s1 :
  node_tries q s = settle r → r = (s1, Done) →
  ∃ block records s', included_in q s block records s' ∧ s' = s1 ∧ reports s s1 records.
Proof.
  intros E ->.
  eexists "0xb", [EventRecord "tokenClaim" "Event" [] 1; EventRecord "system" "ExtrinsicSuccess" [] 1], s1.
  split; [|by split]. exists [Notified (ExtUpdate IsReady [])], [], []. split; [|exact E]. constructor; [by left|constructor].
Qed.

Lemma claim_node_runs :
  runs_pallet config (λ a, a) (λ a, a) decode_map decode_str decode_str (λ a, a) (λ s : chain, s) free.
Proof.
  split; try done.
  - intros s. simpl. by destruct (PalletAccountId s).
  - intros s. by exists [].
  - intros b batch msg s s1 Hdec Hd.
    destruct (settle_included (begin_claim_request ALICE b (JStr msg)) s
                (dispatch (run_call config Root (Call_begin_claim batch msg)) s) s1)
      as (block & records & s' & Hi & -> & Hr); [simpl; by rewrite Hdec|done|].
    exists block, records, s1. split_and!; [done| |done]. exists (Balances s1).
    by destruct s1.
  - intros k sg s s1 tag _ Hd. by eapply settle_included.
  - intros a sg d s s1 tag _ Hd. by eapply settle_included.
  - intros l a b x l' Ht Hab c Hc. apply ledger_transfer_inv in Ht as (_ & [[[?| ->] ->]|(_ & _ & _ & ->)]); [done| |].
    + unfold at_key. case_decide; lia.
    + rewrite !free_insert. unfold at_key. destruct (decide (b = c)) as [->|]; [by rewrite decide_True|].
      rewrite !decide_False by done. lia.
  - intros l a b x Hwf Hx Hmin Hb. pose proof (free_range l b Hwf) as Hfb.
    cbn in Hx, Hmin |- *. unfold ledger_transfer, ledger_can_deposit. rewrite (proj2 (Z.leb_le _ _) Hx).
    unfold existential_deposit in *.
    rewrite (proj2 (Z.leb_le (free l b + x) u128_max)), (proj2 (Z.leb_le (10 ^ 16) (free l b + x)))
      by (unfold u128_max; lia).
    rewrite orb_true_r. cbn [andb]. repeat case_decide; repeat case_match; eauto.
Qed.

Definition genesis : chain := State ∅ 0 false None (Some "pot") [] {["pot" := 10 ^ 16]}.
Definition funded : chain := set_Balances {["pot" := 10 ^ 16 + 10 ^ 19]} genesis.
Definition the_batch : batch :=
  (λ b, (b, 10 ^ 18)) <$> (Ethereum beneficiary_eth :: (Substrate <$> beneficiary_accounts (λ a, a) keyring)).

Lemma toy_chain_inv : inv config genesis.
Proof.
  split; try done; [|by right]. apply map_Forall_singleton. vm_compute. split; discriminate.
Qed.

Lemma toy_keys : keys_ok config (λ a, a) decode_str decode_str (λ a, a) keyring.
Proof.
  split.
  - intros scheme p. rewrite !elem_of_cons. intros [[= -> ->]|[[= -> ->]|[[= -> ->]|[[= -> ->]|H]]]]; [done..|].
    by apply not_elem_of_nil in H.
  - intros scheme p sg. rewrite !elem_of_cons.
    intros [[= -> -> ->]|[[= -> -> ->]|[[= -> -> ->]|[[= -> -> ->]|H]]]]; [by vm_compute..|].
    by apply not_elem_of_nil in H.
  - by vm_compute.
Qed.
End ClaimToy.
Import (hints) ClaimToy Ledger.

Lemma claim_scenario_passes_witness :
  ∃ s', run ClaimToy.keyring Toy.network "alice" ClaimToy.genesis = (Ret 1, s') ∧
    Beneficiaries s' = ∅ ∧ TotalClaimable s' = 0.
Proof.
  apply (claim_scenario_passes ClaimToy.config (λ a, a) (λ a, a) ClaimToy.decode_map ClaimToy.decode_str
           ClaimToy.decode_str (λ a, a) (λ s, s) Ledger.free ClaimToy.keyring Toy.network "alice" "ws://alice"
           ClaimToy.the_batch "0xb"
           [EventRecord "tokenClaim" "Event" [] 1; EventRecord "system" "ExtrinsicSuccess" [] 1]
           {["pot" := 10 ^ 16 + 10 ^ 19]} ClaimToy.genesis ClaimToy.funded).
  - apply ClaimToy.claim_node_runs.
  - apply ClaimToy.toy_keys.
  - split; vm_compute; done.
  - vm_compute. discriminate.
  - vm_compute. discriminate.
  - vm_compute. reflexivity.
  - apply ClaimToy.toy_chain_inv.
  - reflexivity.
  - reflexivity.
  - reflexivity.
  - vm_compute. reflexivity.
  - exists [Notified (ExtUpdate IsReady [])], [], []. split; [constructor; [by left|constructor]|].
    vm_compute. reflexivity.
  - reflexivity.
  - reflexivity.
  - apply map_Forall_singleton. vm_compute. split; discriminate.
  - vm_compute. discriminate.
  - apply list.Forall_forall. repeat constructor.
  - apply (bool_decide_unpack _). vm_compute. exact Logic.I.
  - vm_compute. reflexivity.
  - reflexivity.
Defined.
