(* ===== verification/AggregateData.v ===== *)
(** * The aggregation pallet's data ([pallets/aggregate/src/data.rs])

    Statements waiting to be aggregated, aggregations, domains, the users and
    rules of a domain, and the size of a domain in storage. *)

From S2P Require Import Prelude Frame Holds.

Open Scope Z_scope.

Definition u32_max : Z := 2 ^ 32 - 1.
Definition u64_max : Z := 2 ^ 64 - 1.

Inductive HoldReason : Type :=
  | AggregationReason
  | DomainReason
  | DeliveryReason
  | AllowlistReason.

#[export] Instance HoldReason_eq_dec : EqDecision HoldReason.
Proof. solve_decision. Defined.
#[export] Instance HoldReason_countable : Countable HoldReason.
Proof.
  refine (inj_countable' (λ r, match r with AggregationReason => 0%nat | DomainReason => 1%nat
    | DeliveryReason => 2%nat | AllowlistReason => 3%nat end)
    (λ n, match n with 0%nat => AggregationReason | 1%nat => DomainReason
    | 2%nat => DeliveryReason | _ => AllowlistReason end) _).
  by intros [].
Defined.

(** Hashes ([H256]) are hex strings with their prefix. *)
Record Reserve : Type := { r_aggregate : Z; r_delivery : Z }.

Record StatementEntry : Type := { account : string; reserve : Reserve; statement : string }.

Record AggregationEntry : Type := {
  agg_id : Z;
  agg_size : Z;
  statements : list StatementEntry
}.

Inductive DomainState : Type := Ready | HoldState | Removable | Removed.
#[export] Instance DomainState_eq_dec : EqDecision DomainState.
Proof. solve_decision. Defined.

Inductive AggregateSecurityRules : Type :=
  | AggUntrusted
  | AggOnlyOwner
  | AggOnlyOwnerUncompleted.

Inductive ProofSecurityRules : Type :=
  | ProofUntrusted
  | ProofOnlyOwner
  | ProofOnlyAllowlisted.
#[export] Instance ProofSecurityRules_eq_dec : EqDecision ProofSecurityRules.
Proof. solve_decision. Defined.

Inductive Destination : Type := NoDestination.

Record Delivery : Type := { destination : Destination; fee : Z; owner_tip : Z }.

Record DeliveryParams : Type := { delivery_owner : string; data : Delivery }.

Definition set_fee (fee : Z) (p : DeliveryParams) : DeliveryParams :=
  {| delivery_owner := delivery_owner p;
     data := {| destination := destination (data p); fee := fee; owner_tip := owner_tip (data p) |} |}.
Definition set_owner_tip (tip : Z) (p : DeliveryParams) : DeliveryParams :=
  {| delivery_owner := delivery_owner p;
     data := {| destination := destination (data p); fee := fee (data p); owner_tip := tip |} |}.

(** [fee + owner_tip] at the width of a balance: an overflow panics when the
    build checks for it ([None]) and wraps around otherwise. *)
Definition total_fee (overflow_checks : bool) (d : Delivery) : option Z :=
  let x := fee d + owner_tip d in
  if x <=? u128_max then Some x
  else if overflow_checks then None else Some (x mod 2 ^ 128).

Inductive User : Type :=
  | Account (a : string)
  | Manager.
#[export] Instance User_eq_dec : EqDecision User.
Proof. solve_decision. Defined.

Definition user_account (u : User) : option string :=
  match u with Account a => Some a | Manager => None end.

(** ** Aggregations *)

Section entries.
Context (AggregationSize : Z).

(** [AggregationEntry::new] asserts that the size is within bounds. *)
Definition create (id size : Z) : option AggregationEntry :=
  if size <=? AggregationSize
  then Some {| agg_id := id; agg_size := size; statements := [] |} else None.

(** [None] when the next identifier overflows; the inner option is the
    assertion of [create]. *)
Definition create_next (self : AggregationEntry) (size : Z) : option (option AggregationEntry) :=
  if agg_id self + 1 <=? u64_max then Some (create (agg_id self + 1) size) else None.

Definition space_left (self : AggregationEntry) : Z :=
  Z.max 0 (agg_size self - Z.of_nat (length (statements self))).

Definition completed (self : AggregationEntry) : bool := space_left self =? 0.

Definition compute_receipt (merkle_root : list string → string) (self : AggregationEntry) : string :=
  merkle_root (statement <$> statements self).
End entries.

(** ** Domains *)

Section domain.
Context {TD TA : Type}.

Record CountableTicket : Type := { ticket : TA; count : Z }.

Record Domain : Type := MkDomain {
  dom_id : Z;
  owner : User;
  dom_state : DomainState;
  next : AggregationEntry;
  max_aggregation_size : Z;
  should_publish : gmap Z AggregationEntry;
  publish_queue_size : Z;
  ticket_domain : option TD;
  ticket_allowlist : option CountableTicket;
  aggregate_rules : AggregateSecurityRules;
  proof_rules : ProofSecurityRules;
  delivery : DeliveryParams
}.

Definition set_dom_state x d := MkDomain (dom_id d) (owner d) x (next d) (max_aggregation_size d)
  (should_publish d) (publish_queue_size d) (ticket_domain d) (ticket_allowlist d)
  (aggregate_rules d) (proof_rules d) (delivery d).
Definition set_next x d := MkDomain (dom_id d) (owner d) (dom_state d) x (max_aggregation_size d)
  (should_publish d) (publish_queue_size d) (ticket_domain d) (ticket_allowlist d)
  (aggregate_rules d) (proof_rules d) (delivery d).
Definition set_should_publish x d := MkDomain (dom_id d) (owner d) (dom_state d) (next d)
  (max_aggregation_size d) x (publish_queue_size d) (ticket_domain d) (ticket_allowlist d)
  (aggregate_rules d) (proof_rules d) (delivery d).
Definition set_ticket_allowlist x d := MkDomain (dom_id d) (owner d) (dom_state d) (next d)
  (max_aggregation_size d) (should_publish d) (publish_queue_size d) (ticket_domain d) x
  (aggregate_rules d) (proof_rules d) (delivery d).
Definition set_ticket_domain x d := MkDomain (dom_id d) (owner d) (dom_state d) (next d)
  (max_aggregation_size d) (should_publish d) (publish_queue_size d) x (ticket_allowlist d)
  (aggregate_rules d) (proof_rules d) (delivery d).
Definition set_delivery x d := MkDomain (dom_id d) (owner d) (dom_state d) (next d)
  (max_aggregation_size d) (should_publish d) (publish_queue_size d) (ticket_domain d)
  (ticket_allowlist d) (aggregate_rules d) (proof_rules d) x.

(** [DomainEntry::create], with its two assertions. *)
Definition create_domain (AggregationSize MaxPendingPublishQueueSize id : Z) (owner : User)
    (next_aggregation_id max_aggregation_size publish_queue_size : Z)
    (aggregate_rules : AggregateSecurityRules) (proof_rules : ProofSecurityRules)
    (ticket_domain : option TD) (ticket_allowlist : option CountableTicket)
    (delivery : DeliveryParams) : option Domain :=
  if negb (max_aggregation_size <=? AggregationSize) then None
  else if negb (publish_queue_size <=? MaxPendingPublishQueueSize) then None
  else
    next ← create AggregationSize next_aggregation_id max_aggregation_size;
    Some (MkDomain id owner Ready next max_aggregation_size ∅ publish_queue_size ticket_domain
            ticket_allowlist aggregate_rules proof_rules delivery).

Definition can_add_statement (self : Domain) : bool :=
  (0 <? Z.max 0 (publish_queue_size self - Z.of_nat (size (should_publish self))))
  || (1 <? space_left (next self)).
End domain.
Arguments CountableTicket : clear implicits.
Arguments Domain : clear implicits.

(** ** Size in storage *)

(** Lengths of the encodings the configuration fixes, in bytes. *)
Record lengths : Type := {
  usize_max : Z;
  account_len : Z;
  balance_len : Z;
  ticket_domain_len : Z;
  ticket_allowlist_len : Z
}.

Section encoded_size.
Context (n : lengths).

Definition usize_add (x y : Z) : Z := Z.min (x + y) (usize_max n).
Definition usize_sub (x y : Z) : Z := Z.max (x - y) 0.
Definition usize_mul (x y : Z) : Z := Z.min (x * y) (usize_max n).

(** [max_encoded_len] of the data types: the sum of the fields, one byte for
    the constructor of an enumeration. *)
Definition statement_max : Z := account_len n + (balance_len n + balance_len n) + 32.
Definition statements_max (S : Z) : Z := usize_add (compact_len S) (usize_mul S statement_max).
Definition aggregation_max (S : Z) : Z := usize_add (8 + 4) (statements_max S).
Definition destination_len (d : Destination) : Z := match d with NoDestination => 1 end.
Definition destination_max : Z := 1.
Definition queue_max (S M : Z) : Z := usize_add (usize_mul M (usize_add 8 (aggregation_max S))) (compact_len M).
Definition delivery_max : Z := account_len n + (destination_max + balance_len n + balance_len n).
Definition domain_max (S M : Z) : Z :=
  usize_add (usize_add (4 + (1 + account_len n) + 1) (aggregation_max S))
    (usize_add (4 + 4 + (1 + ticket_domain_len n) + (1 + (ticket_allowlist_len n + 4)) + 1 + 1
                + delivery_max) (queue_max S M)).

(** [AggregationEntry::compute_encoded_size] *)
Definition aggregation_encoded_size (S size : Z) : Z :=
  let dyn_size := usize_add (compact_len S) (usize_mul size statement_max) in
  usize_add (usize_sub (aggregation_max S) (statements_max S)) dyn_size.

(** [DomainEntry::compute_encoded_size] *)
Definition compute_encoded_size (S M max_aggregation_size publish_queue_size : Z)
    (destination : Destination) : Z :=
  let upper := domain_max S M in
  let aggregation_size := aggregation_encoded_size S max_aggregation_size in
  usize_add
    (usize_add
       (usize_add
          (usize_sub (usize_sub (usize_sub upper (aggregation_max S)) (queue_max S M)) destination_max)
          (destination_len destination))
       aggregation_size)
    (usize_add (usize_mul publish_queue_size (usize_add 8 aggregation_size)) (compact_len M)).
End encoded_size.
