(* ===== verification/AggregateMigration.v ===== *)
(** * The migration of aggregation domains ([pallets/aggregate/src/migrations/v4.rs], [v4/v3.rs])

    Domains of version 3 could be delivered through Hyperbridge; version 4 has no
    destination but [None].  The migration collects all domains, converts them and
    writes them back. *)

From S2P Require Import Prelude Storage Frame Holds AggregateData.

Open Scope Z_scope.

(** ** The layout of version 3 *)

Inductive BoundedStateMachine : Type :=
  | Evm (n : Z)
  | Polkadot (n : Z)
  | Kusama (n : Z)
  | Substrate (id : string)
  | Tendermint (id : string).

Record HyperbridgeDispatchParameters : Type := {
  destination_chain : BoundedStateMachine;
  destination_module : string;
  timeout : Z
}.

Inductive V3Destination : Type :=
  | V3None
  | Hyperbridge (p : HyperbridgeDispatchParameters).

Record V3Delivery : Type := { v3_destination : V3Destination; v3_fee : Z; v3_owner_tip : Z }.
Record V3DeliveryParams : Type := { v3_delivery_owner : string; v3_data : V3Delivery }.

Section migration.
Context {TD TA : Type}.

Record V3Domain : Type := {
  v3_id : Z;
  v3_owner : User;
  v3_state : DomainState;
  v3_next : AggregationEntry;
  v3_max_aggregation_size : Z;
  v3_should_publish : gmap Z AggregationEntry;
  v3_publish_queue_size : Z;
  v3_ticket_domain : option TD;
  v3_ticket_allowlist : option (CountableTicket TA);
  v3_aggregate_rules : AggregateSecurityRules;
  v3_proof_rules : ProofSecurityRules;
  v3_delivery : V3DeliveryParams
}.

(** ** The conversions *)

Definition from_v3_delivery (d : V3Delivery) : Delivery :=
  {| destination := NoDestination; fee := v3_fee d; owner_tip := v3_owner_tip d |}.

Definition from_v3_params (p : V3DeliveryParams) : DeliveryParams :=
  {| delivery_owner := v3_delivery_owner p; data := from_v3_delivery (v3_data p) |}.

Definition from_v3 (d : V3Domain) : Domain TD TA :=
  MkDomain (v3_id d) (v3_owner d) (v3_state d) (v3_next d) (v3_max_aggregation_size d)
    (v3_should_publish d) (v3_publish_queue_size d) (v3_ticket_domain d) (v3_ticket_allowlist d)
    (v3_aggregate_rules d) (v3_proof_rules d) (from_v3_params (v3_delivery d)).

(** ** The migration *)

(** The keys the iterator comes to. *)
Context (visits : list Z).

(** [v3::Domains::drain().collect()] *)
Definition collect_domains (m : gmap Z V3Domain) : gmap Z V3Domain * list (Z * V3Domain) :=
  drain_visiting (λ k d m l, (m, l ++ [(k, d)])) visits m [].

(** The domains of version 4, and the reads and writes of the weight. *)
Definition v4_on_runtime_upgrade (domains : gmap Z V3Domain) : gmap Z (Domain TD TA) * (Z * Z) :=
  let '(_, old_storage) := collect_domains domains in
  let reads := Z.of_nat (length old_storage) in
  let converted := (λ p, (p.1, from_v3 p.2)) <$> old_storage in
  let writes := Z.of_nat (length old_storage) + Z.of_nat (length converted) in
  (foldl (λ m p, <[p.1 := p.2]> m) ∅ converted, (reads, writes)).

Lemma foldl_insert {V} (l : list (Z * V)) (m : gmap Z V) k :
  NoDup l.*1 →
  foldl (λ m p, <[p.1 := p.2]> m) m l !! k = match list_to_map (M:=gmap Z V) l !! k with Some v => Some v | None => m !! k end.
Proof.
  revert m. induction l as [|[j v] l IH]; intros m Hn; [cbn; by rewrite (lookup_empty (M:=gmap Z))|].
  apply list.NoDup_cons in Hn as [Hj Hn]. cbn [foldl list_to_map foldr uncurry fst snd]. rewrite (IH _ Hn).
  destruct (decide (k = j)) as [->|Hne].
  - rewrite (not_elem_of_list_to_map_1 l j Hj). by rewrite !lookup_insert_eq.
  - by rewrite !lookup_insert_ne by done.
Qed.

(** Each domain is found again under its identifier, with nothing changed but
    the destination, whatever the order of the storage. *)
Lemma aggregate_migration_exact (domains : gmap Z V3Domain) :
  let n := Z.of_nat (size domains) in
  complete visits domains → v4_on_runtime_upgrade domains = (from_v3 <$> domains, (n, 2 * n)).
Proof.
  intros n Hc. unfold v4_on_runtime_upgrade, collect_domains.
  destruct (drain_all (λ _, None) (λ k d l, l ++ [(k, d)]) (λ k d m l, (m, l ++ [(k, d)])) (λ _ _ _ _, eq_refl) visits domains [] Hc)
    as (l & Hl & ->).
  assert (E : foldl (λ a p, a ++ [(p.1, p.2)]) [] l = l).
  { assert (H : ∀ a, foldl (λ a p, a ++ [(p.1, p.2)]) a l = a ++ l); [|apply H].
    clear Hl. induction l as [|[k d] l IH]; intros a; [by rewrite app_nil_r|]. cbn [foldl]. rewrite IH.
    by rewrite <- app_assoc. }
  rewrite E, length_fmap, (Permutation_length Hl), length_map_to_list. f_equal; [|f_equal; unfold n; lia].
  apply map_eq. intros k. assert (Hfst : ((λ p : Z * V3Domain, (p.1, from_v3 p.2)) <$> l).*1 = l.*1).
  { rewrite <- list_fmap_compose. done. }
  assert (Hnd : NoDup l.*1) by (rewrite Hl; apply NoDup_fst_map_to_list).
  rewrite foldl_insert by by rewrite Hfst. rewrite lookup_empty, lookup_fmap.
  transitivity (list_to_map (M:=gmap Z (Domain TD TA)) ((λ p : Z * V3Domain, (p.1, from_v3 p.2)) <$> l) !! k).
  { by destruct (list_to_map _ !! k). }
  rewrite <- (list_to_map_to_list domains), <- (list_to_map_proper l _ Hnd Hl).
  change (λ p : Z * V3Domain, (p.1, from_v3 p.2)) with (prod_map (id : Z → Z) from_v3).
  by rewrite list_to_map_fmap, lookup_fmap.
Qed.
End migration.
