(* ===== verification/Aggregate.v ===== *)
(** * The aggregation pallet ([pallets/aggregate/src/lib.rs])

    Proof statements are collected per domain, completed aggregations wait in
    the domain's queue, [aggregate] publishes one and pays out what its
    submitters had on hold.  This file holds the pallet's code: the operations
    of a domain, the callback of the verifier pallets and the extrinsics. *)

From S2P Require Import Prelude Frame Holds AggregateData Merkle.

Open Scope Z_scope.

Inductive CannotAggregateCause : Type :=
  | NoAccount
  | DomainNotRegistered (domain_id : Z)
  | DomainStorageFull (domain_id : Z)
  | InsufficientFunds
  | CauseInvalidDomainState (domain_id : Z) (state : DomainState)
  | UnauthorizedUser.

Inductive Event : Type :=
  | NewDomain (id : Z)
  | DomainStateChanged (id : Z) (state : DomainState)
  | NewProof (statement : string) (domain_id aggregation_id : Z)
  | AggregationComplete (domain_id aggregation_id : Z)
  | NewAggregationReceipt (domain_id aggregation_id : Z) (receipt : string)
  | CannotAggregate (statement : string) (cause : CannotAggregateCause)
  | DomainFull (domain_id : Z).

Inductive Error : Type :=
  | UnknownDomainId
  | InvalidAggregationId
  | InvalidDomainParams
  | InvalidDomainState
  | MissedDeliveryOwnership
  | NextAggregationIdUnavailable.

(** [ConsiderationError] and [DispatchAggregationError] are the errors of the
    configured deposit and delivery. *)
Inductive DispatchError : Type :=
  | BadOrigin
  | Pallet (e : Error)
  | ConsiderationError
  | DispatchAggregationError.

Inductive PathRequestError : Type :=
  | NotFound (domain_id aggregation_id : Z) (statement : string)
  | ReceiptNotPublished (domain_id aggregation_id : Z)
  | IndexOutOfBounds.

Section pallet.
Context {L TD TA : Type} `{!Hold HoldReason string L}.

(** [T: Config].  The fee estimate depends on the state of the chain;
    [DispatchAggregation] answers whether the delivery went well; the last two
    are the third-party Merkle tree. *)
Record Config : Type := {
  AggregationSize : Z;
  MaxPendingPublishQueueSize : Z;
  ManagerOrigin : Origin → bool;
  ConsiderationDomain : Consideration string L TD;
  ConsiderationAllowList : Consideration string L TA;
  EstimateCallFee : L → Z → Z;
  ComputePublisherTip : Z → option Z;
  DispatchAggregation : Z → Z → string → Destination → Z → string → bool;
  encoded_lengths : lengths;
  overflow_checks : bool;
  merkle_root : list string → string;
  merkle_path : list string → Z → merkle_proof
}.

Record state : Type := State {
  NextDomainId : Z;
  Domains : gmap Z (Domain TD TA);
  SubmittersAllowlist : gset (Z * string);
  Published : list (Z * AggregationEntry);
  Events : list Event;
  Runtime : L
}.

Definition set_NextDomainId x s := State x (Domains s) (SubmittersAllowlist s) (Published s)
  (Events s) (Runtime s).
Definition set_Domains x s := State (NextDomainId s) x (SubmittersAllowlist s) (Published s)
  (Events s) (Runtime s).
Definition set_SubmittersAllowlist x s := State (NextDomainId s) (Domains s) x (Published s)
  (Events s) (Runtime s).
Definition set_Published x s := State (NextDomainId s) (Domains s) (SubmittersAllowlist s) x
  (Events s) (Runtime s).
Definition add_event e s := State (NextDomainId s) (Domains s) (SubmittersAllowlist s) (Published s)
  (Events s ++ [e]) (Runtime s).
Definition set_Runtime x s := State (NextDomainId s) (Domains s) (SubmittersAllowlist s) (Published s)
  (Events s) x.

Context (T : Config).
Abbreviation P := (M state DispatchError).
Abbreviation domain := (Domain TD TA).

Definition deposit_event (e : Event) : P unit := modify (add_event e).
Abbreviation fail e := (raise (Pallet e)).

(** A call into another part of the runtime that may fail. *)
Definition on_runtime {A} (f : L → option (L * A)) : P (option A) :=
  l ← gets Runtime;
  match f l with
  | Some (l', a) => _ ← modify (set_Runtime l'); mret (Some a)
  | None => mret None
  end.

(** ** Users *)

Definition from_origin (origin : Origin) : P User :=
  if ManagerOrigin T origin then mret Manager
  else match origin with Signed a => mret (Account a) | _ => raise BadOrigin end.

Definition is_manager (self : User) : bool := match self with Manager => true | _ => false end.

Definition can_handle_domain (self : User) (d : domain) : bool :=
  match self with
  | Account _ => bool_decide (owner d = self)
  | Manager => true
  end.

Definition can_set_total_delivery_fee (self : User) (d : domain) : bool :=
  match self with
  | Account a => bool_decide (owner d = self) || bool_decide (delivery_owner (delivery d) = a)
  | Manager => true
  end.

Definition can_create_domain (self : User) (_ : Destination) : bool := true.

Definition can_user_aggregate_it (self : AggregateSecurityRules) (aggregator domain_owner : User)
    (delivery_owner : string) (aggregation : AggregationEntry) : bool :=
  let is_owner_auth := bool_decide (user_account aggregator = Some delivery_owner)
    || bool_decide (aggregator = domain_owner) || is_manager aggregator in
  match self with
  | AggUntrusted => true
  | AggOnlyOwner => is_owner_auth
  | AggOnlyOwnerUncompleted => completed aggregation || is_owner_auth
  end.

(** ** Operations of a domain *)

Definition estimate_publish_aggregation_fee (l : L) (size : Z) : Z := EstimateCallFee T l size.

(** [None] is an error: what was held is released again. *)
Definition reserve_currency (self : domain) (account : string) : P (option Reserve) :=
  l ← gets Runtime;
  let estimated := estimate_publish_aggregation_fee l (max_aggregation_size self) in
  let aggregate := saturating_add estimated (default 0 (ComputePublisherTip T estimated))
                     / agg_size (next self) in
  total ← unwrap (total_fee (overflow_checks T) (data (delivery self)));
  let total_fee := total / agg_size (next self) in
  match hold l AggregationReason account aggregate with
  | None => mret None
  | Some l1 =>
      match hold l1 DeliveryReason account total_fee with
      | None =>
          '(l2, _) ← unwrap (release l1 AggregationReason account aggregate Exact);
          _ ← modify (set_Runtime l2);
          mret None
      | Some l2 =>
          _ ← modify (set_Runtime l2);
          mret (Some {| r_aggregate := aggregate; r_delivery := total_fee |})
      end
  end.

Definition emit_state_changed_event (self : domain) : P unit :=
  deposit_event (DomainStateChanged (dom_id self) (dom_state self)).

Definition pop_next_aggregation (self : domain) : P (option AggregationEntry * domain) :=
  if bool_decide (statements (next self) = []) then mret (None, self)
  else
    match create_next (AggregationSize T) (next self) (agg_size (next self)) with
    | Some new_aggregation =>
        new_aggregation ← unwrap new_aggregation;
        mret (Some (next self), set_next new_aggregation self)
    | None =>
        let self := set_dom_state HoldState self in
        _ ← emit_state_changed_event self;
        new_aggregation ← unwrap (create (AggregationSize T) 0 (agg_size (next self)));
        mret (Some (next self), set_next new_aggregation self)
    end.

Definition take_aggregation (self : domain) (id : Z) : P (option AggregationEntry * domain) :=
  if agg_id (next self) =? id then pop_next_aggregation self
  else mret (should_publish self !! id, set_should_publish (delete id (should_publish self)) self).

Definition is_next_aggregation_complete (self : domain) : bool :=
  agg_size (next self) <=? Z.of_nat (length (statements (next self))).

(** [try_push] refuses at the configured bound; the [expect] then panics. *)
Definition append_statement (self : domain) (account : string) (reserve : Reserve)
    (statement : string) : P (option AggregationEntry * domain) :=
  if AggregationSize T <=? Z.of_nat (length (statements (next self))) then panic
  else
    let e := {| AggregateData.account := account; AggregateData.reserve := reserve;
                AggregateData.statement := statement |} in
    let self := set_next {| agg_id := agg_id (next self); agg_size := agg_size (next self);
                            statements := statements (next self) ++ [e] |} self in
    if is_next_aggregation_complete self then pop_next_aggregation self else mret (None, self).

(** [try_insert] refuses a new key at the configured bound. *)
Definition available_aggregation (self : domain) (aggregation : AggregationEntry) : P domain :=
  _ ← deposit_event (AggregationComplete (dom_id self) (agg_id aggregation));
  if bool_decide (should_publish self !! agg_id aggregation = None)
     && (MaxPendingPublishQueueSize T <=? Z.of_nat (size (should_publish self))) then panic
  else
    let self := set_should_publish (<[agg_id aggregation := aggregation]> (should_publish self)) self in
    _ ← (if publish_queue_size self <=? Z.of_nat (size (should_publish self))
         then deposit_event (DomainFull (dom_id self)) else mret tt);
    mret self.

Definition is_allowlist_empty (self : domain) : P bool :=
  allowlist ← gets SubmittersAllowlist;
  mret (negb (bool_decide (proof_rules self = ProofOnlyAllowlisted))
        || bool_decide (filter (λ k, k.1 = dom_id self) allowlist = ∅)).

Definition update_hold_state (self : domain) : P domain :=
  empty ← is_allowlist_empty self;
  mret (set_dom_state (if bool_decide (should_publish self = ∅)
                          && bool_decide (statements (next self) = []) && empty
                       then Removable else HoldState) self).

Definition handle_hold_state (self : domain) : P domain :=
  if bool_decide (dom_state self = Ready) then mret self
  else
    let old_state := dom_state self in
    self ← update_hold_state self;
    _ ← (if bool_decide (old_state = dom_state self) then mret tt else emit_state_changed_event self);
    mret self.

Definition is_authorized_to_add_proof (self : domain) (account : string) : P bool :=
  match proof_rules self with
  | ProofUntrusted => mret true
  | ProofOnlyOwner =>
      o ← unwrap (user_account (owner self));
      mret (bool_decide (account = o))
  | ProofOnlyAllowlisted =>
      allowlist ← gets SubmittersAllowlist;
      mret (bool_decide ((dom_id self, account) ∈ allowlist))
  end.

(** ** The allowlist of a domain *)

(** The iterator filters, inserts and counts one submitter at a time, so one
    that is listed twice counts once. *)
Fixpoint insert_submitters (id : Z) (submitters : list string) (count : Z) : P Z :=
  match submitters with
  | [] => mret count
  | s :: submitters =>
      allowlist ← gets SubmittersAllowlist;
      if bool_decide ((id, s) ∈ allowlist) then insert_submitters id submitters count
      else
        _ ← modify (set_SubmittersAllowlist ({[ (id, s) ]} ∪ allowlist));
        insert_submitters id submitters (count + 1)
  end.

Fixpoint delete_submitters (id : Z) (submitters : list string) (count : Z) : P Z :=
  match submitters with
  | [] => mret count
  | s :: submitters =>
      allowlist ← gets SubmittersAllowlist;
      if bool_decide ((id, s) ∈ allowlist) then
        _ ← modify (set_SubmittersAllowlist (allowlist ∖ {[ (id, s) ]}));
        delete_submitters id submitters (count + 1)
      else delete_submitters id submitters count
  end.

(** [ticket.update(&owner, Footprint::from_parts(count, 0))?] *)
Definition update_count (self : domain) (o : string) (t : TA) (count : Z) : P domain :=
  r ← on_runtime (λ l, ticket_update (ConsiderationAllowList T) l t o count 0);
  match r with
  | Some t => mret (set_ticket_allowlist (Some {| ticket := t; AggregateData.count := count |}) self)
  | None => raise ConsiderationError
  end.

Definition increase_footprint_count (self : domain) (amount : Z) : P domain :=
  match user_account (owner self), ticket_allowlist self with
  | Some o, Some t =>
      let count := AggregateData.count t + Z.min amount u32_max in
      if count <=? u32_max then update_count self o (ticket t) count else fail InvalidDomainParams
  | _, _ => mret self
  end.

Definition decrease_footprint_count (self : domain) (amount : Z) : P domain :=
  match user_account (owner self), ticket_allowlist self with
  | Some o, Some t =>
      let count := AggregateData.count t - Z.min amount u32_max in
      if 0 <=? count then update_count self o (ticket t) count else fail InvalidDomainParams
  | _, _ => mret self
  end.

Definition add_submitters (self : domain) (submitters : list string) : P domain :=
  count ← insert_submitters (dom_id self) submitters 0;
  increase_footprint_count self count.

Definition remove_submitters (self : domain) (submitters : list string) : P domain :=
  count ← delete_submitters (dom_id self) submitters 0;
  decrease_footprint_count self count.

Definition try_add_submitters (self : domain) (submitters : list string) : P domain :=
  if bool_decide (proof_rules self = ProofOnlyAllowlisted) then add_submitters self submitters
  else fail InvalidDomainParams.

Definition try_remove_submitters (self : domain) (submitters : list string) : P domain :=
  if bool_decide (proof_rules self = ProofOnlyAllowlisted) then remove_submitters self submitters
  else fail InvalidDomainParams.

(** ** The callback of the verifier pallets *)

Definition cannot_aggregate (statement : string) (cause : CannotAggregateCause) : P unit :=
  deposit_event (CannotAggregate statement cause).

Definition write_domain (id : Z) (d : domain) : P unit :=
  modify (λ s, set_Domains (<[id := d]> (Domains s)) s).

(** The closure of [Domains::mutate]: [None] leaves the domain as it is. *)
Definition add_proof (domain_id : Z) (self : domain) (account statement : string)
    : P (option domain) :=
  if negb (bool_decide (dom_state self = Ready)) then
    _ ← cannot_aggregate statement (CauseInvalidDomainState domain_id (dom_state self)); mret None
  else if negb (can_add_statement self) then
    _ ← cannot_aggregate statement (DomainStorageFull domain_id); mret None
  else
    authorized ← is_authorized_to_add_proof self account;
    if negb authorized then _ ← cannot_aggregate statement UnauthorizedUser; mret None
    else
      r ← reserve_currency self account;
      match r with
      | None => _ ← cannot_aggregate statement InsufficientFunds; mret None
      | Some reserve =>
          _ ← deposit_event (NewProof statement domain_id (agg_id (next self)));
          '(to_publish, self) ← append_statement self account reserve statement;
          self ← match to_publish with
                 | Some aggregation => available_aggregation self aggregation
                 | None => mret self
                 end;
          self ← handle_hold_state self;
          mret (Some self)
      end.

Definition on_proof_verified (account : option string) (domain_id : option Z) (statement : string)
    : P unit :=
  match account, domain_id with
  | None, _ => cannot_aggregate statement NoAccount
  | Some _, None => mret tt
  | Some account, Some domain_id =>
      domains ← gets Domains;
      match domains !! domain_id with
      | None => cannot_aggregate statement (DomainNotRegistered domain_id)
      | Some self =>
          r ← add_proof domain_id self account statement;
          match r with Some self => write_domain domain_id self | None => mret tt end
      end
  end.

(** ** Extrinsics *)

(** To [dest] when it can receive, back to the submitter otherwise. *)
Definition handle_held_funds (reason : HoldReason) (account : string) (dest : option string)
    (amount : Z) : P unit :=
  moved ← match dest with
          | Some dest => on_runtime (λ l, transfer_on_hold l reason account dest amount)
          | None => mret None
          end;
  match moved with
  | Some _ => mret tt
  | None => _ ← on_runtime (λ l, release l reason account amount BestEffort); mret tt
  end.

Fixpoint pay_statements (aggregator : User) (delivery_owner : string) (l : list StatementEntry)
    : P unit :=
  match l with
  | [] => mret tt
  | s :: l =>
      _ ← handle_held_funds AggregationReason (account s) (user_account aggregator)
            (r_aggregate (reserve s));
      _ ← handle_held_funds DeliveryReason (account s) (Some delivery_owner)
            (r_delivery (reserve s));
      pay_statements aggregator delivery_owner l
  end.

Definition aggregate (origin : Origin) (domain_id aggregation_id : Z) : P unit :=
  aggregator ← from_origin origin;
  domains ← gets Domains;
  match domains !! domain_id with
  | None => fail UnknownDomainId
  | Some d =>
      '(aggregation, d) ← take_aggregation d aggregation_id;
      match aggregation with
      | None => fail InvalidAggregationId
      | Some aggregation =>
          if negb (can_user_aggregate_it (aggregate_rules d) aggregator (owner d)
                     (delivery_owner (delivery d)) aggregation)
          then raise BadOrigin
          else
            let root := compute_receipt (merkle_root T) aggregation in
            _ ← pay_statements aggregator (delivery_owner (delivery d)) (statements aggregation);
            _ ← modify (λ s, set_Published (Published s ++ [(domain_id, aggregation)]) s);
            d ← handle_hold_state d;
            _ ← write_domain domain_id d;
            _ ← deposit_event (NewAggregationReceipt domain_id aggregation_id root);
            ensure (DispatchAggregation T domain_id aggregation_id root
                      (destination (data (delivery d))) (fee (data (delivery d)))
                      (delivery_owner (delivery d))) DispatchAggregationError
      end
  end.

Definition try_create (id : Z) (owner : User)
    (next_aggregation_id max_aggregation_size publish_queue_size : Z)
    (aggregate_rules : AggregateSecurityRules) (proof_rules : ProofSecurityRules)
    (ticket_domain : option TD) (ticket_allowlist : option (CountableTicket TA))
    (delivery : DeliveryParams) : P domain :=
  if (max_aggregation_size =? 0) || (publish_queue_size =? 0)
     || (AggregationSize T <? max_aggregation_size)
     || (MaxPendingPublishQueueSize T <? publish_queue_size)
  then fail InvalidDomainParams
  else unwrap (create_domain (AggregationSize T) (MaxPendingPublishQueueSize T) id owner
         next_aggregation_id max_aggregation_size publish_queue_size aggregate_rules proof_rules
         ticket_domain ticket_allowlist delivery).

(** [account.map(|a| Consideration::new(a, ..)).transpose()?] *)
Definition new_ticket {Tk} (c : Consideration string L Tk) (a : option string) (n sz : Z)
    : P (option Tk) :=
  match a with
  | None => mret None
  | Some a =>
      r ← on_runtime (λ l, ticket_new c l a n sz);
      match r with Some t => mret (Some t) | None => raise ConsiderationError end
  end.

Definition register_domain (origin : Origin) (aggregation_size : Z) (queue_size : option Z)
    (aggregate_rules : AggregateSecurityRules) (proof_rules : ProofSecurityRules)
    (delivery : Delivery) (delivery_owner : option string) : P unit :=
  caller ← from_origin origin;
  if negb (can_create_domain caller (destination delivery)) then raise BadOrigin
  else
    match (match delivery_owner with Some o => Some o | None => user_account caller end) with
    | None => fail MissedDeliveryOwnership
    | Some o =>
        id ← gets NextDomainId;
        if id =? u32_max then fail InvalidDomainParams
        else
          let queue_size := default (MaxPendingPublishQueueSize T) queue_size in
          let params := {| AggregateData.delivery_owner := o; data := delivery |} in
          ticket_domain ← new_ticket (ConsiderationDomain T) (user_account caller) 1
            (compute_encoded_size (encoded_lengths T) (AggregationSize T)
               (MaxPendingPublishQueueSize T) aggregation_size queue_size (destination delivery));
          ticket_allowlist ←
            (if bool_decide (proof_rules = ProofOnlyAllowlisted)
             then new_ticket (ConsiderationAllowList T) (user_account caller) 0 0
             else mret None);
          d ← try_create id caller 1 aggregation_size queue_size aggregate_rules proof_rules
                ticket_domain
                ((λ t, {| ticket := t; count := 0 |}) <$> ticket_allowlist) params;
          _ ← write_domain id d;
          next_id ← unwrap (if id + 1 <=? u32_max then Some (id + 1) else None);
          _ ← modify (set_NextDomainId next_id);
          deposit_event (NewDomain id)
    end.

Definition hold_domain (origin : Origin) (domain_id : Z) : P unit :=
  user ← from_origin origin;
  domains ← gets Domains;
  match domains !! domain_id with
  | Some d =>
      if can_handle_domain user d then
        if bool_decide (dom_state d = Ready) then
          d ← update_hold_state d;
          _ ← emit_state_changed_event d;
          write_domain domain_id d
        else fail InvalidDomainState
      else raise BadOrigin
  | None => fail UnknownDomainId
  end.

(** [t.drop(o).defensive_proof(..)]: an error is logged. *)
Definition drop_ticket {Tk} (c : Consideration string L Tk) (o : option string) (t : option Tk)
    : P unit :=
  match o, t with
  | Some o, Some t => _ ← on_runtime (λ l, l' ← ticket_drop c l t o; Some (l', tt)); mret tt
  | _, _ => mret tt
  end.

Definition unregister_domain (origin : Origin) (domain_id : Z) : P unit :=
  user ← from_origin origin;
  domains ← gets Domains;
  match domains !! domain_id with
  | Some d =>
      if can_handle_domain user d then
        if negb (bool_decide (dom_state d = Removable)) then fail InvalidDomainState
        else
          let o := match user_account user with Some a => Some a | None => user_account (owner d) end in
          _ ← drop_ticket (ConsiderationDomain T) o (ticket_domain d);
          _ ← drop_ticket (ConsiderationAllowList T) o (ticket <$> ticket_allowlist d);
          _ ← emit_state_changed_event (set_dom_state Removed d);
          modify (λ s, set_Domains (delete domain_id (Domains s)) s)
      else raise BadOrigin
  | None => fail UnknownDomainId
  end.

Definition set_total_delivery_fee (origin : Origin) (domain_id fee owner_tip : Z) : P unit :=
  user ← from_origin origin;
  domains ← gets Domains;
  match domains !! domain_id with
  | Some d =>
      if can_set_total_delivery_fee user d then
        write_domain domain_id
          (set_delivery (set_owner_tip owner_tip (set_fee fee (delivery d))) d)
      else raise BadOrigin
  | None => fail UnknownDomainId
  end.

Definition allowlist_proof_submitters (origin : Origin) (domain_id : Z) (submitters : list string)
    : P unit :=
  user ← from_origin origin;
  domains ← gets Domains;
  match domains !! domain_id with
  | None => fail UnknownDomainId
  | Some d =>
      if negb (can_handle_domain user d) then raise BadOrigin
      else if negb (bool_decide (dom_state d = Ready)) then fail InvalidDomainParams
      else
        d ← try_add_submitters d submitters;
        write_domain domain_id d
  end.

Definition remove_proof_submitters (origin : Origin) (domain_id : Z) (submitters : list string)
    : P unit :=
  user ← from_origin origin;
  domains ← gets Domains;
  match domains !! domain_id with
  | None => fail UnknownDomainId
  | Some d =>
      if negb (can_handle_domain user d) then raise BadOrigin
      else
        d ← try_remove_submitters d submitters;
        d ← handle_hold_state d;
        write_domain domain_id d
  end.

Inductive Call : Type :=
  | Call_aggregate (domain_id aggregation_id : Z)
  | Call_register_domain (aggregation_size : Z) (queue_size : option Z)
      (aggregate_rules : AggregateSecurityRules) (proof_rules : ProofSecurityRules)
      (delivery : Delivery) (delivery_owner : option string)
  | Call_hold_domain (domain_id : Z)
  | Call_unregister_domain (domain_id : Z)
  | Call_set_total_delivery_fee (domain_id fee owner_tip : Z)
  | Call_allowlist_proof_submitters (domain_id : Z) (submitters : list string)
  | Call_remove_proof_submitters (domain_id : Z) (submitters : list string).

Definition run_call (origin : Origin) (c : Call) : P unit :=
  match c with
  | Call_aggregate d a => aggregate origin d a
  | Call_register_domain sz q ar pr dl o => register_domain origin sz q ar pr dl o
  | Call_hold_domain d => hold_domain origin d
  | Call_unregister_domain d => unregister_domain origin d
  | Call_set_total_delivery_fee d f t => set_total_delivery_fee origin d f t
  | Call_allowlist_proof_submitters d l => allowlist_proof_submitters origin d l
  | Call_remove_proof_submitters d l => remove_proof_submitters origin d l
  end.

(** ** Hook and runtime API *)

Definition on_initialize : P unit := modify (set_Published []).

Fixpoint position (statement : string) (l : list StatementEntry) (i : Z) : option Z :=
  match l with
  | [] => None
  | s :: l => if bool_decide (AggregateData.statement s = statement) then Some i
              else position statement l (i + 1)
  end.

Definition get_statement_path (s : state) (domain_id aggregation_id : Z) (statement : string)
    : PathRequestError + merkle_proof :=
  match find (λ p, (p.1 =? domain_id) && (agg_id p.2 =? aggregation_id)) (Published s) with
  | None => inl (ReceiptNotPublished domain_id aggregation_id)
  | Some (_, aggregation) =>
      match position statement (statements aggregation) 0 with
      | None => inl (NotFound domain_id aggregation_id statement)
      | Some index =>
          if index <=? u32_max
          then inr (merkle_path T (AggregateData.statement <$> statements aggregation) index)
          else inl IndexOutOfBounds
      end
  end.
End pallet.
Arguments Config : clear implicits.
Arguments state : clear implicits.
