(* ===== verification/AggregateInv.v ===== *)
(** * The invariant of the aggregation pallet

    What holds of every domain and of the funds on hold in every reachable
    state, and that each operation of [Aggregate] preserves it. *)

From S2P Require Import Prelude Frame Holds AggregateData Aggregate.

Open Scope Z_scope.

(** The two reasons under which submitters' funds are held. *)
Definition escrow (r : HoldReason) : Prop := r = AggregationReason ∨ r = DeliveryReason.

Definition amount (r : HoldReason) (x : Reserve) : Z :=
  match r with
  | AggregationReason => r_aggregate x
  | DeliveryReason => r_delivery x
  | _ => 0
  end.

(** What [a] has reserved for [r] in a list of statements, in an aggregation
    and in a domain. *)
Fixpoint reserved (r : HoldReason) (a : string) (l : list StatementEntry) : Z :=
  match l with
  | [] => 0
  | e :: l => at_key (account e) (amount r (reserve e)) a + reserved r a l
  end.

Definition entry_ok (e : StatementEntry) : Prop :=
  0 ≤ r_aggregate (reserve e) ∧ 0 ≤ r_delivery (reserve e).

Lemma entry_ok_amount e r : entry_ok e → 0 ≤ amount r (reserve e).
Proof. intros []. by destruct r. Qed.

Lemma reserved_app r a l1 l2 : reserved r a (l1 ++ l2) = reserved r a l1 + reserved r a l2.
Proof. induction l1; simpl; lia. Qed.

Lemma reserved_nonneg r a l : Forall entry_ok l → 0 ≤ reserved r a l.
Proof.
  induction 1 as [|e l He _ IH]; simpl; [done|].
  pose proof (at_key_range (account e) a _ (entry_ok_amount e r He)). lia.
Qed.

Section invariant.
Context {L TD TA : Type} `{!Hold HoldReason string L, !HoldLaws HoldReason string L}.
Context (T : Config L TD TA).
Abbreviation state := (state L TD TA).
Abbreviation domain := (Domain TD TA).
Implicit Types (s : state) (d : domain).

Record config_ok : Prop := {
  cfg_size : 0 ≤ AggregationSize T ≤ u32_max;
  cfg_queue : 0 ≤ MaxPendingPublishQueueSize T;
  cfg_fee l n : 0 ≤ EstimateCallFee T l n;
  cfg_tip x t : 0 ≤ x → ComputePublisherTip T x = Some t → 0 ≤ t;
  cfg_domain : consideration_ok escrow (ConsiderationDomain T);
  cfg_allowlist : consideration_ok escrow (ConsiderationAllowList T)
}.

Definition dom_pending (r : HoldReason) (a : string) (d : domain) : Z :=
  reserved r a (statements (next d)) + msum (λ x, reserved r a (statements x)) (should_publish d).

Definition pending (r : HoldReason) (a : string) (s : state) : Z :=
  msum (dom_pending r a) (Domains s).

(** Identifiers grow; after the last one the domain is on hold for good and
    its open aggregation, numbered [0], stays empty. *)
Definition ids_ok (d : domain) : Prop :=
  1 ≤ agg_id (next d) ≤ u64_max ∧
    (∀ k, is_Some (should_publish d !! k) → 1 ≤ k < agg_id (next d)) ∨
  agg_id (next d) = 0 ∧ dom_state d ≠ Ready ∧ statements (next d) = [] ∧
    (∀ k, is_Some (should_publish d !! k) → 1 ≤ k ≤ u64_max).

(** An aggregation waiting in the queue is complete. *)
Definition queued_ok (d : domain) (k : Z) (x : AggregationEntry) : Prop :=
  agg_id x = k ∧ agg_size x = max_aggregation_size d ∧
  Z.of_nat (length (statements x)) = agg_size x ∧ Forall entry_ok (statements x).

Record shape (d : domain) : Prop := {
  sh_size : 1 ≤ max_aggregation_size d ≤ AggregationSize T;
  sh_next_size : agg_size (next d) = max_aggregation_size d;
  sh_queue : 1 ≤ publish_queue_size d ≤ MaxPendingPublishQueueSize T;
  sh_len : Z.of_nat (length (statements (next d))) < max_aggregation_size d;
  sh_next : Forall entry_ok (statements (next d));
  sh_full : Z.of_nat (size (should_publish d)) ≤ publish_queue_size d;
  sh_pub : map_Forall (queued_ok d) (should_publish d);
  sh_ids : ids_ok d;
  sh_fee : 0 ≤ fee (data (delivery d)) ∧ 0 ≤ owner_tip (data (delivery d))
}.

Definition allowed (s : state) (id : Z) : gset (Z * string) :=
  filter (λ k, k.1 = id) (SubmittersAllowlist s).

(** Nothing waits in the domain and nobody is on its allowlist. *)
Definition vacant (s : state) (d : domain) : Prop :=
  should_publish d = ∅ ∧ statements (next d) = [] ∧
  (proof_rules d ≠ ProofOnlyAllowlisted ∨ allowed s (dom_id d) = ∅).

#[export] Instance vacant_dec s d : Decision (vacant s d).
Proof. unfold vacant. apply _. Defined.

Definition hold_ok (s : state) (d : domain) : Prop :=
  dom_state d ≠ Ready → dom_state d = if decide (vacant s d) then Removable else HoldState.

Definition tickets_ok (s : state) (d : domain) : Prop :=
  ∀ t, ticket_allowlist d = Some t →
    is_Some (user_account (owner d)) ∧ count t = Z.of_nat (size (allowed s (dom_id d))).

Record domain_ok (s : state) (id : Z) (d : domain) : Prop := {
  dk_id : dom_id d = id;
  dk_range : 0 ≤ id < NextDomainId s;
  dk_shape : shape d;
  dk_hold : hold_ok s d;
  dk_tickets : tickets_ok s d
}.

Record inv (s : state) : Prop := {
  inv_next : 0 ≤ NextDomainId s ≤ u32_max;
  inv_domains : map_Forall (domain_ok s) (Domains s);
  inv_allowlist id a : (id, a) ∈ SubmittersAllowlist s →
    ∃ d, Domains s !! id = Some d ∧ proof_rules d = ProofOnlyAllowlisted;
  inv_wf : hold_wf (Runtime s);
  inv_held r a : escrow r → pending r a s ≤ held (Runtime s) r a
}.

(** The same storage, up to events and the rest of the runtime. *)
Definition same_store (s s' : state) : Prop :=
  NextDomainId s' = NextDomainId s ∧ Domains s' = Domains s ∧
  SubmittersAllowlist s' = SubmittersAllowlist s ∧ Published s' = Published s.

Lemma same_store_refl s : same_store s s.
Proof. done. Qed.

Lemma same_store_trans s1 s2 s3 : same_store s1 s2 → same_store s2 s3 → same_store s1 s3.
Proof. intros (?&?&?&?) (?&?&?&?). split_and!; congruence. Qed.

Lemma same_store_event s e : same_store s (add_event e s).
Proof. done. Qed.

(** ** Domains *)

Lemma dom_pending_nonneg r a d : shape d → 0 ≤ dom_pending r a d.
Proof.
  intros [_ _ _ _ Hn _ Hp _ _]. unfold dom_pending. pose proof (reserved_nonneg r a _ Hn).
  assert (0 ≤ msum (λ x, reserved r a (statements x)) (should_publish d)); [|lia].
  apply msum_nonneg. intros k x Hx. apply reserved_nonneg. by destruct (Hp k x Hx) as (_ & _ & _ & ?).
Qed.

(** [dom_state] after [handle_hold_state]. *)
Definition settled (s : state) (d : domain) : DomainState :=
  if decide (dom_state d = Ready) then Ready
  else if decide (vacant s d) then Removable else HoldState.

Lemma vacant_same s s' d :
  allowed s' (dom_id d) = allowed s (dom_id d) → vacant s' d ↔ vacant s d.
Proof. intros H. unfold vacant. by rewrite H. Qed.

Lemma settled_same s s' d :
  allowed s' (dom_id d) = allowed s (dom_id d) → settled s' d = settled s d.
Proof.
  intros H. unfold settled. by rewrite (decide_ext (vacant s' d) (vacant s d)) by by apply vacant_same.
Qed.

Lemma hold_ok_same s s' d :
  allowed s' (dom_id d) = allowed s (dom_id d) → hold_ok s d → hold_ok s' d.
Proof.
  intros H. unfold hold_ok. by rewrite (decide_ext (vacant s' d) (vacant s d)) by by apply vacant_same.
Qed.

Lemma tickets_ok_same s s' d :
  allowed s' (dom_id d) = allowed s (dom_id d) → tickets_ok s d → tickets_ok s' d.
Proof. intros H. unfold tickets_ok. by rewrite H. Qed.

Lemma same_store_allowed s s' id : same_store s s' → allowed s' id = allowed s id.
Proof. intros (_ & _ & H & _). unfold allowed. by rewrite H. Qed.

Lemma update_hold_state_run d s :
  update_hold_state d s =
  ROk (set_dom_state (if decide (vacant s d) then Removable else HoldState) d) s.
Proof.
  unfold update_hold_state, is_allowlist_empty, gets, mbind, M_bind, mret, M_ret. do 2 f_equal.
  unfold vacant, allowed. repeat case_bool_decide; case_decide; simpl; try done; tauto.
Qed.

Lemma handle_hold_state_run d s :
  ∃ s', handle_hold_state d s = ROk (set_dom_state (settled s d) d) s' ∧
    same_store s s' ∧ Runtime s' = Runtime s ∧ Events s `prefix_of` Events s'.
Proof.
  unfold handle_hold_state, settled. case_bool_decide as Hr; case_decide as Hr'; try done.
  - exists s. split; [|done]. unfold mret, M_ret. f_equal. destruct d; simpl in *. by subst.
  - unfold mbind at 1, M_bind at 1. rewrite update_hold_state_run.
    case_bool_decide; eexists; (split; [reflexivity|]); split_and!; try done. by eexists.
Qed.

Lemma hold_ok_settled s d : hold_ok s (set_dom_state (settled s d) d).
Proof.
  unfold hold_ok, settled. simpl. intros Hr. case_decide; [done|]. reflexivity.
Qed.

Lemma pop_run d s :
  statements (next d) ≠ [] → agg_size (next d) ≤ AggregationSize T →
  (agg_id (next d) < u64_max ∧
   pop_next_aggregation T d s =
     ROk (Some (next d), set_next {| agg_id := agg_id (next d) + 1; agg_size := agg_size (next d);
                                     statements := [] |} d) s) ∨
  (u64_max ≤ agg_id (next d) ∧
   pop_next_aggregation T d s =
     ROk (Some (next d), set_next {| agg_id := 0; agg_size := agg_size (next d); statements := [] |}
                           (set_dom_state HoldState d))
       (add_event (DomainStateChanged (dom_id d) HoldState) s)).
Proof.
  intros Hne Hsz. unfold pop_next_aggregation. rewrite bool_decide_eq_false_2 by done.
  unfold create_next, create. destruct (Z.leb_spec (agg_size (next d)) (AggregationSize T)); [|lia].
  destruct (Z.leb_spec (agg_id (next d) + 1) u64_max).
  - left. split; [lia|done].
  - right. split; [lia|]. unfold mbind, M_bind, emit_state_changed_event, deposit_event, modify.
    simpl. destruct (Z.leb_spec (agg_size (next d)) (AggregationSize T)); [done|lia].
Qed.

(** ** Adding a statement *)

Definition entry (a : string) (x : Reserve) (st : string) : StatementEntry :=
  {| account := a; reserve := x; statement := st |}.

(** The domain with one more statement, its open aggregation moved to the queue
    when that completes it. *)
Definition add_statement (d : domain) (e : StatementEntry) : domain :=
  let n := {| agg_id := agg_id (next d); agg_size := agg_size (next d);
              statements := statements (next d) ++ [e] |} in
  if agg_size n <=? Z.of_nat (length (statements n)) then
    set_should_publish (<[agg_id n := n]> (should_publish d))
      (if agg_id n <? u64_max
       then set_next {| agg_id := agg_id n + 1; agg_size := agg_size n; statements := [] |} d
       else set_next {| agg_id := 0; agg_size := agg_size n; statements := [] |}
              (set_dom_state HoldState d))
  else set_next n d.

Lemma can_add_spec d : shape d →
  can_add_statement d = true ↔
  Z.of_nat (size (should_publish d)) < publish_queue_size d ∨
  Z.of_nat (length (statements (next d))) + 1 < max_aggregation_size d.
Proof.
  intros [Hs Hns Hq Hl _ Hf _ _ _]. unfold can_add_statement, space_left. rewrite Hns.
  rewrite orb_true_iff, !Z.ltb_lt. lia.
Qed.

Lemma store_run d e s :
  shape d → can_add_statement d = true → dom_state d = Ready →
  ∃ o d' s', append_statement T d (account e) (reserve e) (statement e) s = ROk (o, d') s' ∧
    match o with
    | None => d' = add_statement d e ∧ s' = s
    | Some x => ∃ s'', available_aggregation T d' x s' = ROk (add_statement d e) s'' ∧
        same_store s s'' ∧ Runtime s'' = Runtime s ∧ Events s `prefix_of` Events s''
    end.
Proof.
  intros Hd Hc Hr. pose proof (proj1 (can_add_spec d Hd) Hc) as Hroom.
  pose proof Hd as [Hs Hns Hq Hl _ Hf Hp Hids _].
  unfold append_statement. destruct (Z.leb_spec (AggregationSize T) (Z.of_nat (length (statements (next d)))));
    [lia|]. cbn [mbind M_bind].
  set (n := {| agg_id := agg_id (next d); agg_size := agg_size (next d);
               statements := statements (next d) ++ [_] |}).
  assert (Hn : statements n ≠ []) by (unfold n; simpl; by destruct (statements (next d))).
  assert (He : n = {| agg_id := agg_id (next d); agg_size := agg_size (next d);
               statements := statements (next d) ++ [e] |}) by (unfold n; by destruct e).
  unfold add_statement. rewrite <- He. unfold is_next_aggregation_complete. cbn [next set_next].
  destruct (Z.leb_spec (agg_size n) (Z.of_nat (length (statements n)))) as [Hfull|Hnot].
  2: { do 3 eexists. split; [reflexivity|]. done. }
  assert (Hfree : should_publish d !! agg_id n = None).
  { apply eq_None_not_Some. intros Hk. destruct Hids as [[_ Hk']|(_ & Hr' & _)]; [|done].
    specialize (Hk' _ Hk). simpl in Hk'. lia. }
  assert (Hsz : Z.of_nat (size (should_publish d)) < publish_queue_size d).
  { destruct Hroom; [done|]. unfold n in Hfull. simpl in Hfull. rewrite length_app in Hfull.
    simpl in Hfull. lia. }
  destruct (pop_run (set_next n d) s) as [[Hid ->]|[Hid ->]]; [done|simpl; lia|..];
    cbn [next set_next] in Hid.
  all: do 3 eexists; (split; [reflexivity|]); unfold available_aggregation, mbind, M_bind;
    cbn [deposit_event modify]; cbn [should_publish set_next set_dom_state next];
    destruct (Z.leb_spec (MaxPendingPublishQueueSize T) (Z.of_nat (size (should_publish d))));
    [lia|]; rewrite andb_false_r; cbn [should_publish set_should_publish set_next set_dom_state].
  - destruct (Z.ltb_spec (agg_id n) u64_max); [|lia].
    destruct (publish_queue_size _ <=? _); eexists; (split; [reflexivity|]); split_and!; try done; simpl; rewrite <- ?app_assoc; by eexists.
  - destruct (Z.ltb_spec (agg_id n) u64_max); [lia|].
    destruct (publish_queue_size _ <=? _); eexists; (split; [reflexivity|]); split_and!; try done; simpl; rewrite <- ?app_assoc; by eexists.
Qed.

Lemma add_statement_pending d e r a :
  shape d → dom_state d = Ready →
  dom_pending r a (add_statement d e) =
  dom_pending r a d + at_key (account e) (amount r (reserve e)) a.
Proof.
  intros [_ _ _ _ _ _ _ Hids _] Hr. unfold add_statement, dom_pending.
  assert (Hfree : should_publish d !! agg_id (next d) = None).
  { apply eq_None_not_Some. intros Hk. destruct Hids as [[_ Hk']|(_ & Hr' & _)]; [|done].
    specialize (Hk' _ Hk). lia. }
  destruct (_ <=? _); [destruct (_ <? _)|]; cbn [next should_publish set_next set_should_publish
    set_dom_state statements agg_id]; rewrite ?msum_insert by done; cbn [statements];
    rewrite ?reserved_app; simpl; lia.
Qed.

Lemma add_statement_shape d e :
  shape d → can_add_statement d = true → dom_state d = Ready → entry_ok e → shape (add_statement d e).
Proof.
  intros Hd Hc Hr He. pose proof (proj1 (can_add_spec d Hd) Hc) as Hroom.
  destruct Hd as [Hs Hns Hq Hl Hn Hf Hp Hids Hfee]. destruct Hids as [[Hid Hk]|(_ & ? & _)]; [|done].
  assert (Hfree : should_publish d !! agg_id (next d) = None).
  { apply eq_None_not_Some. intros H. specialize (Hk _ H). lia. }
  assert (Hne : Forall entry_ok (statements (next d) ++ [e])).
  { apply Forall_app. auto. }
  unfold add_statement. cbn [agg_size statements agg_id]. rewrite Hns, length_app. simpl length.
  destruct (Z.leb_spec (max_aggregation_size d) (Z.of_nat (length (statements (next d)) + 1))).
  2: { split; simpl; rewrite ?length_app; simpl; try done; try lia. left. done. }
  assert (Hins : Z.of_nat (size (<[agg_id (next d) := {| agg_id := agg_id (next d);
    agg_size := max_aggregation_size d; statements := statements (next d) ++ [e] |} ]>
    (should_publish d))) ≤ publish_queue_size d).
  { rewrite map_size_insert_None by done. lia. }
  assert (Hpub : map_Forall (queued_ok d) (<[agg_id (next d) := {| agg_id := agg_id (next d);
    agg_size := max_aggregation_size d; statements := statements (next d) ++ [e] |} ]>
    (should_publish d))).
  { apply map_Forall_insert_2; [|done]. split_and!; simpl; try done. rewrite length_app. simpl. lia. }
  destruct (Z.ltb_spec (agg_id (next d)) u64_max).
  - split; simpl; try done; try lia. left. simpl. split; [lia|]. intros k.
    destruct (decide (k = agg_id (next d))) as [->|]; [lia|].
    rewrite lookup_insert_ne by done. intros H'. specialize (Hk _ H'). lia.
  - split; simpl; try done; try lia. right. simpl. split_and!; try done. intros k.
    destruct (decide (k = agg_id (next d))) as [->|]; [lia|].
    rewrite lookup_insert_ne by done. intros H'. specialize (Hk _ H'). lia.
Qed.

(** ** Reserving funds *)

(** What a statement costs its submitter when the total delivery fee is [tf]. *)
Definition price (s : state) (d : domain) (tf : Z) : Reserve :=
  let estimated := EstimateCallFee T (Runtime s) (max_aggregation_size d) in
  {| r_aggregate := saturating_add estimated (default 0 (ComputePublisherTip T estimated))
                      / agg_size (next d);
     r_delivery := tf / agg_size (next d) |}.

(** The same balances. *)
Definition same_funds (l l' : L) : Prop :=
  hold_wf l' ∧ (∀ r b, held l' r b = held l r b) ∧ (∀ b, free l' b = free l b).

(** [x] moved from the balance of [a] to its holds. *)
Definition escrowed (a : string) (x : Reserve) (l l' : L) : Prop :=
  hold_wf l' ∧ (∀ r b, escrow r → held l' r b = held l r b + at_key a (amount r x) b) ∧
  (∀ b, free l' b = free l b - at_key a (r_aggregate x + r_delivery x) b).

Lemma price_nonneg s d tf : config_ok → shape d → 0 ≤ tf →
  0 ≤ r_aggregate (price s d tf) ∧ 0 ≤ r_delivery (price s d tf).
Proof.
  intros HT [Hs Hns _ _ _ _ _ _ _] Htf. unfold price. simpl.
  set (est := EstimateCallFee T (Runtime s) (max_aggregation_size d)).
  pose proof (cfg_fee HT (Runtime s) (max_aggregation_size d)) as He. fold est in He.
  assert (0 ≤ default 0 (ComputePublisherTip T est)).
  { destruct (ComputePublisherTip T est) as [t|] eqn:E; simpl; [|lia]. by eapply cfg_tip. }
  split; apply Z.div_pos; try lia. unfold saturating_add, u128_max. lia.
Qed.

Lemma total_fee_nonneg d tf : shape d →
  total_fee (overflow_checks T) (data (delivery d)) = Some tf → 0 ≤ tf.
Proof.
  intros Hd. pose proof (sh_fee d Hd) as []. unfold total_fee.
  destruct (_ <=? _); [intros; simplify_eq; lia|]. destruct (overflow_checks T); [done|].
  intros [= <-]. apply Z.mod_pos_bound. lia.
Qed.

Lemma set_Runtime_id s : set_Runtime (Runtime s) s = s.
Proof. by destruct s. Qed.

(** One of the two holds of a reserve is refused. *)
Definition unaffordable (l : L) (a : string) (x : Reserve) : Prop :=
  hold l AggregationReason a (r_aggregate x) = None ∨
  ∃ l1, hold l AggregationReason a (r_aggregate x) = Some l1 ∧ hold l1 DeliveryReason a (r_delivery x) = None.

Lemma reserve_run d a s tf :
  config_ok → shape d → hold_wf (Runtime s) →
  total_fee (overflow_checks T) (data (delivery d)) = Some tf →
  (∃ l', reserve_currency T d a s = ROk None (set_Runtime l' s) ∧ same_funds (Runtime s) l' ∧
     unaffordable (Runtime s) a (price s d tf)) ∨
  (∃ l', reserve_currency T d a s = ROk (Some (price s d tf)) (set_Runtime l' s) ∧
         escrowed a (price s d tf) (Runtime s) l').
Proof.
  intros HT Hd Hw Htf. destruct (price_nonneg s d tf HT Hd) as [Ha Hdl];
    [by eapply total_fee_nonneg|].
  unfold reserve_currency, estimate_publish_aggregation_fee, gets, mbind, M_bind. rewrite Htf. simpl.
  change (saturating_add _ _ / _) with (r_aggregate (price s d tf)).
  change (tf / _) with (r_delivery (price s d tf)).
  set (x := price s d tf) in *.
  destruct (hold (Runtime s) AggregationReason a (r_aggregate x)) as [l1|] eqn:E1.
  2: { left. exists (Runtime s). rewrite set_Runtime_id. split; [done|]. split; [done|]. by left. }
  destruct (hold_spec _ _ _ _ _ Hw Ha E1) as (Hw1 & Hh1 & Hf1).
  destruct (hold l1 DeliveryReason a (r_delivery x)) as [l2|] eqn:E2.
  - right. exists l2. split; [by destruct x|].
    destruct (hold_spec _ _ _ _ _ Hw1 Hdl E2) as (Hw2 & Hh2 & Hf2). split_and!; [done| |].
    + intros r b [-> | ->]; rewrite Hh2, Hh1; unfold at_key; repeat case_decide; simplify_eq/=; lia.
    + intros b. rewrite Hf2, Hf1. unfold at_key. case_decide; lia.
  - left. assert (Hl : 0 ≤ r_aggregate x ≤ held l1 AggregationReason a).
    { rewrite Hh1, at_key_eq. pose proof (held_nonneg _ AggregationReason a Hw). lia. }
    destruct (release_ok l1 AggregationReason a (r_aggregate x) Exact Hw1 Hl) as [[l2 y] E3].
    rewrite E3. exists l2. split; [done|].
    destruct (release_spec _ _ _ _ _ _ _ Hw1 Ha E3) as (Hw2 & -> & Hh2 & Hf2).
    rewrite Z.min_l in Hh2, Hf2 by lia. split; [split_and!; [done| |]|right; by exists l1].
    + intros r b. rewrite Hh2, Hh1. lia.
    + intros b. rewrite Hf2, Hf1. lia.
Qed.

(** ** The callback *)

Definition authorized (s : state) (d : domain) (a : string) : Prop :=
  match proof_rules d with
  | ProofUntrusted => True
  | ProofOnlyOwner => owner d = Account a
  | ProofOnlyAllowlisted => (dom_id d, a) ∈ SubmittersAllowlist s
  end.

(** When the callback panics: a domain of the manager that accepts its owner's
    proofs only, or a delivery fee that overflows in a checked build. *)
Definition add_proof_panics (s : state) (d : domain) (a : string) : Prop :=
  dom_state d = Ready ∧ can_add_statement d = true ∧
  (proof_rules d = ProofOnlyOwner ∧ owner d = Manager ∨
   authorized s d a ∧ total_fee (overflow_checks T) (data (delivery d)) = None).

(** The domain after an accepted statement. *)
Definition with_statement (s : state) (d : domain) (e : StatementEntry) : domain :=
  set_dom_state (settled s (add_statement d e)) (add_statement d e).

Lemma is_authorized_run d a s :
  proof_rules d = ProofOnlyOwner ∧ owner d = Manager ∧ is_authorized_to_add_proof d a s = RPanic ∨
  ¬ (proof_rules d = ProofOnlyOwner ∧ owner d = Manager) ∧
  ∃ b : bool, is_authorized_to_add_proof d a s = ROk b s ∧ (b = true ↔ authorized s d a).
Proof.
  unfold is_authorized_to_add_proof, authorized. destruct (proof_rules d).
  - right. split; [naive_solver|]. by exists true.
  - destruct (owner d) as [o|]; [right|by left]. split; [naive_solver|].
    exists (bool_decide (a = o)). split; [done|]. rewrite bool_decide_eq_true. naive_solver.
  - right. split; [naive_solver|]. exists (bool_decide ((dom_id d, a) ∈ SubmittersAllowlist s)).
    split; [done|]. by rewrite bool_decide_eq_true.
Qed.

(** Why a proof is refused. *)
Inductive refusal (id : Z) (s : state) (d : domain) (a : string) : CannotAggregateCause → Prop :=
  | refused_state : dom_state d ≠ Ready → refusal id s d a (CauseInvalidDomainState id (dom_state d))
  | refused_full : dom_state d = Ready → can_add_statement d = false → refusal id s d a (DomainStorageFull id)
  | refused_user : dom_state d = Ready → can_add_statement d = true → ¬ authorized s d a →
      refusal id s d a UnauthorizedUser
  | refused_funds tf : dom_state d = Ready → can_add_statement d = true → authorized s d a →
      total_fee (overflow_checks T) (data (delivery d)) = Some tf → unaffordable (Runtime s) a (price s d tf) →
      refusal id s d a InsufficientFunds.

(** The storage as it was, but for the event. *)
Definition refused (id : Z) (s : state) (d : domain) (a st : string) (s' : state) : Prop :=
  same_store s s' ∧ same_funds (Runtime s) (Runtime s') ∧
  ∃ cause, refusal id s d a cause ∧ Events s' = Events s ++ [CannotAggregate st cause].

(** The statement in the domain and its price on hold. *)
Definition stored (id : Z) (s : state) (d : domain) (a st : string) (s' : state) : Prop :=
  dom_state d = Ready ∧ can_add_statement d = true ∧ authorized s d a ∧
  NextDomainId s' = NextDomainId s ∧ SubmittersAllowlist s' = SubmittersAllowlist s ∧ Published s' = Published s ∧
  (∃ evs, Events s' = Events s ++ NewProof st id (agg_id (next d)) :: evs) ∧
  ∃ tf, total_fee (overflow_checks T) (data (delivery d)) = Some tf ∧
    let x := price s d tf in
    0 ≤ r_aggregate x ∧ 0 ≤ r_delivery x ∧ escrowed a x (Runtime s) (Runtime s') ∧
    Domains s' = <[id := with_statement s d (entry a x st)]> (Domains s).

Lemma refused_event id s d a st cause :
  hold_wf (Runtime s) → refusal id s d a cause → refused id s d a st (add_event (CannotAggregate st cause) s).
Proof. intros Hw Hc. split_and!; try done. by exists cause. Qed.

(** Once the funds are on hold the statement is stored. *)
Lemma stored_run id d e s l' :
  shape d → can_add_statement d = true → dom_state d = Ready →
  let s1 := add_event (NewProof (statement e) id (agg_id (next d))) (set_Runtime l' s) in
  ∃ s2, ('(to_publish, self) ← append_statement T d (account e) (reserve e) (statement e);
         self ← match to_publish with
                | Some aggregation => available_aggregation T self aggregation
                | None => mret self
                end;
         self ← handle_hold_state self;
         mret (Some self)) s1 = ROk (Some (with_statement s d e)) s2 ∧
    same_store s s2 ∧ Runtime s2 = l' ∧
    ∃ evs, Events s2 = Events s ++ NewProof (statement e) id (agg_id (next d)) :: evs.
Proof.
  intros Hd Hc Hr s1. destruct (store_run d e s1 Hd Hc Hr) as (o & d' & s2 & Ha & Ho).
  rewrite (bind_ROk _ _ _ _ _ Ha).
  assert (∃ s3, match o with Some g => available_aggregation T d' g | None => mret d' end s2 =
    ROk (add_statement d e) s3 ∧ same_store s1 s3 ∧ Runtime s3 = Runtime s1 ∧ Events s1 `prefix_of` Events s3)
    as (s3 & E3 & Hs3 & Hr3 & P3).
  { destruct o as [g|]; [exact Ho|]. destruct Ho as [-> ->]. by exists s1. }
  rewrite (bind_ROk _ _ _ _ _ E3).
  destruct (handle_hold_state_run (add_statement d e) s3) as (s4 & E4 & Hs4 & Hr4 & P4).
  rewrite (bind_ROk _ _ _ _ _ E4). exists s4. split_and!.
  - unfold with_statement. by rewrite (settled_same s s3) by by apply same_store_allowed.
  - eapply same_store_trans; [|exact Hs4]. done.
  - by rewrite Hr4, Hr3.
  - destruct (transitivity P3 P4) as [evs ->]. exists evs. unfold s1. simpl. by rewrite <- app_assoc.
Qed.

Lemma add_proof_run id d a st s :
  config_ok → shape d → hold_wf (Runtime s) →
  match add_proof T id d a st s with
  | RPanic => add_proof_panics s d a
  | RErr _ => False
  | ROk None s' => ¬ add_proof_panics s d a ∧ refused id s d a st s'
  | ROk (Some d') s' => ¬ add_proof_panics s d a ∧ same_store s s' ∧
      (∃ evs, Events s' = Events s ++ NewProof st id (agg_id (next d)) :: evs) ∧
      dom_state d = Ready ∧ can_add_statement d = true ∧ authorized s d a ∧
      ∃ x, (∃ tf, total_fee (overflow_checks T) (data (delivery d)) = Some tf ∧ x = price s d tf) ∧
        entry_ok (entry a x st) ∧ escrowed a x (Runtime s) (Runtime s') ∧
        d' = with_statement s d (entry a x st)
  end.
Proof.
  intros HT Hd Hw. unfold add_proof.
  case_bool_decide as Hr; cbn [negb].
  2: { unfold mbind, M_bind. simpl. split; [by intros (? & _)|]. apply refused_event; [done|by constructor]. }
  destruct (can_add_statement d) eqn:Hc; cbn [negb].
  2: { unfold mbind, M_bind. simpl. split; [intros (_ & ? & _); congruence|]. apply refused_event; [done|by constructor]. }
  destruct (is_authorized_run d a s) as [(H1 & H2 & E)|(Hno & b & E & Hb)].
  { rewrite (bind_RPanic _ _ _ E). split_and!; auto. }
  rewrite (bind_ROk _ _ _ _ _ E). destruct b; cbn [negb].
  2: { unfold mbind, M_bind. simpl. split; [intros (_ & _ & [?|[?%Hb _]]); done|].
       apply refused_event; [done|]. constructor; [done..|]. by intros ?%Hb. }
  assert (Hau : authorized s d a) by by apply Hb.
  destruct (total_fee (overflow_checks T) (data (delivery d))) as [tf|] eqn:Htf.
  2: { rewrite bind_RPanic; [split_and!; auto|].
       unfold reserve_currency, gets, mbind, M_bind. by rewrite Htf. }
  assert (Hnp : ¬ add_proof_panics s d a).
  { intros (_ & _ & [?|[_ ?]]); [done|congruence]. }
  destruct (reserve_run d a s tf HT Hd Hw Htf) as [(l' & Er & Hl & Hua)|(l' & Er & Hl)];
    rewrite (bind_ROk _ _ _ _ _ Er).
  { unfold mbind, M_bind. simpl. split; [done|]. split_and!; try done. exists InsufficientFunds.
    split; [by econstructor|done]. }
  set (x := price s d tf) in *.
  destruct (stored_run id d (entry a x st) s l' Hd Hc Hr) as (s2 & E2 & Hs2 & Hr2 & Hev).
  rewrite (bind_ROk _ _ _ tt (add_event (NewProof st id (agg_id (next d))) (set_Runtime l' s))) by done.
  cbn [entry account reserve statement] in E2. rewrite E2. split_and!; try done. exists x. split_and!.
  - by exists tf.
  - destruct (price_nonneg s d tf HT Hd); [by eapply total_fee_nonneg|]. done.
  - by rewrite Hr2.
  - done.
Qed.

(** ** Writing a domain back *)

Lemma pending_write r a s id d d' :
  Domains s !! id = Some d →
  msum (dom_pending r a) (<[id := d']> (Domains s)) =
  pending r a s - dom_pending r a d + dom_pending r a d'.
Proof. intros H. apply (msum_update (dom_pending r a) _ _ _ _ H). Qed.

Lemma inv_write s s' id d d' :
  inv s → Domains s !! id = Some d →
  NextDomainId s' = NextDomainId s → Domains s' = Domains s →
  (∀ id', id' ≠ id → allowed s' id' = allowed s id') →
  (∀ a, (id, a) ∈ SubmittersAllowlist s' → proof_rules d' = ProofOnlyAllowlisted) →
  dom_id d' = id → shape d' → hold_ok s' d' → tickets_ok s' d' → hold_wf (Runtime s') →
  (∀ r a, escrow r → held (Runtime s) r a - dom_pending r a d ≤
                     held (Runtime s') r a - dom_pending r a d') →
  inv (set_Domains (<[id := d']> (Domains s')) s').
Proof.
  intros Hi Hd Hn HD Hal Hpr Hid Hsh Hho Hti Hw Hh. pose proof Hi as [H1 H2 H3 H4 H5].
  split; simpl; rewrite ?Hn, ?HD.
  - done.
  - intros id' d0. rewrite lookup_insert_Some. intros [[<- <-]|[Hne Hd0]].
    { split; simpl; try done. rewrite Hn. by apply (dk_range _ _ _ (H2 _ d Hd)). }
    pose proof (H2 id' d0 Hd0) as [A1 A2 A3 A4 A5]. split; simpl; rewrite ?Hn; try done.
    + eapply hold_ok_same; [|exact A4]. rewrite A1. by apply Hal.
    + eapply tickets_ok_same; [|exact A5]. rewrite A1. by apply Hal.
  - intros id' a Ha. destruct (decide (id' = id)) as [->|Hne].
    { exists d'. rewrite lookup_insert_eq. eauto. }
    rewrite lookup_insert_ne by done. apply (H3 id' a).
    assert (Hin : (id', a) ∈ allowed s' id') by (apply elem_of_filter; done).
    rewrite Hal in Hin by done. by apply elem_of_filter in Hin as [_ ?].
  - done.
  - intros r a Hr. unfold pending. simpl. rewrite (pending_write _ _ _ _ _ _ Hd).
    specialize (H5 r a Hr). specialize (Hh r a Hr). lia.
Qed.

(** Events and movements of other funds do not matter. *)
Lemma agg_inv_same_store s s' :
  inv s → same_store s s' → hold_wf (Runtime s') →
  (∀ r a, escrow r → held (Runtime s) r a ≤ held (Runtime s') r a) → inv s'.
Proof.
  intros [H1 H2 H3 H4 H5] Hs Hw Hh. pose proof (same_store_allowed s s') as Hal.
  destruct Hs as (E1 & E2 & E3 & E4). split; rewrite ?E1, ?E2, ?E3; try done.
  - intros id d Hd. destruct (H2 id d Hd) as [A1 A2 A3 A4 A5]. split; rewrite ?E1; try done.
    + eapply hold_ok_same; [|exact A4]. by apply Hal.
    + eapply tickets_ok_same; [|exact A5]. by apply Hal.
  - intros r a Hr. unfold pending. rewrite E2. specialize (H5 r a Hr). specialize (Hh r a Hr).
    unfold pending in H5. lia.
Qed.

Lemma add_statement_static d e :
  dom_id (add_statement d e) = dom_id d ∧ proof_rules (add_statement d e) = proof_rules d ∧
  ticket_allowlist (add_statement d e) = ticket_allowlist d ∧ owner (add_statement d e) = owner d.
Proof. unfold add_statement. by destruct (_ <=? _); [destruct (_ <? _)|]. Qed.

Lemma shape_set_state d x :
  (dom_state d ≠ Ready → x ≠ Ready) → shape d → shape (set_dom_state x d).
Proof.
  intros Hx [H1 H2 H3 H4 H5 H6 H7 H8 H9]. split; try done.
  destruct H8 as [?|(? & ? & ?)]; [by left|right]. simpl. auto.
Qed.

Lemma settled_not_ready s d : dom_state d ≠ Ready → settled s d ≠ Ready.
Proof. intros H. unfold settled. rewrite decide_False by done. by case_decide. Qed.

Lemma inv_with_statement s s' id d e x :
  inv s → Domains s !! id = Some d → same_store s s' →
  dom_state d = Ready → can_add_statement d = true → entry_ok e → reserve e = x →
  escrowed (account e) x (Runtime s) (Runtime s') →
  inv (set_Domains (<[id := with_statement s d e]> (Domains s')) s').
Proof.
  intros Hi Hd Hs Hr Hc He Hx (Hw & Hh & _). pose proof (inv_domains s Hi id d Hd) as [A1 A2 A3 A4 A5].
  destruct (add_statement_static d e) as (S1 & S2 & S3 & S4).
  pose proof (same_store_allowed s s') as Hal. destruct Hs as (E1 & E2 & E3 & E4).
  eapply inv_write; try done.
  - intros. by apply Hal.
  - intros a Ha. rewrite E3 in Ha. destruct (inv_allowlist s Hi id a Ha) as (d0 & Hd0 & Hp).
    assert (d0 = d) as -> by congruence. simpl. by rewrite S2.
  - simpl. by rewrite S1.
  - apply shape_set_state; [apply settled_not_ready|]. by apply add_statement_shape.
  - eapply (hold_ok_same s); [by apply Hal|]. apply hold_ok_settled.
  - intros t. unfold with_statement. simpl. rewrite S3, S1, S4, Hal by done. apply A5.
  - intros r a Her. rewrite (Hh r a Her), <- Hx.
    change (dom_pending r a (with_statement s d e)) with (dom_pending r a (add_statement d e)).
    rewrite add_statement_pending by done. lia.
Qed.

(** The callback keeps the invariant, and panics exactly as [add_proof_panics]
    says. *)
Lemma on_proof_verified_run a id st s :
  config_ok → inv s →
  match on_proof_verified T a id st s with
  | RPanic => ∃ a' id' d, a = Some a' ∧ id = Some id' ∧ Domains s !! id' = Some d ∧
      add_proof_panics s d a'
  | RErr _ => False
  | ROk _ s' => inv s' ∧ ∀ a' id' d, a = Some a' → id = Some id' → Domains s !! id' = Some d →
      ¬ add_proof_panics s d a'
  end.
Proof.
  intros HT Hi. unfold on_proof_verified.
  assert (Hev : ∀ e, inv (add_event e s)) by
    (intros e; eapply agg_inv_same_store; [exact Hi|done|apply Hi|done]).
  destruct a as [a|], id as [id|]; try (simpl; split; [apply Hev || done|naive_solver]).
  rewrite (bind_ROk _ _ _ (Domains s) s) by done.
  destruct (Domains s !! id) as [d|] eqn:Hd; [|simpl; split; [apply Hev|naive_solver]].
  pose proof (inv_domains s Hi id d Hd) as Hok.
  pose proof (add_proof_run id d a st s HT (dk_shape _ _ _ Hok) (inv_wf s Hi)) as Hrun.
  unfold mbind, M_bind. destruct (add_proof T id d a st s) as [[d'|] s'|e|]; [| |done|].
  - destruct Hrun as (Hnp & Hs & _ & Hr & Hc & _ & x & _ & He & Hx & ->). simpl.
    split; [by eapply inv_with_statement|naive_solver].
  - destruct Hrun as (Hnp & Hs & (Hw & Hh & _) & _). simpl. split; [|naive_solver].
    eapply agg_inv_same_store; [done..|]. intros r b _. by rewrite Hh.
  - naive_solver.
Qed.

(** ** Paying out *)

(** The free balance covers the locks, so nothing on hold is needed for them. *)
Definition unlocked (l : L) (a : string) : Prop := frozen l a ≤ free l a.

(** [z] is moved from the hold of [a] to [y]. *)
Definition moved (r : HoldReason) (a y : string) (z : Z) (l l' : L) : Prop :=
  hold_wf l' ∧
  (∀ r' b, held l' r' b = held l r' b - at_key (r, a) z (r', b)) ∧
  (∀ b, free l' b = free l b + at_key y z b) ∧
  (∀ b, frozen l' b = frozen l b).

Lemma release_run r a x s :
  hold_wf (Runtime s) → 0 ≤ x ≤ held (Runtime s) r a →
  ∃ l', (_ ← on_runtime (λ l, release l r a x BestEffort); mret tt) s = ROk tt (set_Runtime l' s) ∧
    moved r a a x (Runtime s) l'.
Proof.
  intros Hw Hx. destruct (release_ok (Runtime s) r a x BestEffort Hw Hx) as [[l' y] E]. exists l'.
  destruct (release_spec _ _ _ _ _ _ _ Hw (proj1 Hx) E) as (? & -> & ? & ?).
  rewrite Z.min_l in * by lia. split.
  - unfold on_runtime, gets, modify, mbind, M_bind. by rewrite E.
  - split_and!; try done. intros b. by eapply release_frozen.
Qed.

(** What is on hold goes to [dest] or back; of a locked account a part may stay. *)
Lemma handle_held_run r a dest x s :
  hold_wf (Runtime s) → 0 ≤ x ≤ held (Runtime s) r a →
  ∃ l' y z, handle_held_funds r a dest x s = ROk tt (set_Runtime l' s) ∧ moved r a y z (Runtime s) l' ∧
    0 ≤ z ≤ x ∧ (unlocked (Runtime s) a → z = x) ∧
    (dest = Some y ∨ y = a ∧ ∀ o, dest = Some o → transfer_on_hold (Runtime s) r a o x = None).
Proof.
  intros Hw Hx. destruct (release_run r a x s Hw Hx) as (l0 & Hrun & Hm0). unfold handle_held_funds.
  destruct dest as [o|].
  2: { exists l0, a, x. rewrite (bind_ROk _ _ _ None s) by done. split_and!; try done; try lia. by right. }
  destruct (transfer_on_hold (Runtime s) r a o x) as [[l1 y]|] eqn:E.
  - exists l1, o, y. destruct (transfer_spec _ _ _ _ _ _ _ Hw (proj1 Hx) E) as (? & ? & Hu & ? & ?).
    rewrite Z.min_l in * by lia. split; [|split; [|split; [lia|split; [done|by left]]]].
    + unfold on_runtime, gets, modify, mbind, M_bind. by rewrite E.
    + split_and!; try done. intros b. by eapply transfer_frozen.
  - exists l0, a, x. rewrite (bind_ROk _ _ _ None s).
    2: { unfold on_runtime, gets, mbind, M_bind. by rewrite E. }
    split_and!; try done; try lia. right. split; [done|]. intros o' [= <-]. exact E.
Qed.

Lemma moved_free_mono r a y z l l' b : 0 ≤ z → moved r a y z l l' → free l b ≤ free l' b.
Proof. intros Hz (_ & _ & Hf & _). rewrite Hf. pose proof (at_key_range y b z Hz). lia. Qed.

Lemma moved_unlocked r a y z l l' b : 0 ≤ z → moved r a y z l l' → unlocked l b → unlocked l' b.
Proof.
  intros Hz Hm Hu. pose proof (moved_free_mono r a y z l l' b Hz Hm). destruct Hm as (_ & _ & _ & Hr).
  unfold unlocked in *. rewrite Hr. lia.
Qed.

(** What [b] gains when [l] is paid out in full, and all that is paid. *)
Fixpoint gained (aggregator : User) (o b : string) (l : list StatementEntry) : Z :=
  match l with
  | [] => 0
  | e :: l => at_key (default (account e) (user_account aggregator)) (r_aggregate (reserve e)) b
              + at_key o (r_delivery (reserve e)) b + gained aggregator o b l
  end.

Fixpoint paid (l : list StatementEntry) : Z :=
  match l with [] => 0 | e :: l => r_aggregate (reserve e) + r_delivery (reserve e) + paid l end.

(** From the balances of [l0] on, [o] can receive transfers up to [n] in all. *)
Definition can_receive (l0 : L) (n : Z) (o : string) : Prop :=
  ∀ (l : L) (r : HoldReason) (a : string) x, hold_wf l → free l0 o ≤ free l o → free l o + x ≤ free l0 o + n →
    0 ≤ x ≤ held l r a → is_Some (transfer_on_hold l r a o x).

Lemma can_receive_mono l0 l1 n m o :
  free l0 o ≤ free l1 o → free l1 o + m ≤ free l0 o + n → can_receive l0 n o → can_receive l1 m o.
Proof. intros H1 H2 Hc l r a x Hw Hf Hx Hh. apply Hc; [done|lia|lia|done]. Qed.

(** One statement is paid. *)
Lemma pay_one_run aggregator o e s :
  hold_wf (Runtime s) → entry_ok e →
  (∀ r, escrow r → amount r (reserve e) ≤ held (Runtime s) r (account e)) →
  ∃ l1 l2 y1 y2 z1 z2,
    (_ ← handle_held_funds AggregationReason (account e) (user_account aggregator) (r_aggregate (reserve e));
     handle_held_funds DeliveryReason (account e) (Some o) (r_delivery (reserve e))) s =
      ROk tt (set_Runtime l2 s) ∧
    moved AggregationReason (account e) y1 z1 (Runtime s) l1 ∧ moved DeliveryReason (account e) y2 z2 l1 l2 ∧
    0 ≤ z1 ≤ r_aggregate (reserve e) ∧ 0 ≤ z2 ≤ r_delivery (reserve e) ∧
    (unlocked (Runtime s) (account e) → z1 = r_aggregate (reserve e) ∧ z2 = r_delivery (reserve e)) ∧
    ((∀ o', user_account aggregator = Some o' ∨ o' = o →
        can_receive (Runtime s) (r_aggregate (reserve e) + r_delivery (reserve e)) o') →
     y1 = default (account e) (user_account aggregator) ∧ y2 = o).
Proof.
  intros Hw [He1 He2] Hres. pose proof (Hres AggregationReason (or_introl eq_refl)) as H1.
  pose proof (Hres DeliveryReason (or_intror eq_refl)) as H2. cbn [amount] in H1, H2.
  destruct (handle_held_run AggregationReason (account e) (user_account aggregator) _ s Hw (conj He1 H1))
    as (l1 & y1 & z1 & E1 & M1 & Z1 & U1 & Y1). pose proof M1 as (Hw1 & Hh1 & Hf1 & _).
  assert (H2' : 0 ≤ r_delivery (reserve e) ≤ held l1 DeliveryReason (account e)).
  { rewrite Hh1, at_key_ne by congruence. lia. }
  destruct (handle_held_run DeliveryReason (account e) (Some o) _ (set_Runtime l1 s) Hw1 H2')
    as (l2 & y2 & z2 & E2 & M2 & Z2 & U2 & Y2). cbn [Runtime set_Runtime] in M2, U2, Y2.
  exists l1, l2, y1, y2, z1, z2. split; [by rewrite (bind_ROk _ _ _ _ _ E1), E2|].
  do 4 (split; [done|]). split; [|intros H; split].
  - intros Hu. split; [by apply U1|]. apply U2. eapply moved_unlocked; [|exact M1|done]. lia.
  - destruct Y1 as [->|[-> Hn]]; [done|]. destruct (user_account aggregator) as [o'|] eqn:Eo; [|done].
    destruct (H o' (or_introl eq_refl) (Runtime s) AggregationReason (account e) (r_aggregate (reserve e)) Hw)
      as [? Hx]; [lia|lia|lia|]. by rewrite Hn in Hx.
  - destruct Y2 as [[= ->]|[-> Hn]]; [done|].
    destruct (H o (or_intror eq_refl) l1 DeliveryReason (account e) (r_delivery (reserve e)) Hw1) as [? Hx];
      [eapply moved_free_mono; [|exact M1]; lia| |done|by rewrite Hn in Hx].
    rewrite Hf1. pose proof (at_key_range y1 o z1 (proj1 Z1)). lia.
Qed.

Lemma paid_nonneg l : Forall entry_ok l → 0 ≤ paid l.
Proof. induction 1 as [|e l [] _ IH]; simpl; lia. Qed.

(** What is paid of a statement's reserve: all of it, unless locks keep a part. *)
Definition paid_part (l : L) (e p : StatementEntry) : Prop :=
  account p = account e ∧ statement p = statement e ∧ 0 ≤ r_aggregate (reserve p) ≤ r_aggregate (reserve e) ∧
  0 ≤ r_delivery (reserve p) ≤ r_delivery (reserve e) ∧ (unlocked l (account e) → p = e).

(** The reserves of [l] are paid, up to what locks keep on hold. *)
Definition settles (aggregator : User) (o : string) (l : list StatementEntry) (before after : L) : Prop :=
  ∃ parts, Forall2 (paid_part before) l parts ∧
    (∀ r a, escrow r → held after r a = held before r a - reserved r a parts) ∧
    ((∀ o', user_account aggregator = Some o' ∨ o' = o → can_receive before (paid l) o') →
     ∀ b, free after b = free before b + gained aggregator o b parts).

Lemma paid_part_mono l l' e p : (unlocked l (account e) → unlocked l' (account e)) → paid_part l' e p → paid_part l e p.
Proof. intros Hu (? & ? & ? & ? & Hp). split_and!; try done; try lia. auto. Qed.

Lemma parts_reserved l st parts r a :
  escrow r → Forall2 (paid_part l) st parts →
  0 ≤ reserved r a parts ≤ reserved r a st ∧ (unlocked l a → reserved r a parts = reserved r a st).
Proof.
  intros Hr. induction 1 as [|e p st parts (Ha & _ & H1 & H2 & Hu) _ [IH1 IH2]]; [done|]. simpl. rewrite Ha.
  assert (Hz : 0 ≤ amount r (reserve p) ≤ amount r (reserve e)) by by destruct Hr as [-> | ->].
  unfold at_key. case_decide as Hd; [|split; [lia|intros Hl; rewrite IH2 by done; lia]].
  split; [lia|]. intros Hl. rewrite IH2, Hu by by subst. done.
Qed.

(** Of accounts without locks all is paid. *)
Lemma parts_unlocked l st parts :
  Forall (λ e, unlocked l (account e)) st → Forall2 (paid_part l) st parts → parts = st.
Proof. intros Hu. induction 1 as [|e p st parts (_ & _ & _ & _ & H) _ IH]; [done|]. apply Forall_cons_1 in Hu as [? ?]. f_equal; auto. Qed.

Lemma pay_statements_run aggregator o l : ∀ s,
  hold_wf (Runtime s) → Forall entry_ok l →
  (∀ r a, escrow r → reserved r a l ≤ held (Runtime s) r a) →
  ∃ l', pay_statements aggregator o l s = ROk tt (set_Runtime l' s) ∧ hold_wf l' ∧
    settles aggregator o l (Runtime s) l'.
Proof.
  induction l as [|e l IH]; intros s Hw Hok Hres; simpl.
  { exists (Runtime s). rewrite set_Runtime_id. split_and!; try done. exists []. split_and!; [done|intros; simpl; lia..]. }
  apply Forall_cons_1 in Hok as [He Hok].
  assert (Hnn : ∀ r a, 0 ≤ reserved r a l) by (intros; by apply reserved_nonneg).
  destruct (pay_one_run aggregator o e s Hw He) as (l1 & l2 & y1 & y2 & z1 & z2 & E & M1 & M2 & Z1 & Z2 & U & Y).
  { intros r Hr. specialize (Hres r (account e) Hr). simpl in Hres. rewrite at_key_eq in Hres.
    specialize (Hnn r (account e)). lia. }
  pose proof M1 as (_ & Hh1 & Hf1 & _). pose proof M2 as (Hw2 & Hh2 & Hf2 & _).
  set (p := entry (account e) {| r_aggregate := z1; r_delivery := z2 |} (statement e)).
  assert (Hh : ∀ r a, escrow r → held l2 r a = held (Runtime s) r a - at_key (account e) (amount r (reserve p)) a).
  { intros r a [-> | ->]; cbn; rewrite Hh2, Hh1; unfold at_key; repeat case_decide; simplify_eq/=; lia. }
  assert (Hu : ∀ b, unlocked (Runtime s) b → unlocked l2 b).
  { intros b Hb. eapply moved_unlocked; [|exact M2|]; [lia|]. by eapply moved_unlocked; [|exact M1|]; [lia|]. }
  assert (Hp : paid_part (Runtime s) e p).
  { do 4 (split; [done|]). intros [-> ->]%U. unfold p. by destruct e as [? [? ?] ?]. }
  destruct (IH (set_Runtime l2 s)) as (l' & E' & Hw' & parts & Hps & Hh' & Hf'); [done|done| |].
  { intros r a Hr. simpl. rewrite Hh by done. specialize (Hres r a Hr). simpl in Hres.
    destruct Hp as (_ & _ & Hp1 & Hp2 & _). unfold at_key in *. destruct Hr as [-> | ->]; simpl in *; case_decide; lia. }
  cbn [Runtime set_Runtime] in Hps, Hh', Hf'. exists l'. split_and!; [|done|exists (p :: parts); split_and!].
  - etransitivity; [|exact E']. revert E. unfold mbind, M_bind. clear. destruct (handle_held_funds _ _ _ _ s); [|done..].
    intros ->. done.
  - constructor; [done|]. eapply Forall2_impl; [|exact Hps]. intros e1 p1. apply paid_part_mono. auto.
  - intros r a Hr. rewrite Hh', Hh by done. simpl. lia.
  - intros Hc b. destruct He as [He1 He2]. pose proof (paid_nonneg l Hok). destruct Y as [-> ->].
    { intros o' Ho'. eapply can_receive_mono; [| |by apply Hc]; simpl; lia. }
    rewrite Hf'; [rewrite Hf2, Hf1; simpl; lia|]. intros o' Ho'.
    pose proof (at_key_range (default (account e) (user_account aggregator)) o' z1 (proj1 Z1)).
    pose proof (at_key_range o o' z2 (proj1 Z2)).
    eapply can_receive_mono; [| |by apply Hc]; rewrite Hf2, Hf1; simpl; lia.
Qed.

(** ** Taking an aggregation *)

(** [x] is aggregation [id] of the domain. *)
Definition holds_aggregation (d : domain) (id : Z) (x : AggregationEntry) : Prop :=
  agg_id x = id ∧ statements x ≠ [] ∧ (x = next d ∨ should_publish d !! id = Some x).

(** An aggregation of the domain: the open one, or one that waits for its
    publication. *)
Definition in_domain (d : domain) (x : AggregationEntry) : Prop :=
  x = next d ∨ ∃ k, should_publish d !! k = Some x.

Definition static (d d' : domain) : Prop :=
  dom_id d' = dom_id d ∧ owner d' = owner d ∧ proof_rules d' = proof_rules d ∧
  aggregate_rules d' = aggregate_rules d ∧ delivery d' = delivery d ∧
  ticket_allowlist d' = ticket_allowlist d.

(** Aggregation [k] is not in the domain and cannot come back. *)
Definition gone (d : domain) (k : Z) : Prop :=
  should_publish d !! k = None ∧ (agg_id (next d) = 0 ∨ k < agg_id (next d)).

Lemma holds_not_gone d k x : shape d → holds_aggregation d k x → ¬ gone d k.
Proof.
  intros Hd (Hk & Hne & Hx) [Hg Hlt]. destruct Hx as [-> |Hx]; [|by rewrite Hx in Hg].
  destruct (sh_ids d Hd) as [[? _]|(_ & _ & Hs & _)]; [lia|by rewrite Hs in Hne].
Qed.

Lemma holds_length d k x :
  shape d → holds_aggregation d k x → Z.of_nat (length (statements x)) ≤ AggregationSize T.
Proof.
  intros Hd (_ & _ & Hx). pose proof (sh_size d Hd). destruct Hx as [-> |Hx].
  - pose proof (sh_len d Hd). lia.
  - destruct (sh_pub d Hd k x Hx) as (_ & E1 & E2 & _). lia.
Qed.

Lemma add_statement_gone d e k :
  shape d → dom_state d = Ready → gone d k → gone (add_statement d e) k.
Proof.
  intros Hd Hr [Hk Hlt]. destruct (sh_ids d Hd) as [[? _]|(_ & ? & _)]; [|done].
  unfold add_statement, gone. cbn [agg_id agg_size statements].
  destruct (_ <=? _); [|simpl; lia || (split; [done|lia])].
  destruct (Z.ltb_spec (agg_id (next d)) u64_max); simpl; rewrite lookup_insert_ne by lia;
    (split; [done|lia]).
Qed.

(** What taking the aggregation [x] number [id] out of a domain does. *)
Definition taken d id x d' : Prop :=
  holds_aggregation d id x ∧ static d d' ∧ shape d' ∧
  Forall entry_ok (statements x) ∧ (dom_state d ≠ Ready → dom_state d' ≠ Ready) ∧
  (∀ r a, dom_pending r a d' = dom_pending r a d - reserved r a (statements x)) ∧
  (∀ y, ¬ holds_aggregation d' id y) ∧ gone d' id ∧ (∀ k, gone d k → gone d' k) ∧
  (∀ y, in_domain d' y → statements y = [] ∨ in_domain d y).

(** From the queue. *)
Lemma queued_taken d id x :
  shape d → agg_id (next d) ≠ id → should_publish d !! id = Some x →
  taken d id x (set_should_publish (delete id (should_publish d)) d).
Proof.
  intros Hd Hid Hx. pose proof Hd as [Hs Hns Hq Hl Hn Hf Hp Hids Hfee].
  destruct (Hp id x Hx) as (Q1 & Q2 & Q3 & Q4). split_and!; try done.
  - split_and!; [done| |by right]. intros E. rewrite E in Q3. simpl in Q3. lia.
  - assert (size (delete id (should_publish d)) ≤ size (should_publish d))%nat.
    { apply map_subseteq_size, delete_subseteq. }
    split; simpl; try done; try lia.
    { by apply map_Forall_delete. }
    destruct Hids as [[? Hk]|(? & ? & ? & Hk)]; [left|right]; simpl; split_and!; try done; try lia;
      intros k [y [_ Hy]%lookup_delete_Some]; apply Hk; by eexists.
  - intros r a. unfold dom_pending. simpl.
    rewrite (msum_delete (λ x, reserved r a (statements x)) _ id x Hx). lia.
  - intros y (Hy & _ & [-> |Hy']); simpl in *; [lia|]. by rewrite lookup_delete_eq in Hy'.
  - split; simpl; [apply lookup_delete_eq|].
    destruct Hids as [[? Hk]|(? & ? & ? & Hk)]; [right|by left]. apply (Hk id). by eexists.
  - intros k [H1 H2]. split; simpl; [|done]. by rewrite lookup_delete_None, H1; auto.
  - intros y [->|[k Hy]]; right; [by left|]. right. exists k. simpl in Hy. by apply lookup_delete_Some in Hy as [_ Hy].
Qed.

(** The open one. *)
Lemma next_taken d id s :
  shape d → agg_id (next d) = id → statements (next d) ≠ [] →
  ∃ d' s', pop_next_aggregation T d s = ROk (Some (next d), d') s' ∧ same_store s s' ∧
    Runtime s' = Runtime s ∧ taken d id (next d) d'.
Proof.
  intros Hd Hid Hne. pose proof Hd as [Hs Hns Hq Hl Hn Hf Hp Hids Hfee].
  destruct Hids as [[Hr Hk]|(_ & _ & ? & _)]; [|done].
  assert (Hfree : should_publish d !! id = None).
  { apply eq_None_not_Some. intros H'. specialize (Hk id H'). lia. }
  assert (Hh : holds_aggregation d id (next d)) by (split_and!; auto).
  assert (Hno : ∀ d' y, agg_id (next d') ≠ id → should_publish d' = should_publish d →
    ¬ holds_aggregation d' id y).
  { intros d' y H1 H2 (Hy & _ & [-> |Hy']); [done|]. rewrite H2 in Hy'. congruence. }
  assert (Hw : ∀ (d' : domain) y, statements (next d') = [] → should_publish d' = should_publish d →
    in_domain d' y → statements y = [] ∨ in_domain d y).
  { intros d' y E1 E2 [->|Hw]; [by left|right; right; by rewrite E2 in Hw]. }
  destruct (pop_run d s) as [[Hlt E]|[Hge E]]; [done|lia|..]; do 2 eexists;
    (split; [exact E|]); unfold taken; (split_and!; try done);
    try (intros r a; unfold dom_pending; simpl; lia); try (intros y; apply Hno; simpl; [lia|done]);
    try (intros k [H1 H2]; split; simpl; [done|lia]); try (split; simpl; [done|lia]);
    try (intros y; by apply Hw).
  - split; simpl; try done; try lia. left. simpl. split; [lia|]. intros k H'. specialize (Hk k H'). lia.
  - split; simpl; try done; try lia. right. simpl. split_and!; try done.
    intros k H'. specialize (Hk k H'). lia.
Qed.

Lemma take_run d id s :
  shape d →
  (take_aggregation T d id s = ROk (None, d) s ∧ ¬ ∃ x, holds_aggregation d id x) ∨
  ∃ x d' s', take_aggregation T d id s = ROk (Some x, d') s' ∧ same_store s s' ∧
    Runtime s' = Runtime s ∧ taken d id x d'.
Proof.
  intros Hd. unfold take_aggregation. destruct (Z.eqb_spec (agg_id (next d)) id) as [Hid|Hid].
  - destruct (decide (statements (next d) = [])) as [Hemp|Hne].
    + left. unfold pop_next_aggregation. rewrite bool_decide_eq_true_2 by done. split; [done|].
      intros (x & Hx & Hxne & [-> |Hx']); [done|].
      destruct (sh_ids d Hd) as [[_ Hk]|(Hz & _ & _ & Hk)]; specialize (Hk id (mk_is_Some _ _ Hx')); lia.
    + right. exists (next d). by apply next_taken.
  - destruct (should_publish d !! id) as [x|] eqn:Hx.
    + right. do 3 eexists. split_and!; [done..|]. by apply queued_taken.
    + left. split; [by rewrite delete_id; destruct d|].
      intros (y & Hy & _ & [-> |Hy']); [done|]. congruence.
Qed.
End invariant.
