(* ===== verification/AggregateCalls.v ===== *)
(** * The extrinsics of the aggregation pallet

    Each extrinsic preserves the invariant and none panics; what each of them
    changes when it succeeds. *)

From S2P Require Import Prelude Frame Holds AggregateData Aggregate AggregateInv Merkle.

Open Scope Z_scope.

Section calls.
Context {L TD TA : Type} `{!Hold HoldReason string L, !HoldLaws HoldReason string L}.
Context (T : Config L TD TA) (HT : config_ok T).
Abbreviation state := (state L TD TA).
Abbreviation domain := (Domain TD TA).
Implicit Types (s : state) (d : domain).

(** Who an origin stands for. *)
Definition user_of (o : Origin) : option User :=
  if ManagerOrigin T o then Some Manager
  else match o with Signed a => Some (Account a) | _ => None end.

Lemma ends_from_origin {B} o (f : User → M state DispatchError B) s Q :
  (∀ u, user_of o = Some u → ends (f u) s Q) → ends (from_origin T o ≫= f) s Q.
Proof.
  unfold from_origin, user_of. destruct (ManagerOrigin T o); [|destruct o]; intros H;
    try done; by apply H.
Qed.

Lemma ends_domain {B} (f : gmap Z domain → M state DispatchError B) s Q :
  ends (f (Domains s)) s Q → ends (gets Domains ≫= f) s Q.
Proof. done. Qed.

Lemma ends_run {A B} (m : M state DispatchError A) (f : A → M state DispatchError B) s a s' Q :
  m s = ROk a s' → ends (f a) s' Q → ends (m ≫= f) s Q.
Proof. intros E H. unfold ends. by rewrite (bind_ROk _ _ _ _ _ E). Qed.

Lemma allowlist_domain s id d a :
  inv T s → Domains s !! id = Some d → (id, a) ∈ SubmittersAllowlist s →
  proof_rules d = ProofOnlyAllowlisted.
Proof. intros Hi Hd Ha. destruct (inv_allowlist T s Hi id a Ha) as (d0 & ? & ?). congruence. Qed.

(** ** [aggregate] *)

(** The reserves of an aggregation are on hold. *)
Lemma taken_reserved s id d d' x :
  inv T s → Domains s !! id = Some d → shape T d' →
  (∀ r a, dom_pending r a d' = dom_pending r a d - reserved r a (statements x)) →
  ∀ r a, escrow r → reserved r a (statements x) ≤ held (Runtime s) r a.
Proof.
  intros Hi Hd Hsh Hp r a Hr. pose proof (inv_held T s Hi r a Hr).
  assert (dom_pending r a d ≤ pending r a s).
  { apply (msum_le (dom_pending r a) _ _ _ Hd). intros id' d'' Hd'.
    apply (dom_pending_nonneg T). apply (inv_domains T s Hi id' d'' Hd'). }
  pose proof (dom_pending_nonneg T r a d' Hsh) as Hnn. rewrite Hp in Hnn. lia.
Qed.

Lemma aggregate_ends o id aid s :
  inv T s →
  ends (aggregate T o id aid) s (λ _ s', ∃ u d x d',
    user_of o = Some u ∧ Domains s !! id = Some d ∧ holds_aggregation d aid x ∧
    can_user_aggregate_it (aggregate_rules d) u (owner d) (delivery_owner (delivery d)) x = true ∧
    inv T s' ∧ Domains s' = <[id := d']> (Domains s) ∧ static d d' ∧
    (∀ y, ¬ holds_aggregation d' aid y) ∧ gone d' aid ∧ (∀ k, gone d k → gone d' k) ∧
    (dom_state d ≠ Ready → dom_state d' ≠ Ready) ∧ Forall entry_ok (statements x) ∧
    SubmittersAllowlist s' = SubmittersAllowlist s ∧ NextDomainId s' = NextDomainId s ∧
    Published s' = Published s ++ [(id, x)] ∧
    (∃ evs, Events s' = evs ++ [NewAggregationReceipt id aid (merkle_root T (statement <$> statements x))]) ∧
    settles u (delivery_owner (delivery d)) (statements x) (Runtime s) (Runtime s') ∧
    (∀ y, in_domain d' y → statements y = [] ∨ in_domain d y)).
Proof.
  intros Hi. unfold aggregate. apply ends_from_origin. intros u Hu. apply ends_domain.
  destruct (Domains s !! id) as [d|] eqn:Hd; [|done].
  pose proof (inv_domains T s Hi id d Hd) as [A1 A2 A3 A4 A5].
  destruct (take_run T d aid s A3) as [[E _]|(x & d1 & s1 & E & Hs1 & Hr1 & Hx & Hst & Hsh & Hok & Hrd & Hp & Hg & Hgone & Hgk & Hwt)];
    (eapply ends_run; [exact E|]); [done|]. cbv beta iota.
  destruct (can_user_aggregate_it _ _ _ _ _) eqn:Hau; [|done]. cbn [negb].
  pose proof Hst as (S1 & S2 & S3 & S4 & S5 & S6). rewrite S5. rewrite S2, S4, S5 in Hau.
  assert (Hres : ∀ r a, escrow r → reserved r a (statements x) ≤ held (Runtime s1) r a).
  { rewrite Hr1. by apply (taken_reserved s id d d1). }
  destruct (pay_statements_run u (delivery_owner (delivery d)) (statements x) s1) as (l' & Epay & Hw & Hset);
    [rewrite Hr1; apply Hi|done|done|]. rewrite Hr1 in Hset.
  eapply ends_run; [exact Epay|]. apply ends_bind_modify.
  set (s2 := set_Published _ _).
  destruct (handle_hold_state_run d1 s2) as (s3 & E3 & Hs3 & Hr3 & _).
  eapply ends_run; [exact E3|]. unfold write_domain, deposit_event. esteps.
  set (d' := set_dom_state (settled s2 d1) d1).
  destruct Hs1 as (B1 & B2 & B3 & B4). destruct Hs3 as (C1 & C2 & C3 & C4).
  exists u, d, x, d'. repeat (split; [try done|]); try done.
  - unfold s2. simpl. eapply agg_inv_same_store with
      (s := set_Domains (<[id := d']> (Domains s3)) s3); [|done|simpl; rewrite Hr3; done|done].
    eapply inv_write; try done.
    + rewrite C1. done.
    + rewrite C2. done.
    + intros id' _. unfold allowed. rewrite C3. simpl. by rewrite B3.
    + intros a Ha. rewrite C3 in Ha. simpl in Ha. rewrite B3 in Ha. simpl. rewrite S3.
      by eapply allowlist_domain.
    + simpl. congruence.
    + apply shape_set_state; [apply settled_not_ready|done].
    + eapply (hold_ok_same s2); [|apply hold_ok_settled]. unfold allowed. by rewrite C3.
    + intros t. unfold allowed. rewrite C3. simpl. rewrite S6, S1, S2, B3. apply A5.
    + by rewrite Hr3.
    + intros r a Hr. rewrite Hr3. change (Runtime s2) with l'. destruct Hset as (parts & Hps & Hh & _).
      destruct (parts_reserved _ _ _ r a Hr Hps) as [? _]. rewrite Hh by done.
      change (dom_pending r a d') with (dom_pending r a d1). rewrite Hp. lia.
  - simpl. by rewrite C2; simpl; rewrite B2.
  - intros Hnr. by apply settled_not_ready, Hrd.
  - simpl. by rewrite C3; simpl; rewrite B3.
  - simpl. by rewrite C1; simpl; rewrite B1.
  - simpl. by rewrite C4; simpl; rewrite B4.
  - simpl. by eexists.
  - simpl. rewrite Hr3. exact Hset.
Qed.

(** ** Holding and unregistering *)

Lemma hold_domain_ends o id s :
  inv T s →
  ends (hold_domain T o id) s (λ _ s', inv T s' ∧ ∃ d x, Domains s !! id = Some d ∧
    dom_state d = Ready ∧ x ≠ Ready ∧ Domains s' = <[id := set_dom_state x d]> (Domains s) ∧
    NextDomainId s' = NextDomainId s ∧ Published s' = Published s).
Proof.
  intros Hi. unfold hold_domain. apply ends_from_origin. intros u _. apply ends_domain.
  destruct (Domains s !! id) as [d|] eqn:Hd; [|done].
  pose proof (inv_domains T s Hi id d Hd) as [A1 A2 A3 A4 A5].
  destruct (can_handle_domain u d); [|done]. case_bool_decide as Hr; [|done].
  eapply ends_run; [apply update_hold_state_run|]. unfold emit_state_changed_event, deposit_event.
  estep. unfold write_domain. apply ends_modify. set (x := if decide (vacant s d) then _ else _).
  split.
  - eapply inv_write; try done.
    + intros a Ha. simpl in *. by eapply allowlist_domain.
    + by apply shape_set_state.
    + apply Hi.
  - exists d, x. split_and!; try done. unfold x. by case_decide.
Qed.

Lemma on_runtime_keeps {A B} (f : L → option (L * A)) (g : option A → M state DispatchError B) s Q :
  hold_wf (Runtime s) →
  (∀ l' a, f (Runtime s) = Some (l', a) → keeps escrow (Runtime s) l') →
  (∀ l' a, keeps escrow (Runtime s) l' → f (Runtime s) = Some (l', a) →
     ends (g (Some a)) (set_Runtime l' s) Q) →
  (f (Runtime s) = None → ends (g None) s Q) →
  ends (on_runtime f ≫= g) s Q.
Proof.
  intros Hw Hk H1 H2. unfold on_runtime, ends, mbind, M_bind, gets. simpl.
  destruct (f (Runtime s)) as [[l' a]|] eqn:E; [|by apply H2]. simpl. by apply H1; [eapply Hk|].
Qed.

Lemma keeps_trans (l1 l2 l3 : L) : keeps escrow l1 l2 → keeps escrow l2 l3 → keeps escrow l1 l3.
Proof. intros [_ H1] [? H2]. split; [done|]. intros r b Hr. by rewrite H2, H1. Qed.

Lemma drop_ticket_ends {Tk B} (c : Consideration string L Tk) o t
    (g : unit → M state DispatchError B) s Q :
  consideration_ok escrow c → hold_wf (Runtime s) →
  (∀ l', keeps escrow (Runtime s) l' → ends (g tt) (set_Runtime l' s) Q) →
  ends (drop_ticket c o t ≫= g) s Q.
Proof.
  intros Hc Hw H. assert (Hs : ends (g tt) s Q).
  { rewrite <- (set_Runtime_id s). by apply H. }
  unfold drop_ticket. destruct o as [o|], t as [t|]; try exact Hs.
  apply ends_bind_assoc. apply on_runtime_keeps; [done| | |done].
  - intros l' a (l1 & E & [= <- <-])%bind_Some. by eapply drop_keeps.
  - intros l' a Hk _. by apply H.
Qed.

Lemma unregister_domain_ends o id s :
  inv T s →
  ends (unregister_domain T o id) s (λ _ s', inv T s' ∧ ∃ d, Domains s !! id = Some d ∧
    vacant s d ∧ dom_state d = Removable ∧ Domains s' = delete id (Domains s) ∧ allowed s' id = ∅ ∧
    NextDomainId s' = NextDomainId s ∧ Published s' = Published s).
Proof.
  intros Hi. unfold unregister_domain. apply ends_from_origin. intros u _. apply ends_domain.
  destruct (Domains s !! id) as [d|] eqn:Hd; [|done].
  pose proof (inv_domains T s Hi id d Hd) as [A1 A2 A3 A4 A5].
  destruct (can_handle_domain u d); [|done]. case_bool_decide as Hr; [|done]. cbn [negb].
  apply drop_ticket_ends; [apply HT|apply Hi|]. intros l1 Hk1.
  apply drop_ticket_ends; [apply HT|apply Hk1|]. intros l2 Hk2.
  unfold emit_state_changed_event, deposit_event. esteps.
  assert (Hv : vacant s d).
  { unfold hold_ok in A4. rewrite Hr in A4. case_decide; [done|]. by discriminate A4. }
  pose proof (keeps_trans _ _ _ Hk1 Hk2) as [Hw2 Hh2]. simpl in Hw2, Hh2.
  assert (Hemp : allowed s id = ∅).
  { destruct Hv as (_ & _ & [Hp|Hp]); [|by rewrite A1 in Hp]. apply set_eq. intros [id' a].
    unfold allowed. rewrite elem_of_filter. simpl. split; [|set_solver].
    intros [-> Ha]. destruct Hp. by eapply allowlist_domain. }
  split; [|exists d; done]. pose proof Hi as [H1 H2 H3 H4 H5]. split; simpl; try done.
  - intros id' d' [Hne Hd']%lookup_delete_Some. by destruct (H2 id' d' Hd').
  - intros id' a Ha. destruct (H3 id' a Ha) as (d' & Hd' & Hp'). exists d'. split; [|done].
    rewrite lookup_delete_ne; [done|]. intros <-.
    assert (Hin : (id, a) ∈ allowed s id) by (by apply elem_of_filter). by rewrite Hemp in Hin.
  - intros r a Hr'. rewrite Hh2 by done. specialize (H5 r a Hr'). unfold pending in *. simpl.
    rewrite (msum_delete _ _ _ _ Hd) in H5. pose proof (dom_pending_nonneg T r a d A3). lia.
Qed.

Lemma set_total_delivery_fee_ends o id f t s :
  0 ≤ f → 0 ≤ t → inv T s →
  ends (set_total_delivery_fee T o id f t) s (λ _ s', inv T s' ∧ ∃ d, Domains s !! id = Some d ∧
    Domains s' = <[id := set_delivery (set_owner_tip t (set_fee f (delivery d))) d]> (Domains s) ∧
    NextDomainId s' = NextDomainId s ∧ Published s' = Published s).
Proof.
  intros Hf Ht Hi. unfold set_total_delivery_fee. apply ends_from_origin. intros u _. apply ends_domain.
  destruct (Domains s !! id) as [d|] eqn:Hd; [|done].
  pose proof (inv_domains T s Hi id d Hd) as [A1 A2 A3 A4 A5].
  destruct (can_set_total_delivery_fee u d); [|done]. unfold write_domain. apply ends_modify.
  split; [|by exists d]. eapply inv_write; try done.
  - intros a Ha. simpl. by eapply allowlist_domain.
  - by destruct A3.
  - apply Hi.
Qed.

(** ** The allowlist *)

Definition keys (id : Z) (l : list string) : gset (Z * string) := list_to_set (pair id <$> l).

Lemma elem_of_keys id l k : k ∈ keys id l ↔ k.1 = id ∧ k.2 ∈ l.
Proof.
  unfold keys. rewrite elem_of_list_to_set, list_elem_of_fmap. destruct k as [id' a]. simpl.
  naive_solver.
Qed.

Lemma set_allowlist_id s : set_SubmittersAllowlist (SubmittersAllowlist s) s = s.
Proof. by destruct s. Qed.

Lemma insert_submitters_run id l : ∀ c s,
  let al := keys id l ∪ SubmittersAllowlist s in
  insert_submitters id l c s =
  ROk (c + Z.of_nat (size (al ∖ SubmittersAllowlist s))) (set_SubmittersAllowlist al s).
Proof.
  induction l as [|a l IH]; intros c s; cbn [insert_submitters].
  { cbv zeta. assert (E : keys id [] ∪ SubmittersAllowlist s = SubmittersAllowlist s) by (unfold keys; set_solver).
    rewrite E, set_allowlist_id, difference_diag_L, size_empty, Z.add_0_r. done. }
  unfold gets, mbind, M_bind. case_bool_decide as Ha.
  - rewrite IH. assert (E : keys id (a :: l) ∪ SubmittersAllowlist s = keys id l ∪ SubmittersAllowlist s).
    { apply set_eq. intros k. rewrite !elem_of_union, !elem_of_keys. destruct k. simpl.
      rewrite elem_of_cons. naive_solver. }
    by rewrite E.
  - unfold modify. rewrite IH. cbn [SubmittersAllowlist set_SubmittersAllowlist].
    assert (E : keys id l ∪ ({[(id, a)]} ∪ SubmittersAllowlist s) = keys id (a :: l) ∪ SubmittersAllowlist s).
    { apply set_eq. intros k. rewrite !elem_of_union, !elem_of_keys, elem_of_singleton. destruct k. simpl.
      rewrite elem_of_cons. naive_solver. }
    rewrite E. f_equal.
    rewrite (size_difference_step _ (SubmittersAllowlist s) (id, a)); [lia| |done].
    apply elem_of_union_l, elem_of_keys. simpl. split; [done|left].
Qed.

Lemma delete_submitters_run id l : ∀ c s,
  let al := SubmittersAllowlist s ∖ keys id l in
  delete_submitters id l c s =
  ROk (c + Z.of_nat (size (SubmittersAllowlist s ∖ al))) (set_SubmittersAllowlist al s).
Proof.
  induction l as [|a l IH]; intros c s; cbn [delete_submitters].
  { cbv zeta. assert (E : SubmittersAllowlist s ∖ keys id [] = SubmittersAllowlist s) by (unfold keys; set_solver).
    rewrite E, set_allowlist_id, difference_diag_L, size_empty, Z.add_0_r. done. }
  unfold gets, mbind, M_bind. case_bool_decide as Ha.
  - unfold modify. rewrite IH. cbn [SubmittersAllowlist set_SubmittersAllowlist].
    assert (E : SubmittersAllowlist s ∖ {[(id, a)]} ∖ keys id l = SubmittersAllowlist s ∖ keys id (a :: l)).
    { apply set_eq. intros k. rewrite !elem_of_difference, !elem_of_keys, elem_of_singleton.
      destruct k. simpl. rewrite elem_of_cons. naive_solver. }
    rewrite E. f_equal.
    rewrite (size_difference_step (SubmittersAllowlist s) (SubmittersAllowlist s ∖ keys id (a :: l)) (id, a));
      [|done|].
    2: { rewrite elem_of_difference, elem_of_keys. simpl. intros [_ H]. apply H. split; [done|left]. }
    assert (E3 : SubmittersAllowlist s ∖ ({[(id, a)]} ∪ SubmittersAllowlist s ∖ keys id (a :: l)) =
      SubmittersAllowlist s ∖ {[(id, a)]} ∖ (SubmittersAllowlist s ∖ keys id (a :: l))) by set_solver.
    rewrite E3. lia.
  - rewrite IH. assert (E : SubmittersAllowlist s ∖ keys id (a :: l) = SubmittersAllowlist s ∖ keys id l).
    { apply set_eq. intros k. rewrite !elem_of_difference, !elem_of_keys. destruct k. simpl.
      rewrite elem_of_cons. naive_solver. }
    by rewrite E.
Qed.

Lemma keys_size id l : (size (keys id l) ≤ length l)%nat.
Proof.
  induction l as [|a l IH]; simpl.
  { change (size (∅ : gset (Z * string)) ≤ 0)%nat. by rewrite size_empty. }
  etransitivity; [|apply le_n_S, IH]. change (keys id (a :: l)) with ({[(id, a)]} ∪ keys id l).
  rewrite size_union_alt, size_singleton.
  assert (size (keys id l ∖ {[(id, a)]}) ≤ size (keys id l))%nat by (apply subseteq_size; set_solver).
  lia.
Qed.

Lemma allowed_insert (A : gset (Z * string)) id l :
  size (filter (λ k, k.1 = id) (keys id l ∪ A)) =
  (size (filter (λ k, k.1 = id) A) + size ((keys id l ∪ A) ∖ A))%nat.
Proof.
  rewrite <- size_union; [f_equal|]; [|set_solver]. apply set_eq. intros k.
  rewrite elem_of_union, !elem_of_filter, elem_of_difference, elem_of_union.
  destruct (decide (k ∈ A)); [naive_solver|]. rewrite elem_of_keys. naive_solver.
Qed.

Lemma allowed_delete (A : gset (Z * string)) id l :
  size (filter (λ k, k.1 = id) A) =
  (size (filter (λ k, k.1 = id) (A ∖ keys id l)) + size (A ∖ (A ∖ keys id l)))%nat.
Proof.
  rewrite <- size_union; [f_equal|]; [|set_solver]. apply set_eq. intros k.
  rewrite elem_of_union, !elem_of_filter, !elem_of_difference.
  destruct (decide (k ∈ keys id l)) as [H|H]; [|naive_solver].
  pose proof (proj1 (elem_of_keys _ _ _) H). naive_solver.
Qed.

Lemma allowed_other (A : gset (Z * string)) id id' l :
  id' ≠ id →
  filter (λ k, k.1 = id') (keys id l ∪ A) = filter (λ k, k.1 = id') A ∧
  filter (λ k, k.1 = id') (A ∖ keys id l) = filter (λ k, k.1 = id') A.
Proof.
  intros Hne. split; apply set_eq; intros k;
    rewrite !elem_of_filter, ?elem_of_union, ?elem_of_difference, elem_of_keys; naive_solver.
Qed.

Lemma update_count_ends {B} d o t n (g : domain → M state DispatchError B) s Q :
  hold_wf (Runtime s) →
  (∀ l' t', keeps escrow (Runtime s) l' →
     ends (g (set_ticket_allowlist (Some {| ticket := t'; count := n |}) d)) (set_Runtime l' s) Q) →
  ends (update_count T d o t n ≫= g) s Q.
Proof.
  intros Hw H. unfold update_count. apply ends_bind_assoc. apply on_runtime_keeps; [done| | |done].
  - intros l' t' E. by eapply (update_keeps _ _ (cfg_allowlist T HT)).
  - intros l' t' Hk _. by apply H.
Qed.

(** The domain after a change of its allowlist: its ticket counts the entries. *)
Definition counted s d d' : Prop := tickets_ok s d' ∧ (d' = d ∨ ∃ t, d' = set_ticket_allowlist t d).

Lemma increase_ends {B} d n (g : domain → M state DispatchError B) s Q :
  hold_wf (Runtime s) → 0 ≤ n ≤ u32_max →
  (∀ t, ticket_allowlist d = Some t → is_Some (user_account (owner d)) ∧
     count t + n = Z.of_nat (size (allowed s (dom_id d)))) →
  (∀ l' d', keeps escrow (Runtime s) l' → counted s d d' → ends (g d') (set_Runtime l' s) Q) →
  ends (increase_footprint_count T d n ≫= g) s Q.
Proof.
  intros Hw Hn Ht H. unfold increase_footprint_count.
  destruct (ticket_allowlist d) as [t|] eqn:Et.
  2: { assert (ends (g d) s Q); [|by destruct (user_account (owner d))].
       rewrite <- (set_Runtime_id s). apply H; [done|]. split; [|by left]. intros t. congruence. }
  destruct (Ht t eq_refl) as [[o Ho] Hc]. rewrite Ho. rewrite Z.min_l by lia.
  destruct (_ <=? _); [|done]. apply update_count_ends; [done|]. intros l' t' Hk. apply H; [done|].
  split; [|by right; eexists]. intros t0. simpl. intros [= <-]. rewrite Ho. simpl. eauto.
Qed.

Lemma decrease_ends {B} d n (g : domain → M state DispatchError B) s Q :
  hold_wf (Runtime s) → 0 ≤ n ≤ u32_max →
  (∀ t, ticket_allowlist d = Some t → is_Some (user_account (owner d)) ∧
     count t - n = Z.of_nat (size (allowed s (dom_id d)))) →
  (∀ l' d', keeps escrow (Runtime s) l' → counted s d d' → ends (g d') (set_Runtime l' s) Q) →
  ends (decrease_footprint_count T d n ≫= g) s Q.
Proof.
  intros Hw Hn Ht H. unfold decrease_footprint_count.
  destruct (ticket_allowlist d) as [t|] eqn:Et.
  2: { assert (ends (g d) s Q); [|by destruct (user_account (owner d))].
       rewrite <- (set_Runtime_id s). apply H; [done|]. split; [|by left]. intros t. congruence. }
  destruct (Ht t eq_refl) as [[o Ho] Hc]. rewrite Ho. rewrite Z.min_l by lia.
  destruct (_ <=? _); [|done]. apply update_count_ends; [done|]. intros l' t' Hk. apply H; [done|].
  split; [|by right; eexists]. intros t0. simpl. intros [= <-]. rewrite Ho. simpl. eauto.
Qed.

(** Everything but the ticket is as before. *)
Lemma counted_static s d d' :
  counted s d d' → dom_id d' = dom_id d ∧ owner d' = owner d ∧ proof_rules d' = proof_rules d ∧
  dom_state d' = dom_state d ∧ (shape T d → shape T d') ∧
  (∀ r a, dom_pending r a d' = dom_pending r a d) ∧
  next d' = next d ∧ should_publish d' = should_publish d.
Proof.
  intros [_ [-> |[t ->]]]; [done|]. split_and!; try done. intros [H1 H2 H3 H4 H5 H6 H7 H8 H9]. by split.
Qed.

Lemma allowlist_ends o id l s :
  Z.of_nat (length l) ≤ u32_max → inv T s →
  ends (allowlist_proof_submitters T o id l) s (λ _ s', inv T s' ∧
    SubmittersAllowlist s' = keys id l ∪ SubmittersAllowlist s ∧
    ∃ d d', Domains s !! id = Some d ∧ dom_state d = Ready ∧ dom_state d' = Ready ∧
      proof_rules d = ProofOnlyAllowlisted ∧ next d' = next d ∧
      should_publish d' = should_publish d ∧ NextDomainId s' = NextDomainId s ∧
      Published s' = Published s ∧ Domains s' = <[id := d']> (Domains s)).
Proof.
  intros Hl Hi. unfold allowlist_proof_submitters. apply ends_from_origin. intros u _.
  apply ends_domain. destruct (Domains s !! id) as [d|] eqn:Hd; [|done].
  pose proof (inv_domains T s Hi id d Hd) as [A1 A2 A3 A4 A5].
  destruct (can_handle_domain u d); [|done]. cbn [negb].
  case_bool_decide as Hr; [|done]. cbn [negb]. unfold try_add_submitters.
  case_bool_decide as Hp; [|done]. unfold add_submitters. apply ends_bind_assoc.
  eapply ends_run; [apply insert_submitters_run|]. rewrite A1. set (s1 := set_SubmittersAllowlist _ s).
  pose proof (allowed_insert (SubmittersAllowlist s) id l) as Hsz.
  assert (Hn : (size ((keys id l ∪ SubmittersAllowlist s) ∖ SubmittersAllowlist s) ≤ length l)%nat).
  { etransitivity; [|apply (keys_size id l)]. apply subseteq_size. set_solver. }
  apply increase_ends; [apply Hi|lia| |].
  - intros t Ht. destruct (A5 t Ht) as [Ho Hc]. split; [done|]. unfold allowed in *. rewrite A1 in *.
    simpl. rewrite Hsz, Hc. lia.
  - intros l' d' [Hw Hh] Hcd. destruct (counted_static _ _ _ Hcd) as (C1 & C2 & C3 & C4 & C5 & C6 & C7 & C8).
    unfold write_domain. apply ends_modify. split_and!; [|done|].
    2: { exists d, d'. split_and!; try done. congruence. }
    eapply inv_write; try done.
    + intros id' Hne. by apply allowed_other.
    + intros a _. congruence.
    + congruence.
    + by apply C5.
    + intros H. by rewrite C4 in H.
    + apply Hcd.
    + intros r a Hr'. simpl. rewrite (Hh r a Hr'), C6. simpl. lia.
Qed.

Lemma remove_submitters_ends o id l s :
  Z.of_nat (length l) ≤ u32_max → inv T s →
  ends (remove_proof_submitters T o id l) s (λ _ s', inv T s' ∧
    SubmittersAllowlist s' = SubmittersAllowlist s ∖ keys id l ∧
    ∃ d d', Domains s !! id = Some d ∧ (dom_state d = Ready ↔ dom_state d' = Ready) ∧
      proof_rules d = ProofOnlyAllowlisted ∧ next d' = next d ∧
      should_publish d' = should_publish d ∧ NextDomainId s' = NextDomainId s ∧
      Published s' = Published s ∧ Domains s' = <[id := d']> (Domains s)).
Proof.
  intros Hl Hi. unfold remove_proof_submitters. apply ends_from_origin. intros u _.
  apply ends_domain. destruct (Domains s !! id) as [d|] eqn:Hd; [|done].
  pose proof (inv_domains T s Hi id d Hd) as [A1 A2 A3 A4 A5].
  destruct (can_handle_domain u d); [|done]. cbn [negb]. unfold try_remove_submitters.
  case_bool_decide as Hp; [|done]. unfold remove_submitters. apply ends_bind_assoc.
  eapply ends_run; [apply delete_submitters_run|]. rewrite A1. set (s1 := set_SubmittersAllowlist _ s).
  pose proof (allowed_delete (SubmittersAllowlist s) id l) as Hsz.
  assert (Hn : (size (SubmittersAllowlist s ∖ (SubmittersAllowlist s ∖ keys id l)) ≤ length l)%nat).
  { etransitivity; [|apply (keys_size id l)]. apply subseteq_size. intros k.
    rewrite !elem_of_difference. destruct (decide (k ∈ keys id l)); naive_solver. }
  apply decrease_ends; [apply Hi|lia| |].
  - intros t Ht. destruct (A5 t Ht) as [Ho Hc]. split; [done|]. unfold allowed in *. rewrite A1 in *.
    simpl. rewrite Hc, Hsz. lia.
  - intros l' d' [Hw Hh] Hcd. destruct (counted_static _ _ _ Hcd) as (C1 & C2 & C3 & C4 & C5 & C6 & C7 & C8).
    destruct (handle_hold_state_run d' (set_Runtime l' s1)) as (s2 & E2 & (B1 & B2 & B3 & B4) & Hr2 & _).
    eapply ends_run; [exact E2|]. unfold write_domain. apply ends_modify.
    set (d2 := set_dom_state _ d'). split_and!; [|done|].
    2: { exists d, d2. split_and!; try done; [|by rewrite B2]. unfold d2. simpl. rewrite <- C4.
         unfold settled. case_decide; [done|]. case_decide; done. }
    eapply inv_write; try done.
    + intros id' Hne. unfold allowed. rewrite B3. by apply allowed_other.
    + intros a _. simpl. congruence.
    + simpl. congruence.
    + apply shape_set_state; [apply settled_not_ready|by apply C5].
    + eapply (hold_ok_same (set_Runtime l' s1)); [|apply hold_ok_settled]. unfold allowed. by rewrite B3.
    + eapply (tickets_ok_same (set_Runtime l' s1)); [|apply Hcd]. unfold allowed. by rewrite B3.
    + by rewrite Hr2.
    + intros r a Hr'. rewrite Hr2. simpl. rewrite (Hh r a Hr').
      change (dom_pending r a d2) with (dom_pending r a d'). rewrite C6. simpl. lia.
Qed.

(** ** Registering *)

Lemma new_ticket_ends {Tk B} (c : Consideration string L Tk) a n sz
    (g : option Tk → M state DispatchError B) s Q :
  consideration_ok escrow c → hold_wf (Runtime s) →
  (∀ l' t, keeps escrow (Runtime s) l' → (is_Some t → is_Some a) →
     ends (g t) (set_Runtime l' s) Q) →
  ends (new_ticket c a n sz ≫= g) s Q.
Proof.
  intros Hc Hw H. unfold new_ticket. destruct a as [a|].
  - apply ends_bind_assoc. apply on_runtime_keeps; [done| | |done].
    + intros l' t E. by eapply new_keeps.
    + intros l' t Hk _. apply H; [done|]. intros _. by eexists.
  - estep. rewrite <- (set_Runtime_id s). apply H; [done|]. by intros [].
Qed.

Lemma fresh_id s : inv T s → Domains s !! NextDomainId s = None ∧ allowed s (NextDomainId s) = ∅.
Proof.
  intros Hi. assert (Hn : Domains s !! NextDomainId s = None).
  { apply eq_None_not_Some. intros [d Hd]. destruct (inv_domains T s Hi _ d Hd) as [_ [_ ?] _ _ _]. lia. }
  split; [done|]. apply set_eq. intros [id a]. unfold allowed. rewrite elem_of_filter. simpl.
  split; [|set_solver]. intros [-> Ha]. destruct (inv_allowlist T s Hi _ a Ha) as (d & Hd & _). congruence.
Qed.

Lemma inv_register s l' d :
  inv T s → keeps escrow (Runtime s) l' → NextDomainId s + 1 ≤ u32_max →
  dom_id d = NextDomainId s → shape T d → dom_state d = Ready →
  should_publish d = ∅ → statements (next d) = [] →
  (∀ t, ticket_allowlist d = Some t → is_Some (user_account (owner d)) ∧ count t = 0) →
  inv T (set_NextDomainId (NextDomainId s + 1)
           (set_Domains (<[NextDomainId s := d]> (Domains s)) (set_Runtime l' s))).
Proof.
  intros Hi [Hw Hh] Hn Hid Hsh Hr Hq Hs Ht. destruct (fresh_id s Hi) as [Hf Hal].
  destruct Hi as [H1 H2 H3 H4 H5]. split; simpl; try done.
  - lia.
  - intros id d0. rewrite lookup_insert_Some. intros [[<- <-]|[Hne Hd0]].
    + split; simpl; try done; try lia; [by intros ?|].
      intros t Htt. destruct (Ht t Htt) as [? ->]. split; [done|].
      unfold allowed in *. simpl. rewrite Hid, Hal. by rewrite size_empty.
    + destruct (H2 id d0 Hd0) as [A1 A2 A3 A4 A5]. split; simpl; try done. lia.
  - intros id a Ha. destruct (H3 id a Ha) as (d0 & Hd0 & Hp). exists d0. split; [|done].
    rewrite lookup_insert_ne; [done|]. intros <-. congruence.
  - intros r a Hr'. rewrite Hh by done. unfold pending. simpl. rewrite msum_insert by done.
    specialize (H5 r a Hr'). unfold pending in H5.
    assert (dom_pending r a d = 0); [|lia]. unfold dom_pending. by rewrite Hs, Hq, msum_empty.
Qed.

(** What a successful registration leaves. *)
Definition registered (u : User) sz q ar pr (dl : Delivery) ow s s' : Prop :=
  inv T s' ∧ SubmittersAllowlist s' = SubmittersAllowlist s ∧
  ∃ d, Domains s !! NextDomainId s = None ∧
    Domains s' = <[NextDomainId s := d]> (Domains s) ∧ NextDomainId s' = NextDomainId s + 1 ∧
    Published s' = Published s ∧
    owner d = u ∧ dom_state d = Ready ∧ proof_rules d = pr ∧ aggregate_rules d = ar ∧
    max_aggregation_size d = sz ∧ publish_queue_size d = default (MaxPendingPublishQueueSize T) q ∧
    delivery_owner (delivery d) = ow ∧ data (delivery d) = dl ∧
    statements (next d) = [] ∧ should_publish d = ∅.

(** The registration once the deposits are taken. *)
Lemma create_ends u sz q ar pr dl ow td ta l1 l2 s :
  0 ≤ sz → 0 ≤ default (MaxPendingPublishQueueSize T) q → 0 ≤ fee dl → 0 ≤ owner_tip dl → inv T s →
  NextDomainId s ≠ u32_max → keeps escrow (Runtime s) l1 → keeps escrow l1 l2 →
  (is_Some ta → is_Some (user_account u)) →
  ends (d ← try_create T (NextDomainId s) u 1 sz (default (MaxPendingPublishQueueSize T) q) ar pr td
          ((λ t, {| ticket := t; count := 0 |}) <$> ta) {| delivery_owner := ow; data := dl |};
        _ ← write_domain (NextDomainId s) d;
        next_id ← unwrap (if NextDomainId s + 1 <=? u32_max then Some (NextDomainId s + 1) else None);
        _ ← modify (set_NextDomainId next_id);
        deposit_event (NewDomain (NextDomainId s))) (set_Runtime l2 (set_Runtime l1 s))
    (λ _ s', registered u sz q ar pr dl ow s s').
Proof.
  intros Hsz Hqs Hfee Htip Hi Hne Hk1 Hk2 Hta. unfold try_create.
  destruct (_ || _) eqn:Hb; [done|]. rewrite !orb_false_iff in Hb. destruct Hb as [[[Hb1 Hb2] Hb3] Hb4].
  unfold create_domain, create. destruct (Z.leb_spec sz (AggregationSize T)); [|lia].
  destruct (Z.leb_spec (default (MaxPendingPublishQueueSize T) q) (MaxPendingPublishQueueSize T)); [|lia].
  cbn [negb mbind option_bind]. set (d := MkDomain (TD:=TD) (TA:=TA) _ _ _ _ _ _ _ _ _ _ _ _).
  assert (Hn : 0 ≤ NextDomainId s ≤ u32_max) by apply Hi.
  eapply ends_run; [reflexivity|]. unfold write_domain. estep.
  destruct (Z.leb_spec (NextDomainId s + 1) u32_max); [|lia].
  eapply ends_run; [reflexivity|]. unfold deposit_event. esteps.
  pose proof (fresh_id s Hi) as [Hf _]. split_and!; [|done|].
  - eapply agg_inv_same_store; [eapply (inv_register s l2 d); try done|done|apply Hk2|done].
    + by eapply keeps_trans.
    + split; simpl; try done; try lia. left. simpl. split; [unfold u64_max; lia|]. by intros k [? ?].
    + intros t. simpl. intros (t' & -> & ->)%fmap_Some. split; [|done]. apply Hta. by eexists.
  - exists d. by split_and!.
Qed.

Lemma register_domain_ends o sz q ar pr dl ow s :
  0 ≤ sz → (∀ x, q = Some x → 0 ≤ x) →
  0 ≤ fee dl → 0 ≤ owner_tip dl → inv T s →
  ends (register_domain T o sz q ar pr dl ow) s (λ _ s', inv T s' ∧
    SubmittersAllowlist s' = SubmittersAllowlist s ∧
    ∃ u d, user_of o = Some u ∧ Domains s !! NextDomainId s = None ∧
      Domains s' = <[NextDomainId s := d]> (Domains s) ∧ NextDomainId s' = NextDomainId s + 1 ∧
      Published s' = Published s ∧
      owner d = u ∧ dom_state d = Ready ∧ proof_rules d = pr ∧ aggregate_rules d = ar ∧
      max_aggregation_size d = sz ∧ publish_queue_size d = default (MaxPendingPublishQueueSize T) q ∧
      delivery_owner (delivery d) = default (default "" (user_account u)) ow ∧ data (delivery d) = dl ∧
      statements (next d) = [] ∧ should_publish d = ∅).
Proof.
  intros Hsz Hq Hfee Htip Hi. unfold register_domain. apply ends_from_origin. intros u Hu.
  cbn [can_create_domain negb].
  assert (Hqs : 0 ≤ default (MaxPendingPublishQueueSize T) q).
  { destruct q as [x|]; simpl; [by apply Hq|apply (cfg_queue T HT)]. }
  destruct (match ow with Some o => Some o | None => user_account u end) as [ow'|] eqn:How; [|done].
  apply ends_bind_gets. destruct (Z.eqb_spec (NextDomainId s) u32_max) as [|Hne]; [done|].
  cbv zeta. apply new_ticket_ends; [apply HT|apply Hi|]. intros l1 td Hk1 _.
  eapply (ends_mono _ _ (λ _ s', registered u sz q ar pr dl ow' s s'));
    [|intros _ s' (Hi' & Ha & d & Hd); split_and!; [exact Hi'|exact Ha|]; exists u, d;
    replace (default (default "" (user_account u)) ow) with ow'; [by split|]; destruct ow; simplify_eq/=;
    [done|by rewrite How]].
  case_bool_decide.
  - apply new_ticket_ends; [apply HT|apply Hk1|]. intros l2 ta Hk2 Hta. by eapply create_ends.
  - estep. rewrite <- (set_Runtime_id (set_Runtime l1 s)).
    apply create_ends; try done. split; [apply Hk1|done].
Qed.
End calls.
