(* ===== verification/AggregateRuntime.v ===== *)
(** * The runtime's configuration of the aggregation pallet ([runtime/zkverify/src/lib.rs], [types.rs])

    The constants, the publisher's tip, the prices of the deposits and the
    delivery handler of the zkVerify runtime.  The fee estimate of the
    transaction payment pallet, the Merkle tree and the build's overflow checks
    are parameters. *)

From S2P Require Import Prelude Frame Holds AggregateData Aggregate AggregateInv Merkle.

Open Scope Z_scope.

Definition VFY : Z := 10 ^ 18.
Definition CENTS : Z := VFY / 100.
Definition MILLICENTS : Z := CENTS / 1000.
Definition deposit (items bytes : Z) : Z := items * 200 * CENTS + bytes * 100 * MILLICENTS.

Definition AggregateDomainBaseDeposit : Z := deposit 2 64.
Definition AggregateDomainByteDeposit : Z := deposit 0 1.
Definition AggregateBaseTip : Z := 10 * CENTS.
Definition AggregateLinearTip : Z := 100000.     (* parts per million: 10% *)
Definition AggregateMaxSize : Z := 128.
Definition AggregateQueueSize : Z := 16.
Definition AggregateAllowlistHoldBaseDeposit : Z := deposit 2 0.
Definition AggregateAllowlistHoldSingleElementDeposit : Z := deposit 0 68.

Definition saturating_mul (x y : Z) : Z := Z.min (x * y) u128_max.

(** [Linear::compute_tip] *)
Definition compute_tip (base slope estimated : Z) : option Z :=
  Some (saturating_add base (estimated * slope / 1000000)).

(** [DispatchAggregation for Runtime] *)
Definition dispatch_aggregation (domain_id aggregation_id : Z) (aggregation : string)
    (destination : Destination) (fee : Z) (delivery_owner : string) : bool := true.

(** [StoreItemsStoragePrice::convert] *)
Definition store_items_price (base item_price count : Z) : Z :=
  saturating_add (saturating_mul count item_price) base.

(** The framework's [LinearStoragePrice]. *)
Definition linear_storage_price (base slope count size : Z) : Z :=
  saturating_add (saturating_mul (Z.min (count * size) u64_max) slope) base.

Section runtime.
Context {L : Type} `{!Hold HoldReason string L, !HoldLaws HoldReason string L}.
Context (estimate : L → Z → Z) (checks : bool) (tree_root : list string → string)
        (tree_path : list string → Z → merkle_proof).

Definition Runtime_aggregate : Config L Z Z := {|
  AggregationSize := AggregateMaxSize;
  MaxPendingPublishQueueSize := AggregateQueueSize;
  ManagerOrigin := λ o, match o with Root => true | _ => false end;
  ConsiderationDomain := HoldConsideration DomainReason
    (linear_storage_price AggregateDomainBaseDeposit AggregateDomainByteDeposit);
  ConsiderationAllowList := HoldConsideration AllowlistReason
    (λ count _, store_items_price AggregateAllowlistHoldBaseDeposit
                  AggregateAllowlistHoldSingleElementDeposit count);
  EstimateCallFee := estimate;
  ComputePublisherTip := compute_tip AggregateBaseTip AggregateLinearTip;
  DispatchAggregation := dispatch_aggregation;
  encoded_lengths := {| usize_max := 2 ^ 32 - 1; account_len := 32; balance_len := 16;
                        ticket_domain_len := 16; ticket_allowlist_len := 16 |};
  overflow_checks := checks;
  merkle_root := tree_root;
  merkle_path := tree_path
|}.

Lemma Runtime_aggregate_ok : (∀ l n, 0 ≤ estimate l n) → config_ok Runtime_aggregate.
Proof.
  intros He. split.
  - unfold Runtime_aggregate, AggregateMaxSize, u32_max. cbn [AggregationSize]. lia.
  - unfold Runtime_aggregate, AggregateQueueSize. cbn [MaxPendingPublishQueueSize]. lia.
  - exact He.
  - intros x t Hx. cbn [ComputePublisherTip Runtime_aggregate]. unfold compute_tip. intros Ht.
    apply (inj Some) in Ht as <-. unfold saturating_add. apply Z.min_glb; [|unfold u128_max; lia].
    apply Z.add_nonneg_nonneg; [vm_compute; discriminate|].
    apply Z.div_pos; [|lia]. unfold AggregateLinearTip. lia.
  - apply HoldConsideration_ok. by intros [|].
  - apply HoldConsideration_ok. by intros [|].
Qed.
End runtime.
