(* ===== verification/AggregateProps.v ===== *)
(** * Properties of the aggregation pallet

    Reachable states and the theorems about them: submitters' reserves, the
    life of a domain, payments, and the paths served for published
    aggregations. *)

From S2P Require Import Prelude Frame Holds AggregateData Aggregate AggregateInv AggregateCalls AggregateRuntime Merkle.

Open Scope Z_scope.

(** Arguments within the widths of their types; a decoded vector has at most
    [u32::MAX] elements. *)
Definition call_ok (c : Call) : Prop :=
  match c with
  | Call_register_domain sz q _ _ dl _ =>
      0 ≤ sz ∧ (∀ x, q = Some x → 0 ≤ x) ∧ 0 ≤ fee dl ∧ 0 ≤ owner_tip dl
  | Call_set_total_delivery_fee _ f t => 0 ≤ f ∧ 0 ≤ t
  | Call_allowlist_proof_submitters _ l | Call_remove_proof_submitters _ l =>
      Z.of_nat (length l) ≤ u32_max
  | _ => True
  end.

Section reach.
Context {L TD TA : Type} `{!Hold HoldReason string L, !HoldLaws HoldReason string L}.
Context (T : Config L TD TA).
Abbreviation state := (state L TD TA).
Abbreviation domain := (Domain TD TA).
Implicit Types (s : state) (d : domain).

(** An extrinsic, the callback of a verified proof, a new block, and whatever
    the rest of the runtime does without touching the submitters' reserves. *)
Inductive step : state → state → Prop :=
  | step_call o c s : call_ok c → step s (dispatch (run_call T o c) s).1
  | step_proof a id st s : step s (dispatch (on_proof_verified T a id st) s).1
  | step_block s : step s (dispatch on_initialize s).1
  | step_runtime l' s : keeps escrow (Runtime s) l' → step s (set_Runtime l' s).

Inductive reachable : state → Prop :=
  | reach_init l : hold_wf l → reachable (State 0 ∅ ∅ [] [] l)
  | reach_step s s' : reachable s → step s s' → reachable s'.

Lemma inv_init l : hold_wf l → inv T (State 0 ∅ ∅ [] [] l).
Proof.
  intros Hw. split; simpl; try done.
  intros r a _. unfold pending. simpl. rewrite msum_empty. by apply held_nonneg.
Qed.

Lemma agg_run_call_inv (HT : config_ok T) o c s :
  inv T s → call_ok c → ends (run_call T o c) s (λ _ s', inv T s').
Proof.
  intros Hi Hc. destruct c; simpl in *.
  - eapply ends_mono; [by apply aggregate_ends|]. by intros _ s' (u & d & x & d' & _ & _ & _ & _ & ? & _).
  - destruct Hc as (? & ? & ? & ?). eapply ends_mono; [by apply register_domain_ends|]. by intros _ s' [? _].
  - eapply ends_mono; [by apply hold_domain_ends|]. by intros _ s' [? _].
  - eapply ends_mono; [by apply unregister_domain_ends|]. by intros _ s' [? _].
  - destruct Hc. eapply ends_mono; [by apply set_total_delivery_fee_ends|]. by intros _ s' [? _].
  - eapply ends_mono; [by apply allowlist_ends|]. by intros _ s' [? _].
  - eapply ends_mono; [by apply remove_submitters_ends|]. by intros _ s' [? _].
Qed.

Lemma step_inv (HT : config_ok T) s s' : inv T s → step s s' → inv T s'.
Proof.
  intros Hi Hs. destruct Hs.
  - by apply (dispatch_ends (run_call T o c) s (inv T)); [|apply agg_run_call_inv].
  - pose proof (on_proof_verified_run T a id st s HT Hi). unfold dispatch.
    destruct (on_proof_verified T a id st s); naive_solver.
  - destruct Hi as [H1 H2 H3 H4 H5]. split; try done. intros id d Hd. by destruct (H2 id d Hd).
  - eapply agg_inv_same_store; [exact Hi|done|apply H|]. intros r a Hr. simpl. rewrite (proj2 H r a Hr). lia.
Qed.

Lemma agg_reachable_inv (HT : config_ok T) s : reachable s → inv T s.
Proof. induction 1; [by apply inv_init|by eapply step_inv]. Qed.

(** ** What a step can do to a domain *)

Definition goes_on (d d' : domain) : Prop :=
  (dom_state d ≠ Ready → dom_state d' ≠ Ready) ∧ (∀ k, gone d k → gone d' k).

(** Registered domains go on or disappear; identifiers are not reused; an
    aggregation is published when it leaves its domain. *)
Record evolves (s s' : state) : Prop := {
  ev_next : NextDomainId s ≤ NextDomainId s';
  ev_domain id d' : id < NextDomainId s → Domains s' !! id = Some d' →
    ∃ d, Domains s !! id = Some d ∧ goes_on d d';
  ev_published : Published s' = Published s ∨ Published s' = [] ∨
    ∃ id x d d', Published s' = Published s ++ [(id, x)] ∧ Domains s !! id = Some d ∧
      holds_aggregation d (agg_id x) x ∧ Domains s' !! id = Some d' ∧ gone d' (agg_id x)
}.

Lemma goes_on_refl d : goes_on d d.
Proof. done. Qed.

Lemma evolves_same s s' :
  NextDomainId s' = NextDomainId s → Domains s' = Domains s → Published s' = Published s → evolves s s'.
Proof.
  intros E1 E2 E3. split; [lia| |by left]. intros id d' _ Hd. rewrite E2 in Hd. by exists d'.
Qed.

Lemma evolves_write s s' id d d' :
  Domains s !! id = Some d → goes_on d d' → Domains s' = <[id := d']> (Domains s) →
  NextDomainId s' = NextDomainId s → Published s' = Published s → evolves s s'.
Proof.
  intros Hd Hg E1 E2 E3. split; [lia| |by left]. intros id' d0 _. rewrite E1, lookup_insert_Some.
  intros [[<- <-]|[_ Hd0]]; [by exists d|by exists d0].
Qed.

Lemma run_call_evolves (HT : config_ok T) o c s :
  inv T s → call_ok c → ends (run_call T o c) s (λ _ s', evolves s s').
Proof.
  intros Hi Hc. destruct c; simpl in *.
  - eapply ends_mono; [by apply aggregate_ends|].
    intros _ s' (u & d & x & d' & _ & Hd & Hx & _ & _ & E & _ & _ & Hg & Hgk & Hr & _ & _ & En & Ep & _).
    split; [lia| |].
    + intros id' d0 _. rewrite E, lookup_insert_Some. intros [[<- <-]|[_ Hd0]]; [by exists d|by exists d0].
    + right. right. exists domain_id, x, d, d'. pose proof Hx as [<- _].
      split_and!; [done..|by rewrite E, lookup_insert_eq|done].
  - destruct Hc as (? & ? & ? & ?). eapply ends_mono; [by apply register_domain_ends|].
    intros _ s' (_ & _ & u & d & _ & Hn & E & En & Ep & _). split; [lia| |by left].
    intros id' d0 Hlt. rewrite E, lookup_insert_Some. intros [[<- <-]|[_ Hd0]]; [lia|by exists d0].
  - eapply ends_mono; [by apply hold_domain_ends|]. intros _ s' (_ & d & x & Hd & Hr & Hx & E & En & Ep).
    refine (evolves_write _ _ _ _ _ Hd _ E En Ep). by split.
  - eapply ends_mono; [by apply unregister_domain_ends|].
    intros _ s' (_ & d & Hd & _ & _ & E & _ & En & Ep). split; [lia| |by left].
    intros id' d0 _. rewrite E. intros [_ Hd0]%lookup_delete_Some. by exists d0.
  - destruct Hc. eapply ends_mono; [by apply set_total_delivery_fee_ends|].
    intros _ s' (_ & d & Hd & E & En & Ep). refine (evolves_write _ _ _ _ _ Hd _ E En Ep). by split.
  - eapply ends_mono; [by apply allowlist_ends|].
    intros _ s' (_ & _ & d & d' & Hd & R1 & R2 & _ & N1 & N2 & En & Ep & E).
    refine (evolves_write _ _ _ _ _ Hd _ E En Ep). split; [done|]. unfold gone. by rewrite N1, N2.
  - eapply ends_mono; [by apply remove_submitters_ends|].
    intros _ s' (_ & _ & d & d' & Hd & R & _ & N1 & N2 & En & Ep & E).
    refine (evolves_write _ _ _ _ _ Hd _ E En Ep). split; [|by unfold gone; rewrite N1, N2]. by rewrite R.
Qed.

Lemma on_proof_evolves (HT : config_ok T) a id st s :
  inv T s → evolves s (dispatch (on_proof_verified T a id st) s).1.
Proof.
  intros Hi. unfold dispatch, on_proof_verified.
  destruct a as [a|], id as [id|]; try (simpl; by apply evolves_same).
  rewrite (bind_ROk _ _ _ (Domains s) s) by done.
  destruct (Domains s !! id) as [d|] eqn:Hd; [|simpl; by apply evolves_same].
  pose proof (inv_domains T s Hi id d Hd) as Hok.
  pose proof (add_proof_run T id d a st s HT (dk_shape _ _ _ _ Hok) (inv_wf T s Hi)) as Hrun.
  unfold mbind, M_bind. destruct (add_proof T id d a st s) as [[d'|] s'|e|]; [| |done|simpl; by apply evolves_same].
  - destruct Hrun as (_ & (E1 & E2 & E3 & E4) & _ & Hr & Hc & _ & x & _ & He & _ & ->). simpl.
    eapply evolves_write; [exact Hd| |simpl; by rewrite E2|done|done]. split; [by intros []|].
    intros k Hk. apply (add_statement_gone T d _ k (dk_shape _ _ _ _ Hok) Hr Hk).
  - destruct Hrun as (_ & (E1 & E2 & E3 & E4) & _). simpl. by apply evolves_same.
Qed.

Lemma step_evolves (HT : config_ok T) s s' : inv T s → step s s' → evolves s s'.
Proof.
  intros Hi Hs. destruct Hs.
  - pose proof (run_call_evolves HT o c s Hi H) as Hr. unfold ends, dispatch in *.
    destruct (run_call T o c s); [done| |done]. by apply evolves_same.
  - by apply on_proof_evolves.
  - split; simpl; [lia| |by right; left]. intros id d _ Hd. by exists d.
  - by apply evolves_same.
Qed.

(** A published aggregation is no longer in its domain, and no two published
    aggregations have the same identifiers. *)
Definition published_key (p : Z * AggregationEntry) : Z * Z := (p.1, agg_id p.2).

Definition left_ok (s : state) (p : Z * AggregationEntry) : Prop :=
  p.1 < NextDomainId s ∧ (∀ d, Domains s !! p.1 = Some d → gone d (agg_id p.2)) ∧
  Z.of_nat (length (statements p.2)) ≤ u32_max.

Definition pub_ok (s : state) : Prop :=
  Forall (left_ok s) (Published s) ∧ NoDup (published_key <$> Published s).

Lemma pub_ok_evolves (HT : config_ok T) s s' : inv T s → evolves s s' → pub_ok s → pub_ok s'.
Proof.
  intros Hi [En Ed Ep] [H Hnd].
  assert (Hold : Forall (left_ok s') (Published s)).
  { eapply List.Forall_impl; [|exact H]. intros [id x] (Hlt & Hg & Hl). split_and!; [simpl in *; lia| |done].
    simpl in *. intros d' Hd'. destruct (Ed id d' Hlt Hd') as (d & Hd & _ & Hk). apply Hk. by apply Hg. }
  unfold pub_ok. destruct Ep as [-> |[-> |(id & x & d & d' & -> & Hd & Hx & Hd' & Hg)]];
    [done|by split; constructor|].
  destruct (inv_domains T s Hi id d Hd) as [_ Hr Hsh _ _]. split.
  - apply Forall_app. split; [done|]. constructor; [|by constructor]. split_and!; simpl; [lia| |].
    + intros d0 Hd0. by assert (d0 = d') as -> by congruence.
    + pose proof (holds_length T d _ x Hsh Hx). pose proof (cfg_size T HT). lia.
  - rewrite fmap_app. apply list.NoDup_app. split_and!; [done| |apply NoDup_singleton].
    intros k Hk. rewrite list_elem_of_fmap in Hk. destruct Hk as ([id' y] & -> & Hy).
    simpl. rewrite list_elem_of_singleton. intros [= -> Heq].
    apply (holds_not_gone T d (agg_id x) x Hsh Hx). rewrite list.Forall_forall in H.
    destruct (H _ Hy) as (_ & Hgy & _). simpl in Hgy. rewrite Heq in Hgy. by apply Hgy.
Qed.

Lemma reachable_pub (HT : config_ok T) s : reachable s → pub_ok s.
Proof.
  induction 1 as [|s s' Hr IH Hs]; [by split; constructor|].
  eapply pub_ok_evolves; [done|by apply agg_reachable_inv| |exact IH].
  by eapply step_evolves; [|apply agg_reachable_inv|].
Qed.

(** A domain over any number of steps. *)
Lemma domain_history (HT : config_ok T) s s' :
  rtc step s s' → reachable s →
  NextDomainId s ≤ NextDomainId s' ∧
  ∀ id d', id < NextDomainId s → Domains s' !! id = Some d' →
    ∃ d, Domains s !! id = Some d ∧ goes_on d d'.
Proof.
  induction 1 as [s|s s1 s2 Hs Hrtc IH]; intros Hr; [split; [lia|]; intros id d _ Hd; by exists d|].
  destruct (step_evolves HT s s1 (agg_reachable_inv HT s Hr) Hs) as [En Ed _].
  destruct (IH (reach_step _ _ Hr Hs)) as [En' Ed']. split; [lia|].
  intros id d' Hlt Hd'. destruct (Ed' id d' ltac:(lia) Hd') as (d1 & Hd1 & Hg1 & Hg2).
  destruct (Ed id d1 Hlt Hd1) as (d & Hd & Hg3 & Hg4). exists d. split; [done|]. split; auto.
Qed.

(** The lookup of [get_statement_path]. *)
Lemma find_published (l : list (Z * AggregationEntry)) id x :
  NoDup (published_key <$> l) → (id, x) ∈ l →
  find (λ p, (p.1 =? id) && (agg_id p.2 =? agg_id x)) l = Some (id, x).
Proof.
  induction l as [|[id' y] l IH]; [by intros _ ?%elem_of_nil|].
  rewrite fmap_cons, list.NoDup_cons, elem_of_cons. intros [Hn Hnd] [[= <- <-]|Hin]; simpl.
  - by rewrite !Z.eqb_refl.
  - destruct (Z.eqb_spec id' id) as [-> |]; [|by apply IH].
    destruct (Z.eqb_spec (agg_id y) (agg_id x)) as [E|]; [|by apply IH].
    destruct Hn. rewrite list_elem_of_fmap. exists (id, x). split; [|done]. unfold published_key.
    simpl. by rewrite E.
Qed.

Lemma position_spec st l : ∀ i,
  st ∈ statement <$> l → ∃ k, position st l i = Some (i + Z.of_nat k) ∧ (statement <$> l) !! k = Some st.
Proof.
  induction l as [|e l IH]; intros i; [by intros ?%elem_of_nil|].
  rewrite fmap_cons, elem_of_cons. intros Hin. simpl. case_bool_decide as Hst.
  - exists 0%nat. simpl. rewrite Hst. split; [f_equal; lia|done].
  - destruct Hin as [->|Hin]; [done|]. destruct (IH (i + 1) Hin) as (k & -> & Hk).
    exists (S k). split; [f_equal; lia|done].
Qed.
End reach.

Import HoldLedger.

(** ** A run of the runtime's pallet *)

Definition sample_runtime : Config (HoldLedger.hledger HoldReason) Z Z :=
  Runtime_aggregate (λ _ _, 10 ^ 17) true
    (λ l, "0x" +:+ tree_root sample_keccak l) (λ l i, statement_path sample_keccak l (Z.to_nat i)).

Definition sample_ledger : HoldLedger.hledger HoldReason :=
  HoldLedger.HLedger (list_to_map ((λ a, (a, 10 ^ 21)) <$> ["alice"; "bob"; "carol"; "dave"])) ∅.

Definition sample_start : state (HoldLedger.hledger HoldReason) Z Z := State 0 ∅ ∅ [] [] sample_ledger.

Definition sample_register : Call :=
  Call_register_domain 2 (Some 1) AggOnlyOwnerUncompleted ProofOnlyAllowlisted
    {| destination := NoDestination; fee := 10 ^ 16; owner_tip := 10 ^ 15 |} (Some "dave").

(** A domain of [alice] for two statements, [bob] and [carol] allowed. *)
Definition sample_domain : state _ Z Z :=
  (dispatch (run_call sample_runtime (Signed "alice")
               (Call_allowlist_proof_submitters 0 ["bob"; "carol"]))
     (dispatch (run_call sample_runtime (Signed "alice") sample_register) sample_start).1).1.

Definition sample_one : state _ Z Z :=
  (dispatch (on_proof_verified sample_runtime (Some "bob") (Some 0) "0xa1") sample_domain).1.

Definition sample_two : state _ Z Z :=
  (dispatch (on_proof_verified sample_runtime (Some "carol") (Some 0) "0xb2") sample_one).1.

Lemma sample_runtime_ok : config_ok sample_runtime.
Proof. apply Runtime_aggregate_ok. intros l n. done. Qed.

Lemma sample_start_reachable : reachable sample_runtime sample_start.
Proof. constructor. apply map_Forall_empty. Qed.

Lemma sample_domain_reachable : reachable sample_runtime sample_domain.
Proof.
  unfold sample_domain. eapply reach_step; [|apply step_call; simpl; unfold u32_max; lia].
  eapply reach_step; [apply sample_start_reachable|apply step_call].
  split_and!; [done| |done|done]. intros x [= <-]. done.
Qed.

Lemma sample_one_reachable : reachable sample_runtime sample_one.
Proof. unfold sample_one. eapply reach_step; [apply sample_domain_reachable|apply step_proof]. Qed.

Lemma sample_two_reachable : reachable sample_runtime sample_two.
Proof. unfold sample_two. eapply reach_step; [apply sample_one_reachable|apply step_proof]. Qed.

(** ** Properties *)

(** C16: submitters' funds are safe: in every reachable state, what an account has on
    hold for aggregation and for delivery covers the reserves of all its
    statements waiting in any domain. *)
Theorem reserves_are_held {L TD TA} `{!Hold HoldReason string L, !HoldLaws HoldReason string L}
    (T : Config L TD TA) s r a :
  config_ok T → reachable T s → escrow r → pending r a s ≤ held (Runtime s) r a.
Proof. intros HT Hr. apply (agg_reachable_inv T HT s Hr). Qed.

Lemma reserves_are_held_witness :
  pending AggregationReason "bob" sample_two = 105 * 10 ^ 15 ∧
  pending AggregationReason "bob" sample_two ≤ held (Runtime sample_two) AggregationReason "bob".
Proof.
  split; [vm_compute; reflexivity|].
  apply (reserves_are_held sample_runtime);
    [apply sample_runtime_ok|apply sample_two_reachable|by left].
Defined.

(** C17: a successful [aggregate] takes one aggregation the caller may publish, publishes
    it with its receipt, and settles the reserves of its statements: of each
    statement a part is paid, all of it when the free balance of the submitter
    covers the locks on it, and the submitter's holds shrink by exactly the parts
    paid.  If the receivers can receive, the aggregation reserves go to the
    caller, or back to the submitters when the manager calls, and the delivery
    reserves to the delivery owner.  With no locks on the submitters the
    payments are exactly the reserves.  The same call again is refused. *)
Theorem aggregate_pays_out {L TD TA} `{!Hold HoldReason string L, !HoldLaws HoldReason string L}
    (T : Config L TD TA) s s' o id aid :
  config_ok T → reachable T s → dispatch (run_call T o (Call_aggregate id aid)) s = (s', Done) →
  ∃ u d x parts, user_of T o = Some u ∧ Domains s !! id = Some d ∧ holds_aggregation d aid x ∧
    can_user_aggregate_it (aggregate_rules d) u (owner d) (delivery_owner (delivery d)) x = true ∧
    Published s' = Published s ++ [(id, x)] ∧
    (∃ evs, Events s' =
       evs ++ [NewAggregationReceipt id aid (merkle_root T (statement <$> statements x))]) ∧
    Forall2 (paid_part (Runtime s)) (statements x) parts ∧
    (Forall (λ e, unlocked (Runtime s) (account e)) (statements x) → parts = statements x) ∧
    (∀ r a, escrow r → held (Runtime s') r a = held (Runtime s) r a - reserved r a parts) ∧
    ((∀ b, user_account u = Some b ∨ b = delivery_owner (delivery d) →
        can_receive (Runtime s) (paid (statements x)) b) →
     ∀ b, free (Runtime s') b = free (Runtime s) b + gained u (delivery_owner (delivery d)) b parts) ∧
    dispatch (run_call T o (Call_aggregate id aid)) s' = (s', Failed (Pallet InvalidAggregationId)).
Proof.
  intros HT Hr Hd. pose proof (agg_reachable_inv T HT s Hr) as Hi.
  pose proof (aggregate_ends T o id aid s Hi) as He. unfold ends, dispatch in He, Hd. simpl in Hd.
  destruct (aggregate T o id aid s) as [[] s1|e|]; simplify_eq.
  destruct He as (u & d & x & d' & Hu & Hd & Hx & Hau & Hi' & E & _ & Hno & _ & _ & _ & _ & _ & _ & Ep & Hev & (parts & Hps & Hh & Hf) & _).
  exists u, d, x, parts. pose proof (λ H, parts_unlocked _ _ _ H Hps). do 10 (split; [done|]). unfold dispatch. simpl. unfold aggregate.
  assert (Hfo : from_origin T o s' = ROk u s').
  { unfold from_origin, user_of in *. destruct (ManagerOrigin T o); [by simplify_eq|].
    destruct o; by simplify_eq. }
  rewrite (bind_ROk _ _ _ _ _ Hfo), (bind_ROk _ _ _ (Domains s') s') by done.
  rewrite E, lookup_insert_eq.
  pose proof (inv_domains T s' Hi' id d') as Hok. rewrite E, lookup_insert_eq in Hok.
  destruct (take_run T d' aid s' (dk_shape _ _ _ _ (Hok eq_refl))) as
    [[Et _]|(y & d2 & s2 & _ & _ & _ & Hy & _)]; [|by destruct (Hno y)].
  by rewrite (bind_ROk _ _ _ _ _ Et).
Qed.

(** The aggregation of [sample_two] published by [bob]. *)
Definition sample_published : state _ Z Z :=
  (dispatch (run_call sample_runtime (Signed "bob") (Call_aggregate 0 1)) sample_two).1.

Lemma sample_published_done :
  dispatch (run_call sample_runtime (Signed "bob") (Call_aggregate 0 1)) sample_two =
    (sample_published, Done).
Proof. unfold sample_published. refine (dispatch_done _ _ _). vm_compute. reflexivity. Qed.

(** The same with [carol]'s whole balance locked after the proofs were submitted. *)
Definition sample_locked : state _ Z Z :=
  set_Runtime (HoldLedger.MkLedger (HoldLedger.hl_free (Runtime sample_two)) (HoldLedger.hl_held (Runtime sample_two))
    {[ "carol" := 10 ^ 21 ]}) sample_two.

Lemma sample_locked_reachable : reachable sample_runtime sample_locked.
Proof.
  eapply reach_step; [apply sample_two_reachable|]. apply step_runtime. split; [|done].
  exact (inv_wf _ _ (agg_reachable_inv _ sample_runtime_ok _ sample_two_reachable)).
Qed.

Definition sample_locked_published : state _ Z Z :=
  (dispatch (run_call sample_runtime (Signed "bob") (Call_aggregate 0 1)) sample_locked).1.

Lemma sample_locked_done :
  dispatch (run_call sample_runtime (Signed "bob") (Call_aggregate 0 1)) sample_locked =
    (sample_locked_published, Done).
Proof. unfold sample_locked_published. refine (dispatch_done _ _ _). vm_compute. reflexivity. Qed.

(** What the locks keep stays on hold after the statement is gone. *)
Lemma locked_reserve_stays :
  Published sample_locked_published = Published sample_published ∧
  pending AggregationReason "carol" sample_locked_published = 0 ∧
  held (Runtime sample_locked_published) AggregationReason "carol" = 105 * 10 ^ 15.
Proof. split_and!; vm_compute; reflexivity. Qed.

Definition pays_out (s s' : state (HoldLedger.hledger HoldReason) Z Z) : Prop :=
  ∃ u d x parts, user_of sample_runtime (Signed "bob") = Some u ∧ Domains s !! 0 = Some d ∧
    holds_aggregation d 1 x ∧
    can_user_aggregate_it (aggregate_rules d) u (owner d) (delivery_owner (delivery d)) x = true ∧
    Published s' = Published s ++ [(0, x)] ∧
    (∃ evs, Events s' = evs ++ [NewAggregationReceipt 0 1
       (merkle_root sample_runtime (statement <$> statements x))]) ∧
    Forall2 (paid_part (Runtime s)) (statements x) parts ∧
    (Forall (λ e, unlocked (Runtime s) (account e)) (statements x) → parts = statements x) ∧
    (∀ r a, escrow r → held (Runtime s') r a = held (Runtime s) r a - reserved r a parts) ∧
    ((∀ b, user_account u = Some b ∨ b = delivery_owner (delivery d) →
        can_receive (Runtime s) (paid (statements x)) b) →
     ∀ b, free (Runtime s') b = free (Runtime s) b + gained u (delivery_owner (delivery d)) b parts) ∧
    dispatch (run_call sample_runtime (Signed "bob") (Call_aggregate 0 1)) s' =
      (s', Failed (Pallet InvalidAggregationId)).

(** Without locks, and with. *)
Lemma aggregate_pays_out_witness :
  pays_out sample_two sample_published ∧ pays_out sample_locked sample_locked_published ∧
  held (Runtime sample_published) AggregationReason "carol" = 0 ∧
  free (Runtime sample_published) "dave" = free (Runtime sample_two) "dave" + 11 * 10 ^ 15.
Proof.
  split; [|split; [|split; vm_compute; reflexivity]].
  - exact (aggregate_pays_out sample_runtime sample_two sample_published (Signed "bob") 0 1
             sample_runtime_ok sample_two_reachable sample_published_done).
  - exact (aggregate_pays_out sample_runtime sample_locked sample_locked_published (Signed "bob") 0 1
             sample_runtime_ok sample_locked_reachable sample_locked_done).
Defined.

(** C28: no extrinsic panics in a reachable state: the queue and the open aggregation of a
    domain always have room for what the code pushes with [expect]. *)
Theorem aggregate_no_panic {L TD TA} `{!Hold HoldReason string L, !HoldLaws HoldReason string L}
    (T : Config L TD TA) s o c :
  config_ok T → reachable T s → call_ok c → (dispatch (run_call T o c) s).2 ≠ Panicked.
Proof.
  intros HT Hr Hc. pose proof (agg_reachable_inv T HT s Hr) as Hi.
  by apply (dispatch_ends (run_call T o c) s (inv T)), agg_run_call_inv.
Qed.

Lemma aggregate_no_panic_witness :
  (dispatch (run_call sample_runtime (Signed "eve") (Call_aggregate 0 1)) sample_two).2 ≠ Panicked.
Proof.
  apply (aggregate_no_panic sample_runtime); [apply sample_runtime_ok|apply sample_two_reachable|done].
Defined.

(** C22: the callback of a verified proof never fails, and it panics exactly when the
    domain is open and has room and either it accepts proofs of its owner only
    and belongs to the manager, or the submitter is authorized and the sum of
    the delivery fee and the tip overflows in a build with overflow checks. *)
Theorem on_proof_verified_panics_iff {L TD TA}
    `{!Hold HoldReason string L, !HoldLaws HoldReason string L} (T : Config L TD TA) s a id st :
  config_ok T → reachable T s →
  ((dispatch (on_proof_verified T a id st) s).2 = Panicked ↔
   ∃ a' id' d, a = Some a' ∧ id = Some id' ∧ Domains s !! id' = Some d ∧
     dom_state d = Ready ∧ can_add_statement d = true ∧
     (proof_rules d = ProofOnlyOwner ∧ owner d = Manager ∨
      authorized s d a' ∧ total_fee (overflow_checks T) (data (delivery d)) = None)) ∧
  ∀ e, (dispatch (on_proof_verified T a id st) s).2 ≠ Failed e.
Proof.
  intros HT Hr. pose proof (on_proof_verified_run T a id st s HT (agg_reachable_inv T HT s Hr)) as H.
  unfold dispatch. destruct (on_proof_verified T a id st s) as [u s'|e|]; simpl; [|done|].
  - destruct H as [_ H]. split; [|done]. split; [done|]. intros (a' & id' & d & Ha & Hid & Hd & Hp).
    by destruct (H a' id' d Ha Hid Hd).
  - split; [|done]. split; [|done]. intros _. exact H.
Qed.

(** The manager registers a domain for its owner's proofs. *)
Definition sample_manager_domain : state _ Z Z :=
  (dispatch (run_call sample_runtime Root
     (Call_register_domain 2 None AggUntrusted ProofOnlyOwner
        {| destination := NoDestination; fee := 0; owner_tip := 0 |} (Some "dave"))) sample_start).1.

Lemma on_proof_verified_panics_iff_witness :
  ((dispatch (on_proof_verified sample_runtime (Some "bob") (Some 0) "0xa1") sample_manager_domain).2
     = Panicked ↔
   ∃ a' id' d, Some "bob" = Some a' ∧ Some 0 = Some id' ∧ Domains sample_manager_domain !! id' = Some d ∧
     dom_state d = Ready ∧ can_add_statement d = true ∧
     (proof_rules d = ProofOnlyOwner ∧ owner d = Manager ∨
      authorized sample_manager_domain d a' ∧
      total_fee (overflow_checks sample_runtime) (data (delivery d)) = None)) ∧
  (dispatch (on_proof_verified sample_runtime (Some "bob") (Some 0) "0xa1") sample_manager_domain).2
    = Panicked.
Proof.
  split; [|vm_compute; reflexivity].
  apply (on_proof_verified_panics_iff sample_runtime); [apply sample_runtime_ok|].
  unfold sample_manager_domain. eapply reach_step; [apply sample_start_reachable|apply step_call].
  split_and!; done.
Defined.

(** C20: what becomes of a verified proof, whoever submitted it and for whichever
    domain.  Without an account there is an event and nothing else changes; without
    a domain nothing happens; for a domain that is not registered there is an
    event.  In a registered domain it is stored or refused.  Stored: the domain was
    open, had room and admits the submitter; the statement is the last of the open
    aggregation, which moves to the queue when that completes it; of the
    submitter's funds its share of the estimated fee, of the publisher's tip and of
    the delivery fee is on hold for it; the event of the new proof comes first; the
    other domains, the allowlist, the identifiers and the published aggregations
    are as before.  Refused: nothing but one event is new, and its cause is the
    first condition that fails; for lack of funds, one of the two holds of that
    price was refused. *)
Theorem proof_stored_or_refused {L TD TA}
    `{!Hold HoldReason string L, !HoldLaws HoldReason string L} (T : Config L TD TA) s s' account domain st :
  config_ok T → reachable T s → dispatch (on_proof_verified T account domain st) s = (s', Done) →
  match account, domain with
  | None, _ => s' = add_event (CannotAggregate st NoAccount) s
  | Some _, None => s' = s
  | Some a, Some id =>
      match Domains s !! id with
      | None => s' = add_event (CannotAggregate st (DomainNotRegistered id)) s
      | Some d => stored T id s d a st s' ∨ refused T id s d a st s'
      end
  end.
Proof.
  intros HT Hr Hs. pose proof (agg_reachable_inv T HT s Hr) as Hi. unfold dispatch, on_proof_verified in Hs.
  destruct account as [a|]; [|by injection Hs]. destruct domain as [id|]; [|by injection Hs].
  rewrite (bind_ROk _ _ _ (Domains s) s) in Hs by done.
  destruct (Domains s !! id) as [d|] eqn:Hd; [|by injection Hs].
  pose proof (add_proof_run T id d a st s HT (dk_shape _ _ _ _ (inv_domains T s Hi id d Hd)) (inv_wf T s Hi)) as Hrun.
  unfold mbind, M_bind in Hs. destruct (add_proof T id d a st s) as [[d'|] s1|e|]; simplify_eq/=; [left|right; apply Hrun].
  destruct Hrun as (_ & (E1 & E2 & E3 & E4) & Hev & H1 & H2 & H3 & x & (tf & Htf & ->) & [He1 He2] & Hx & ->).
  split_and!; try done. exists tf. split_and!; try done. simpl. by rewrite E2.
Qed.

(** The entry of [alice]'s domain before the first proof. *)
Definition sample_entry : Domain Z Z :=
  default (MkDomain 0 Manager Ready {| agg_id := 0; agg_size := 0; statements := [] |} 0 ∅ 0
             None None AggUntrusted ProofUntrusted
             {| delivery_owner := ""; data := {| destination := NoDestination; fee := 0; owner_tip := 0 |} |})
    (Domains sample_domain !! 0).

Lemma sample_entry_lookup : Domains sample_domain !! 0 = Some sample_entry.
Proof. vm_compute. reflexivity. Qed.

Lemma sample_one_done :
  dispatch (on_proof_verified sample_runtime (Some "bob") (Some 0) "0xa1") sample_domain =
    (sample_one, Done).
Proof. unfold sample_one. refine (dispatch_done _ _ _). vm_compute. reflexivity. Qed.

(** Bob's proof in Alice's domain, and one for no domain. *)
Lemma proof_stored_or_refused_witness :
  (stored sample_runtime 0 sample_domain sample_entry "bob" "0xa1" sample_one ∨
   refused sample_runtime 0 sample_domain sample_entry "bob" "0xa1" sample_one) ∧
  (dispatch (on_proof_verified sample_runtime (Some "bob") None "0xa1") sample_domain).1 = sample_domain.
Proof.
  split.
  - pose proof (proof_stored_or_refused sample_runtime sample_domain sample_one (Some "bob") (Some 0) "0xa1"
      sample_runtime_ok sample_domain_reachable sample_one_done) as H.
    cbv beta iota in H. rewrite sample_entry_lookup in H. exact H.
  - exact (proof_stored_or_refused sample_runtime sample_domain _ (Some "bob") None "0xa1"
      sample_runtime_ok sample_domain_reachable eq_refl).
Defined.

(** The path served for a statement of an aggregation published in this block is
    accepted by [verifyProof] against the receipt of its [NewAggregationReceipt]
    event, when the runtime's tree is the one [verifyProof] climbs. *)
Lemma published_path {L TD TA}
    `{!Hold HoldReason string L, !HoldLaws HoldReason string L} (T : Config L TD TA) keccak s id x st :
  config_ok T → reachable T s →
  (∀ l, l ≠ [] → merkle_root T l = "0x" +:+ tree_root keccak l) →
  (∀ l i, 0 ≤ i < Z.of_nat (length l) → merkle_path T l i = statement_path keccak l (Z.to_nat i)) →
  (id, x) ∈ Published s → st ∈ statement <$> statements x →
  ∃ p, get_statement_path T s id (agg_id x) st = inr p ∧ mp_leaf p = st ∧
    verifyProof keccak p (compute_receipt (merkle_root T) x) = true.
Proof.
  intros HT Hr Hroot Hpath Hin Hst. destruct (reachable_pub T HT s Hr) as [Hl Hnd].
  rewrite list.Forall_forall in Hl. destruct (Hl _ Hin) as (_ & _ & Hlen). simpl in Hlen.
  unfold get_statement_path. rewrite (find_published _ id x Hnd Hin).
  destruct (position_spec st (statements x) 0 Hst) as (k & -> & Hk).
  pose proof (lookup_lt_Some _ _ _ Hk) as Hk'. rewrite length_fmap in Hk'.
  destruct (Z.leb_spec (0 + Z.of_nat k) u32_max) as [_|]; [|lia].
  eexists. split; [done|]. rewrite Hpath by (rewrite length_fmap; lia). unfold compute_receipt.
  rewrite Hroot by (intros E; by rewrite E in Hst; apply elem_of_nil in Hst). rewrite Z.add_0_l, Nat2Z.id.
  split; [by simpl; rewrite Hk|]. by apply verifyProof_path with st.
Qed.

Lemma position_none st l : ∀ i, st ∉ statement <$> l → position st l i = None.
Proof.
  induction l as [|e l IH]; intros i; [done|]. rewrite fmap_cons, elem_of_cons. intros Hn. simpl.
  rewrite bool_decide_eq_false_2; [|intros E; apply Hn; by left]. apply IH. tauto.
Qed.

(** For any other statement there is an error. *)
Lemma unpublished_path {L TD TA}
    `{!Hold HoldReason string L, !HoldLaws HoldReason string L} (T : Config L TD TA) s id x st :
  config_ok T → reachable T s → (id, x) ∈ Published s → st ∉ statement <$> statements x →
  get_statement_path T s id (agg_id x) st = inl (NotFound id (agg_id x) st).
Proof.
  intros HT Hr Hin Hst. destruct (reachable_pub T HT s Hr) as [_ Hnd].
  unfold get_statement_path. rewrite (find_published _ id x Hnd Hin). by rewrite position_none.
Qed.

Lemma sample_published_reachable : reachable sample_runtime sample_published.
Proof. unfold sample_published. eapply reach_step; [apply sample_two_reachable|by apply step_call]. Qed.

(** The aggregation [bob] published. *)
Definition sample_aggregation : AggregationEntry :=
  default {| agg_id := 0; agg_size := 0; statements := [] |} (snd <$> head (Published sample_published)).

(** C21: the life of a domain: [hold_domain] closes it for good, and it can be
    unregistered only when no statement and no aggregation waits in it and its
    allowlist is empty; from then on its identifier stays free for ever. *)
Theorem domain_life {L TD TA}
    `{!Hold HoldReason string L, !HoldLaws HoldReason string L} (T : Config L TD TA) s s1 s2 o id c :
  config_ok T → reachable T s → c = Call_hold_domain id ∨ c = Call_unregister_domain id →
  dispatch (run_call T o c) s = (s1, Done) → rtc (step T) s1 s2 →
  (∀ d, Domains s2 !! id = Some d → c = Call_hold_domain id ∧ dom_state d ≠ Ready) ∧
  (c = Call_unregister_domain id →
   ∃ d, Domains s !! id = Some d ∧ dom_state d = Removable ∧ should_publish d = ∅ ∧
     statements (next d) = [] ∧ ∀ a, (id, a) ∉ SubmittersAllowlist s1).
Proof.
  intros HT Hr Hc Hd Hrtc. pose proof (agg_reachable_inv T HT s Hr) as Hi.
  assert (Hr1 : reachable T s1).
  { replace s1 with (dispatch (run_call T o c) s).1 by (by rewrite Hd).
    eapply reach_step; [exact Hr|apply step_call]. by destruct Hc as [-> | ->]. }
  destruct (domain_history T HT s1 s2 Hrtc Hr1) as [_ Hh].
  unfold dispatch in Hd. destruct (run_call T o c s) as [[] s'|e|] eqn:E; simplify_eq.
  destruct Hc as [-> | ->]; simpl in E.
  - split; [|done]. intros d Hd. pose proof (hold_domain_ends T o id s Hi) as He.
    unfold ends in He. rewrite E in He. destruct He as (_ & d0 & x & Hd0 & _ & Hx & Ed & En & _).
    destruct (inv_domains T s Hi id d0 Hd0) as [_ ? _ _ _].
    destruct (Hh id d ltac:(lia) Hd) as (d1 & Hd1 & Hg & _).
    rewrite Ed, lookup_insert_eq in Hd1. simplify_eq. split; [done|]. by apply Hg.
  - pose proof (unregister_domain_ends T HT o id s Hi) as He. unfold ends in He. rewrite E in He.
    destruct He as (_ & d0 & Hd0 & (Hv1 & Hv2 & _) & Hx & Ed & Ha & En & _).
    destruct (inv_domains T s Hi id d0 Hd0) as [_ ? _ _ _]. split.
    + intros d Hd. destruct (Hh id d ltac:(lia) Hd) as (d1 & Hd1 & _).
      by rewrite Ed, lookup_delete_eq in Hd1.
    + intros _. exists d0. split_and!; try done. intros a Hin.
      assert (Hf : (id, a) ∈ allowed s1 id) by (unfold allowed; by rewrite elem_of_filter).
      by rewrite Ha in Hf.
Qed.

(** [alice] closes the domain and clears its allowlist. *)
Definition sample_closed : state _ Z Z :=
  (dispatch (run_call sample_runtime (Signed "alice")
               (Call_remove_proof_submitters 0 ["bob"; "carol"]))
     (dispatch (run_call sample_runtime (Signed "alice") (Call_hold_domain 0)) sample_published).1).1.

Definition sample_unregistered : state _ Z Z :=
  (dispatch (run_call sample_runtime (Signed "alice") (Call_unregister_domain 0)) sample_closed).1.

(** The next registration gets the next identifier. *)
Definition sample_again : state _ Z Z :=
  (dispatch (run_call sample_runtime (Signed "bob") sample_register) sample_unregistered).1.

Lemma sample_closed_reachable : reachable sample_runtime sample_closed.
Proof.
  unfold sample_closed. eapply reach_step; [|apply step_call; simpl; unfold u32_max; lia].
  eapply reach_step; [apply sample_published_reachable|by apply step_call].
Qed.

Lemma sample_unregistered_done :
  dispatch (run_call sample_runtime (Signed "alice") (Call_unregister_domain 0)) sample_closed =
    (sample_unregistered, Done).
Proof. unfold sample_unregistered. refine (dispatch_done _ _ _). vm_compute. reflexivity. Qed.

Lemma sample_again_steps : rtc (step sample_runtime) sample_unregistered sample_again.
Proof.
  unfold sample_again. apply rtc_once, step_call.
  split_and!; [done| |done|done]. intros x [= <-]. done.
Qed.

Lemma domain_life_witness :
  ((∀ d, Domains sample_again !! 0 = Some d →
      Call_unregister_domain 0 = Call_hold_domain 0 ∧ dom_state d ≠ Ready) ∧
   (Call_unregister_domain 0 = Call_unregister_domain 0 →
    ∃ d, Domains sample_closed !! 0 = Some d ∧ dom_state d = Removable ∧ should_publish d = ∅ ∧
      statements (next d) = [] ∧ ∀ a, (0, a) ∉ SubmittersAllowlist sample_unregistered)) ∧
  map_fold (λ id _ l, id :: l) [] (Domains sample_again) = [1].
Proof.
  split; [|vm_compute; reflexivity].
  exact (domain_life sample_runtime sample_closed sample_unregistered sample_again (Signed "alice") 0
           (Call_unregister_domain 0) sample_runtime_ok sample_closed_reachable
           (or_intror eq_refl) sample_unregistered_done sample_again_steps).
Defined.
