(* ===== verification/AggregateRpc.v ===== *)
(** * The RPC on published aggregations ([rpc/aggregate/src/lib.rs])

    [aggregate_statementPath] asks the runtime for the Merkle path of a statement
    and turns its errors into JSON-RPC errors with a code of their own. *)

From S2P Require Import Prelude Frame Holds Merkle AggregateData Aggregate AggregateInv AggregateCalls AggregateRuntime AggregateProps.

Open Scope Z_scope.

Inductive AggregateRpcError : Type :=
  | StatementNotFound
  | RpcReceiptNotPublished
  | RuntimeError
  | DecodeError.

(** [From<Error> for i32] *)
Definition rpc_code (e : AggregateRpcError) : Z :=
  match e with StatementNotFound => 1 | RpcReceiptNotPublished => 2 | RuntimeError => 3 | DecodeError => 4 end.

(** [ErrorObject], without the free text. *)
Record ErrorObject : Type := { err_code : Z; err_message : string }.

Definition convert_aggregation_error (e : PathRequestError) : ErrorObject :=
  match e with
  | NotFound _ _ _ =>
      {| err_code := rpc_code StatementNotFound; err_message := "Statement not found in this aggregation" |}
  | ReceiptNotPublished _ _ =>
      {| err_code := rpc_code RpcReceiptNotPublished; err_message := "Receipt not published in this block" |}
  | IndexOutOfBounds =>
      {| err_code := rpc_code StatementNotFound; err_message := "Statement index goes out of u32 bounds" |}
  end.

(** [get_statement_path]; [None] when the call to the runtime failed. *)
Definition rpc_statement_path (answer : option (PathRequestError + merkle_proof)) : ErrorObject + merkle_proof :=
  match answer with
  | None => inl {| err_code := rpc_code RuntimeError; err_message := "Unable to query dispatch info." |}
  | Some (inl e) => inl (convert_aggregation_error e)
  | Some (inr p) => inr p
  end.

(** ** Properties *)

Lemma find_none (l : list (Z * AggregationEntry)) id aid :
  find (λ p, (p.1 =? id) && (agg_id p.2 =? aid)) l = None ↔ ∀ x, (id, x) ∈ l → agg_id x ≠ aid.
Proof.
  split.
  - intros Hf x Hin%list_elem_of_In Hx. apply (List.find_none _ _ Hf) in Hin. simpl in Hin.
    by rewrite Hx, !Z.eqb_refl in Hin.
  - intros H. destruct (find _ l) as [[i x]|] eqn:Hf; [|done]. apply List.find_some in Hf as [Hin Hb].
    apply list_elem_of_In in Hin. simpl in Hb. apply andb_true_iff in Hb as [->%Z.eqb_eq Hx%Z.eqb_eq].
    by destruct (H x Hin).
Qed.

(** What a client learns from [aggregate_statementPath] in a reachable state:
    a proof comes back exactly for the statements of an aggregation published in
    the block, and then it verifies against the receipt of that aggregation;
    error 1 means that the aggregation was published without the statement, error
    2 that it was not published in this block. *)
Theorem rpc_path_answers {L TD TA}
    `{!Hold HoldReason string L, !HoldLaws HoldReason string L} (T : Config L TD TA) keccak s id aid st :
  config_ok T → reachable T s →
  (∀ l, l ≠ [] → merkle_root T l = "0x" +:+ tree_root keccak l) →
  (∀ l i, 0 ≤ i < Z.of_nat (length l) → merkle_path T l i = statement_path keccak l (Z.to_nat i)) →
  match rpc_statement_path (Some (get_statement_path T s id aid st)) with
  | inr p => ∃ x, (id, x) ∈ Published s ∧ agg_id x = aid ∧ st ∈ statement <$> statements x ∧ mp_leaf p = st ∧
      verifyProof keccak p (compute_receipt (merkle_root T) x) = true
  | inl e =>
      err_code e = 1 ∧ (∃ x, (id, x) ∈ Published s ∧ agg_id x = aid ∧ st ∉ statement <$> statements x) ∨
      err_code e = 2 ∧ (∀ x, (id, x) ∈ Published s → agg_id x ≠ aid)
  end.
Proof.
  intros HT Hr Hroot Hpath.
  destruct (find (λ p, (p.1 =? id) && (agg_id p.2 =? aid)) (Published s)) as [[i x]|] eqn:Hf.
  - pose proof (List.find_some _ _ Hf) as [Hin Hb]. apply list_elem_of_In in Hin. simpl in Hb.
    apply andb_true_iff in Hb as [->%Z.eqb_eq <-%Z.eqb_eq].
    destruct (decide (st ∈ statement <$> statements x)) as [Hst|Hst].
    + destruct (published_path T keccak s id x st HT Hr Hroot Hpath Hin Hst) as (p & -> & Hl & Hv). by exists x.
    + rewrite (unpublished_path T s id x st HT Hr Hin Hst). left. split; [done|]. by exists x.
  - unfold get_statement_path. rewrite Hf. right. split; [done|]. by apply find_none.
Qed.

(** ** Samples *)

Definition answered (a : ErrorObject + merkle_proof) : bool := match a with inr _ => true | inl _ => false end.

Lemma rpc_path_answers_witness :
  let path := get_statement_path sample_runtime sample_published 0 (agg_id sample_aggregation) in
  answered (rpc_statement_path (Some (path "0xa1"))) = true ∧
  answered (rpc_statement_path (Some (path "0xc3"))) = false ∧
  match rpc_statement_path (Some (path "0xa1")) with
  | inr p => ∃ x, (0, x) ∈ Published sample_published ∧ agg_id x = agg_id sample_aggregation ∧
      "0xa1" ∈ statement <$> statements x ∧ mp_leaf p = "0xa1" ∧
      verifyProof sample_keccak p (compute_receipt (merkle_root sample_runtime) x) = true
  | inl e =>
      err_code e = 1 ∧ (∃ x, (0, x) ∈ Published sample_published ∧ agg_id x = agg_id sample_aggregation ∧
        "0xa1" ∉ statement <$> statements x) ∨
      err_code e = 2 ∧ (∀ x, (0, x) ∈ Published sample_published → agg_id x ≠ agg_id sample_aggregation)
  end.
Proof.
  split; [vm_compute; reflexivity|]. split; [vm_compute; reflexivity|].
  exact (rpc_path_answers sample_runtime sample_keccak sample_published 0 (agg_id sample_aggregation) "0xa1"
    sample_runtime_ok sample_published_reachable (λ l _, eq_refl) (λ l i _, eq_refl)).
Defined.
