(* ===== verification/ScenarioReceipts.v ===== *)
(** * The scenario's checks of receipts against the aggregation pallet

    Joins the loop of [zombienet-tests/js_scripts/0012-aggregate_proofs.js] that
    checks a path per statement and receipt, and the pallet of [Aggregate] that
    publishes the receipts and serves the paths.  [serves_aggregations] is what a
    node promises: the RPC at a block answers from the pallet's state after that
    block. *)

From stdpp Require Import pretty.
From S2P Require Import Prelude JsString JsObject TxLifecycle ZkvLib Merkle Node ScenarioAggregate.
From S2P Require Import Frame Holds AggregateData Aggregate AggregateInv AggregateCalls AggregateProps.

Open Scope Z_scope.

Section receipts.
Context {L TD TA : Type} `{!Hold HoldReason string L, !HoldLaws HoldReason string L}.
Context (T : Config L TD TA).
Context {S : Type} `{!Node S} (keccak : string → string).

(** [at_block s block]: the pallet's state after a block the node has. *)
Definition serves_aggregations (at_block : S → string → option (state L TD TA)) : Prop :=
  ∀ s block a id aid st, at_block s block = Some a → 0 ≤ id → 0 ≤ aid →
    node_query (StatementPath (Some block) (JStr (pretty id)) (JStr (pretty aid)) (JStr st)) s =
      (match get_statement_path T a id aid st with
       | inr p => Ret p
       | inl _ => Throw (JsError "statementPath")
       end, s).

Context (HT : config_ok T).
Context (Hroot : ∀ l, l ≠ [] → merkle_root T l = "0x" +:+ tree_root keccak l).
Context (Hpath : ∀ l i, 0 ≤ i < Z.of_nat (length l) → merkle_path T l i = statement_path keccak l (Z.to_nat i)).
Context (at_block : S → string → option (state L TD TA)) (Hserves : serves_aggregations at_block).

(** A receipt the scenario holds, of the aggregation [x] of the pallet: the block
    and the event [NewAggregationReceipt(id, aid, root)]. *)
Definition receipt_of (s : S) (r : Aggregation.receipt) (x : AggregationEntry) : Prop :=
  ∃ block e a id, r = (Some block, Some e) ∧ at_block s block = Some a ∧ reachable T a ∧
    (id, x) ∈ Published a ∧ 0 ≤ id ∧ 0 ≤ agg_id x ∧
    TxLifecycle.data e = [pretty id; pretty (agg_id x); compute_receipt (merkle_root T) x].

(** The aggregation has all the statements. *)
Definition covers (hashes : list string) (x : AggregationEntry) : Prop :=
  Forall (λ st, st ∈ statement <$> statements x) hashes.

#[export] Instance covers_dec hashes x : Decision (covers hashes x).
Proof. unfold covers. apply _. Defined.

Lemma check_paths_pass s block a id x hashes :
  at_block s block = Some a → reachable T a → (id, x) ∈ Published a → 0 ≤ id → 0 ≤ agg_id x →
  covers hashes x →
  Aggregation.check_paths keccak (Some block) (Some (pretty id)) (Some (pretty (agg_id x)))
    (Some (compute_receipt (merkle_root T) x)) (Some <$> hashes) s = (Ret true, s).
Proof.
  intros Hb Hr Hin Hid Haid. induction 1 as [|st hashes Hst _ IH]; [done|].
  destruct (published_path T keccak a id x st HT Hr Hroot Hpath Hin Hst) as (p & Hp & _ & Hv).
  cbn [fmap list_fmap Aggregation.check_paths].
  rewrite (bind_Ret _ _ s p s); [|unfold ask; simpl; by rewrite (Hserves s block a _ _ _ Hb Hid Haid), Hp].
  rewrite (bind_Ret _ _ s (compute_receipt (merkle_root T) x) s) by done.
  change (fmap Some hashes) with (Some <$> hashes).
  rewrite (bind_Ret _ _ _ _ _ IH). unfold mret, io_ret. by rewrite Hv.
Qed.

Lemma check_paths_missing s block a id x root hashes :
  at_block s block = Some a → reachable T a → (id, x) ∈ Published a → 0 ≤ id → 0 ≤ agg_id x →
  ¬ covers hashes x →
  Aggregation.check_paths keccak (Some block) (Some (pretty id)) (Some (pretty (agg_id x)))
    (Some root) (Some <$> hashes) s = (Throw (JsError "statementPath"), s).
Proof.
  intros Hb Hr Hin Hid Haid. induction hashes as [|st hashes IH]; intros Hn; [by destruct Hn; constructor|].
  cbn [fmap list_fmap Aggregation.check_paths].
  destruct (decide (st ∈ statement <$> statements x)) as [Hst|Hst].
  - destruct (published_path T keccak a id x st HT Hr Hroot Hpath Hin Hst) as (p & Hp & _).
    rewrite (bind_Ret _ _ s p s); [|unfold ask; simpl; by rewrite (Hserves s block a _ _ _ Hb Hid Haid), Hp].
    rewrite (bind_Ret _ _ s root s) by done. change (fmap Some hashes) with (Some <$> hashes).
    apply bind_Throw, IH. intros Hall. apply Hn. by constructor.
  - apply bind_Throw. unfold ask. simpl. rewrite (Hserves s block a _ _ _ Hb Hid Haid).
    by rewrite (unpublished_path T a id x st HT Hr Hin Hst).
Qed.

Lemma check_receipts_run s receipts xs hashes :
  Forall2 (receipt_of s) receipts xs →
  Aggregation.check_receipts keccak receipts (Some <$> hashes) s =
    (if bool_decide (Forall (covers hashes) xs) then Ret true else Throw (JsError "statementPath"), s).
Proof.
  induction 1 as [|r x receipts xs (block & e & a & id & -> & Hb & Hr & Hin & Hid & Haid & He) _ IH]; [done|].
  cbn [Aggregation.check_receipts]. rewrite He. cbn [lookup list_lookup].
  destruct (decide (covers hashes x)) as [Hc|Hc].
  - rewrite (bind_Ret _ _ s true s) by by apply check_paths_pass with a.
    destruct (decide (Forall (covers hashes) xs)) as [Hall|Hall].
    + rewrite bool_decide_eq_true_2 in IH by done. rewrite bool_decide_eq_true_2 by by constructor.
      by rewrite (bind_Ret _ _ _ _ _ IH).
    + rewrite bool_decide_eq_false_2 in IH by done.
      rewrite bool_decide_eq_false_2 by (intros [_ ?]%list.Forall_cons; done).
      by apply bind_Throw.
  - rewrite bool_decide_eq_false_2 by (intros [? _]%list.Forall_cons; done).
    apply bind_Throw. by apply check_paths_missing with a.
Qed.
End receipts.

(** ** A node that serves one block *)

Module OneBlock.
(** The node answers path requests at the block [0xb10c] from the state of
    [sample_published], and nothing else. *)
Definition at_block (s : unit) (block : string) : option (state (HoldLedger.hledger HoldReason) Z Z) :=
  if bool_decide (block = "0xb10c") then Some sample_published else None.

Definition number_of (v : jsv) : Z :=
  match v with JStr d => dval d | _ => -1 end.

Definition answer {A} (q : query A) : js A :=
  match q in query A return js A with
  | StatementPath (Some block) id aid (JStr st) =>
      match at_block tt block with
      | Some a =>
          match get_statement_path sample_runtime a (number_of id) (number_of aid) st with
          | inr p => Ret p
          | inl _ => Throw (JsError "statementPath")
          end
      | None => Throw (JsError "UnknownBlock")
      end
  | _ => Hang
  end.

#[export] Instance one_block : Node unit := {
  node_send e s n := ([], n);
  node_tries r n := ([], n);
  node_query A q n := (answer q, n)
}.
End OneBlock.

(** ** Properties *)

(** C19: on a node that serves paths from the aggregation pallet, the scenario's check of
    receipts of published aggregations is decided by their contents: it passes
    when every aggregation has all the statements, whatever the receipts' number,
    and otherwise the script stops with the error of the RPC. *)
Theorem receipts_check_decides {L TD TA S}
    `{!Hold HoldReason string L, !HoldLaws HoldReason string L, !Node S} (T : Config L TD TA)
    keccak at_block s receipts xs hashes :
  config_ok T → (∀ l, l ≠ [] → merkle_root T l = "0x" +:+ tree_root keccak l) →
  (∀ l i, 0 ≤ i < Z.of_nat (length l) → merkle_path T l i = statement_path keccak l (Z.to_nat i)) →
  serves_aggregations T at_block →
  Forall2 (receipt_of T at_block s) receipts xs →
  Aggregation.check_receipts keccak receipts (Some <$> hashes) s =
    (if bool_decide (Forall (covers hashes) xs) then Ret true else Throw (JsError "statementPath"), s).
Proof. intros HT Hroot Hpath Hs. by apply check_receipts_run. Qed.

Import (hints) OneBlock HoldLedger.

Lemma one_block_serves : serves_aggregations sample_runtime OneBlock.at_block.
Proof.
  intros s block a id aid st Hb Hid Haid. cbn [node_query OneBlock.one_block OneBlock.answer].
  destruct s. rewrite Hb. unfold OneBlock.number_of.
  destruct (pretty_Z_digits id Hid) as (_ & -> & _), (pretty_Z_digits aid Haid) as (_ & -> & _). done.
Qed.

Definition sample_event : event_record :=
  EventRecord "aggregate" "NewAggregationReceipt"
    [pretty 0; pretty (agg_id sample_aggregation); compute_receipt (merkle_root sample_runtime) sample_aggregation] 1.

Lemma sample_statements : statement <$> statements sample_aggregation = ["0xa1"; "0xb2"].
Proof. vm_compute. reflexivity. Qed.

Lemma sample_covers : Forall (covers ["0xa1"; "0xb2"]) [sample_aggregation].
Proof. constructor; [|done]. unfold covers. rewrite sample_statements. repeat constructor. Qed.

Lemma sample_not_covers : ¬ Forall (covers ["0xa1"; "0xc3"]) [sample_aggregation].
Proof.
  intros [H _]%list.Forall_cons. unfold covers in H. rewrite sample_statements in H.
  apply list.Forall_cons in H as [_ [H _]%list.Forall_cons]. revert H. apply (bool_decide_unpack _). done.
Qed.

Lemma receipts_check_decides_witness :
  Aggregation.check_receipts sample_keccak [(Some "0xb10c", Some sample_event)]
    (Some <$> ["0xa1"; "0xb2"]) tt = (Ret true, tt) ∧
  Aggregation.check_receipts sample_keccak [(Some "0xb10c", Some sample_event)]
    (Some <$> ["0xa1"; "0xc3"]) tt = (Throw (JsError "statementPath"), tt).
Proof.
  assert (Hr : Forall2 (receipt_of sample_runtime OneBlock.at_block tt)
                 [(Some "0xb10c", Some sample_event)] [sample_aggregation]).
  { constructor; [|constructor]. exists "0xb10c", sample_event, sample_published, 0.
    split; [reflexivity|]. split; [reflexivity|]. split; [exact sample_published_reachable|].
    split; [apply list_elem_of_lookup; exists 0%nat; vm_compute; reflexivity|].
    split; [lia|]. split; [vm_compute; discriminate|reflexivity]. }
  split.
  - etransitivity; [apply (receipts_check_decides sample_runtime sample_keccak OneBlock.at_block tt _
      [sample_aggregation] ["0xa1"; "0xb2"] sample_runtime_ok (λ l _, eq_refl) (λ l i _, eq_refl)
      one_block_serves Hr)|].
    rewrite bool_decide_eq_true_2; [reflexivity|]. apply sample_covers.
  - etransitivity; [apply (receipts_check_decides sample_runtime sample_keccak OneBlock.at_block tt _
      [sample_aggregation] ["0xa1"; "0xc3"] sample_runtime_ok (λ l _, eq_refl) (λ l i _, eq_refl)
      one_block_serves Hr)|].
    rewrite bool_decide_eq_false_2; [reflexivity|]. apply sample_not_covers.
Defined.
