(* ===== verification/AggregateStatements.v ===== *)
(** * What the aggregation pallet stores, and where it comes from

    The aggregations of a state are in a domain or were published in this block.
    Extrinsics move or drop them; only the callback of a verified proof extends
    one, by the statement of the proof. *)

From S2P Require Import Prelude Frame Holds AggregateData Aggregate AggregateInv AggregateCalls AggregateProps.

Open Scope Z_scope.

Section statements.
Context {L TD TA : Type} `{!Hold HoldReason string L, !HoldLaws HoldReason string L}.
Context (T : Config L TD TA).
Abbreviation state := (state L TD TA).
Abbreviation domain := (Domain TD TA).
Implicit Types (s : state) (d : domain) (x : AggregationEntry).

Definition stores s x : Prop :=
  (∃ id d, Domains s !! id = Some d ∧ in_domain d x) ∨ (∃ id, (id, x) ∈ Published s).

(** A statement in one of them. *)
Definition known s (st : string) : Prop := ∃ x, stores s x ∧ st ∈ statement <$> statements x.

(** One domain was written, with aggregations it had already. *)
Lemma stores_write s s' id d d' x :
  Domains s !! id = Some d → Domains s' = <[id := d']> (Domains s) →
  (in_domain d' x → statements x = [] ∨ in_domain d x) →
  Published s' = Published s → stores s' x → statements x = [] ∨ stores s x.
Proof.
  intros Hd E Hw Ep [(id' & d0 & Hd0 & H)|H]; [|right; right; by rewrite Ep in H].
  rewrite E, lookup_insert_Some in Hd0. destruct Hd0 as [[<- <-]|[_ Hd0]].
  - destruct (Hw H) as [?|?]; [by left|right; left]. by exists id, d.
  - right. left. by exists id', d0.
Qed.

Lemma in_domain_same d d' x :
  next d' = next d → should_publish d' = should_publish d → in_domain d' x → statements x = [] ∨ in_domain d x.
Proof. unfold in_domain. intros -> ->. by right. Qed.

Lemma run_call_stores (HT : config_ok T) o c s :
  inv T s → call_ok c → ends (run_call T o c) s (λ _ s', ∀ x, stores s' x → statements x = [] ∨ stores s x).
Proof.
  intros Hi Hc. destruct c; simpl in *.
  - eapply ends_mono; [by apply aggregate_ends|].
    intros _ s' (u & d & x & d' & _ & Hd & Hx & _ & _ & E & _ & _ & _ & _ & _ & _ & _ & _ & Ep & _ & _ & Hw) y.
    intros [Hy|(id' & Hy)].
    + apply (stores_write s (set_Published (Published s) s') domain_id d d' y Hd E (Hw y) eq_refl). by left.
    + right. rewrite Ep, elem_of_app, list_elem_of_singleton in Hy. destruct Hy as [Hy|[= -> ->]]; [right; by exists id'|].
      left. exists domain_id, d. split; [done|]. destruct Hx as (_ & _ & [-> |Hx]); [by left|]. right. by eexists.
  - destruct Hc as (? & ? & ? & ?). eapply ends_mono; [by apply register_domain_ends|].
    intros _ s' (_ & _ & u & d & _ & Hn & E & En & Ep & _ & _ & _ & _ & _ & _ & _ & _ & Hst & Hsp) x.
    intros [(id' & d0 & Hd0 & Hw)|Hw]; [|right; right; by rewrite Ep in Hw].
    rewrite E, lookup_insert_Some in Hd0. destruct Hd0 as [[<- <-]|[_ Hd0]]; [|right; left; by exists id', d0].
    destruct Hw as [->|(k & Hk)]; [by left|by rewrite Hsp in Hk].
  - eapply ends_mono; [by apply hold_domain_ends|]. intros _ s' (_ & d & y & Hd & Hr & Hy & E & En & Ep) x.
    apply (stores_write _ _ _ _ _ _ Hd E); [by apply in_domain_same|done].
  - eapply ends_mono; [by apply unregister_domain_ends|].
    intros _ s' (_ & d & Hd & _ & _ & E & _ & En & Ep) x.
    intros [(id' & d0 & Hd0 & H)|H]; right; [left|right; by rewrite Ep in H]. rewrite E in Hd0.
    apply lookup_delete_Some in Hd0 as [_ Hd0]. by exists id', d0.
  - destruct Hc. eapply ends_mono; [by apply set_total_delivery_fee_ends|].
    intros _ s' (_ & d & Hd & E & En & Ep) x. apply (stores_write _ _ _ _ _ _ Hd E); [by apply in_domain_same|done].
  - eapply ends_mono; [by apply allowlist_ends|].
    intros _ s' (_ & _ & d & d' & Hd & R1 & R2 & _ & N1 & N2 & En & Ep & E) x.
    apply (stores_write _ _ _ _ _ _ Hd E); [by apply in_domain_same|done].
  - eapply ends_mono; [by apply remove_submitters_ends|].
    intros _ s' (_ & _ & d & d' & Hd & R & _ & N1 & N2 & En & Ep & E) x.
    apply (stores_write _ _ _ _ _ _ Hd E); [by apply in_domain_same|done].
Qed.

(** The open aggregation with one more statement. *)
Definition extended x (e : StatementEntry) : AggregationEntry :=
  {| agg_id := agg_id x; agg_size := agg_size x; statements := statements x ++ [e] |}.

Lemma in_domain_add d e x :
  in_domain (add_statement d e) x → statements x = [] ∨ in_domain d x ∨ x = extended (next d) e.
Proof.
  unfold add_statement. fold (extended (next d) e).
  destruct (_ <=? _); [|intros [->|H]; [by right; right|right; left; by right]].
  intros [->|[k Hx]]; [left; by destruct (_ <? _)|]. right.
  simpl in Hx. apply lookup_insert_Some in Hx as [[_ <-]|[_ Hx]]; [by right|].
  left. right. by exists k.
Qed.

(** A statement was added to the open aggregation of a domain, at its price. *)
Definition added s (st : string) x : Prop :=
  ∃ id d a tf, Domains s !! id = Some d ∧ domain_ok T s id d ∧ x = extended (next d) (entry a (price T s d tf) st).

Lemma proof_stores (HT : config_ok T) a id st s x :
  inv T s → stores (dispatch (on_proof_verified T a id st) s).1 x →
  statements x = [] ∨ stores s x ∨ added s st x.
Proof.
  intros Hi. unfold dispatch, on_proof_verified.
  destruct a as [a|], id as [id|]; try (simpl; by right; left).
  rewrite (bind_ROk _ _ _ (Domains s) s) by done.
  destruct (Domains s !! id) as [d|] eqn:Hd; [|simpl; by right; left].
  pose proof (inv_domains T s Hi id d Hd) as Hok.
  pose proof (add_proof_run T id d a st s HT (dk_shape _ _ _ _ Hok) (inv_wf T s Hi)) as Hrun.
  unfold mbind, M_bind. destruct (add_proof T id d a st s) as [[d'|] s'|e|]; [| |done|simpl; by right; left].
  - destruct Hrun as (_ & (E1 & E2 & E3 & E4) & _ & _ & _ & _ & r & (tf & _ & ->) & _ & _ & ->). simpl.
    intros [(id' & d0 & Hd0 & H)|(id' & Hy)].
    + simpl in Hd0. rewrite E2 in Hd0. apply lookup_insert_Some in Hd0 as [[<- <-]|[_ Hd0]].
      * destruct (in_domain_add d _ x H) as [?|[?|Hx]]; [by left|right; left; left; by exists id, d|].
        right. right. by exists id, d, a, tf.
      * right. left. left. by exists id', d0.
    + simpl in Hy. rewrite E4 in Hy. right. left. right. by exists id'.
  - destruct Hrun as (_ & (E1 & E2 & E3 & E4) & _). simpl. unfold stores. rewrite E2, E4. by right; left.
Qed.

(** ** Statements *)

Lemma run_call_known (HT : config_ok T) o c s :
  inv T s → call_ok c → ends (run_call T o c) s (λ _ s', ∀ st, known s' st → known s st).
Proof.
  intros Hi Hc. eapply ends_mono; [by apply run_call_stores|]. intros a s' H st (x & Hx & Hst).
  destruct (H x Hx) as [E|Hs]; [rewrite E in Hst; by apply elem_of_nil in Hst|by exists x].
Qed.

Lemma proof_known (HT : config_ok T) a id st0 s st :
  inv T s → known (dispatch (on_proof_verified T a id st0) s).1 st → known s st ∨ st = st0.
Proof.
  intros Hi (x & Hx & Hst).
  destruct (proof_stores HT a id st0 s x Hi Hx) as [E|[Hs|(i & d & b & tf & Hd & _ & ->)]];
    [rewrite E in Hst; by apply elem_of_nil in Hst|left; by exists x|].
  cbn [extended statements] in Hst. rewrite fmap_app, elem_of_app in Hst.
  destruct Hst as [Hst|Hst%list_elem_of_singleton]; [left|by right].
  exists (next d). split; [left; exists i, d; split; [done|by left]|done].
Qed.
End statements.
