(* ===== verification/AggregateFees.v ===== *)
(** * What a publisher earns

    Each submitter reserves its share of the estimated fee of the publication and
    of the publisher's tip, rounded down, at the estimate of the moment.  When the
    estimates never fall below a bound, the reserves of a complete aggregation
    cover the fee and the tip at that bound, up to less than a unit for each
    statement. *)

From S2P Require Import Prelude Frame Holds AggregateData Aggregate AggregateInv AggregateCalls AggregateProps.
From S2P Require Import AggregateRuntime AggregateStatements.

Open Scope Z_scope.

Section fees.
Context {L TD TA : Type} `{!Hold HoldReason string L, !HoldLaws HoldReason string L}.
Context (T : Config L TD TA) (HT : config_ok T).

(** The estimated fee of publishing [n] statements is at least [E n]. *)
Context (E : Z → Z) (Hest : ∀ l n, 0 ≤ E n ≤ EstimateCallFee T l n).
Context (Htip : ∀ x y, 0 ≤ x ≤ y → default 0 (ComputePublisherTip T x) ≤ default 0 (ComputePublisherTip T y)).

(** Fee and tip together. *)
Definition publication (n : Z) : Z := saturating_add (E n) (default 0 (ComputePublisherTip T (E n))).

Definition pays_share (n : Z) (e : StatementEntry) : Prop := publication n / n ≤ r_aggregate (reserve e).

Definition funded (x : AggregationEntry) : Prop := Forall (pays_share (agg_size x)) (statements x).

Lemma price_share s d tf : shape T d → publication (agg_size (next d)) / agg_size (next d) ≤ r_aggregate (price T s d tf).
Proof.
  intros Hd. pose proof (sh_size T d Hd). unfold price, publication. cbn [r_aggregate]. rewrite (sh_next_size T d Hd).
  apply Z.div_le_mono; [lia|]. specialize (Hest (Runtime s) (max_aggregation_size d)).
  specialize (Htip (E (max_aggregation_size d)) (EstimateCallFee T (Runtime s) (max_aggregation_size d)) Hest).
  unfold saturating_add. lia.
Qed.

Lemma reachable_funded s x : reachable T s → stores s x → funded x.
Proof.
  intros Hr. revert x. induction Hr as [l Hl|s s' Hr IH Hs]; intros x.
  { by intros [(id & d & Hd & _)|(id & []%elem_of_nil)]. }
  assert (Hempty : statements x = [] → funded x) by (unfold funded; intros ->; constructor).
  pose proof (agg_reachable_inv T HT s Hr) as Hi. destruct Hs as [o c s Hc|a id st s|s|l s].
  - pose proof (run_call_stores T HT o c s Hi Hc) as H. unfold ends, dispatch in *.
    destruct (run_call T o c s); simpl; [|apply IH..]. intros [?|?]%H; auto.
  - intros [?|[?|(i & d & b & tf & Hd & Hok & ->)]]%(proof_stores T HT a id st s x Hi); [auto..|].
    assert (Hn : funded (next d)) by (apply IH; left; exists i, d; split; [done|by left]).
    unfold funded, extended. cbn [agg_size statements]. apply Forall_app. split; [done|].
    apply Forall_singleton, price_share, (dk_shape _ _ _ _ Hok).
  - intros [Hx|(id & []%elem_of_nil)]. apply IH. by left.
  - apply IH.
Qed.

(** The shares of a complete aggregation. *)
Lemma shares_cover n l :
  0 < n → Z.of_nat (length l) = n → Forall (pays_share n) l →
  publication n - n < foldr (λ e z, r_aggregate (reserve e) + z) 0 l.
Proof.
  intros Hn Hl HF.
  assert (H : publication n / n * Z.of_nat (length l) ≤ foldr (λ e z, r_aggregate (reserve e) + z) 0 l).
  { clear Hl. induction HF as [|e l He _ IH]; [simpl; lia|]. unfold pays_share in He.
    cbn [foldr]. rewrite length_cons. lia. }
  pose proof (Z.mul_succ_div_gt (publication n) n Hn). rewrite Hl in H. lia.
Qed.

Lemma gained_shares u o b l :
  user_account u = Some b → Forall entry_ok l →
  foldr (λ e z, r_aggregate (reserve e) + z) 0 l ≤ gained u o b l.
Proof.
  intros Hu. induction 1 as [|e l [_ He] _ IH]; [done|]. cbn [foldr gained]. rewrite Hu. cbn [default].
  rewrite at_key_eq. pose proof (at_key_range o b _ He). lia.
Qed.
End fees.

(** The tip of the runtime grows with the fee. *)
Lemma compute_tip_mono base slope x y :
  0 ≤ slope → x ≤ y → default 0 (compute_tip base slope x) ≤ default 0 (compute_tip base slope y).
Proof.
  intros Hs Hxy. unfold compute_tip, saturating_add. cbn [default].
  apply Z.min_le_compat_r, Z.add_le_mono_l, Z.div_le_mono, Z.mul_le_mono_nonneg_r; lia.
Qed.

(** ** Properties *)

(** C18: publishing a complete aggregation pays: when the estimate of the fee for its
    number of statements never was below some amount, its publisher receives from
    the reserves at least that amount and the runtime's tip on it, a tenth of a
    unit of the currency and ten percent, up to less than the smallest unit for
    each statement.  The publisher and the owner of the delivery can receive
    the reserves, and no submitter has locks beyond its free balance. *)
Theorem publisher_reimbursed {L} `{!Hold HoldReason string L, !HoldLaws HoldReason string L}
    (estimate : L → Z → Z) E checks root path s s' b id aid d x :
  let T := Runtime_aggregate estimate checks root path in
  (∀ l n, 0 ≤ E n ≤ estimate l n) → reachable T s →
  Domains s !! id = Some d → should_publish d !! aid = Some x →
  dispatch (run_call T (Signed b) (Call_aggregate id aid)) s = (s', Done) →
  (∀ o, o = b ∨ o = delivery_owner (delivery d) → can_receive (Runtime s) (paid (statements x)) o) →
  Forall (λ e, unlocked (Runtime s) (account e)) (statements x) → 2 * E (agg_size x) + VFY ≤ u128_max →
  free (Runtime s) b + E (agg_size x) + VFY / 10 + E (agg_size x) / 10 - agg_size x < free (Runtime s') b.
Proof.
  intros T Hest Hr Hd Hx Hs Hcan Hul Hmax.
  assert (HT : config_ok T) by (apply Runtime_aggregate_ok; intros l n; destruct (Hest l n); lia).
  pose proof (agg_reachable_inv T HT s Hr) as Hi. pose proof (dk_shape _ _ _ _ (inv_domains T s Hi id d Hd)) as Hsh.
  destruct (sh_pub T d Hsh aid x Hx) as (Q1 & Q2 & Q3 & Q4). pose proof (sh_size T d Hsh) as Hsz.
  assert (Hfund : funded T E x).
  { apply (reachable_funded T HT E Hest) with s; [|done|left; exists id, d; split; [done|right; by exists aid]].
    intros y z Hyz. apply compute_tip_mono; [vm_compute; discriminate|lia]. }
  pose proof (aggregate_ends T (Signed b) id aid s Hi) as He. unfold ends, dispatch in He, Hs. simpl in Hs.
  destruct (aggregate T (Signed b) id aid s) as [[] s1|e|]; [|done..]. injection Hs as ->.
  destruct He as (u & d0 & y & d' & Hu & Hd0 & Hy & _ & _ & _ & _ & _ & _ & _ & _ & _ & _ & _ & _ & _ & (parts & Hps & _ & Hf) & _).
  assert (d0 = d) as -> by congruence. cbn in Hu. injection Hu as <-.
  assert (y = x) as ->.
  { destruct Hy as (Hid & _ & [->|Hy]); [|congruence]. exfalso.
    destruct (sh_ids T d Hsh) as [[_ Hk]|(Hz & _ & _ & Hk)]; specialize (Hk aid (mk_is_Some _ _ Hx)); lia. }
  rewrite (parts_unlocked _ _ _ Hul Hps) in Hf. rewrite Hf by (intros o [[= ->]|Ho]; apply Hcan; auto).
  pose proof (gained_shares (Account b) (delivery_owner (delivery d)) b (statements x) eq_refl Q4) as Hg.
  pose proof (shares_cover T E (agg_size x) (statements x) ltac:(lia) Q3 Hfund) as Hc.
  assert (Hp : publication T E (agg_size x) = E (agg_size x) + (VFY / 10 + E (agg_size x) / 10)).
  { pose proof (Hest (Runtime s) (agg_size x)) as [H0 _]. unfold publication. cbn -[Z.div Z.mul]. unfold compute_tip, saturating_add.
    cbn [default]. change AggregateBaseTip with (VFY / 10). unfold AggregateLinearTip.
    replace (E (agg_size x) * 100000 / 1000000) with (E (agg_size x) / 10)
      by (change 1000000 with (10 * 100000); rewrite Z.div_mul_cancel_r by lia; done).
    pose proof (Z.div_le_upper_bound (E (agg_size x)) 10 (E (agg_size x)) ltac:(lia) ltac:(lia)).
    change (VFY / 10) with 100000000000000000. change VFY with 1000000000000000000 in Hmax. lia. }
  lia.
Qed.

Import (hints) HoldLedger.

(** An account above the existential deposit can receive. *)
Lemma ledger_can_receive (l0 : HoldLedger.hledger HoldReason) n o :
  HoldLedger.existential_deposit ≤ free (R:=HoldReason) l0 o → can_receive l0 n o.
Proof.
  intros Hed l r a x Hw Hf _ Hx. simpl in *. unfold HoldLedger.hl_transfer_on_hold.
  pose proof (HoldLedger.hl_wf_held l r a Hw). set (y := Z.min x _). assert (0 ≤ y) by (unfold y, HoldLedger.hl_liquid; lia).
  destruct (Z.leb_spec HoldLedger.existential_deposit (HoldLedger.hl_get_free l o + y)); [|lia].
  rewrite orb_true_r. by eexists.
Qed.

Definition sample_domain_two : Domain Z Z := default sample_entry (Domains sample_two !! 0).
Definition sample_queued : AggregationEntry :=
  default {| agg_id := 0; agg_size := 0; statements := [] |} (should_publish sample_domain_two !! 1).

Lemma publisher_reimbursed_witness :
  free (Runtime sample_two) "bob" + 10 ^ 17 + 10 ^ 17 + 10 ^ 16 - 2 < free (Runtime sample_published) "bob" ∧
  free (Runtime sample_published) "bob" = free (Runtime sample_two) "bob" + 21 * 10 ^ 16.
Proof.
  split; [|vm_compute; reflexivity].
  refine (publisher_reimbursed (λ _ _, 10 ^ 17) (λ _, 10 ^ 17) true _ _ sample_two sample_published "bob" 0 1
    sample_domain_two sample_queued _ sample_two_reachable _ _ sample_published_done _ _ _).
  - intros _ _. done.
  - vm_compute. reflexivity.
  - vm_compute. reflexivity.
  - intros o [->| ->]; apply ledger_can_receive; vm_compute; discriminate.
  - unfold unlocked. apply (bool_decide_unpack _). vm_compute. exact I.
  - vm_compute. discriminate.
Defined.
