(* ===== verification/AggregateFrame.v ===== *)
(** * What the aggregation pallet leaves alone ([pallets/aggregate/src/lib.rs])

    The pallet changes the balances only through its own holds and its storage
    deposits: whatever relation between ledgers these operations respect, every
    extrinsic, the callback and the hook respect.  The runtime uses it for the
    holds of the other pallets on the same accounts. *)

From S2P Require Import Prelude Frame Holds AggregateData Aggregate.

Open Scope Z_scope.

Create HintDb frames.

Section frame.
Context {L TD TA : Type} `{!Hold HoldReason string L} (T : Config L TD TA).
Context (R : relation L) `{!PreOrder R}.

(** A deposit respects the relation. *)
Record ticket_frame {Tk} (c : Consideration string L Tk) : Prop := {
  frame_new l a n sz l' t : ticket_new c l a n sz = Some (l', t) → R l l';
  frame_update l t a n sz l' t' : ticket_update c l t a n sz = Some (l', t') → R l l';
  frame_drop l t a l' : ticket_drop c l t a = Some l' → R l l'
}.

Record ledger_frame : Prop := {
  frame_hold l (r : HoldReason) a x l' : hold l r a x = Some l' → R l l';
  frame_release l (r : HoldReason) a x p l' y : release l r a x p = Some (l', y) → R l l';
  frame_transfer l (r : HoldReason) a d x l' y : transfer_on_hold l r a d x = Some (l', y) → R l l';
  frame_domain : ticket_frame (ConsiderationDomain T);
  frame_allowlist : ticket_frame (ConsiderationAllowList T)
}.

Hypothesis HR : ledger_frame.

Abbreviation P := (M (state L TD TA) DispatchError).

(** Where a computation ends, the ledger is related to the one it started from. *)
Definition frames {A} (m : P A) : Prop :=
  ∀ s, match m s with ROk _ s' => R (Runtime s) (Runtime s') | _ => True end.

Lemma frames_bind {A B} (m : P A) (f : A → P B) : frames m → (∀ a, frames (f a)) → frames (m ≫= f).
Proof.
  intros Hm Hf s. unfold mbind, M_bind. specialize (Hm s). destruct (m s) as [a s1|e|]; [|done..].
  specialize (Hf a s1). destruct (f a s1); [|done..]. by etransitivity.
Qed.

Lemma frames_ret {A} (a : A) : frames (mret a).
Proof. intros s. simpl. reflexivity. Qed.

Lemma frames_gets {A} (f : state L TD TA → A) : frames (gets f).
Proof. intros s. simpl. reflexivity. Qed.

(** Writing to the storage of the pallet. *)
Lemma frames_modify f : (∀ s, Runtime (f s) = Runtime s) → frames (modify f).
Proof. intros Hf s. simpl. by rewrite Hf. Qed.

Lemma frames_raise {A} e : frames (raise (A:=A) e).
Proof. by intros s. Qed.

Lemma frames_panic {A} : frames (panic (A:=A)).
Proof. by intros s. Qed.

Lemma frames_unwrap {A} (o : option A) : frames (unwrap o).
Proof. destruct o; [apply frames_ret|apply frames_panic]. Qed.

Lemma frames_ensure b e : frames (ensure b e).
Proof. destruct b; [apply frames_ret|apply frames_raise]. Qed.

Lemma frames_on_runtime {A} (f : L → option (L * A)) :
  (∀ l l' a, f l = Some (l', a) → R l l') → frames (on_runtime f).
Proof.
  intros Hf s. unfold on_runtime, mbind, M_bind, gets. destruct (f (Runtime s)) as [[l' a]|] eqn:E; simpl.
  - by eapply Hf.
  - reflexivity.
Qed.

#[local] Hint Resolve frames_ret frames_gets frames_raise frames_panic frames_unwrap frames_ensure : frames.

Ltac framing :=
  repeat first
    [ progress eauto with frames
    | apply frames_bind; [|intros ?]
    | apply frames_modify; intros ?; reflexivity
    | case_match ].

(** ** Operations *)

Lemma reserve_currency_frames d a : frames (reserve_currency T d a).
Proof.
  intros s. unfold reserve_currency, mbind, M_bind, gets, unwrap.
  destruct (total_fee _ _) as [tf|]; [|done]. simpl.
  destruct (hold (Runtime s) AggregationReason a _) as [l1|] eqn:H1; simpl; [|reflexivity].
  destruct (hold l1 DeliveryReason a _) as [l2|] eqn:H2; simpl.
  - etransitivity; eapply frame_hold; eauto.
  - destruct (release l1 AggregationReason a _ Exact) as [[l2 y]|] eqn:H3; simpl; [|done].
    etransitivity; [eapply frame_hold|eapply frame_release]; eauto.
Qed.

Lemma pop_frames d : frames (pop_next_aggregation T d).
Proof. unfold pop_next_aggregation, emit_state_changed_event, deposit_event. framing. Qed.

Lemma hold_state_frames (d : Domain TD TA) : frames (handle_hold_state (L:=L) d).
Proof.
  unfold handle_hold_state, update_hold_state, is_allowlist_empty, emit_state_changed_event, deposit_event. framing.
Qed.

Lemma from_origin_frames o : frames (from_origin T o).
Proof. unfold from_origin. framing. Qed.

Lemma write_domain_frames id (d : Domain TD TA) : frames (write_domain (L:=L) id d).
Proof. unfold write_domain. framing. Qed.

#[local] Hint Resolve reserve_currency_frames pop_frames hold_state_frames from_origin_frames write_domain_frames : frames.

Lemma add_proof_frames id d a st : frames (add_proof T id d a st).
Proof.
  unfold add_proof, cannot_aggregate, is_authorized_to_add_proof, append_statement, available_aggregation, deposit_event.
  framing.
Qed.

Lemma held_funds_frames r a dest x : frames (handle_held_funds (TD:=TD) (TA:=TA) r a dest x).
Proof.
  unfold handle_held_funds. apply frames_bind.
  - destruct dest; [|apply frames_ret]. apply frames_on_runtime. intros l l' y. by apply frame_transfer.
  - intros [|]; [apply frames_ret|]. apply frames_bind; [|intros; apply frames_ret].
    apply frames_on_runtime. intros l l' y. by apply frame_release.
Qed.

Lemma pay_frames u o l : frames (pay_statements (TD:=TD) (TA:=TA) u o l).
Proof.
  induction l as [|e l IH]; [apply frames_ret|]. simpl.
  apply frames_bind; [apply held_funds_frames|intros _]. by apply frames_bind; [apply held_funds_frames|].
Qed.

Lemma new_ticket_frames {Tk} (c : Consideration string L Tk) o n sz :
  ticket_frame c → frames (new_ticket (TD:=TD) (TA:=TA) c o n sz).
Proof.
  intros Hc. unfold new_ticket. destruct o; [|apply frames_ret].
  apply frames_bind; [|intros []; framing]. apply frames_on_runtime. intros l l' t. by apply frame_new.
Qed.

Lemma drop_ticket_frames {Tk} (c : Consideration string L Tk) o t :
  ticket_frame c → frames (drop_ticket (TD:=TD) (TA:=TA) c o t).
Proof.
  intros Hc. unfold drop_ticket. destruct o, t; try apply frames_ret.
  apply frames_bind; [|intros; apply frames_ret]. apply frames_on_runtime.
  intros l l' [] (l1 & Hd & [= <-])%bind_Some. by eapply frame_drop.
Qed.

Lemma update_count_frames d o t n : frames (update_count T d o t n).
Proof.
  unfold update_count. apply frames_bind; [|intros []; framing]. apply frames_on_runtime.
  intros l l' t'. apply frame_update, frame_allowlist, HR.
Qed.

#[local] Hint Resolve update_count_frames : frames.

Lemma submitters_frames id l n :
  frames (insert_submitters (L:=L) (TD:=TD) (TA:=TA) id l n) ∧ frames (delete_submitters (L:=L) (TD:=TD) (TA:=TA) id l n).
Proof.
  revert n. induction l as [|a l IH]; intros n; [split; apply frames_ret|]. simpl.
  split; (apply frames_bind; [apply frames_gets|intros m]); case_bool_decide; try apply IH;
    (apply frames_bind; [by apply frames_modify|intros _; apply IH]).
Qed.

Lemma try_submitters_frames d l : frames (try_add_submitters T d l) ∧ frames (try_remove_submitters T d l).
Proof.
  unfold try_add_submitters, try_remove_submitters, add_submitters, remove_submitters,
    increase_footprint_count, decrease_footprint_count.
  split; case_bool_decide; try apply frames_raise;
    (apply frames_bind; [apply submitters_frames|intros n]); framing.
Qed.

(** ** Calls *)

#[local] Hint Resolve add_proof_frames : frames.

Lemma on_proof_verified_frames a d st : frames (on_proof_verified T a d st).
Proof.
  unfold on_proof_verified, cannot_aggregate, deposit_event. framing.
Qed.

Lemma try_add_frames d l : frames (try_add_submitters T d l).
Proof. apply try_submitters_frames. Qed.

Lemma try_remove_frames d l : frames (try_remove_submitters T d l).
Proof. apply try_submitters_frames. Qed.

#[local] Hint Resolve try_add_frames try_remove_frames pay_frames new_ticket_frames drop_ticket_frames frame_domain frame_allowlist : frames.

Lemma run_call_frames o c : frames (run_call T o c).
Proof.
  destruct c; simpl;
    unfold aggregate, take_aggregation, register_domain, try_create, hold_domain, update_hold_state, is_allowlist_empty,
      emit_state_changed_event, unregister_domain, set_total_delivery_fee, allowlist_proof_submitters,
      remove_proof_submitters, deposit_event;
    framing.
Qed.

Lemma frames_dispatch (m : P unit) s : frames m → R (Runtime s) (Runtime (dispatch m s).1).
Proof. intros Hm. specialize (Hm s). unfold dispatch. destruct (m s); simpl; [done|reflexivity..]. Qed.
End frame.
