(* ===== verification/ZkvRuntime.v ===== *)
(** * The pallets together ([runtime/zkverify/src/lib.rs])

    The runtime joins the verifier pallets, the aggregation pallet and the CRL
    pallet: a verified proof is handed to the aggregation pallet, the deposits
    for keys and the reserves for statements are held on the same accounts for
    different reasons, and verifiers read the revocation lists.

    Every state the runtime reaches is, for each pallet, a state the pallet
    reaches alone, so the theorems on each pallet hold of the runtime; and every
    statement the aggregation pallet knows of is that of a proof one of the
    verifiers accepted. *)

From S2P Require Import Prelude Frame Holds Merkle Crl Verifiers AggregateData Aggregate AggregateInv.
From S2P Require Import AggregateCalls AggregateRuntime AggregateProps AggregateStatements.

Open Scope Z_scope.

(** ** Holds of several pallets on one ledger *)

Inductive RuntimeHoldReason : Type :=
  | AggregateHold (r : AggregateData.HoldReason)
  | CommonVerifiers (r : Verifiers.HoldReason).

#[export] Instance RuntimeHoldReason_eq_dec : EqDecision RuntimeHoldReason.
Proof. solve_decision. Defined.
#[export] Instance RuntimeHoldReason_countable : Countable RuntimeHoldReason.
Proof.
  refine (inj_countable'
    (λ r, match r with AggregateHold r => inl r | CommonVerifiers r => inr r end)
    (λ r, match r with inl r => AggregateHold r | inr r => CommonVerifiers r end) _).
  by intros [].
Defined.

Section holds.
Context {L : Type} `{HL : !Hold RuntimeHoldReason string L, !HoldLaws RuntimeHoldReason string L}.

(** The aggregation pallet's view of the ledger. *)
#[export] Instance aggregate_hold : Hold AggregateData.HoldReason string L := {
  free := free (R:=RuntimeHoldReason);
  frozen := frozen (R:=RuntimeHoldReason);
  held l r a := held l (AggregateHold r) a;
  hold l r a x := hold l (AggregateHold r) a x;
  release l r a x p := release l (AggregateHold r) a x p;
  transfer_on_hold l r a d x := transfer_on_hold l (AggregateHold r) a d x
}.

Lemma at_key_reason (r r' : AggregateData.HoldReason) (a b : string) x :
  at_key (AggregateHold r, a) x (AggregateHold r', b) = at_key (r, a) x (r', b).
Proof.
  unfold at_key. destruct (decide ((r', b) = (r, a))) as [[= -> ->]|H]; [by rewrite decide_True|].
  rewrite decide_False; [done|]. intros [= -> ->]. done.
Qed.

#[export] Instance aggregate_hold_laws : HoldLaws AggregateData.HoldReason string L.
Proof.
  refine {| Holds.hold_wf := hold_wf (R:=RuntimeHoldReason) (Acc:=string) (L:=L) |}; simpl.
  - intros l r a Hw. by apply held_nonneg.
  - intros l r a x l' Hw Hx Hh. destruct (hold_spec l _ a x l' Hw Hx Hh) as (? & H & ?).
    split_and!; [done| |done]. intros r' b. by rewrite H, at_key_reason.
  - intros l r a x p l' y Hw Hx Hh. destruct (release_spec l _ a x p l' y Hw Hx Hh) as (? & ? & H & ?).
    split_and!; [done|done| |done]. intros r' b. by rewrite H, at_key_reason.
  - intros l r a x p Hw Hx. by apply release_ok.
  - intros l r a x p l' y b Hh. by eapply release_frozen.
  - intros l r a d x l' y b Hh. by eapply transfer_frozen.
  - intros l r a d x l' y Hw Hx Hh. destruct (transfer_spec l _ a d x l' y Hw Hx Hh) as (? & ? & ? & H & ?).
    do 3 (split; [done|]). split; [|done]. intros r' b. by rewrite H, at_key_reason.
  - intros l r a x l' r' b Hh Hr. eapply hold_frame; [exact Hh|congruence].
  - intros l r a x p l' y r' b Hh Hr. eapply release_frame; [exact Hh|congruence].
  - intros l r a d x l' y r' b Hh Hr. eapply transfer_frame; [exact Hh|congruence].
Defined.

(** ** Deposits for keys *)

(** [vks_key_size], [tickets_key_size] and [tickets_value_size]: encoded lengths
    of a hash, of a hashed pair of account and hash, and of a balance. *)
Definition VkRegistrationBaseDeposit : Z := deposit 2 (32 + (16 + 64) + 16).
Definition VkRegistrationByteDeposit : Z := deposit 0 1.

Definition VkRegistrationHoldConsideration : Consideration string L Z :=
  HoldConsideration (CommonVerifiers VkRegistration)
    (linear_storage_price VkRegistrationBaseDeposit VkRegistrationByteDeposit).

Lemma vk_consideration_ok : consideration_ok escrow VkRegistrationHoldConsideration.
Proof.
  assert (H : consideration_ok (λ r, ∃ r', r = AggregateHold r') VkRegistrationHoldConsideration).
  { apply HoldConsideration_ok. by intros [? [=]]. }
  assert (Hk : ∀ l l' : L, keeps (R:=RuntimeHoldReason) (λ r, ∃ r', r = AggregateHold r') l l' →
    keeps (R:=AggregateData.HoldReason) escrow l l').
  { intros l l' [Hw Hh]. split; [done|]. intros r b _. simpl. apply Hh. by exists r. }
  destruct H as [H1 H2 H3]. split; intros; apply Hk; eauto.
Qed.
End holds.

(** ** The runtime *)

Section runtime.
Context {L : Type} `{HL : !Hold RuntimeHoldReason string L, !HoldLaws RuntimeHoldReason string L}.
(** The verifier pallets, with the keys, proofs and public inputs of each. *)
Context {Name : Type} `{!EqDecision Name} {VkT Proof Pubs : Name → Type}.

Abbreviation agg_state := (Aggregate.state L Z Z).

(** What a verifier pallet sees of the rest of the runtime. *)
Definition services : Type := agg_state * Crl.state.

Definition lift_ticket (c : Consideration string L Z) : Consideration string services Z := {|
  ticket_new v a n sz :=
    '(l, t) ← ticket_new c (Aggregate.Runtime v.1) a n sz; Some ((Aggregate.set_Runtime l v.1, v.2), t);
  ticket_update v t a n sz :=
    '(l, t) ← ticket_update c (Aggregate.Runtime v.1) t a n sz; Some ((Aggregate.set_Runtime l v.1, v.2), t);
  ticket_drop v t a :=
    l ← ticket_drop c (Aggregate.Runtime v.1) t a; Some (Aggregate.set_Runtime l v.1, v.2)
|}.

(** The configurations of the pallets.  [pallets] gives each verifier pallet its
    verifier and weights; its deposits and its callback are the runtime's. *)
Context (TA : Aggregate.Config L Z Z) (TC : Crl.Config).
Context (pallets : ∀ n, Verifiers.Config services (VkT n) (Proof n) (Pubs n) Z).

(** [type OnProofVerified = Aggregate] *)
Definition OnProofVerified (account : option string) (domain_id : option Z) (statement : string)
    (v : services) : option services :=
  match on_proof_verified TA account domain_id statement v.1 with
  | ROk _ s => Some (s, v.2)
  | _ => None
  end.

Definition wired {K P U} (c : Verifiers.Config services K P U Z) : Verifiers.Config services K P U Z := {|
  Verifiers.I := Verifiers.I c;
  Ticket := lift_ticket VkRegistrationHoldConsideration;
  Verifiers.OnProofVerified := OnProofVerified;
  on_proof_verified_weight := on_proof_verified_weight c;
  Verifiers.keccak_256 := Verifiers.keccak_256 c;
  vk_encoded_size := vk_encoded_size c;
  weight_reads_1 := weight_reads_1 c;
  weight_get_vk := weight_get_vk c;
  weight_validate_vk := weight_validate_vk c;
  weight_verify_proof := weight_verify_proof c;
  weight_statement_hash := weight_statement_hash c;
  on_verify_disabled_verifier := on_verify_disabled_verifier c
|}.

(** The storage of one verifier pallet. *)
Record pallet_store (K : Type) : Type := PalletStore {
  ps_Disabled : option bool;
  ps_Vks : gmap string (VkEntry K);
  ps_Tickets : gmap (string * string) Z;
  ps_Events : list Verifiers.Event
}.

Arguments PalletStore {K} _ _ _ _.
Arguments ps_Disabled {K} _.
Arguments ps_Vks {K} _.
Arguments ps_Tickets {K} _.
Arguments ps_Events {K} _.

Record runtime : Type := RuntimeState {
  rt_aggregate : agg_state;
  rt_crl : Crl.state;
  rt_pallets : ∀ n, pallet_store (VkT n)
}.

Definition empty_store (n : Name) : pallet_store (VkT n) := PalletStore None ∅ ∅ [].

(** The state a verifier pallet works on, and the runtime after it. *)
Definition pallet_state (rt : runtime) (n : Name) : Verifiers.state services (VkT n) Z :=
  let p := rt_pallets rt n in
  Verifiers.State (ps_Disabled p) (ps_Vks p) (ps_Tickets p) (ps_Events p) (rt_aggregate rt, rt_crl rt).

Definition put_pallet (n : Name) (s : Verifiers.state services (VkT n) Z) (rt : runtime) : runtime :=
  RuntimeState (Verifiers.Runtime s).1 (Verifiers.Runtime s).2
    (dinsert n (PalletStore (Disabled s) (Vks s) (Tickets s) (Verifiers.Events s)) (rt_pallets rt)).

Inductive RuntimeCall : Type :=
  | CallAggregate (c : Aggregate.Call)
  | CallCrl (c : Crl.Call)
  | CallVerifier (n : Name) (c : Verifiers.Call (VkT n) (Proof n) (Pubs n)).

Inductive outcome : Type := Succeeded | Refused | Crashed.

Definition outcome_of {E} (r : dispatch_result E) : outcome :=
  match r with Done => Succeeded | Failed _ => Refused | Panicked => Crashed end.

Definition execute (o : Origin) (c : RuntimeCall) (rt : runtime) : runtime * outcome :=
  match c with
  | CallAggregate c =>
      let r := dispatch (Aggregate.run_call TA o c) (rt_aggregate rt) in
      (RuntimeState r.1 (rt_crl rt) (rt_pallets rt), outcome_of r.2)
  | CallCrl c =>
      let r := dispatch (Crl.run_call TC o c) (rt_crl rt) in
      (RuntimeState (rt_aggregate rt) r.1 (rt_pallets rt), outcome_of r.2)
  | CallVerifier n c =>
      let r := dispatch (Verifiers.run_call (wired (pallets n)) o c) (pallet_state rt n) in
      (put_pallet n r.1 rt, outcome_of r.2)
  end.

(** Extrinsics one after the other. *)
Definition run (calls : list (Origin * RuntimeCall)) (rt : runtime) : runtime * list outcome :=
  fold_left (λ acc oc, let r := execute oc.1 oc.2 acc.1 in (r.1, acc.2 ++ [r.2])) calls (rt, []).

(** [on_initialize] and the timestamp of a block. *)
Definition new_block (now : Z) (rt : runtime) : runtime :=
  RuntimeState (dispatch Aggregate.on_initialize (rt_aggregate rt)).1 (Crl.set_Now now (rt_crl rt))
    (rt_pallets rt).

(** Extrinsics, blocks, and what the other pallets do to the ledger: they leave
    the holds of these pallets alone. *)
Definition rt_call_ok (c : RuntimeCall) : Prop :=
  match c with CallAggregate c => call_ok c | _ => True end.

Inductive rt_step : runtime → runtime → Prop :=
  | rt_call o c rt : rt_call_ok c → rt_step rt (execute o c rt).1
  | rt_block now rt : rt_step rt (new_block now rt)
  | rt_other l rt : keeps (λ _ : RuntimeHoldReason, True) (Aggregate.Runtime (rt_aggregate rt)) l →
      rt_step rt (RuntimeState (Aggregate.set_Runtime l (rt_aggregate rt)) (rt_crl rt) (rt_pallets rt)).

Inductive rt_reachable : runtime → Prop :=
  | rt_init l now : hold_wf (R:=RuntimeHoldReason) (Acc:=string) l →
      rt_reachable (RuntimeState (Aggregate.State 0 ∅ ∅ [] [] l) (Crl.State ∅ ∅ [] now) empty_store)
  | rt_next rt rt' : rt_reachable rt → rt_step rt rt' → rt_reachable rt'.

Lemma run_reachable calls rt :
  Forall (λ oc, rt_call_ok oc.2) calls → rt_reachable rt → rt_reachable (run calls rt).1.
Proof.
  intros Hok. unfold run. change rt with (rt, @nil outcome).1 at 1. generalize (rt, @nil outcome).
  induction Hok as [|[o c] calls Hc _ IH]; intros acc Hr; [done|]. simpl. apply IH. simpl.
  eapply rt_next; [exact Hr|]. by apply rt_call.
Qed.

(** ** Each pallet in the runtime *)

Definition pallets_reachable (rt : runtime) : Prop :=
  AggregateProps.reachable TA (rt_aggregate rt) ∧ Crl.reachable TC (rt_crl rt) ∧
  ∀ n, Verifiers.reachable (wired (pallets n)) (pallet_state rt n).

(** What a verifier pallet's call does to the others. *)
Lemma verifier_call_frame {K P U} (T : Verifiers.Config services K P U Z) o c s :
  Verifiers.inv (wired T) s → hold_wf (R:=RuntimeHoldReason) (Acc:=string) (Aggregate.Runtime (Verifiers.Runtime s).1) →
  let s' := (dispatch (Verifiers.run_call (wired T) o c) s).1 in
  (Verifiers.Runtime s').2 = (Verifiers.Runtime s).2 ∧
  ((∃ a d st, (Verifiers.Runtime s').1 = (dispatch (on_proof_verified TA a d st) (Verifiers.Runtime s).1).1) ∨
   (∃ l, keeps escrow (Aggregate.Runtime (Verifiers.Runtime s).1) l ∧
         (Verifiers.Runtime s').1 = Aggregate.set_Runtime l (Verifiers.Runtime s).1)).
Proof.
  intros Hi Hw. pose proof (vk_consideration_ok (L:=L)) as [Hnew _ Hdrop].
  assert (Hsame : ∀ s' : Verifiers.state services K Z, Verifiers.Runtime s' = Verifiers.Runtime s →
    (Verifiers.Runtime s').2 = (Verifiers.Runtime s).2 ∧
    ((∃ a d st, (Verifiers.Runtime s').1 = (dispatch (on_proof_verified TA a d st) (Verifiers.Runtime s).1).1) ∨
     (∃ l, keeps escrow (Aggregate.Runtime (Verifiers.Runtime s).1) l ∧
           (Verifiers.Runtime s').1 = Aggregate.set_Runtime l (Verifiers.Runtime s).1))).
  { intros s' ->. split; [done|right]. exists (Aggregate.Runtime (Verifiers.Runtime s).1).
    split; [by split|]. by rewrite set_Runtime_id. }
  unfold dispatch. destruct c as [v p u d|vk|b|h]; simpl.
  - pose proof (submit_proof_run (wired T) o v p u d s Hi) as H. unfold mbind, M_bind.
    destruct (submit_proof (wired T) o v p u d s) as [w s'|e|]; [|by apply Hsame..].
    destruct H as (a & vk & w' & l' & _ & _ & _ & _ & Hcb & ->). simpl in *. unfold OnProofVerified in Hcb.
    destruct (on_proof_verified TA a d _ (Verifiers.Runtime s).1) as [[] s1|e|] eqn:E; [|done..].
    injection Hcb as <-. split; [done|left]. eexists a, d, _. unfold dispatch. by rewrite E.
  - pose proof (register_vk_ends (wired T) o vk s) as H. unfold ends in H.
    destruct (register_vk (wired T) o vk s) as [[] s'|e|]; [|by apply Hsame..].
    destruct H as (a & _ & l' & t & e & _ & _ & _ & Ht & _ & _ & ->). simpl in *.
    apply bind_Some in Ht as ([l t'] & Ht & [= <- <-]). split; [done|right]. exists l. split; [|done].
    by eapply Hnew.
  - destruct o; by apply Hsame.
  - pose proof (unregister_vk_ends (wired T) o h s Hi) as H. unfold ends in H.
    destruct (unregister_vk (wired T) o h s) as [[] s'|e|]; [|by apply Hsame..].
    destruct H as (a & _ & l' & t & e & _ & Hd & _ & ->). simpl in *.
    apply bind_Some in Hd as (l & Hd & [= <-]). split; [done|right]. exists l. split; [|done].
    by eapply Hdrop.
Qed.
Hypothesis HTA : AggregateInv.config_ok TA.

Lemma agg_step_reachable s s' :
  AggregateProps.reachable TA s → (AggregateProps.step TA s s' ∨ s' = s) → AggregateProps.reachable TA s'.
Proof. intros Hr [Hs| ->]; [by eapply AggregateProps.reach_step|done]. Qed.

(** A pallet that is not called sees another runtime. *)
Lemma pallet_reachable_other rt rt' n :
  Verifiers.reachable (wired (pallets n)) (pallet_state rt n) → rt_pallets rt' n = rt_pallets rt n →
  Verifiers.reachable (wired (pallets n)) (pallet_state rt' n).
Proof.
  intros Hr E. unfold pallet_state at 1. rewrite E.
  apply (Verifiers.reach_step _ _ _ Hr (Verifiers.step_runtime _ (rt_aggregate rt', rt_crl rt') _)).
Qed.

Lemma pallet_state_put n s rt : pallet_state (put_pallet n s rt) n = s.
Proof. unfold pallet_state. simpl. rewrite dinsert_eq. by destruct s as [? ? ? ? []]. Qed.

Lemma runtime_pallets rt : rt_reachable rt → pallets_reachable rt.
Proof.
  induction 1 as [l now Hw|rt rt' _ (Ha & Hc & Hv) Hs].
  { split_and!; [by constructor|constructor|]. intros n. constructor. }
  destruct Hs as [o c rt Hok|now rt|l rt Hk].
  - destruct c as [c|c|n c]; simpl.
    + split_and!; [|done|intros n; by apply (pallet_reachable_other rt)].
      eapply AggregateProps.reach_step; [exact Ha|]. by apply AggregateProps.step_call.
    + split_and!; [done| |intros n; by apply (pallet_reachable_other rt)].
      eapply Crl.reach_step; [exact Hc|]. apply Crl.step_call.
    + pose proof (agg_reachable_inv TA HTA _ Ha) as Hi.
      destruct (verifier_call_frame (pallets n) o c (pallet_state rt n)) as [Hcrl Hagg].
      { apply vk_reachable_inv, Hv. }
      { apply Hi. }
      simpl in Hcrl, Hagg. split_and!.
      * apply (agg_step_reachable (rt_aggregate rt) _ Ha). left. simpl.
        destruct Hagg as [(a & d & st & ->)|(l & Hk & ->)]; [apply AggregateProps.step_proof|by apply AggregateProps.step_runtime].
      * simpl. by rewrite Hcrl.
      * intros m. destruct (decide (n = m)) as [<-|Hne].
        -- cbn [fst]. rewrite pallet_state_put.
           exact (Verifiers.reach_step _ _ _ (Hv n) (Verifiers.step_call _ o c _)).
        -- apply (pallet_reachable_other rt); [apply Hv|].
           by apply (dinsert_ne (F:=λ k, pallet_store (VkT k))).
  - split_and!; [| |intros n; by apply (pallet_reachable_other rt)]; simpl.
    + eapply AggregateProps.reach_step; [exact Ha|]. apply AggregateProps.step_block.
    + eapply Crl.reach_step; [exact Hc|]. apply Crl.step_time.
  - split_and!; [|done|intros n; by apply (pallet_reachable_other rt)].
    eapply AggregateProps.reach_step; [exact Ha|]. apply AggregateProps.step_runtime.
    destruct Hk as [Hw Hh]. split; [done|]. intros r b _. simpl. by apply Hh.
Qed.

(** ** Statements *)

(** A proof that a verifier accepted in some state of the chain, with a key that
    had passed its check. *)
Definition accepted_by (n : Name) (vk : VkT n) (p : Proof n) (u : Pubs n) : Prop :=
  (∃ l, validate_vk (Verifiers.I (pallets n)) l vk = None) ∧
  ∃ rt w, rt_reachable rt ∧
    verify_proof (Verifiers.I (pallets n)) (rt_aggregate rt, rt_crl rt) vk p u = Some (inr w).

(** The statement of such a proof. *)
Definition accepted (st : string) : Prop :=
  ∃ n vk p u, accepted_by n vk p u ∧ st = compute_statement_hash (pallets n) (Vk vk) p u.

Lemma callback_known a d x (v l' : services) st :
  AggregateInv.inv TA v.1 → OnProofVerified a d x v = Some l' → known l'.1 st → known v.1 st ∨ st = x.
Proof.
  intros Hi E Hk. apply (proof_known TA HTA a d x v.1 st Hi). unfold OnProofVerified in E. unfold dispatch.
  destruct (on_proof_verified TA a d x v.1) as [[] s1|e|]; [|done..]. by injection E as <-.
Qed.

(** The statements a call to a verifier pallet can add. *)
Lemma verifier_call_known n o c rt st :
  rt_reachable rt → known (rt_aggregate (execute o (CallVerifier n c) rt).1) st →
  known (rt_aggregate rt) st ∨ accepted st.
Proof.
  intros Hr. destruct (runtime_pallets rt Hr) as (Ha & _ & Hv). specialize (Hv n). set (T := pallets n) in *.
  pose proof (agg_reachable_inv TA HTA _ Ha) as Hi. pose proof (vk_reachable_inv _ _ Hv) as Hvi.
  simpl. fold T. unfold dispatch. destruct c as [v p u d|vk|b|h]; simpl.
  - pose proof (submit_proof_run (wired T) o v p u d _ Hvi) as H. unfold mbind, M_bind.
    destruct (submit_proof (wired T) o v p u d (pallet_state rt n)) as [w s'|e|]; [|by left..].
    destruct H as (a & vk & w' & l' & _ & _ & Hres & Hver & Hcb & ->). intros Hk.
    destruct (callback_known a d _ (rt_aggregate rt, rt_crl rt) l' st Hi Hcb Hk) as [?|Hst]; [by left|].
    right. exists n, vk, p, u. split; [split; [|by exists rt, w']|done].
    apply (resolves_valid (wired T) (λ vk, ∃ l, validate_vk (Verifiers.I T) l vk = None) (pallet_state rt n) v); eauto.
  - pose proof (register_vk_ends (wired T) o vk (pallet_state rt n)) as H. unfold ends in H.
    destruct (register_vk (wired T) o vk (pallet_state rt n)) as [[] s'|e|]; [|by left..].
    destruct H as (a & _ & l' & t & e & _ & _ & _ & Ht & _ & _ & ->). simpl in *.
    apply bind_Some in Ht as ([l t'] & _ & [= <- <-]). by left.
  - destruct o; by left.
  - pose proof (unregister_vk_ends (wired T) o h _ Hvi) as H. unfold ends in H.
    destruct (unregister_vk (wired T) o h (pallet_state rt n)) as [[] s'|e|]; [|by left..].
    destruct H as (a & _ & l' & t & e & _ & Hd & _ & ->). simpl in *.
    apply bind_Some in Hd as (l & _ & [= <-]). by left.
Qed.

Lemma runtime_known rt st : rt_reachable rt → known (rt_aggregate rt) st → accepted st.
Proof.
  intros Hr. revert st. induction Hr as [l now Hw|rt rt' Hr IH Hs]; intros st.
  { by intros (x & [(id & d & Hd & _)|(id & []%elem_of_nil)] & _). }
  destruct (runtime_pallets rt Hr) as (Ha & _ & _). pose proof (agg_reachable_inv TA HTA _ Ha) as Hi.
  destruct Hs as [o c rt Hok|now rt|l rt _].
  - destruct c as [c|c|n c]; [|by apply IH|].
    + simpl. pose proof (run_call_known TA HTA o c _ Hi Hok) as H. unfold ends, dispatch in *.
      destruct (Aggregate.run_call TA o c (rt_aggregate rt)); intros Hk; apply IH; auto.
    + intros [Hk|Hk]%(verifier_call_known n o c rt st Hr); [by apply IH|done].
  - intros (x & [Hx|(id & []%elem_of_nil)] & Hst). apply IH. exists x. split; [by left|done].
  - apply IH.
Qed.

(** The leaves of a published aggregation, and the leaf of an accepted path. *)
Lemma receipt_leaves rt id x :
  rt_reachable rt → (id, x) ∈ Published (rt_aggregate rt) → Forall accepted (statement <$> statements x).
Proof.
  intros Hr Hin. apply list.Forall_forall. intros st Hst. apply (runtime_known rt st Hr).
  exists x. split; [right; by exists id|done].
Qed.

Lemma receipt_path keccak rt id x i p :
  (∀ l, l ≠ [] → merkle_root TA l = "0x" +:+ tree_root keccak l) → (∀ s, String.length (keccak s) = 64%nat) →
  rt_reachable rt → (id, x) ∈ Published (rt_aggregate rt) →
  let leaves := statement <$> statements x in
  (i < length leaves)%nat →
  mp_leaf_index p = Z.of_nat i → mp_number_of_leaves p = Z.of_nat (length leaves) →
  length (mp_proof p) = length (mp_proof (statement_path keccak leaves i)) →
  verifyProof keccak p (compute_receipt (merkle_root TA) x) = true →
  accepted (mp_leaf p) ∨
  ∃ a b, a ∈ hashed keccak p ∧ b ∈ hashed keccak (statement_path keccak leaves i) ∧ a ≠ b ∧ keccak a = keccak b.
Proof.
  intros Hroot Hk Hr Hin leaves Hi Hidx Hn Hlen Hv. unfold compute_receipt in Hv.
  rewrite Hroot in Hv by (intros E; unfold leaves in Hi; rewrite E in Hi; simpl in Hi; lia).
  destruct (verifyProof_binding keccak leaves i p Hk Hi Hidx Hn Hlen Hv) as [[Hl _]|Hcol]; [left|by right].
  pose proof (receipt_leaves rt id x Hr Hin) as Hall. rewrite list.Forall_forall in Hall.
  apply Hall. by eapply list_elem_of_lookup_2.
Qed.
End runtime.
#[global] Arguments ps_Disabled {K} _.
#[global] Arguments ps_Vks {K} _.
#[global] Arguments ps_Tickets {K} _.
#[global] Arguments ps_Events {K} _.

(** ** A chain with one verifier *)

Import HoldLedger.

Abbreviation sample_L := (hledger RuntimeHoldReason).

(** A hash of 64 digits. *)
Definition sample_keccak64 (s : string) : string :=
  if decide (String.length (sample_keccak s) = 64%nat) then sample_keccak s else sample_keccak "".

Definition sample_TA : Aggregate.Config sample_L Z Z :=
  Runtime_aggregate (λ _ _, 10 ^ 17) true
    (λ l, "0x" +:+ tree_root sample_keccak64 l) (λ l i, statement_path sample_keccak64 l (Z.to_nat i)).

Definition sample_rt_verifier : Verifier (services (L:=sample_L)) string string string := {|
  hash_context_data := "sample";
  verify_proof := λ _ vk p u, Some (if bool_decide (p = vk +:+ u) then inr None else inl VerifyFailed);
  validate_vk := λ _ vk, if bool_decide (vk = "") then Some InvalidVerificationKey else None;
  vk_hash := λ vk, "#" +:+ vk;
  pubs_bytes := λ u, u;
  verifier_version_hash := default_version_hash
|}.

Definition sample_pallet : Verifiers.Config (services (L:=sample_L)) string string string Z := {|
  I := sample_rt_verifier;
  Ticket := lift_ticket VkRegistrationHoldConsideration;
  Verifiers.OnProofVerified := λ _ _ _ v, Some v;
  on_proof_verified_weight := λ _, no_weight;
  Verifiers.keccak_256 := λ s, "0x" +:+ sample_keccak64 s;
  vk_encoded_size := λ vk, Z.of_nat (String.length vk);
  weight_reads_1 := no_weight;
  weight_get_vk := no_weight;
  weight_validate_vk := λ _, no_weight;
  weight_verify_proof := λ _ _, no_weight;
  weight_statement_hash := λ _ _, no_weight;
  on_verify_disabled_verifier := no_weight
|}.

Abbreviation one_type := (λ _ : unit, string).

Definition sample_pallets (_ : unit) : Verifiers.Config (services (L:=sample_L)) string string string Z :=
  sample_pallet.

Definition sample_calls : list (Origin * RuntimeCall (VkT:=one_type) (Proof:=one_type) (Pubs:=one_type)) := [
  (Signed "alice", CallAggregate (Call_register_domain 2 (Some 1) AggUntrusted ProofUntrusted
     {| destination := NoDestination; fee := 10 ^ 16; owner_tip := 10 ^ 15 |} None));
  (Signed "alice", CallVerifier tt (Call_register_vk "key"));
  (Signed "bob", CallVerifier tt (Call_submit_proof (Hash "#key") "key1" "1" (Some 0)));
  (Signed "bob", CallVerifier tt (Call_submit_proof (Hash "#key") "key1" "2" (Some 0)));
  (Signed "carol", CallVerifier tt (Call_submit_proof (Vk "key") "key3" "3" (Some 0)));
  (Signed "dave", CallAggregate (Call_aggregate 0 1))].

Definition sample_genesis : runtime (L:=sample_L) (VkT:=one_type) :=
  RuntimeState (Aggregate.State 0 ∅ ∅ [] []
    (HLedger (list_to_map ((λ a, (a, 10 ^ 23)) <$> ["alice"; "bob"; "carol"; "dave"])) ∅))
    (Crl.State ∅ ∅ [] 1) empty_store.

Definition sample_chain : runtime (L:=sample_L) (VkT:=one_type) * list outcome :=
  run sample_TA sample_crl_config sample_pallets sample_calls sample_genesis.

Lemma sample_chain_outcomes :
  sample_chain.2 = [Succeeded; Succeeded; Succeeded; Refused; Succeeded; Succeeded].
Proof. vm_compute. reflexivity. Qed.

Lemma sample_TA_ok : AggregateInv.config_ok sample_TA.
Proof. apply Runtime_aggregate_ok. intros l n. done. Qed.

Lemma sample_chain_reachable : rt_reachable (VkT:=one_type) (Proof:=one_type) (Pubs:=one_type) sample_TA sample_crl_config sample_pallets sample_chain.1.
Proof.
  apply (run_reachable (VkT:=one_type) (Proof:=one_type) (Pubs:=one_type)); [|constructor; apply map_Forall_empty].
  repeat constructor; simpl; unfold u32_max; try lia.
  intros x [= <-]. done.
Qed.

Abbreviation sample_accepted :=
  (accepted (VkT:=one_type) (Proof:=one_type) (Pubs:=one_type) sample_TA sample_crl_config sample_pallets).

Definition sample_receipt : AggregationEntry :=
  default {| agg_id := 0; agg_size := 0; statements := [] |}
    (snd <$> head (Published (rt_aggregate sample_chain.1))).

(** ** Properties *)

(** C6: the pallets of a runtime do not disturb each other: in every state the runtime
    reaches, the aggregation pallet, the CRL pallet and each verifier pallet are
    in a state they reach alone, although verified proofs change the state of
    the aggregation pallet and deposits and reserves share the accounts.  So
    what is proved of each pallet alone holds in the runtime. *)
Theorem runtime_refines_pallets {L Name} `{!EqDecision Name} {VkT Proof Pubs : Name → Type}
    `{!Hold RuntimeHoldReason string L, !HoldLaws RuntimeHoldReason string L}
    (TA : Aggregate.Config L Z Z) TC (pallets : ∀ n, Verifiers.Config services (VkT n) (Proof n) (Pubs n) Z) rt :
  AggregateInv.config_ok TA → rt_reachable TA TC pallets rt →
  AggregateProps.reachable TA (rt_aggregate rt) ∧ Crl.reachable TC (rt_crl rt) ∧
  ∀ n, Verifiers.reachable (wired TA (pallets n)) (pallet_state rt n).
Proof. intros HT Hr. by apply runtime_pallets. Qed.

Lemma runtime_refines_pallets_witness :
  AggregateProps.reachable sample_TA (rt_aggregate sample_chain.1) ∧
  Crl.reachable sample_crl_config (rt_crl sample_chain.1) ∧
  ∀ n, Verifiers.reachable (wired sample_TA (sample_pallets n)) (pallet_state sample_chain.1 n).
Proof.
  exact (runtime_refines_pallets (VkT:=one_type) (Proof:=one_type) (Pubs:=one_type) sample_TA sample_crl_config sample_pallets sample_chain.1
           sample_TA_ok sample_chain_reachable).
Defined.

(** C4: what a published receipt proves to somebody who only has the receipt: each
    leaf of the aggregation is the statement hash of a proof that one of the
    runtime's verifiers accepted, and a path that [verifyProof] accepts at an
    index of the aggregation has such a leaf, unless one of the strings hashed
    along the path collides with one hashed along the tree's own path. *)
Theorem receipt_proves_verification {L Name} `{!EqDecision Name} {VkT Proof Pubs : Name → Type}
    `{!Hold RuntimeHoldReason string L, !HoldLaws RuntimeHoldReason string L}
    (TA : Aggregate.Config L Z Z) TC (pallets : ∀ n, Verifiers.Config services (VkT n) (Proof n) (Pubs n) Z)
    keccak rt id x :
  AggregateInv.config_ok TA → (∀ l, l ≠ [] → merkle_root TA l = "0x" +:+ tree_root keccak l) →
  (∀ s, String.length (keccak s) = 64%nat) →
  rt_reachable TA TC pallets rt → (id, x) ∈ Published (rt_aggregate rt) →
  let leaves := statement <$> statements x in
  Forall (accepted TA TC pallets) leaves ∧
  ∀ i p, (i < length leaves)%nat →
    mp_leaf_index p = Z.of_nat i → mp_number_of_leaves p = Z.of_nat (length leaves) →
    length (mp_proof p) = length (mp_proof (statement_path keccak leaves i)) →
    verifyProof keccak p (compute_receipt (merkle_root TA) x) = true →
    accepted TA TC pallets (mp_leaf p) ∨
    ∃ a b, a ∈ hashed keccak p ∧ b ∈ hashed keccak (statement_path keccak leaves i) ∧
      a ≠ b ∧ keccak a = keccak b.
Proof.
  intros HT Hroot Hk Hr Hin leaves. split; [by eapply receipt_leaves|].
  intros i p. by eapply receipt_path.
Qed.

Lemma receipt_proves_verification_witness :
  let leaves := statement <$> statements sample_receipt in
  length leaves = 2%nat ∧
  Forall (sample_accepted) leaves ∧
  ∀ i p, (i < length leaves)%nat →
    mp_leaf_index p = Z.of_nat i → mp_number_of_leaves p = Z.of_nat (length leaves) →
    length (mp_proof p) = length (mp_proof (statement_path sample_keccak64 leaves i)) →
    verifyProof sample_keccak64 p (compute_receipt (merkle_root sample_TA) sample_receipt) = true →
    sample_accepted (mp_leaf p) ∨
    ∃ a b, a ∈ hashed sample_keccak64 p ∧ b ∈ hashed sample_keccak64 (statement_path sample_keccak64 leaves i) ∧
      a ≠ b ∧ sample_keccak64 a = sample_keccak64 b.
Proof.
  split; [vm_compute; reflexivity|].
  apply (receipt_proves_verification (VkT:=one_type) (Proof:=one_type) (Pubs:=one_type) sample_TA sample_crl_config sample_pallets sample_keccak64
           sample_chain.1 0 sample_receipt).
  - exact sample_TA_ok.
  - reflexivity.
  - intros s. unfold sample_keccak64. case_decide; [done|vm_compute; reflexivity].
  - exact sample_chain_reachable.
  - apply list_elem_of_lookup. exists 0%nat. vm_compute. reflexivity.
Defined.
