(* ===== verification/ZkvDeposits.v ===== *)
(** * The deposits for keys in the runtime ([runtime/zkverify/src/lib.rs])

    All verifier pallets hold their deposits on the same accounts for the same
    reason, beside the holds of the aggregation pallet.  What an account has on
    hold for it is, up to what was held at genesis, the sum of its tickets in all
    of them; so no pallet spends the deposit of another, and whoever has a ticket
    gets the deposit back. *)

From stdpp Require Import finite.
From S2P Require Import Prelude Frame Holds Merkle Crl Verifiers AggregateData Aggregate AggregateInv.
From S2P Require Import AggregateCalls AggregateRuntime AggregateProps AggregateFrame ZkvRuntime.

Open Scope Z_scope.

(** ** Sums *)

Section total.
Context {A : Type} `{!EqDecision A}.
Implicit Types (f g : A → Z) (l : list A).

Definition total f l : Z := foldr (λ x n, f x + n) 0 l.

Lemma total_ext f g l : (∀ x, x ∈ l → g x = f x) → total g l = total f l.
Proof.
  induction l as [|x l IH]; intros H; [done|]. cbn. rewrite H by set_solver. unfold total in IH. rewrite IH; [done|].
  set_solver.
Qed.

(** Changing one term. *)
Lemma total_update f g l n :
  NoDup l → n ∈ l → (∀ m, m ≠ n → g m = f m) → total g l = total f l - f n + g n.
Proof.
  intros Hnd Hn Hne. induction Hnd as [|x l Hx _ IH]; [set_solver|].
  change (g x + total g l = f x + total f l - f n + g n). destruct (decide (x = n)) as [->|Hxn].
  - rewrite (total_ext f g l); [lia|]. intros m Hm. apply Hne. set_solver.
  - rewrite IH, Hne by set_solver. lia.
Qed.

Lemma total_le f l n : (∀ m, 0 ≤ f m) → n ∈ l → f n ≤ total f l.
Proof.
  intros Hf. induction l as [|x l IH]; [set_solver|]. change (total f (x :: l)) with (f x + total f l).
  intros [->|Hn]%elem_of_cons; [|specialize (IH Hn); pose proof (Hf x); lia].
  assert (0 ≤ total f l); [|lia]. clear -Hf. induction l as [|y l IH]; [done|]. cbn. pose proof (Hf y).
  unfold total in IH. lia.
Qed.
End total.

(** ** Frames *)

Section frame.
Context {L : Type} `{HL : !Hold RuntimeHoldReason string L, !HoldLaws RuntimeHoldReason string L}.

Abbreviation VkHold := (CommonVerifiers VkRegistration).

(** The deposits for keys are the same. *)
Definition same_vk_holds (l l' : L) : Prop := ∀ a : string, held l' VkHold a = held l VkHold a.

#[export] Instance same_vk_holds_preorder : PreOrder same_vk_holds.
Proof. split; [done|]. intros l1 l2 l3 H1 H2 a. by rewrite H2. Qed.

Lemma hold_consideration_frame (r : AggregateData.HoldReason) price :
  ticket_frame same_vk_holds (HoldConsideration (L:=L) (Acc:=string) r price).
Proof.
  split; simpl.
  - intros l a n sz l' t (l1 & Hh & [= <- <-])%bind_Some b. eapply (hold_frame l (AggregateHold r)); [exact Hh|done].
  - intros l t a n sz l' t'. destruct (_ <? _); [|destruct (_ <? _)].
    + intros (l1 & Hh & [= <- <-])%bind_Some b. eapply (hold_frame l (AggregateHold r)); [exact Hh|done].
    + intros ([l1 y] & Hh & [= <- <-])%bind_Some b. eapply (release_frame l (AggregateHold r)); [exact Hh|done].
    + by intros [= <- <-].
  - intros l t a l' ([l1 y] & Hh & [= <-])%bind_Some b. eapply (release_frame l (AggregateHold r)); [exact Hh|done].
Qed.

Lemma Runtime_aggregate_frame estimate checks root path :
  ledger_frame (Runtime_aggregate (L:=L) estimate checks root path) same_vk_holds.
Proof.
  split; [| | |apply hold_consideration_frame..].
  - intros l r a x l' Hh b. eapply (hold_frame l (AggregateHold r)); [exact Hh|done].
  - intros l r a x p l' y Hh b. eapply (release_frame l (AggregateHold r)); [exact Hh|done].
  - intros l r a d x l' y Hh b. eapply (transfer_frame l (AggregateHold r)); [exact Hh|done].
Qed.
End frame.

(** ** Deposits *)

Section deposits.
Context {L : Type} `{HL : !Hold RuntimeHoldReason string L, !HoldLaws RuntimeHoldReason string L}.
Context {Name : Type} `{!EqDecision Name, !Finite Name} {VkT Proof Pubs : Name → Type}.
Context (TA : Aggregate.Config L Z Z) (TC : Crl.Config).
Context (pallets : ∀ n, Verifiers.Config (services (L:=L)) (VkT n) (Proof n) (Pubs n) Z).
Hypothesis HTA : AggregateInv.config_ok TA.
Hypothesis HF : ledger_frame TA same_vk_holds.

Abbreviation runtime := (runtime (L:=L) (VkT:=VkT)).
Abbreviation VkHold := (CommonVerifiers VkRegistration).
Implicit Types (rt : runtime).

Definition ledger rt : L := Aggregate.Runtime (rt_aggregate rt).

(** What [a] has deposited with the pallet [n], and with all of them. *)
Definition deposited rt (a : string) (n : Name) : Z := owed a (map_to_list (ps_Tickets (rt_pallets rt n))).
Definition all_deposits rt (a : string) : Z := total (deposited rt a) (enum Name).

(** [base] is what was held before the first key. *)
Definition deposits_ok (base : string → Z) rt : Prop :=
  (∀ n, map_Forall (λ _ t, 0 ≤ t) (ps_Tickets (rt_pallets rt n))) ∧
  ∀ a, held (ledger rt) VkHold a = base a + all_deposits rt a.

Lemma deposited_nonneg base rt a n : deposits_ok base rt → 0 ≤ deposited rt a n.
Proof.
  intros [Ht _]. apply owed_nonneg. specialize (Ht n). apply map_Forall_to_list in Ht.
  eapply List.Forall_impl; [|exact Ht]. by intros [k t].
Qed.

Lemma ticket_covered base rt n a h t :
  (∀ b, 0 ≤ base b) → deposits_ok base rt → ps_Tickets (rt_pallets rt n) !! (a, h) = Some t →
  0 ≤ t ≤ held (ledger rt) VkHold a.
Proof.
  intros Hb Hd Ht. pose proof (proj1 Hd n _ _ Ht) as H0. split; [done|].
  rewrite (proj2 Hd a). pose proof (Hb a).
  pose proof (total_le (deposited rt a) (enum Name) n (λ m, deposited_nonneg base rt a m Hd) (elem_of_enum n)) as Hle.
  enough (t ≤ deposited rt a n) by (unfold all_deposits; lia).
  unfold deposited. rewrite <- (map_to_list_delete _ _ _ Ht), owed_cons. cbn [fst snd]. rewrite at_key_eq.
  enough (0 ≤ owed a (map_to_list (delete (a, h) (ps_Tickets (rt_pallets rt n))))) by lia.
  apply owed_nonneg. pose proof (map_Forall_delete _ _ (a, h) (proj1 Hd n)) as Hf. apply map_Forall_to_list in Hf.
  eapply List.Forall_impl; [|exact Hf]. by intros [k x].
Qed.

(** A change of the tickets of one pallet. *)
Lemma deposits_change base rt n s x b :
  deposits_ok base rt → map_Forall (λ _ t, 0 ≤ t) (Tickets s) →
  (∀ a, owed a (map_to_list (Tickets s)) = deposited rt a n + at_key b x a) →
  (∀ a, held (Aggregate.Runtime (Verifiers.Runtime s).1) VkHold a = held (ledger rt) VkHold a + at_key b x a) →
  deposits_ok base (put_pallet n s rt).
Proof.
  intros [H1 H2] Hs Ho Hh. split.
  - intros m. destruct (decide (n = m)) as [<-|Hne]; cbn [rt_pallets put_pallet].
    + by rewrite dinsert_eq.
    + by rewrite (dinsert_ne (F:=λ k, pallet_store (VkT k))).
  - intros a. change (ledger (put_pallet n s rt)) with (Aggregate.Runtime (Verifiers.Runtime s).1).
    rewrite Hh, H2. unfold all_deposits.
    rewrite (total_update (deposited rt a) (deposited (put_pallet n s rt) a) (enum Name) n (NoDup_enum _) (elem_of_enum _)).
    + assert (E : deposited (put_pallet n s rt) a n = owed a (map_to_list (Tickets s))).
      { unfold deposited. cbn [rt_pallets put_pallet]. by rewrite dinsert_eq. }
      rewrite E, Ho. lia.
    + intros m Hm. unfold deposited. cbn [rt_pallets put_pallet]. by rewrite (dinsert_ne (F:=λ k, pallet_store (VkT k))).
Qed.

Lemma deposits_same base rt n s :
  deposits_ok base rt → Tickets s = ps_Tickets (rt_pallets rt n) →
  same_vk_holds (ledger rt) (Aggregate.Runtime (Verifiers.Runtime s).1) → deposits_ok base (put_pallet n s rt).
Proof.
  intros Hd Ht Hh. apply (deposits_change base rt n s 0 ""); [done|rewrite Ht; apply Hd|..].
  - intros a. rewrite Ht. unfold deposited, at_key. case_decide; lia.
  - intros a. rewrite Hh. unfold at_key. case_decide; lia.
Qed.

(** What the two calls on keys do to the deposits. *)
Lemma register_deposits base rt n a vk s :
  deposits_ok base rt → hold_wf (R:=RuntimeHoldReason) (Acc:=string) (ledger rt) →
  Verifiers.registered (wired TA (pallets n)) (pallet_state rt n) s a vk → deposits_ok base (put_pallet n s rt).
Proof.
  intros Hd Hw (l' & t & e & Ht & _ & _ & Hnew & _ & _ & ->). simpl in Ht, Hnew.
  apply bind_Some in Hnew as ([l1 t1] & Hnew & [= <- <-]). simpl in Hnew.
  apply bind_Some in Hnew as (l2 & Hh & [= -> <-]). set (x := Z.max 0 _) in *.
  destruct (hold_spec _ _ a x l1 Hw ltac:(lia) Hh) as (_ & Hheld & _).
  apply (deposits_change base rt n _ x a); [done|..]; simpl.
  - apply map_Forall_insert_2; [lia|apply Hd].
  - intros b. rewrite map_to_list_insert, owed_cons by done. unfold deposited, at_key. simpl. lia.
  - intros b. rewrite Hheld. unfold at_key, ledger. repeat case_decide; simplify_eq; lia.
Qed.

Lemma unregister_deposits base rt n a h s :
  (∀ b, 0 ≤ base b) → deposits_ok base rt → hold_wf (R:=RuntimeHoldReason) (Acc:=string) (ledger rt) →
  Verifiers.unregistered (wired TA (pallets n)) (pallet_state rt n) s a h → deposits_ok base (put_pallet n s rt).
Proof.
  intros Hb Hd Hw (l' & t & e & Ht & Hdrop & _ & ->). simpl in Ht, Hdrop.
  apply bind_Some in Hdrop as (l1 & Hdrop & [= <-]). simpl in Hdrop.
  apply bind_Some in Hdrop as ([l2 y] & Hr & [= ->]).
  destruct (ticket_covered base rt n a h t Hb Hd Ht) as [H0 Hle]. rewrite Z.max_r in Hr by lia.
  destruct (release_spec _ _ a t _ l1 y Hw H0 Hr) as (_ & -> & Hheld & _). fold (ledger rt) in Hheld. rewrite Z.min_l in Hheld by lia.
  apply (deposits_change base rt n _ (- t) a); [done|..]; simpl.
  - apply map_Forall_delete, Hd.
  - intros b. unfold deposited. rewrite <- (map_to_list_delete _ _ _ Ht), owed_cons.
    cbn [fst snd]. unfold at_key. case_decide; lia.
  - intros b. rewrite Hheld. unfold at_key. repeat case_decide; simplify_eq; lia.
Qed.

Lemma callback_frame a d st (v v' : services) :
  OnProofVerified TA a d st v = Some v' → same_vk_holds (Aggregate.Runtime v.1) (Aggregate.Runtime v'.1).
Proof.
  unfold OnProofVerified. intros E. pose proof (on_proof_verified_frames TA same_vk_holds HF a d st v.1) as Hf.
  destruct (on_proof_verified TA a d st v.1) as [[] s1|e|]; [|done..]. by injection E as <-.
Qed.

Lemma submit_deposits base rt n o v p u d w s :
  deposits_ok base rt → Verifiers.inv (wired TA (pallets n)) (pallet_state rt n) →
  submit_proof (wired TA (pallets n)) o v p u d (pallet_state rt n) = ROk w s → deposits_ok base (put_pallet n s rt).
Proof.
  intros Hd Hi E. pose proof (submit_proof_run (wired TA (pallets n)) o v p u d _ Hi) as H. rewrite E in H.
  destruct H as (a & vk & w' & l' & _ & _ & _ & _ & Hcb & ->). apply deposits_same; [done|done|].
  exact (callback_frame _ _ _ _ _ Hcb).
Qed.

Lemma verifier_call_deposits base rt n o c :
  (∀ b, 0 ≤ base b) → deposits_ok base rt → hold_wf (R:=RuntimeHoldReason) (Acc:=string) (ledger rt) →
  Verifiers.inv (wired TA (pallets n)) (pallet_state rt n) →
  deposits_ok base (put_pallet n (dispatch (Verifiers.run_call (wired TA (pallets n)) o c) (pallet_state rt n)).1 rt).
Proof.
  intros Hb Hd Hw Hi.
  assert (Hsame : deposits_ok base (put_pallet n (pallet_state rt n) rt)) by by apply deposits_same.
  unfold dispatch. destruct c as [v p u d|vk|b|h]; simpl.
  - unfold mbind, M_bind. destruct (submit_proof _ o v p u d _) as [w s'|e|] eqn:E; [|done..].
    by apply (submit_deposits base rt n o v p u d w).
  - pose proof (register_vk_ends (wired TA (pallets n)) o vk (pallet_state rt n)) as H. unfold ends in H.
    destruct (register_vk _ o vk _) as [[] s'|e|]; [|done..]. destruct H as (a & _ & H). by eapply register_deposits.
  - destruct o; [|done..]. by apply deposits_same.
  - pose proof (unregister_vk_ends (wired TA (pallets n)) o h (pallet_state rt n) Hi) as H. unfold ends in H.
    destruct (unregister_vk _ o h _) as [[] s'|e|]; [|done..]. destruct H as (a & _ & H). by eapply unregister_deposits.
Qed.

(** The ledger changes, the tickets do not. *)
Lemma deposits_ledger base rt s crl :
  deposits_ok base rt → same_vk_holds (ledger rt) (Aggregate.Runtime s) →
  deposits_ok base (RuntimeState s crl (rt_pallets rt)).
Proof. intros [H1 H2] Hh. split; [done|]. intros a. unfold ledger. cbn [rt_aggregate]. rewrite Hh. apply H2. Qed.

(** ** Sound states *)

(** The invariants of the pallets, each over its part of the storage, and the
    deposits. *)
Record sound (base : string → Z) rt : Prop := {
  sound_aggregate : AggregateInv.inv TA (rt_aggregate rt);
  sound_pallets n : Verifiers.inv (wired TA (pallets n)) (pallet_state rt n);
  sound_deposits : deposits_ok base rt
}.

Lemma sound_wf base rt : sound base rt → hold_wf (R:=RuntimeHoldReason) (Acc:=string) (ledger rt).
Proof. intros Hs. exact (inv_wf TA _ (sound_aggregate _ _ Hs)). Qed.

(** A step that leaves the verifier pallets alone. *)
Lemma sound_elsewhere base rt s crl :
  sound base rt → AggregateInv.inv TA s → same_vk_holds (ledger rt) (Aggregate.Runtime s) →
  sound base (RuntimeState s crl (rt_pallets rt)).
Proof.
  intros [Ha Hv Hd] Hi Hh. split; [done| |by apply deposits_ledger].
  intros n. by apply (inv_frame _ (pallet_state rt n)).
Qed.

Lemma sound_verifier_call base rt n o c :
  (∀ b, 0 ≤ base b) → sound base rt → sound base (execute TA TC pallets o (CallVerifier n c) rt).1.
Proof.
  intros Hb Hs. pose proof (sound_wf base rt Hs) as Hw. destruct Hs as [Ha Hv Hd]. cbn [execute fst].
  set (s' := (dispatch _ _).1). destruct (verifier_call_frame TA (pallets n) o c (pallet_state rt n) (Hv n) Hw) as [_ Hagg].
  split; [| |by apply verifier_call_deposits].
  - fold s' in Hagg. cbn [rt_aggregate put_pallet].
    destruct Hagg as [(a & d & st & ->)|(l & Hk & ->)]; eapply (step_inv TA HTA); try exact Ha;
      [apply AggregateProps.step_proof|by apply AggregateProps.step_runtime].
  - intros m. destruct (decide (n = m)) as [<-|Hne].
    + rewrite pallet_state_put. pose proof (vk_run_call_inv (wired TA (pallets n)) o c _ (Hv n)) as H.
      unfold s', dispatch. by destruct (Verifiers.run_call _ o c _).
    + apply (inv_frame _ (pallet_state rt m)); [done|..]; simpl; by rewrite (dinsert_ne (F:=λ k, pallet_store (VkT k))).
Qed.

Lemma sound_step base rt rt' :
  (∀ b, 0 ≤ base b) → sound base rt → rt_step TA TC pallets rt rt' → sound base rt'.
Proof.
  intros Hb Hs Hstep. pose proof (sound_aggregate _ _ Hs) as Hi. destruct Hstep as [o c rt Hok|now rt|l' rt Hk].
  - destruct c as [c|c|n c]; [| |by apply sound_verifier_call]; cbn [execute fst].
    + apply sound_elsewhere; [done| |].
      * eapply (step_inv TA HTA); [exact Hi|]. by apply AggregateProps.step_call.
      * apply (frames_dispatch same_vk_holds). exact (run_call_frames TA same_vk_holds HF o c).
    + by apply sound_elsewhere.
  - apply sound_elsewhere; [done| |done]. eapply (step_inv TA HTA); [exact Hi|]. apply AggregateProps.step_block.
  - apply sound_elsewhere; [done| |intros a; by apply Hk]. eapply (step_inv TA HTA); [exact Hi|].
    apply AggregateProps.step_runtime. destruct Hk as [Hw Hh]. split; [done|]. intros r b _. simpl. by apply Hh.
Qed.

(** The states that follow. *)
Lemma sound_steps base rt rt' :
  (∀ b, 0 ≤ base b) → sound base rt → rtc (rt_step TA TC pallets) rt rt' → sound base rt'.
Proof. intros Hb Hs. induction 1; [done|]. apply IHrtc. by eapply sound_step. Qed.

Lemma genesis_deposits l now :
  deposits_ok (λ a, held l VkHold a) (RuntimeState (Aggregate.State 0 ∅ ∅ [] [] l) (Crl.State ∅ ∅ [] now) empty_store).
Proof.
  split; [intros n; apply map_Forall_empty|]. intros a. unfold ledger, all_deposits. simpl.
  rewrite (total_ext (λ _, 0)) by done. enough (total (λ _ : Name, 0) (enum Name) = 0) by lia.
  generalize (enum Name). induction l0 as [|x l0 IH]; [done|]. exact IH.
Qed.

Lemma reachable_sound rt :
  rt_reachable TA TC pallets rt → ∃ base, (∀ b, 0 ≤ base b) ∧ sound base rt.
Proof.
  induction 1 as [l now Hw|rt rt' Hr (base & Hb & Hs) Hstep].
  - exists (λ a, held l VkHold a). split; [intros a; by apply held_nonneg|].
    split; [by apply inv_init| |apply genesis_deposits]. intros n. apply vk_reachable_inv. constructor.
  - exists base. split; [done|]. by eapply sound_step.
Qed.

(** A ticket can be given back at any time. *)
Lemma ticket_returned base rt n a h t :
  (∀ b, 0 ≤ base b) → sound base rt → ps_Tickets (rt_pallets rt n) !! (a, h) = Some t →
  let r := execute TA TC pallets (Signed a) (CallVerifier n (Call_unregister_vk h)) rt in
  r.2 = Succeeded ∧ ps_Tickets (rt_pallets r.1 n) = delete (a, h) (ps_Tickets (rt_pallets rt n)) ∧
  (∀ b, free (ledger r.1) b = free (ledger rt) b + at_key a t b).
Proof.
  intros Hb Hs Ht. pose proof (sound_wf base rt Hs) as Hwf. destruct Hs as [_ Hv Hd].
  destruct (ticket_covered base rt n a h t Hb Hd Ht) as [H0 Hle].
  specialize (Hv n h). unfold vk_ok in Hv. simpl in Hv.
  destruct (release_ok (ledger rt) VkHold a t BestEffort Hwf ltac:(lia)) as [[l2 y] Hrel].
  destruct (release_spec _ _ a t _ l2 y Hwf H0 Hrel) as (_ & -> & _ & Hfree). rewrite Z.min_l in Hfree by lia.
  destruct (ps_Vks (rt_pallets rt n) !! h) as [e|] eqn:He; [|by rewrite Hv in Ht].
  cbn [execute]. unfold dispatch. simpl. unfold unregister_vk, mbind, M_bind, gets, ensure_signed, mret, M_ret, modify.
  simpl. rewrite Ht. simpl. rewrite Z.max_r by lia. fold (ledger rt). rewrite Hrel. simpl. rewrite He.
  destruct (_ =? 0); simpl; rewrite dinsert_eq; done.
Qed.
End deposits.

(** ** Properties *)

(** C7: in every state the runtime reaches, what an account has on hold for its keys
    covers its tickets in all verifier pallets together, and every step, a call of
    any pallet, the start of a block or a change elsewhere in the runtime that
    leaves holds alone, changes the hold by exactly what it changes of the sum of
    the tickets.  The aggregation pallet, which holds and pays on the same
    accounts, never touches it. *)
Theorem key_deposits_held {L} `{!Hold RuntimeHoldReason string L, !HoldLaws RuntimeHoldReason string L}
    {Name} `{!EqDecision Name, !Finite Name} {VkT Proof Pubs : Name → Type} estimate checks root path TC
    (pallets : ∀ n, Verifiers.Config (services (L:=L)) (VkT n) (Proof n) (Pubs n) Z) rt :
  let TA := Runtime_aggregate estimate checks root path in
  let on_hold rt a := held (ledger rt) (CommonVerifiers VkRegistration) a in
  (∀ l n, 0 ≤ estimate l n) → rt_reachable TA TC pallets rt →
  (∀ a n, 0 ≤ deposited rt a n) ∧ (∀ a, all_deposits rt a ≤ on_hold rt a) ∧
  ∀ rt' a, rt_step TA TC pallets rt rt' → on_hold rt' a - on_hold rt a = all_deposits rt' a - all_deposits rt a.
Proof.
  intros TA on_hold He Hr. assert (HT : AggregateInv.config_ok TA) by by apply Runtime_aggregate_ok.
  destruct (reachable_sound TA TC pallets HT (Runtime_aggregate_frame _ _ _ _) rt Hr) as (base & Hb & Hs0).
  pose proof (sound_deposits _ _ _ _ Hs0) as Hd. split_and!.
  - intros a n. by eapply deposited_nonneg.
  - intros a. unfold on_hold. rewrite (proj2 Hd a). specialize (Hb a). lia.
  - intros rt' a Hs.
    pose proof (sound_deposits _ _ _ _ (sound_step TA TC pallets HT (Runtime_aggregate_frame _ _ _ _) base rt rt' Hb Hs0 Hs)) as Hd'.
    unfold on_hold. rewrite (proj2 Hd a), (proj2 Hd' a). lia.
Qed.

(** C8: whoever has a ticket for a key gets the deposit back: in every state the
    runtime reaches, the call to unregister the key with one of the verifier
    pallets succeeds, whatever happened to the other deposits and reserves of the
    account; the ticket is gone and the free balance grows by exactly its amount,
    while no other free balance changes. *)
Theorem key_deposit_returned {L} `{!Hold RuntimeHoldReason string L, !HoldLaws RuntimeHoldReason string L}
    {Name} `{!EqDecision Name, !Finite Name} {VkT Proof Pubs : Name → Type} estimate checks root path TC
    (pallets : ∀ n, Verifiers.Config (services (L:=L)) (VkT n) (Proof n) (Pubs n) Z) rt n a h t :
  let TA := Runtime_aggregate estimate checks root path in
  (∀ l n, 0 ≤ estimate l n) → rt_reachable TA TC pallets rt →
  ps_Tickets (rt_pallets rt n) !! (a, h) = Some t →
  let r := execute TA TC pallets (Signed a) (CallVerifier n (Call_unregister_vk h)) rt in
  r.2 = Succeeded ∧ ps_Tickets (rt_pallets r.1 n) = delete (a, h) (ps_Tickets (rt_pallets rt n)) ∧
  ∀ b, free (ledger r.1) b = free (ledger rt) b + at_key a t b.
Proof.
  intros TA He Hr Ht. assert (HT : AggregateInv.config_ok TA) by by apply Runtime_aggregate_ok.
  destruct (reachable_sound TA TC pallets HT (Runtime_aggregate_frame _ _ _ _) rt Hr) as (base & Hb & Hs).
  by apply (ticket_returned TA TC pallets base).
Qed.

(** ** Alice's key in the sample chain *)

Import (hints) HoldLedger.

Definition alice_ticket : Z := Z.max 0 (linear_storage_price VkRegistrationBaseDeposit VkRegistrationByteDeposit 1 3).

Lemma alice_has_ticket : ps_Tickets (rt_pallets sample_chain.1 tt) !! ("alice", "#key") = Some alice_ticket.
Proof. vm_compute. reflexivity. Qed.

Lemma key_deposits_held_witness :
  all_deposits sample_chain.1 "alice" ≤ held (ledger sample_chain.1) (CommonVerifiers VkRegistration) "alice" ∧
  0 < all_deposits sample_chain.1 "alice".
Proof.
  split; [|vm_compute; reflexivity].
  apply (key_deposits_held (VkT:=one_type) (Proof:=one_type) (Pubs:=one_type) (λ _ _, 10 ^ 17) true
    (λ l, "0x" +:+ tree_root sample_keccak64 l) (λ l i, statement_path sample_keccak64 l (Z.to_nat i))
    sample_crl_config sample_pallets sample_chain.1); [done|exact sample_chain_reachable].
Defined.

Lemma key_deposit_returned_witness :
  let r := execute sample_TA sample_crl_config sample_pallets (Signed "alice") (CallVerifier tt (Call_unregister_vk "#key"))
             sample_chain.1 in
  r.2 = Succeeded ∧
  free (ledger r.1) "alice" = free (ledger sample_chain.1) "alice" + alice_ticket.
Proof.
  destruct (key_deposit_returned (VkT:=one_type) (Proof:=one_type) (Pubs:=one_type) (λ _ _, 10 ^ 17) true
    (λ l, "0x" +:+ tree_root sample_keccak64 l) (λ l i, statement_path sample_keccak64 l (Z.to_nat i))
    sample_crl_config sample_pallets sample_chain.1 tt "alice" "#key" alice_ticket) as (H1 & _ & H2);
    [done|exact sample_chain_reachable|exact alice_has_ticket|].
  split; [exact H1|]. specialize (H2 "alice"). rewrite at_key_eq in H2. exact H2.
Defined.
