(* ===== verification/ZkvVerifiers.v ===== *)
(** * The nine verifiers in the runtime ([runtime/zkverify/src/lib.rs])

    The runtime of [ZkvRuntime] with the verifier pallets it has, each with its own
    types of keys, proofs and public inputs and with the runtime's parameters.  The
    libraries of the proof systems are fields of one record.

    The theorems go from a receipt back to a proof: a path that the check of
    scenario 0012 accepts, whose leaf is the statement of a key and public inputs
    for one of the proof systems, comes from a proof that this very verifier
    accepted for a key with that hash and for those bytes, or else one of finitely
    many known strings collides with another. *)

From stdpp Require Import pretty countable.
From S2P Require Import Prelude Proxy.
From S2P Require Import JsString Frame Holds Merkle Crl Verifiers StatementHash.
From S2P Require Import TeeVerifier Groth16 Fflonk Plonky2 Ultrahonk Risc0 ByteVerifiers RuntimeVerifiers.
From S2P Require Import AggregateData Aggregate AggregateInv AggregateCalls AggregateRuntime AggregateProps ZkvRuntime.

Open Scope Z_scope.

#[export] Instance VerifierPallet_eq_dec : EqDecision VerifierPallet.
Proof. solve_decision. Defined.

(** ** Third-party code *)

Record Libraries : Type := {
  (** Hashes, as 64 digits. *)
  keccak64 : string → string;
  sha64 : string → string;
  (** The SCALE codec. *)
  encode_groth16 : VerificationKeyWithCurve → string;
  encode_fflonk : FflonkVk → string;
  encode_plonky2 : Plonky2Vk → string;
  encode_honk : VersionedVk → string;
  encode_tee : TeeVk → string;
  (** arkworks *)
  ark_G1 : Type; ark_G2 : Type; ark_Fr : Type;
  lib_g1 : Curve → string → option ark_G1;
  lib_g1_unchecked : Curve → string → option ark_G1;
  lib_g2 : Curve → string → option ark_G2;
  lib_g2_unchecked : Curve → string → option ark_G2;
  lib_scalar : Curve → string → option ark_Fr;
  lib_ark_verify : Curve → ArkKey (P1:=ark_G1) (P2:=ark_G2) → ArkProof (P1:=ark_G1) (P2:=ark_G2) →
    list ark_Fr → option bool;
  (** [substrate_bn] and [fflonk_verifier] *)
  bn_Fr : Type; bn_Fq : Type; bn_Fq2 : Type; bn_G1 : Type; bn_G2 : Type; bn_Proof : Type; bn_Public : Type;
  lib_fr : Z → bn_Fr;
  lib_fq : Z → option bn_Fq;
  lib_fq2 : bn_Fq → bn_Fq → bn_Fq2;
  lib_bn_g1 : bn_Fq → bn_Fq → bn_Fq → bn_G1;
  lib_bn_g2 : bn_Fq2 → bn_Fq2 → bn_Fq2 → bn_G2;
  lib_normalize1 : bn_G1 → bn_G1;
  lib_normalize2 : bn_G2 → bn_G2;
  lib_on_curve1 : bn_G1 → bool;
  lib_on_curve2 : bn_G2 → bool;
  lib_bn_proof : string → option bn_Proof;
  lib_bn_public : string → bn_Public;
  lib_fflonk_verify : BnKey (bnFr:=bn_Fr) (bnG1:=bn_G1) (bnG2:=bn_G2) → bn_Proof → bn_Public → bool;
  (** [plonky2_verifier] *)
  lib_plonky2_key : Plonky2Config → string → option CommonData;
  lib_plonky2_verify : Plonky2Vk → string → string → bool;
  (** [ultrahonk_no_std] in two versions *)
  lib_honk_v0_84 : string → HonkProof → list string → option HonkError;
  lib_honk_v3_0 : string → HonkProof → list string → option HonkError;
  lib_honk_proof_size : ProofType → Z;
  lib_honk_key_v0_84 : string → bool;
  lib_honk_key_v3_0 : string → bool;
  lib_honk_log_size : string → option Z;
  (** [risc0_verifier] and [ciborium] *)
  risc0_Proof : Type;
  lib_risc0_read : string → option risc0_Proof;
  lib_risc0_segments : ProofVersion → risc0_Proof → option (option (list SegmentInfo));
  lib_risc0_verify : ProofVersion → string → risc0_Proof → string → bool;
  (** [sp1_zkv_verifier] and [bincode] *)
  sp1_Proof : Type;
  lib_sp1_read : string → option sp1_Proof;
  lib_sp1_verify : string → sp1_Proof → string → bool;
  (** [ezkl_no_std] and [ultraplonk_no_std] *)
  lib_ezkl_verify : string → string → list string → option LibError;
  lib_ultraplonk_proof_size : Z;
  lib_ultraplonk_vk_size : Z;
  lib_ultraplonk_verify : string → string → list string → option LibError;
  lib_ultraplonk_key : string → bool;
  (** [tee_verifier] *)
  tee_Quote : Type; tee_TcbInfo : Type; tee_TcbResponse : Type; tee_Attestation : Type;
  tee_intel_weight : Weight;
  tee_nitro_weight : Weight;
  lib_quote : string → option tee_Quote;
  lib_tcb_info : string → option tee_TcbInfo;
  lib_tcb_info_verify : tee_TcbInfo → Z → bool;
  lib_quote_verify : tee_Quote → tee_TcbInfo → list RevokedInfo → Z → bool;
  lib_tcb_response : string → option tee_TcbResponse;
  lib_tcb_response_verify : tee_TcbResponse → string → list RevokedInfo → Z → bool;
  lib_attestation : string → option tee_Attestation;
  lib_attestation_verify : tee_Attestation → list RevokedInfo → Z → bool
}.

(** An [H256]. *)
Definition H256 : Type := { s : string | String.length s = 66%nat }.

(** ** The pallets *)

Definition VkT (n : VerifierPallet) : Type :=
  match n with
  | SettlementGroth16Pallet => VerificationKeyWithCurve
  | SettlementRisc0Pallet => H256
  | SettlementUltraplonkPallet => string
  | SettlementPlonky2Pallet => Plonky2Vk
  | SettlementFFlonkPallet => FflonkVk
  | SettlementSp1Pallet => H256
  | SettlementUltrahonkPallet => VersionedVk
  | SettlementEzklPallet => string
  | SettlementTeePallet => TeeVk
  end.

Definition ProofT (n : VerifierPallet) : Type :=
  match n with
  | SettlementGroth16Pallet => ProofWithCurve
  | SettlementRisc0Pallet => R0
  | SettlementUltrahonkPallet => VersionedProof
  | _ => string
  end.

Definition PubsT (n : VerifierPallet) : Type :=
  match n with
  | SettlementGroth16Pallet | SettlementUltraplonkPallet | SettlementUltrahonkPallet | SettlementEzklPallet => list string
  | _ => string
  end.

(** A verifier whose keys are of a more precise type. *)
Definition on_key {L A B P U} (f : A → B) (V : Verifier L B P U) : Verifier L A P U := {|
  hash_context_data := hash_context_data V;
  verify_proof := λ l vk, verify_proof V l (f vk);
  validate_vk := λ l vk, validate_vk V l (f vk);
  vk_hash := λ vk, vk_hash V (f vk);
  pubs_bytes := pubs_bytes V;
  verifier_version_hash := verifier_version_hash V
|}.

Definition EzklMaxPubs : Z := 32.
Definition GROTH16_MAX_NUM_INPUTS : Z := 64.
Definition SP1_MAX_PUBS_SIZE : Z := 32 * 64.
Definition UltraplonkMaxPubs : Z := 32.

Section zkverify.
Context {L : Type} `{HL : !Hold RuntimeHoldReason string L, !HoldLaws RuntimeHoldReason string L}.
Context (X : Libraries) (TA : Aggregate.Config L Z Z) (TC : Crl.Config).

Definition keccak (s : string) : string := "0x" +:+ keccak64 X s.
Definition sha2 (s : string) : string := "0x" +:+ sha64 X s.

Definition groth16_verifier {L} : Verifier L VerificationKeyWithCurve ProofWithCurve (list string) :=
  Groth16 (lib_g1 X) (lib_g1_unchecked X) (lib_g2 X) (lib_g2_unchecked X) (lib_scalar X) (lib_ark_verify X)
    GROTH16_MAX_NUM_INPUTS keccak (encode_groth16 X).

Definition verifier (n : VerifierPallet) : Verifier (services (L:=L)) (VkT n) (ProofT n) (PubsT n) :=
  match n with
  | SettlementGroth16Pallet => groth16_verifier
  | SettlementRisc0Pallet =>
      on_key proj1_sig (Risc0 risc0_runtime (lib_risc0_read X) (lib_risc0_segments X) (lib_risc0_verify X))
  | SettlementUltraplonkPallet =>
      Ultraplonk.Ultraplonk UltraplonkMaxPubs (lib_ultraplonk_proof_size X) (lib_ultraplonk_vk_size X)
        (lib_ultraplonk_verify X) (lib_ultraplonk_key X) sha2
  | SettlementPlonky2Pallet =>
      Plonky2 plonky2_runtime (lib_plonky2_key X) (lib_plonky2_verify X) keccak (encode_plonky2 X)
  | SettlementFFlonkPallet =>
      Fflonk (lib_fr X) (lib_fq X) (lib_fq2 X) (lib_bn_g1 X) (lib_bn_g2 X) (lib_normalize1 X) (lib_normalize2 X)
        (lib_on_curve1 X) (lib_on_curve2 X) (lib_bn_proof X) (lib_bn_public X) (lib_fflonk_verify X)
        keccak (encode_fflonk X)
  | SettlementSp1Pallet => on_key proj1_sig (Sp1.Sp1 SP1_MAX_PUBS_SIZE (lib_sp1_read X) (lib_sp1_verify X))
  | SettlementUltrahonkPallet =>
      Ultrahonk honk_runtime (lib_honk_v0_84 X) (lib_honk_v3_0 X) (lib_honk_proof_size X)
        (lib_honk_key_v0_84 X) (lib_honk_key_v3_0 X) (lib_honk_log_size X) keccak sha2 (encode_honk X)
  | SettlementEzklPallet => Ezkl.Ezkl EzklMaxPubs (lib_ezkl_verify X) keccak
  | SettlementTeePallet =>
      Tee snd TC ca_names (tee_intel_weight X) (tee_nitro_weight X) (lib_quote X) (lib_tcb_info X)
        (lib_tcb_info_verify X) (lib_quote_verify X) (lib_tcb_response X) (lib_tcb_response_verify X)
        (lib_attestation X) (lib_attestation_verify X) keccak (encode_tee X)
  end.

(** [base] has the weights of each pallet and the sizes of its keys. *)
Context (base : ∀ n, Verifiers.Config (services (L:=L)) (VkT n) (ProofT n) (PubsT n) Z).

Definition zkv_pallets (n : VerifierPallet) : Verifiers.Config services (VkT n) (ProofT n) (PubsT n) Z :=
  let c := base n in {|
  I := verifier n;
  Ticket := Ticket c;
  Verifiers.OnProofVerified := Verifiers.OnProofVerified c;
  on_proof_verified_weight := on_proof_verified_weight c;
  Verifiers.keccak_256 := keccak;
  vk_encoded_size := vk_encoded_size c;
  weight_reads_1 := weight_reads_1 c;
  weight_get_vk := weight_get_vk c;
  weight_validate_vk := weight_validate_vk c;
  weight_verify_proof := weight_verify_proof c;
  weight_statement_hash := weight_statement_hash c;
  on_verify_disabled_verifier := on_verify_disabled_verifier c
|}.

(** ** Statements of the nine verifiers *)

Definition digests : Prop :=
  (∀ s, String.length (keccak64 X s) = 64%nat) ∧ (∀ s, String.length (sha64 X s) = 64%nat).

(** The contexts tell the verifiers apart. *)
Lemma context_inj n n' : hash_context_data (verifier n) = hash_context_data (verifier n') → n = n'.
Proof. by destruct n, n'. Qed.

Lemma keccak_length s : digests → String.length (keccak s) = 66%nat.
Proof. intros [H _]. unfold keccak. by rewrite length_append, H. Qed.

Lemma sha2_length s : digests → String.length (sha2 s) = 66%nat.
Proof. intros [_ H]. unfold sha2. by rewrite length_append, H. Qed.

Lemma vk_hash_length n vk : digests → String.length (vk_hash (verifier n) vk) = 66%nat.
Proof.
  intros HX. destruct n; try (by apply keccak_length); try (by apply sha2_length); try (by destruct vk).
  simpl. unfold ultrahonk_vk_hash. destruct (honk_version vk); auto using keccak_length, sha2_length.
Qed.

Lemma version_hash_length n p : String.length (verifier_version_hash (verifier n) p) = 66%nat.
Proof.
  destruct n; try done; simpl; [unfold risc0_version_hash|unfold ultrahonk_version_hash]; by case_match.
Qed.

(** The digests in the statements of two submissions agree. *)
Definition same_statement n (v : VkOrHash (VkT n)) (p : ProofT n) (u : PubsT n) n' (vk' : VkT n') (p' : ProofT n')
    (u' : PubsT n') : Prop :=
  n' = n ∧ vk_hash (verifier n') vk' = key_hash (zkv_pallets n) v ∧
  verifier_version_hash (verifier n') p' = verifier_version_hash (verifier n) p ∧
  pubs_bytes (verifier n') u' = pubs_bytes (verifier n) u.

(** The strings of the two statements that would collide. *)
Definition statement_collision n (v : VkOrHash (VkT n)) (p : ProofT n) (u : PubsT n) n' (vk' : VkT n') (p' : ProofT n')
    (u' : PubsT n') : Prop :=
  collides keccak (preimage (zkv_pallets n) v p u) (preimage (zkv_pallets n') (Vk vk') p' u') ∨
  collides keccak (hash_context_data (verifier n)) (hash_context_data (verifier n')) ∨
  collides keccak (pubs_bytes (verifier n) u) (pubs_bytes (verifier n') u').

Lemma statement_traced n v p u :
  digests → String.length (key_hash (zkv_pallets n) v) = 66%nat →
  accepted TA TC zkv_pallets (compute_statement_hash (zkv_pallets n) v p u) →
  ∃ n' vk' p' u', accepted_by TA TC zkv_pallets n' vk' p' u' ∧
    (same_statement n v p u n' vk' p' u' ∨ statement_collision n v p u n' vk' p' u').
Proof.
  intros HX Hv (n' & vk' & p' & u' & Hacc & E). exists n', vk', p', u'. split; [done|].
  destruct (equal_statements (zkv_pallets n) (zkv_pallets n') 66 v p u (Vk vk') p' u')
    as [(Ec & Ek & Ever & Epubs)|Hcol]; [done|by intros; apply keccak_length|done|by apply vk_hash_length
    |apply version_hash_length|apply version_hash_length|done| |by right].
  left. split_and!; [symmetry; by apply context_inj|by symmetry..].
Qed.
End zkverify.

(** ** A chain with the nine verifiers *)

Import HoldLedger.

(** An encoding of Groth16 keys. *)
Definition curve_bool (c : Curve) : bool := match c with Bn254 => true | Bls12_381 => false end.
Definition groth16_tuple (k : VerificationKeyWithCurve) : bool * (string * string * string * string * list string) :=
  let v := vk_key k in (curve_bool (vk_curve k), (alpha_g1 v, beta_g2 v, gamma_g2 v, delta_g2 v, gamma_abc_g1 v)).
Definition toy_encode (k : VerificationKeyWithCurve) : string := pretty (encode (groth16_tuple k)).

Lemma toy_encode_inj k k' : toy_encode k = toy_encode k' → k = k'.
Proof.
  unfold toy_encode. intros E%(inj (pretty (A:=positive)))%(inj encode). destruct k as [[] []], k' as [[] []]; simpl in E; by simplify_eq.
Qed.

Definition toy_libs : Libraries := {|
  keccak64 := sample_keccak64; sha64 := sample_keccak64;
  encode_groth16 := toy_encode; encode_fflonk := λ _, ""; encode_plonky2 := p2_bytes;
  encode_honk := honk_bytes; encode_tee := λ _, "";
  lib_g1 := toy_point; lib_g1_unchecked := toy_unchecked; lib_g2 := toy_point; lib_g2_unchecked := toy_unchecked;
  lib_scalar := toy_scalar; lib_ark_verify := toy_verify;
  lib_fr := λ x, x; lib_fq := toy_fq; lib_fq2 := pair; lib_bn_g1 := λ x y z, (x, y, z); lib_bn_g2 := λ x y z, (x, y, z);
  lib_normalize1 := λ p, p; lib_normalize2 := λ p, p; lib_on_curve1 := λ _, true; lib_on_curve2 := λ _, true;
  lib_bn_proof := Some; lib_bn_public := λ s, s; lib_fflonk_verify := λ _ _ _, true;
  lib_plonky2_key := λ _ _, None; lib_plonky2_verify := λ _ _ _, false;
  lib_honk_v0_84 := λ _ _ _, None; lib_honk_v3_0 := λ _ _ _, None; lib_honk_proof_size := λ _, 0;
  lib_honk_key_v0_84 := λ _, true; lib_honk_key_v3_0 := λ _, true; lib_honk_log_size := λ _, None;
  lib_risc0_read := Some; lib_risc0_segments := toy_segments; lib_risc0_verify := λ _ _ _ _, true;
  lib_sp1_read := Some; lib_sp1_verify := λ _ _ _, true; lib_ezkl_verify := λ _ _ _, None;
  lib_ultraplonk_proof_size := 4; lib_ultraplonk_vk_size := 4;
  lib_ultraplonk_verify := λ _ _ _, None; lib_ultraplonk_key := λ _, true;
  tee_intel_weight := no_weight; tee_nitro_weight := no_weight;
  lib_quote := Some; lib_tcb_info := Some; lib_tcb_info_verify := λ _ _, true; lib_quote_verify := λ _ _ _ _, true;
  lib_tcb_response := Some; lib_tcb_response_verify := λ _ _ _ _, true;
  lib_attestation := Some; lib_attestation_verify := λ _ _ _, true
|}.

Lemma toy_digests : digests toy_libs.
Proof. split; intros s; simpl; unfold sample_keccak64; (case_decide; [done|vm_compute; reflexivity]). Qed.

Definition toy_base n : Verifiers.Config (services (L:=sample_L)) (VkT n) (ProofT n) (PubsT n) Z := {|
  I := verifier toy_libs sample_crl_config n;
  Ticket := lift_ticket VkRegistrationHoldConsideration;
  Verifiers.OnProofVerified := λ _ _ _ v, Some v;
  on_proof_verified_weight := λ _, no_weight;
  Verifiers.keccak_256 := keccak toy_libs;
  vk_encoded_size := λ _, 100;
  weight_reads_1 := no_weight;
  weight_get_vk := no_weight;
  weight_validate_vk := λ _, no_weight;
  weight_verify_proof := λ _ _, no_weight;
  weight_statement_hash := λ _ _, no_weight;
  on_verify_disabled_verifier := no_weight
|}.

Abbreviation toy_pallets := (zkv_pallets toy_libs sample_crl_config toy_base).

(** A digest is a key for SP1. *)
Definition toy_digest : H256 := exist _ NO_VERSION_HASH eq_refl.

(** A Groth16 and an SP1 proof in one aggregation. *)
Definition zkv_calls : list (Origin * RuntimeCall (VkT:=VkT) (Proof:=ProofT) (Pubs:=PubsT)) := [
  (Signed "alice", CallAggregate (Call_register_domain 2 (Some 1) AggUntrusted ProofUntrusted
     {| destination := NoDestination; fee := 10 ^ 16; owner_tip := 10 ^ 15 |} None));
  (Signed "bob", CallVerifier SettlementGroth16Pallet
     (Call_submit_proof (Vk (toy_key "a")) (toy_proof "a") [toy_input] (Some 0)));
  (Signed "bob", CallVerifier SettlementGroth16Pallet
     (Call_submit_proof (Vk (toy_key "a")) (toy_proof "b") [toy_input] (Some 0)));
  (Signed "carol", CallVerifier SettlementSp1Pallet (Call_submit_proof (Vk toy_digest) "proof" "pubs" (Some 0)));
  (Signed "dave", CallAggregate (Call_aggregate 0 1))].

Definition zkv_chain : runtime (L:=sample_L) (VkT:=VkT) * list outcome :=
  run sample_TA sample_crl_config toy_pallets zkv_calls
    (RuntimeState (Aggregate.State 0 ∅ ∅ [] []
       (HLedger (list_to_map ((λ a, (a, 10 ^ 23)) <$> ["alice"; "bob"; "carol"; "dave"])) ∅))
       (Crl.State ∅ ∅ [] 1) empty_store).

Lemma zkv_chain_outcomes : zkv_chain.2 = [Succeeded; Succeeded; Refused; Succeeded; Succeeded].
Proof. vm_compute. reflexivity. Qed.

Lemma zkv_chain_reachable : rt_reachable sample_TA sample_crl_config toy_pallets zkv_chain.1.
Proof.
  apply run_reachable; [|constructor; apply map_Forall_empty].
  repeat constructor; simpl; unfold u32_max; try lia. intros x [= <-]. done.
Qed.

Definition zkv_receipt : AggregationEntry :=
  default {| agg_id := 0; agg_size := 0; statements := [] |} (snd <$> head (Published (rt_aggregate zkv_chain.1))).

Lemma zkv_published : (0, zkv_receipt) ∈ Published (rt_aggregate zkv_chain.1).
Proof. apply list_elem_of_lookup. exists 0%nat. vm_compute. reflexivity. Qed.

Definition zkv_path (i : nat) : merkle_proof := statement_path sample_keccak64 (statement <$> statements zkv_receipt) i.

(** ** Properties *)

(** A path for the leaf at [i] that the check accepts for the receipt of [x]. *)
Definition accepted_path (keccak : string → string) (root : list string → string) (x : AggregationEntry) (i : nat)
    (p : merkle_proof) : Prop :=
  let leaves := statement <$> statements x in
  (i < length leaves)%nat ∧ mp_leaf_index p = Z.of_nat i ∧ mp_number_of_leaves p = Z.of_nat (length leaves) ∧
  length (mp_proof p) = length (mp_proof (statement_path keccak leaves i)) ∧
  verifyProof keccak p (compute_receipt root x) = true.

Definition path_collision (keccak : string → string) (x : AggregationEntry) (i : nat) (p : merkle_proof) : Prop :=
  ∃ a b, a ∈ hashed keccak p ∧ b ∈ hashed keccak (statement_path keccak (statement <$> statements x) i) ∧
    a ≠ b ∧ keccak a = keccak b.

Lemma zkv_path_ok i :
  (i < 2)%nat → accepted_path sample_keccak64 (merkle_root sample_TA) zkv_receipt i (zkv_path i).
Proof. destruct i as [|[|]]; [| |lia]; intros _; split_and!; vm_compute; (reflexivity || lia). Qed.

(** C3: from a receipt back to the proof, in the runtime with its nine verifiers: when
    the check accepts a path whose leaf is the statement of a key, or of its hash,
    a version and public inputs for one of the proof systems, a proof of that
    proof system was accepted, for a key of that hash which had passed its check,
    in that version and for public inputs with those bytes; or two strings hashed
    along the paths collide, or two strings hashed in the statements.  No
    statement of one proof system stands for a proof of another. *)
Theorem receipt_binds_submission {L} `{!Hold RuntimeHoldReason string L, !HoldLaws RuntimeHoldReason string L}
    X (TA : Aggregate.Config L Z Z) TC base rt id x i p n v pr u :
  AggregateInv.config_ok TA → (∀ l, l ≠ [] → merkle_root TA l = "0x" +:+ tree_root (keccak64 X) l) → digests X →
  rt_reachable TA TC (zkv_pallets X TC base) rt → (id, x) ∈ Published (rt_aggregate rt) →
  accepted_path (keccak64 X) (merkle_root TA) x i p →
  String.length (key_hash (zkv_pallets X TC base n) v) = 66%nat →
  mp_leaf p = compute_statement_hash (zkv_pallets X TC base n) v pr u →
  (∃ n' vk' p' u', accepted_by TA TC (zkv_pallets X TC base) n' vk' p' u' ∧
     (same_statement X TC base n v pr u n' vk' p' u' ∨ statement_collision X TC base n v pr u n' vk' p' u')) ∨
  path_collision (keccak64 X) x i p.
Proof.
  intros HT Hroot HX Hr Hin (Hi & Hidx & Hn & Hlen & Hver) Hv Hleaf.
  destruct (receipt_path TA TC (zkv_pallets X TC base) HT (keccak64 X) rt id x i p Hroot (proj1 HX) Hr Hin Hi Hidx Hn Hlen Hver)
    as [Hacc|Hcol]; [left|by right].
  rewrite Hleaf in Hacc. by apply statement_traced.
Qed.

Lemma receipt_binds_submission_witness :
  (∃ n' vk' p' u', accepted_by sample_TA sample_crl_config toy_pallets n' vk' p' u' ∧
     (same_statement toy_libs sample_crl_config toy_base SettlementSp1Pallet (Hash NO_VERSION_HASH) "any" "pubs" n' vk' p' u' ∨
      statement_collision toy_libs sample_crl_config toy_base SettlementSp1Pallet (Hash NO_VERSION_HASH) "any" "pubs" n' vk' p' u')) ∨
  path_collision sample_keccak64 zkv_receipt 1 (zkv_path 1).
Proof.
  apply (receipt_binds_submission toy_libs sample_TA sample_crl_config toy_base zkv_chain.1 0 zkv_receipt 1 (zkv_path 1)
           SettlementSp1Pallet (Hash NO_VERSION_HASH) "any" "pubs" sample_TA_ok (λ _ _, eq_refl) toy_digests
           zkv_chain_reachable zkv_published (zkv_path_ok 1 ltac:(lia))); vm_compute; reflexivity.
Defined.

(** C2: what a receipt proves of a Groth16 statement: when the check accepts a path
    whose leaf is the statement of a key and of public inputs of 32 bytes each, as
    many as the key has, then arkworks accepted some proof for the points of that
    very key, which are valid, and for the scalars of those very inputs; or one of
    the strings hashed collides with another.  Reading points unchecked agrees with
    reading them checked where that succeeds, a scalar needs 32 bytes, and
    different keys are encoded differently. *)
Theorem receipt_proves_groth16 {L} `{!Hold RuntimeHoldReason string L, !HoldLaws RuntimeHoldReason string L}
    X (TA : Aggregate.Config L Z Z) TC base rt id x i p vk pr us :
  AggregateInv.config_ok TA → (∀ l, l ≠ [] → merkle_root TA l = "0x" +:+ tree_root (keccak64 X) l) → digests X →
  unchecked_agree (lib_g1 X) (lib_g1_unchecked X) (lib_g2 X) (lib_g2_unchecked X) →
  (∀ c s y, lib_scalar X c s = Some y → 32 ≤ len s) →
  (∀ k k', encode_groth16 X k = encode_groth16 X k' → k = k') →
  rt_reachable TA TC (zkv_pallets X TC base) rt → (id, x) ∈ Published (rt_aggregate rt) →
  accepted_path (keccak64 X) (merkle_root TA) x i p →
  Forall (λ u, len u = 32) us → Z.of_nat (length us) + 1 = Z.of_nat (length (gamma_abc_g1 (vk_key vk))) →
  mp_leaf p = compute_statement_hash (zkv_pallets X TC base SettlementGroth16Pallet) (Vk vk) pr us →
  ark_accepts (lib_g1 X) (lib_g2 X) (lib_scalar X) (lib_ark_verify X) vk us ∨
  path_collision (keccak64 X) x i p ∨
  (∃ n' vk' p' u', accepted_by TA TC (zkv_pallets X TC base) n' vk' p' u' ∧
     statement_collision X TC base SettlementGroth16Pallet (Vk vk) pr us n' vk' p' u') ∨
  ∃ vk' p' u', accepted_by TA TC (zkv_pallets X TC base) SettlementGroth16Pallet vk' p' u' ∧
    collides (keccak X) (encode_groth16 X vk) (encode_groth16 X vk').
Proof.
  intros HT Hroot HX Hu Hs Henc Hr Hin (Hi & Hidx & Hn & Hlen & Hver) Hus Hnum Hleaf.
  destruct (receipt_path TA TC (zkv_pallets X TC base) HT (keccak64 X) rt id x i p Hroot (proj1 HX) Hr Hin Hi Hidx Hn Hlen Hver)
    as [Hacc|Hcol]; [|by right; left].
  rewrite Hleaf in Hacc. apply statement_traced in Hacc as (n' & vk' & p' & u' & Hacc & [Hsame|Hcol]);
    [|right; right; left; by eauto 6|done|by apply (vk_hash_length X TC SettlementGroth16Pallet)].
  destruct Hsame as (-> & Ek & _ & Eu).
  destruct (same_or_collides (keccak X) (encode_groth16 X vk) (encode_groth16 X vk')) as [E|Hcol];
    [by symmetry|left|right; right; right; by eauto].
  apply Henc in E as <-. destruct Hacc as [[l Hvalid] (rt' & w & _ & Hacc)]. simpl in Hvalid, Hacc, Eu. injection Hacc as Hacc.
  assert (u' = us) as -> by (by eapply canonical_inputs). by eapply groth16_accepted.
Qed.

Lemma receipt_proves_groth16_witness :
  ark_accepts toy_point toy_point toy_scalar toy_verify (toy_key "a") [toy_input] ∨
  path_collision sample_keccak64 zkv_receipt 0 (zkv_path 0) ∨
  (∃ n' vk' p' u', accepted_by sample_TA sample_crl_config toy_pallets n' vk' p' u' ∧
     statement_collision toy_libs sample_crl_config toy_base SettlementGroth16Pallet (Vk (toy_key "a"))
       (toy_proof "any") [toy_input] n' vk' p' u') ∨
  ∃ vk' p' u', accepted_by sample_TA sample_crl_config toy_pallets SettlementGroth16Pallet vk' p' u' ∧
    collides (keccak toy_libs) (toy_encode (toy_key "a")) (toy_encode vk').
Proof.
  apply (receipt_proves_groth16 toy_libs sample_TA sample_crl_config toy_base zkv_chain.1 0 zkv_receipt 0 (zkv_path 0)
           (toy_key "a") (toy_proof "any") [toy_input] sample_TA_ok (λ _ _, eq_refl) toy_digests toy_agree
           toy_scalar_length toy_encode_inj zkv_chain_reachable zkv_published (zkv_path_ok 0 ltac:(lia)));
    [repeat constructor|vm_compute; reflexivity..].
Defined.
