(* ===== verification/ZkvUpgrade.v ===== *)
(** * The upgrade of the runtime ([runtime/zkverify/src/migrations.rs])

    The migrations of [Unreleased], in their order, on the storage of a chain whose
    pallets are at the versions before them: 3 for the aggregation pallet, 1 for
    the UltraHonk and TEE pallets.  The refunds of the TEE pallet are made from the
    ledger on which the other pallets have their holds.

    The migrations of the Polkadot SDK's own pallets, which follow, are not part of
    this repository. *)

From stdpp Require Import finite.
From S2P Require Import Prelude Proxy.
From S2P Require Import Storage Frame Holds Merkle Crl Verifiers TeeVerifier Ultrahonk RuntimeVerifiers.
From S2P Require Import UltrahonkMigration TeeMigration AggregateMigration.
From S2P Require Import AggregateData Aggregate AggregateInv AggregateRuntime AggregateProps AggregateFrame.
From S2P Require Import ZkvRuntime ZkvDeposits ZkvVerifiers.

Open Scope Z_scope.

#[export] Instance VerifierPallet_finite : Finite VerifierPallet.
Proof.
  refine {| enum := [SettlementGroth16Pallet; SettlementRisc0Pallet; SettlementUltraplonkPallet; SettlementPlonky2Pallet;
    SettlementFFlonkPallet; SettlementSp1Pallet; SettlementUltrahonkPallet; SettlementEzklPallet; SettlementTeePallet] |}.
  - apply (bool_decide_unpack _). vm_compute. exact Logic.I.
  - intros []; apply (bool_decide_unpack _); vm_compute; exact Logic.I.
Defined.

Section upgrade.
Context {L : Type} `{HL : !Hold RuntimeHoldReason string L, !HoldLaws RuntimeHoldReason string L}.
(** Sizes of UltraHonk keys, and the keys the iterators of the migrations come to. *)
Context (VK_SIZE VK_SIZE_V3_0 : nat).
Context (domain_visits : list Z) (honk_visits tee_visits : list string) (ticket_visits : list (string * string)).

Abbreviation runtime := (runtime (L:=L) (VkT:=VkT)).
Abbreviation VkHold := (CommonVerifiers VkRegistration).

(** The storage before the upgrade.  [old_aggregate] is the aggregation pallet's
    without its domains; [old_pallets] has the verifier pallets that stay as they
    are, and of UltraHonk and TEE all but the keys. *)
Record old_runtime : Type := OldRuntime {
  old_aggregate : Aggregate.state L Z Z;
  old_domains : gmap Z (V3Domain (TD:=Z) (TA:=Z));
  old_crl : Crl.state;
  old_honk : gmap string string;
  old_tee : gmap string OldTeeEntry;
  old_pallets : ∀ n, pallet_store (VkT n)
}.
Implicit Types (o : old_runtime).

Definition old_ledger o : L := Aggregate.Runtime (old_aggregate o).

Definition upgraded_pallets (raw : gmap string string) (tee : Verifiers.state L TeeVk Z) o (n : VerifierPallet)
    : pallet_store (VkT n) :=
  match n return pallet_store (VkT n) → pallet_store (VkT n) with
  | SettlementUltrahonkPallet => λ p,
      PalletStore _ (ps_Disabled p) (read_vks VK_SIZE VK_SIZE_V3_0 raw) (ps_Tickets p) (ps_Events p)
  | SettlementTeePallet => λ _, PalletStore _ (Disabled tee) (Vks tee) (Tickets tee) (Verifiers.Events tee)
  | _ => λ p, p
  end (old_pallets o n).

(** [Unreleased] *)
Definition Unreleased o : runtime :=
  let '(domains, _) := v4_on_runtime_upgrade domain_visits (old_domains o) in
  let '(_, raw) := MigrateV1ToV2 VK_SIZE honk_visits (1, old_honk o) in
  let p := old_pallets o SettlementTeePallet in
  let '(tee, _) := tee_on_runtime_upgrade VkRegistrationHoldConsideration tee_visits ticket_visits
    (V1State (ps_Disabled p) (old_tee o) (ps_Tickets p) (ps_Events p) (old_ledger o)) in
  RuntimeState (Aggregate.set_Runtime (Verifiers.Runtime tee) (Aggregate.set_Domains domains (old_aggregate o)))
    (old_crl o) (upgraded_pallets raw tee o).

(** The three loops that leave their maps alone come to each key once. *)
Record drains_complete o : Prop := {
  domains_complete : complete domain_visits (old_domains o);
  tee_complete : complete tee_visits (old_tee o);
  tickets_complete : complete ticket_visits (ps_Tickets (old_pallets o SettlementTeePallet))
}.

(** ** Lemmas *)

(** What [a] has deposited with a pallet, and with all of them. *)
Definition old_deposited o (a : string) (n : VerifierPallet) : Z := owed a (map_to_list (ps_Tickets (old_pallets o n))).
Definition old_deposits o (a : string) : Z := total (old_deposited o a) (enum VerifierPallet).

Context (X : Libraries) (TA : Aggregate.Config L Z Z) (TC : Crl.Config).
Context (base : ∀ n, Verifiers.Config (services (L:=L)) (VkT n) (ProofT n) (PubsT n) Z).
Abbreviation pallets := (zkv_pallets X TC base).

(** What the pallets of the versions before kept: their own invariants, with the
    keys of UltraHonk and the domains in the old formats, and the deposits. *)
Record old_sound (honk : gmap string OldVkEntry) (extra : string → Z) o : Prop := {
  old_aggregate_ok : AggregateInv.inv TA (Aggregate.set_Domains (from_v3 <$> old_domains o) (old_aggregate o));
  old_honk_bytes : old_honk o = encode_old <$> honk;
  old_honk_sizes : distinct VK_SIZE honk;
  old_honk_ok : v1_inv (sha2 X) honk (ps_Tickets (old_pallets o SettlementUltrahonkPallet));
  old_pallets_ok n l : n ≠ SettlementUltrahonkPallet → n ≠ SettlementTeePallet →
    let p := old_pallets o n in
    Verifiers.inv (wired TA (pallets n)) (Verifiers.State (ps_Disabled p) (ps_Vks p) (ps_Tickets p) (ps_Events p) l);
  old_tickets_ok n : map_Forall (λ _ t, 0 ≤ t) (ps_Tickets (old_pallets o n));
  old_held a : held (old_ledger o) VkHold a = extra a + old_deposits o a
}.

Lemma old_deposited_nonneg honk extra o a n : old_sound honk extra o → 0 ≤ old_deposited o a n.
Proof.
  intros Ho. apply owed_nonneg. pose proof (old_tickets_ok _ _ _ Ho n) as Ht. apply map_Forall_to_list in Ht.
  eapply List.Forall_impl; [|exact Ht]. by intros [k t].
Qed.

(** The storage of the UltraHonk keys after the upgrade. *)
Definition honk_raw (honk : gmap string OldVkEntry) : gmap string string :=
  (on_runtime_upgrade VK_SIZE honk_visits (encode_old <$> honk)).1.

(** The runtime after the upgrade, with the refunds made. *)
Lemma unreleased_runs honk extra o :
  (∀ b, 0 ≤ extra b) → old_sound honk extra o → drains_complete o →
  ∃ l', let p := old_pallets o SettlementTeePallet in
    Unreleased o = RuntimeState
      (Aggregate.set_Runtime l' (Aggregate.set_Domains (from_v3 <$> old_domains o) (old_aggregate o))) (old_crl o)
      (upgraded_pallets (honk_raw honk) (Verifiers.State (ps_Disabled p) ∅ ∅ (ps_Events p) l') o) ∧
    hold_wf (R:=RuntimeHoldReason) (Acc:=string) l' ∧
    (∀ a, held l' VkHold a = held (old_ledger o) VkHold a - old_deposited o a SettlementTeePallet) ∧
    (∀ r a, r ≠ VkHold → held l' r a = held (old_ledger o) r a) ∧
    (∀ a, free (R:=RuntimeHoldReason) l' a = free (old_ledger o) a + old_deposited o a SettlementTeePallet).
Proof.
  intros Hx Ho [Hc1 Hc2 Hc3]. set (p := old_pallets o SettlementTeePallet).
  destruct (tee_refunds VkHold (linear_storage_price VkRegistrationBaseDeposit VkRegistrationByteDeposit) tee_visits ticket_visits
    (V1State (ps_Disabled p) (old_tee o) (ps_Tickets p) (ps_Events p) (old_ledger o)) Hc2 Hc3) as (l' & n & E & H); simpl.
  - exact (inv_wf TA _ (old_aggregate_ok _ _ _ Ho)).
  - exact (old_tickets_ok _ _ _ Ho SettlementTeePallet).
  - intros a. change (old_deposited o a SettlementTeePallet ≤ held (old_ledger o) VkHold a).
    rewrite (old_held _ _ _ Ho). specialize (Hx a).
    pose proof (total_le (old_deposited o a) (enum VerifierPallet) SettlementTeePallet
      (λ m, old_deposited_nonneg honk extra o a m Ho) (elem_of_enum _)) as Hle. unfold old_deposits. lia.
  - exists l'. split; [|exact H].
    unfold Unreleased. rewrite (aggregate_migration_exact domain_visits _ Hc1), (old_honk_bytes _ _ _ Ho).
    change (HoldConsideration VkHold _) with (VkRegistrationHoldConsideration (L:=L)) in E. fold p. rewrite E. done.
Qed.

(** The deposits after the refunds. *)
Lemma upgraded_deposits honk extra o s crl raw tee :
  old_sound honk extra o → Tickets tee = ∅ →
  (∀ a, held (Aggregate.Runtime s) VkHold a = held (old_ledger o) VkHold a - old_deposited o a SettlementTeePallet) →
  deposits_ok extra (RuntimeState s crl (upgraded_pallets raw tee o)).
Proof.
  intros Ho Ht Hh. split; cbn [rt_pallets].
  - intros n. pose proof (old_tickets_ok _ _ _ Ho n) as Hf. destruct n; try exact Hf. simpl. rewrite Ht. apply map_Forall_empty.
  - intros a. change (ledger _) with (Aggregate.Runtime s). rewrite Hh, (old_held _ _ _ Ho).
    unfold all_deposits, old_deposits. set (rt := RuntimeState _ _ _).
    rewrite (total_update (old_deposited o a) (deposited rt a) (enum VerifierPallet) SettlementTeePallet (NoDup_enum _) (elem_of_enum _)).
    + assert (E : deposited rt a SettlementTeePallet = 0).
      { unfold deposited, rt. simpl. by rewrite Ht, map_to_list_empty. }
      rewrite E. lia.
    + intros n Hn. unfold deposited, old_deposited, rt. by destruct n.
Qed.

(** All but the keys of UltraHonk. *)
Record sound_but_honk (extra : string → Z) (rt : runtime) : Prop := {
  but_aggregate : AggregateInv.inv TA (rt_aggregate rt);
  but_pallets n : n ≠ SettlementUltrahonkPallet → Verifiers.inv (wired TA (pallets n)) (pallet_state rt n);
  but_deposits : deposits_ok extra rt
}.

Lemma upgraded_but_honk honk extra o l' :
  let p := old_pallets o SettlementTeePallet in
  old_sound honk extra o → hold_wf (R:=RuntimeHoldReason) (Acc:=string) l' →
  (∀ a, held l' VkHold a = held (old_ledger o) VkHold a - old_deposited o a SettlementTeePallet) →
  (∀ r a, r ≠ VkHold → held l' r a = held (old_ledger o) r a) →
  sound_but_honk extra (RuntimeState
    (Aggregate.set_Runtime l' (Aggregate.set_Domains (from_v3 <$> old_domains o) (old_aggregate o))) (old_crl o)
    (upgraded_pallets (honk_raw honk) (Verifiers.State (ps_Disabled p) ∅ ∅ (ps_Events p) l') o)).
Proof.
  intros p Ho Hw Hvk Hother. split.
  - eapply agg_inv_same_store; [exact (old_aggregate_ok _ _ _ Ho)|done|exact Hw|].
    intros r a _. simpl. by rewrite Hother.
  - intros n H1. unfold pallet_state. cbn [rt_pallets rt_aggregate rt_crl].
    destruct (decide (n = SettlementTeePallet)) as [->|H2]; [apply empty_inv|].
    pose proof (λ l, old_pallets_ok _ _ _ Ho n l H1 H2) as H. destruct n; try done; apply H.
  - by apply (upgraded_deposits honk).
Qed.

(** With the keys of UltraHonk wrapped. *)
Lemma upgraded_sound honk extra o rt :
  old_sound honk extra o → sound_but_honk extra rt →
  ps_Vks (rt_pallets rt SettlementUltrahonkPallet) = wrap <$> honk →
  ps_Tickets (rt_pallets rt SettlementUltrahonkPallet) = ps_Tickets (old_pallets o SettlementUltrahonkPallet) →
  sound TA pallets extra rt.
Proof.
  intros Ho [Ha Hp Hd] Hk Ht. split; [done| |done]. intros n.
  destruct (decide (n = SettlementUltrahonkPallet)) as [->|Hn]; [|by apply Hp].
  unfold pallet_state. rewrite Hk, Ht. eapply wrapped_inv; [reflexivity|]. exact (old_honk_ok _ _ _ Ho).
Qed.
End upgrade.

(** ** Properties *)

(** C10: the migrations of the next release, run one after the other on a storage
    with the invariants of the versions before.  The TEE pallet is empty and each
    account has the deposits of its TEE keys back as free balance; the aggregation
    pallet and all verifier pallets but UltraHonk have their invariants, and the
    hold of an account for its keys is that of its tickets: the refunds took
    neither the deposit of a key of another pallet nor the reserve of a statement.
    An UltraHonk key the iterator came to once is there as a [Legacy] key with its
    count.  If it came to each exactly once, all pallets have their invariants,
    in the runtime that results and in every state it reaches from there.
    The other three loops do not change the maps they drain, and come to each key
    once. *)
Theorem upgrade_keeps_runtime_sound {L} `{!Hold RuntimeHoldReason string L, !HoldLaws RuntimeHoldReason string L}
    VK_SIZE VK_SIZE_V3_0 domain_visits honk_visits tee_visits ticket_visits
    X estimate checks root path TC base honk extra (o : old_runtime (L:=L)) :
  let TA := Runtime_aggregate estimate checks root path in
  let pallets := zkv_pallets X TC base in
  let rt := Unreleased VK_SIZE VK_SIZE_V3_0 domain_visits honk_visits tee_visits ticket_visits o in
  let keys := ps_Vks (rt_pallets rt SettlementUltrahonkPallet) in
  (∀ l n, 0 ≤ estimate l n) → (∀ a, 0 ≤ extra a) → old_sound VK_SIZE X TA TC base honk extra o →
  drains_complete domain_visits tee_visits ticket_visits o → Forall (λ h, is_Some (honk !! h)) honk_visits →
  ps_Vks (rt_pallets rt SettlementTeePallet) = ∅ ∧
  (∀ a, free (ledger rt) a = free (old_ledger o) a + old_deposited o a SettlementTeePallet) ∧
  sound_but_honk X TA TC base extra rt ∧
  (∀ h e, honk !! h = Some e → (keys !! h = Some (wrap e) ↔ times h honk_visits = 1%nat)) ∧
  (complete honk_visits honk →
     keys = wrap <$> honk ∧ ∀ rt', rtc (rt_step TA TC pallets) rt rt' → sound TA pallets extra rt').
Proof.
  intros TA pallets rt keys He Hx Ho Hc Hin. assert (HT : AggregateInv.config_ok TA) by by apply Runtime_aggregate_ok.
  destruct (unreleased_runs VK_SIZE VK_SIZE_V3_0 domain_visits honk_visits tee_visits ticket_visits X TA TC base honk extra o Hx Ho Hc)
    as (l' & E & Hw & H1 & H2 & H3).
  pose proof (upgraded_but_honk VK_SIZE VK_SIZE_V3_0 honk_visits X TA TC base honk extra o l' Ho Hw H1 H2) as Hb.
  rewrite <- E in Hb. assert (Ek : keys = read_vks VK_SIZE VK_SIZE_V3_0 (honk_raw VK_SIZE honk_visits honk)).
  { unfold keys, rt. by rewrite E. }
  pose proof (old_honk_sizes _ _ _ _ _ _ _ _ Ho) as Hd. split_and!.
  - unfold rt. by rewrite E.
  - unfold rt. by rewrite E.
  - exact Hb.
  - intros h e Hh. rewrite Ek. by apply read_each.
  - intros Hch. assert (Hk : keys = wrap <$> honk) by (rewrite Ek; by apply read_all). split; [done|].
    intros rt'. apply (sound_steps TA TC pallets HT (Runtime_aggregate_frame _ _ _ _)); [done|].
    apply (upgraded_sound VK_SIZE X TA TC base honk extra o); try done. unfold rt. by rewrite E.
Qed.

(** ** A chain to upgrade *)

Import HoldLedger.

(** A domain delivered through Hyperbridge. *)
Definition v3_of (d : Domain Z Z) : V3Domain (TD:=Z) (TA:=Z) := {|
  v3_id := dom_id d; v3_owner := owner d; v3_state := dom_state d; v3_next := next d;
  v3_max_aggregation_size := max_aggregation_size d; v3_should_publish := should_publish d;
  v3_publish_queue_size := publish_queue_size d; v3_ticket_domain := ticket_domain d;
  v3_ticket_allowlist := ticket_allowlist d; v3_aggregate_rules := aggregate_rules d; v3_proof_rules := proof_rules d;
  v3_delivery := {|
    v3_delivery_owner := delivery_owner (delivery d);
    v3_data := {|
      v3_destination := Hyperbridge {| destination_chain := Evm 1; destination_module := "module"; timeout := 10 |};
      v3_fee := fee (data (delivery d)); v3_owner_tip := owner_tip (data (delivery d)) |} |}
|}.

Lemma from_v3_of d : from_v3 (v3_of d) = d.
Proof. by destruct d as [???????????[?[[]??]]]. Qed.

(** Alice has a domain, Bob an UltraHonk key and a TEE key. *)
Definition old_balances : sample_L :=
  HLedger {[ "alice" := 10 ^ 23; "bob" := 10 ^ 18 ]} {[ (CommonVerifiers VkRegistration, "bob") := 12 ]}.

Definition old_alice : Aggregate.state sample_L Z Z :=
  (dispatch (Aggregate.run_call sample_TA (Signed "alice") (Call_register_domain 2 (Some 1) AggUntrusted ProofUntrusted
     {| destination := NoDestination; fee := 10 ^ 16; owner_tip := 10 ^ 15 |} None))
     (Aggregate.State 0 ∅ ∅ [] [] old_balances)).1.

Definition old_keys : gmap string OldVkEntry :=
  {[ sha2 toy_libs "abc" := {| old_vk := "abc"; old_ref_count := 1 |} ]}.

Definition old_stores (n : VerifierPallet) : pallet_store (VkT n) :=
  match n with
  | SettlementUltrahonkPallet => PalletStore _ None ∅ {[ ("bob", sha2 toy_libs "abc") := 5 ]} []
  | SettlementTeePallet => PalletStore _ None ∅ {[ ("bob", "h") := 7 ]} []
  | n => empty_store n
  end.

Definition sample_old : old_runtime (L:=sample_L) :=
  OldRuntime old_alice (v3_of <$> Domains old_alice) (Crl.State ∅ ∅ [] 1) (encode_old <$> old_keys)
    {[ "h" := {| old_tee_vk := {| old_tcb_response := "a"; old_certificates := "b" |}; old_tee_count := 1 |} ]} old_stores.

Lemma old_ledger_wf : hold_wf (R:=RuntimeHoldReason) (Acc:=string) old_balances.
Proof. by apply map_Forall_singleton. Qed.

Lemma old_alice_inv : AggregateInv.inv sample_TA old_alice.
Proof.
  apply agg_reachable_inv; [exact sample_TA_ok|]. eapply AggregateProps.reach_step.
  - apply (AggregateProps.reach_init sample_TA old_balances). exact old_ledger_wf.
  - apply AggregateProps.step_call. simpl. unfold u32_max. split_and!; try lia. by intros x [= <-].
Qed.

Lemma old_alice_held a : held (old_ledger sample_old) (CommonVerifiers VkRegistration) a = at_key "bob" 12 a.
Proof.
  unfold at_key. case_decide as Hb; [subst; vm_compute; reflexivity|]. 
  transitivity (held old_balances (CommonVerifiers VkRegistration) a).
  - apply (frames_dispatch same_vk_holds), run_call_frames; [apply _|apply Runtime_aggregate_frame].
  - cbn. unfold hl_get_held, old_balances, HLedger. cbn [hl_held]. by rewrite lookup_singleton_ne by congruence.
Qed.

Lemma sample_old_sound : old_sound 3 toy_libs sample_TA sample_crl_config toy_base old_keys (λ _, 0) sample_old.
Proof.
  split.
  - replace (Aggregate.set_Domains _ _) with old_alice; [exact old_alice_inv|].
    cbn [old_domains old_aggregate sample_old]. rewrite <- map_fmap_compose. rewrite (map_fmap_ext _ id), map_fmap_id by (intros; apply from_v3_of).
    by generalize old_alice; intros [].
  - done.
  - by apply map_Forall_singleton.
  - intros h. unfold old_keys. destruct (decide (h = sha2 toy_libs "abc")) as [->|Hne]; [vm_compute; done|].
    rewrite lookup_singleton_ne by done. intros a. simpl. by rewrite lookup_singleton_ne by congruence.
  - intros n l H1 H2. destruct n; try done; apply empty_inv.
  - intros []; try apply map_Forall_empty; by apply map_Forall_singleton.
  - intros a. rewrite old_alice_held. unfold old_deposits, old_deposited. simpl. rewrite !map_to_list_empty, !map_to_list_singleton.
    unfold owed, at_key. simpl. case_decide; done.
Qed.

Lemma sample_drains : drains_complete [0] ["h"] [("bob", "h")] sample_old.
Proof. split; apply (bool_decide_unpack _); vm_compute; exact Logic.I. Qed.

Lemma upgrade_keeps_runtime_sound_witness :
  let rt := Unreleased 3 4 [0] [sha2 toy_libs "abc"] ["h"] [("bob", "h")] sample_old in
  free (ledger rt) "bob" = 10 ^ 18 + 7 ∧
  sound sample_TA (zkv_pallets toy_libs sample_crl_config toy_base) (λ _, 0) rt.
Proof.
  intros rt. destruct (upgrade_keeps_runtime_sound 3 4 [0] [sha2 toy_libs "abc"] ["h"] [("bob", "h")] toy_libs
    (λ _ _, 10 ^ 17) true (λ l, "0x" +:+ tree_root sample_keccak64 l)
    (λ l i, statement_path sample_keccak64 l (Z.to_nat i))
    sample_crl_config toy_base old_keys (λ _, 0) sample_old) as (_ & H2 & _ & _ & H4);
    [done|done|exact sample_old_sound|exact sample_drains|repeat constructor; by eexists|].
  split; [etransitivity; [exact (H2 "bob")|vm_compute; reflexivity]|].
  refine (proj2 (H4 _) _ (rtc_refl _ _)). apply (bool_decide_unpack _). vm_compute. exact Logic.I.
Defined.
